(** * fastuidraw: the filled-path core ([src/fastuidraw/painter/filled_path.cpp])

    A shallow embedding of the parts of [filled_path.cpp] that decide the
    layout of the baked index data, the collapse of degenerate contours,
    the acceptance and sub-division of triangles, the chunk numbering,
    the selection and lazy baking of the subset hierarchy, and the
    boundary flag written by [DataWriter].

    Conventions.
    - A C++ [int] is a [Z] in [[-2^31, 2^31)]; arithmetic on it is written
      with [wrap_int] (two's complement wrap-around). An [unsigned int] is
      a [Z] in [[0, 2^32)], with [wrap_uint].  C++ [%] and [/] on [int]
      truncate towards zero: [Z.rem] and [Z.quot].
    - A C++ [float] is an IEEE-754 binary32 number, a [spec_float] with
      precision 24 and maximal exponent 128; a [double] is binary64.
    - [std::vector], [std::list]: [list]; [std::map<int, _>], which is
      iterated in increasing key order: a [gmap] together with its keys
      in increasing order; [std::set<int>]: a [gset Z].
    - The size of a container and a position in it are unbounded
      integers: they are not wrapped, a container of 2^32 elements being
      out of reach. A read outside a vector, which the source only
      guards by assertions, yields a default value ([at_]).
    - The sweep-line tessellator (GLU-tess), [PainterAttributeData] and
      the clipping of a box against planes lie outside this file of the
      library: the tessellator is a function from the contours fed to it
      to the sequence of callbacks it makes, the two others are
      parameters of the sections that use them. *)

From Stdlib Require Import ZArith Lia Bool List.
From Stdlib Require Import Floats.SpecFloat.
From stdpp Require Import base option list gmap sorting.
From Equations Require Import Equations.

Local Open Scope Z_scope.

(** ** Machine integers *)

Module Int.

Definition int_min : Z := - 2 ^ 31.
Definition int_max : Z := 2 ^ 31 - 1.
Definition uint_max : Z := 2 ^ 32 - 1.

Definition is_int (z : Z) : Prop := int_min <= z <= int_max.
Definition is_uint (z : Z) : Prop := 0 <= z <= uint_max.

(** Two's complement wrap-around of a signed 32-bit result. *)
Definition wrap_int (z : Z) : Z := (z + 2 ^ 31) mod 2 ^ 32 - 2 ^ 31.

(** Wrap-around of an unsigned 32-bit result; also the conversion of an
    [int] to [unsigned int]. *)
Definition wrap_uint (z : Z) : Z := z mod 2 ^ 32.

(** [fastuidraw::t_abs<int>] and [std::abs(int)]: [(a < 0) ? -a : a]. *)
Definition t_abs (a : Z) : Z := if a <? 0 then wrap_int (- a) else a.

Definition t_max (a b : Z) : Z := if a <? b then b else a.
Definition t_min (a b : Z) : Z := if a <? b then a else b.

End Int.
Import Int.

(** ** The standard fill rules (lines 174-196) *)

Definition fcn_non_zero_fill_rule (w : Z) : bool := negb (w =? 0).

Definition fcn_complelemt_non_zero_fill_rule (w : Z) : bool := w =? 0.

Definition fcn_odd_even_fill_rule (w : Z) : bool := Z.rem (t_abs w) 2 =? 1.

Definition fcn_complement_odd_even_fill_rule (w : Z) : bool := Z.rem w 2 =? 0.

Definition is_even (v : Z) : bool := Z.rem v 2 =? 0.

(** ** Chunk numbering (lines 2906-2932) *)

Module PainterEnums.

(** The enumeration [PainterEnums::fill_rule_t] is declared in a header
    that is not among the sources. What the sources fix of it:
    - its four enumerators label the cases of one [switch] (lines
      3116-3126), so they are pairwise distinct, and each is used as a
      position of [index_chunks] (lines 2304-2307), so none is negative;
    - [chunk_from_fill_rule] (line 2930) asserts a fill rule to be below
      [fill_rule_data_count], and [chunk_from_winding_number] starts to
      count the chunks of the winding numbers there (lines 2911, 2923);
    - [AttributeDataFiller::fill_data] (lines 2304-2307) stores a chunk at
      each of the four enumerators, in an array to which
      [AttributeDataFiller::compute_sizes] (lines 2259-2263) gives
      [1 + chunk_from_winding_number(0)], that is
      [1 + complement_nonzero_fill_rule], elements when 0 is the only
      winding number of the filler: [complement_nonzero_fill_rule] is
      the largest of the four.
    Four distinct enumerators below a count of 4 are the chunks 0..3
    that the specification reserves, and the largest of them is 3. *)
Definition complement_nonzero_fill_rule : Z := 3.

(** Modelled from the spec: [fill_rule_data_count], declared in the same
    header, is the number of standard fill rules, which have the chunks
    0..3; the chunks of the winding numbers start at 4. *)
Definition fill_rule_data_count : Z := 4.

(** Modelled from the spec: the three other enumerators, declared in the
    same header. The specification lists the rules in the order nonzero,
    odd-even, complement-nonzero, complement-odd-even; the sources move the
    complement of the non-zero rule to the end and say nothing of the
    order of the three others, which keep the order of that list. Only
    [fill_data] reads them, to store one chunk at each. *)
Definition nonzero_fill_rule : Z := 0.
Definition odd_even_fill_rule : Z := 1.
Definition complement_odd_even_fill_rule : Z := 2.

End PainterEnums.

(** [FilledPath::Subset::chunk_from_winding_number]. The arithmetic of the
    return expression is [int] arithmetic, converted to [unsigned int] on
    return. *)
Definition chunk_from_winding_number (winding_number : Z) : Z :=
  if winding_number =? 0 then PainterEnums.complement_nonzero_fill_rule
  else
    let value := t_abs winding_number in
    let sg := if winding_number <? 0 then 1 else 0 in
    wrap_uint
      (wrap_int (wrap_int (PainterEnums.fill_rule_data_count + sg)
                 + wrap_int (2 * wrap_int (value - 1)))).

(** The chunk named by the specification for an isolated winding number. *)
Definition chunk_formula (w : Z) : Z :=
  4 + 2 * (Z.abs w - 1) + (if w <? 0 then 1 else 0).

(** ** Floating point

    [float] and [double] arithmetic is IEEE-754 arithmetic rounded to
    nearest even, as computed by the operations of [SpecFloat]. *)

Module F32.

Definition prec : Z := 24.
Definition emax : Z := 128.

Definition add : spec_float -> spec_float -> spec_float := SFadd prec emax.
Definition sub : spec_float -> spec_float -> spec_float := SFsub prec emax.
Definition mul : spec_float -> spec_float -> spec_float := SFmul prec emax.
Definition div : spec_float -> spec_float -> spec_float := SFdiv prec emax.

(** [a == b], [a < b], [a <= b], [a > b], [a >= b], [a != b]; every
    comparison with a NaN is false, except [!=]. *)
Definition eqb (a b : spec_float) : bool := SFeqb a b.
Definition ltb (a b : spec_float) : bool := SFltb a b.
Definition leb (a b : spec_float) : bool := SFleb a b.
Definition gtb (a b : spec_float) : bool := SFltb b a.
Definition geb (a b : spec_float) : bool := SFleb b a.
Definition neqb (a b : spec_float) : bool := negb (SFeqb a b).

(** [fastuidraw::t_abs<float>]: [(a < 0) ? -a : a]. *)
Definition t_abs (a : spec_float) : spec_float :=
  if ltb a (S754_zero false) then SFopp a else a.

(** The [float] nearest to [m * 2^e]. *)
Definition of_scaled (m e : Z) : spec_float := binary_normalize prec emax m e false.
Definition of_Z (n : Z) : spec_float := of_scaled n 0.

Definition zero : spec_float := S754_zero false.
Definition half : spec_float := of_scaled 1 (-1).
Definition one : spec_float := of_Z 1.
Definition three : spec_float := of_Z 3.
Definition four : spec_float := of_Z 4.

(** Rounding of a [double] to [float]. *)
Definition of_double (d : spec_float) : spec_float :=
  match d with
  | S754_finite s m e => binary_normalize prec emax (cond_Zopp s (Zpos m)) e s
  | _ => d
  end.

(** [static_cast<int>(f)]: truncation towards zero. A value that does not
    fit an [int] (or a NaN) has no defined conversion in C++; it is given
    the value the x86 conversion instruction produces, [INT_MIN]. *)
Definition to_int (f : spec_float) : Z :=
  match f with
  | S754_zero _ => 0
  | S754_finite s m e =>
      let t := cond_Zopp s (if 0 <=? e then Zpos m * 2 ^ e
                            else Z.quot (Zpos m) (2 ^ (- e))) in
      if (int_min <=? t) && (t <=? int_max) then t else int_min
  | _ => int_min
  end.

(** [pack_float]: the bit pattern of a [float] as an [unsigned int]. The
    helper is declared in a header that is not among the sources. *)
Definition pack_float (f : spec_float) : Z :=
  match f with
  | S754_zero s => if s then 2 ^ 31 else 0
  | S754_infinity s => (if s then 2 ^ 31 else 0) + 255 * 2 ^ 23
  | S754_nan => 255 * 2 ^ 23 + 2 ^ 22
  | S754_finite s m e =>
      (if s then 2 ^ 31 else 0)
      + (if Zpos (digits2_pos m) =? prec
         then (e + 150) * 2 ^ 23 + (Zpos m - 2 ^ 23)
         else Zpos m)
  end.

End F32.

Module F64.

Definition prec : Z := 53.
Definition emax : Z := 1024.

Definition add : spec_float -> spec_float -> spec_float := SFadd prec emax.
Definition sub : spec_float -> spec_float -> spec_float := SFsub prec emax.
Definition mul : spec_float -> spec_float -> spec_float := SFmul prec emax.
Definition div : spec_float -> spec_float -> spec_float := SFdiv prec emax.

Definition of_scaled (m e : Z) : spec_float := binary_normalize prec emax m e false.
Definition of_Z (n : Z) : spec_float := of_scaled n 0.
Definition one : spec_float := of_Z 1.

(** Conversion of a [float] to [double], which is exact. *)
Definition of_float (f : spec_float) : spec_float :=
  match f with
  | S754_finite s m e => binary_normalize prec emax (cond_Zopp s (Zpos m)) e s
  | _ => f
  end.

End F64.

(** ** Vectors and boxes *)

(** [fastuidraw::vec2] and [fastuidraw::vecN<double, 2>]. *)
Record vec2 := mk_vec2 { vx : spec_float; vy : spec_float }.

(** [fastuidraw::ivec2]. *)
Definition ivec2 : Type := Z * Z.

(** [v[i]] for [i] in [{0, 1}]. *)
Definition coord (v : vec2) (i : Z) : spec_float := if i =? 0 then vx v else vy v.

(** [v[i] = a]. *)
Definition set_coord (v : vec2) (i : Z) (a : spec_float) : vec2 :=
  if i =? 0 then mk_vec2 a (vy v) else mk_vec2 (vx v) a.

Definition vec2_add (a b : vec2) : vec2 :=
  mk_vec2 (F32.add (vx a) (vx b)) (F32.add (vy a) (vy b)).
Definition vec2_sub (a b : vec2) : vec2 :=
  mk_vec2 (F32.sub (vx a) (vx b)) (F32.sub (vy a) (vy b)).
Definition vec2_mul (a b : vec2) : vec2 :=
  mk_vec2 (F32.mul (vx a) (vx b)) (F32.mul (vy a) (vy b)).
(** [s * v] and [v / s] for a scalar [s]. *)
Definition vec2_scale (s : spec_float) (v : vec2) : vec2 :=
  mk_vec2 (F32.mul s (vx v)) (F32.mul s (vy v)).
Definition vec2_div (v : vec2) (s : spec_float) : vec2 :=
  mk_vec2 (F32.div (vx v) s) (F32.div (vy v) s).
(** [a == b] on vectors: every coordinate compares equal. *)
Definition vec2_eqb (a b : vec2) : bool :=
  F32.eqb (vx a) (vx b) && F32.eqb (vy a) (vy b).

Definition dvec2_sub (a b : vec2) : vec2 :=
  mk_vec2 (F64.sub (vx a) (vx b)) (F64.sub (vy a) (vy b)).
Definition dvec2_mul (a b : vec2) : vec2 :=
  mk_vec2 (F64.mul (vx a) (vx b)) (F64.mul (vy a) (vy b)).
Definition dvec2_div (a b : vec2) : vec2 :=
  mk_vec2 (F64.div (vx a) (vx b)) (F64.div (vy a) (vy b)).
Definition dvec2_of_vec2 (a : vec2) : vec2 :=
  mk_vec2 (F64.of_float (vx a)) (F64.of_float (vy a)).
Definition vec2_of_dvec2 (a : vec2) : vec2 :=
  mk_vec2 (F32.of_double (vx a)) (F32.of_double (vy a)).

(** [fastuidraw::BoundingBox], as far as this file uses it: the two
    corners given to its constructor. The class is declared in a header
    that is not among the sources. *)
Record BoundingBox := mk_BoundingBox { min_point : vec2; max_point : vec2 }.

(** ** Constants (lines 77-170) *)

Module SubsetConstants.
Definition recursion_depth : Z := 12.
Definition points_per_subset : Z := 64.
Definition size_max_ratio : spec_float := F32.four.
End SubsetConstants.

Module PointHoardConstants.
Definition enable_guiding_boxes : bool := false.
End PointHoardConstants.

Module CoordinateConverterConstants.
Definition log2_box_dim : Z := 22.
Definition negative_log2_fudge : Z := 20.
Definition box_dim : Z := Z.shiftl 1 log2_box_dim.
End CoordinateConverterConstants.

(** ** Corners of a box (lines 308-330) *)

Definition box_max_x_flag : Z := 1.
Definition box_max_y_flag : Z := 2.
Definition box_min_x_min_y : Z := Z.lor 0 0.
Definition box_min_x_max_y : Z := Z.lor 0 box_max_y_flag.
Definition box_max_x_max_y : Z := Z.lor box_max_x_flag box_max_y_flag.
Definition box_max_x_min_y : Z := box_max_x_flag.

(** [box_next_neighbor] reads a table of four entries; the source asserts
    [v <= 3], and a read beyond the table is not defined: the last branch
    stands for it. *)
Definition box_next_neighbor (v : Z) : Z :=
  match v with
  | 0 => box_min_x_max_y
  | 1 => box_min_x_min_y
  | 2 => box_max_x_max_y
  | 3 => box_max_x_min_y
  | _ => v
  end.

(** ** The input path

    [fastuidraw::TessellatedPath], as far as [SubPath] reads it: the
    point positions, for every contour the index ranges of its edges, and
    the bounding box. *)
Record TessellatedPath := mk_TessellatedPath {
  point_data : list vec2;
  edge_ranges : list (list (Z * Z));
  bounding_box_min : vec2;
  bounding_box_max : vec2
}.

(** Reading a [std::vector] at a position; a position outside the vector
    is never read by the source on the inputs the theorems consider, and
    yields the default element here. *)
Definition at_ {A : Type} `{Inhabited A} (l : list A) (i : Z) : A :=
  if i <? 0 then inhabitant else l !!! Z.to_nat i.

#[global] Instance spec_float_inhabited : Inhabited spec_float := populate (S754_zero false).
#[global] Instance vec2_inhabited : Inhabited vec2 :=
  populate (mk_vec2 (S754_zero false) (S754_zero false)).

(** The integers [a, a+1, ..., b-1]. *)
Definition zrange (a b : Z) : list Z :=
  map (fun k => a + Z.of_nat k) (seq 0 (Z.to_nat (b - a))).

(** ** SubPath (lines 332-460, 1031-1398) *)

Module SubPath.

Inductive on_boundary_t := on_min_boundary | on_max_boundary | not_on_boundary.

#[global] Instance on_boundary_t_eq_dec : EqDecision on_boundary_t.
Proof. solve_decision. Defined.

Record SubContourPoint := mk_SubContourPoint {
  m_pt : vec2;
  m_start_tessellated_edge : bool;
  m_boundary_type : on_boundary_t * on_boundary_t;
  m_corner_point_type : Z
}.

(** [m_boundary_type[i]] and [m_boundary_type[i] = t]. *)
Definition boundary_type (b : on_boundary_t * on_boundary_t) (i : Z) : on_boundary_t :=
  if i =? 0 then fst b else snd b.
Definition set_boundary_type (b : on_boundary_t * on_boundary_t) (i : Z)
    (t : on_boundary_t) : on_boundary_t * on_boundary_t :=
  if i =? 0 then (t, snd b) else (fst b, t).

(** [SubContourPoint(p, start)]. *)
Definition new_point (p : vec2) (start : bool) : SubContourPoint :=
  mk_SubContourPoint p start (not_on_boundary, not_on_boundary) 4.

Definition is_corner_bt (b : on_boundary_t * on_boundary_t) : bool :=
  bool_decide (fst b <> not_on_boundary) && bool_decide (snd b <> not_on_boundary).

Definition is_corner_point (p : SubContourPoint) : bool :=
  is_corner_bt (m_boundary_type p).

Definition corner_point_type (p : SubContourPoint) : Z := m_corner_point_type p.

(** [SubContourPoint(a, b, pt, split_coordinate, tp)]: a point made where
    the edge from [a] to [b] crosses the splitting line. The constructor
    assigns both entries of [m_boundary_type] ([split_coordinate] is 0 or
    1), so the value [bt0] they start from is immaterial. *)
Definition new_split_point (a b : SubContourPoint) (pt : vec2)
    (split_coordinate : Z) (tp : on_boundary_t) : SubContourPoint :=
  let unsplit_coordinate := 1 - split_coordinate in
  let bt0 := (on_min_boundary, on_min_boundary) in
  let bt1 :=
    if bool_decide (boundary_type (m_boundary_type a) unsplit_coordinate
                    = boundary_type (m_boundary_type b) unsplit_coordinate)
    then set_boundary_type bt0 unsplit_coordinate
           (boundary_type (m_boundary_type a) unsplit_coordinate)
    else set_boundary_type bt0 unsplit_coordinate not_on_boundary in
  let bt := set_boundary_type bt1 split_coordinate tp in
  let corner :=
    if is_corner_bt bt then
      let c0 := 0 in
      let c1 := if bool_decide (fst bt = on_max_boundary)
                then Z.lor c0 box_max_x_flag else c0 in
      if bool_decide (snd bt = on_max_boundary)
      then Z.lor c1 box_max_y_flag else c1
    else 4 in
  mk_SubContourPoint pt true bt corner.

Definition SubContour : Type := list SubContourPoint.

Record t := mk {
  m_total_points : Z;
  m_bounds : BoundingBox;
  m_contours : list SubContour;
  m_winding_start : Z
}.

Definition total_points (P : t) : Z := m_total_points P.
Definition winding_start (P : t) : Z := m_winding_start P.

(** [SubPath(bb, contours, winding_start)]. *)
Definition of_contours (bb : BoundingBox) (contours : list SubContour)
    (winding_start : Z) : t :=
  mk (fold_left (fun n c => n + Z.of_nat (length c)) contours 0)
     bb contours winding_start.

(** [copy_contour]: of every edge, its first point (marked as the start of
    a tessellated edge) and its interior points; the last point of an
    edge is the first point of the next one. *)
Definition copy_contour (src : TessellatedPath) (C : list (Z * Z)) : SubContour :=
  flat_map (fun R : Z * Z =>
              let (R_begin, R_end) := R in
              new_point (at_ (point_data src) R_begin) true
              :: map (fun v => new_point (at_ (point_data src) v) false)
                     (zrange (R_begin + 1) (R_end - 1)))
           C.

(** [SubPath(P)]. *)
Definition of_tessellated_path (P : TessellatedPath) : t :=
  let contours := map (copy_contour P) (edge_ranges P) in
  mk (fold_left (fun n c => n + Z.of_nat (length c)) contours 0)
     (mk_BoundingBox (bounding_box_min P) (bounding_box_max P))
     contours 0.

(** A loop over a contour that remembers the previous point, starting from
    [prev]: [for(iter ...) { s = f(s, prev, *iter); prev = *iter; }]. *)
Fixpoint fold_prev {A S : Type} (f : S -> A -> A -> S) (s : S) (prev : A)
    (l : list A) : S :=
  match l with
  | [] => s
  | x :: r => fold_prev f (f s prev x) x r
  end.

#[global] Instance SubContourPoint_inhabited : Inhabited SubContourPoint :=
  populate (new_point inhabitant false).

(** [C.back()]. *)
Definition back (C : SubContour) : SubContourPoint := List.last C inhabitant.

(** The body of the loop over [i] in [choose_splitting_coordinate], for
    one coordinate: the increments of [number_points_before[i]] and
    [number_points_after[i]]. *)
Definition count_coordinate (mid_pt : vec2) (i : Z) (prev_pt pt : vec2) : Z * Z :=
  let prev_b := F32.ltb (coord prev_pt i) (coord mid_pt i) in
  let b := F32.ltb (coord pt i) (coord mid_pt i) in
  let before0 := if b || F32.eqb (coord pt i) (coord mid_pt i) then 1 else 0 in
  let after0 := if negb b || F32.eqb (coord pt i) (coord mid_pt i) then 1 else 0 in
  if F32.neqb (coord prev_pt i) (coord mid_pt i) && negb (eqb prev_b b)
  then (before0 + 1, after0 + 1)
  else (before0, after0).

(** [number_points_before] and [number_points_after], each an [ivec2]. *)
Definition point_counts : Type := (Z * Z) * (Z * Z).

Definition count_point (mid_pt : vec2) (s : point_counts)
    (prev_pt pt : SubContourPoint) : point_counts :=
  let '((bx, by_), (ax, ay)) := s in
  let '(dbx, dax) := count_coordinate mid_pt 0 (m_pt prev_pt) (m_pt pt) in
  let '(dby, day) := count_coordinate mid_pt 1 (m_pt prev_pt) (m_pt pt) in
  ((bx + dbx, by_ + dby), (ax + dax, ay + day)).

Definition choose_splitting_coordinate (P : t) (mid_pt : vec2) : Z :=
  let wh := vec2_sub (max_point (m_bounds P)) (min_point (m_bounds P)) in
  if F32.gtb SubsetConstants.size_max_ratio F32.zero
     && F32.geb (vx wh) (F32.mul SubsetConstants.size_max_ratio (vy wh))
  then 0
  else if F32.gtb SubsetConstants.size_max_ratio F32.zero
          && F32.geb (vy wh) (F32.mul SubsetConstants.size_max_ratio (vx wh))
  then 1
  else
    let '((bx, by_), (ax, ay)) :=
      fold_left (fun s C => fold_prev (count_point mid_pt) s (back C) C)
                (m_contours P) ((0, 0), (0, 0)) in
    if bx + ax <? by_ + ay then 0 else 1.

Definition compute_spit_point (a b : vec2) (splitting_coordinate : Z)
    (splitting_value : spec_float) : vec2 :=
  let n := F32.sub splitting_value (coord a splitting_coordinate) in
  let d := F32.sub (coord b splitting_coordinate) (coord a splitting_coordinate) in
  let t := F32.div n d in
  let aa := coord a (1 - splitting_coordinate) in
  let bb := coord b (1 - splitting_coordinate) in
  let r := set_coord inhabitant splitting_coordinate splitting_value in
  set_coord r (1 - splitting_coordinate)
            (F32.add (F32.mul (F32.sub F32.one t) aa) (F32.mul t bb)).

(** The walk of [post_process_sub_contour] along the contour. [None]: the
    loop left the function with [return 0]; [Some (forwards, backwards)]:
    the loop ran to its end with these counters. *)
Fixpoint corner_walk (C : SubContour) (prev_corner_type : Z)
    (forwards_counter backwards_counter : Z) : option (Z * Z) :=
  match C with
  | [] => Some (forwards_counter, backwards_counter)
  | p :: rest =>
      if negb (is_corner_point p) then None
      else
        let corner_type := corner_point_type p in
        if corner_type =? box_next_neighbor prev_corner_type
        then corner_walk rest corner_type (forwards_counter + 1) backwards_counter
        else if prev_corner_type =? box_next_neighbor corner_type
        then corner_walk rest corner_type forwards_counter (backwards_counter + 1)
        else None
  end.

(** [post_process_sub_contour(C)]: the value returned and the contour [C]
    as the call leaves it. *)
Definition post_process_sub_contour (C : SubContour) : Z * SubContour :=
  if bool_decide (C = []) || negb (is_corner_point (back C)) then (0, C)
  else
    match corner_walk C (corner_point_type (back C)) 0 0 with
    | None => (0, C)
    | Some (forwards_counter, backwards_counter) =>
        let counter := backwards_counter - forwards_counter in
        if Z.rem counter 4 =? 0 then (Z.quot counter 4, []) else (0, C)
    end.

(** The body of the loop of [split_contour]. *)
Definition split_step (splitting_coordinate : Z) (splitting_value : spec_float)
    (s : SubContour * SubContour) (prev_pt pt : SubContourPoint)
    : SubContour * SubContour :=
  let '(C0, C1) := s in
  let prev_b0 := F32.leb (coord (m_pt prev_pt) splitting_coordinate) splitting_value in
  let b0 := F32.leb (coord (m_pt pt) splitting_coordinate) splitting_value in
  let prev_b1 := F32.geb (coord (m_pt prev_pt) splitting_coordinate) splitting_value in
  let b1 := F32.geb (coord (m_pt pt) splitting_coordinate) splitting_value in
  let split_pt := compute_spit_point (m_pt prev_pt) (m_pt pt)
                    splitting_coordinate splitting_value in
  let C0 := if negb (eqb prev_b0 b0)
            then C0 ++ [new_split_point prev_pt pt split_pt splitting_coordinate
                          on_max_boundary]
            else C0 in
  let C0 := if b0 then C0 ++ [pt] else C0 in
  let C1 := if negb (eqb prev_b1 b1)
            then C1 ++ [new_split_point prev_pt pt split_pt splitting_coordinate
                          on_min_boundary]
            else C1 in
  let C1 := if b1 then C1 ++ [pt] else C1 in
  (C0, C1).

Definition split_contour (src : SubContour) (splitting_coordinate : Z)
    (splitting_value : spec_float) (C0 C1 : SubContour)
    (C0_winding_start C1_winding_start : Z)
    : (SubContour * SubContour) * (Z * Z) :=
  let '(C0, C1) :=
    fold_prev (split_step splitting_coordinate splitting_value) (C0, C1)
              (back src) src in
  let '(r0, C0) := post_process_sub_contour C0 in
  let '(r1, C1) := post_process_sub_contour C1 in
  ((C0, C1), (wrap_int (C0_winding_start + r0), wrap_int (C1_winding_start + r1))).

(** The body of the loop over the contours in [split]: a new contour is
    pushed on each side, filled by [split_contour], and popped again when
    it is empty. *)
Definition split_one (splitting_coordinate : Z) (splitting_value : spec_float)
    (s : (list SubContour * list SubContour) * (Z * Z)) (c : SubContour)
    : (list SubContour * list SubContour) * (Z * Z) :=
  let '((C0, C1), (C0_winding_start, C1_winding_start)) := s in
  let '((c0, c1), ws) :=
    split_contour c splitting_coordinate splitting_value [] []
                  C0_winding_start C1_winding_start in
  ((if bool_decide (c0 = []) then C0 else C0 ++ [c0],
    if bool_decide (c1 = []) then C1 else C1 ++ [c1]), ws).

Definition split (P : t) : t * t :=
  let mid_pt := vec2_scale F32.half
                  (vec2_add (max_point (m_bounds P)) (min_point (m_bounds P))) in
  let splitting_coordinate := choose_splitting_coordinate P mid_pt in
  let B0_max :=
    set_coord (set_coord inhabitant (1 - splitting_coordinate)
                 (coord (max_point (m_bounds P)) (1 - splitting_coordinate)))
              splitting_coordinate (coord mid_pt splitting_coordinate) in
  let B1_min :=
    set_coord (set_coord inhabitant (1 - splitting_coordinate)
                 (coord (min_point (m_bounds P)) (1 - splitting_coordinate)))
              splitting_coordinate (coord mid_pt splitting_coordinate) in
  let B0 := mk_BoundingBox (min_point (m_bounds P)) B0_max in
  let B1 := mk_BoundingBox B1_min (max_point (m_bounds P)) in
  let '((C0, C1), (C0_winding_start, C1_winding_start)) :=
    fold_left (split_one splitting_coordinate (coord mid_pt splitting_coordinate))
              (m_contours P) (([], []), (0, 0)) in
  (of_contours B0 C0 (wrap_int (C0_winding_start + m_winding_start P)),
   of_contours B1 C1 (wrap_int (C1_winding_start + m_winding_start P))).

End SubPath.

(** ** WindingSet (lines 462-507, 2346-2409) *)

Module WindingSet.

(** [m_bits] is a [boost::dynamic_bitset<>]. *)
Record t := mk { m_bits : list bool; m_begin : Z; m_end : Z }.

(** [WindingSet()]. *)
Definition empty : t := mk [] 0 0.

Definition clear (s : t) : t := mk [] 0 0.

(** [m_bits.resize(n, false)], [m_bits.set(pos, val)], [m_bits.test(pos)].
    The bitset asserts [pos < size()]; here a write beyond the end leaves
    the bits unchanged and a read beyond the end yields [false]. *)
Definition resize (n : Z) (bits : list bool) : list bool :=
  take (Z.to_nat n) bits ++ replicate (Z.to_nat n - length bits)%nat false.
Definition set (pos : Z) (val : bool) (bits : list bool) : list bool :=
  if pos <? 0 then bits else <[Z.to_nat pos := val]> bits.
Definition test (bits : list bool) (pos : Z) : bool :=
  if pos <? 0 then false else default false (bits !! Z.to_nat pos).

(** [extract_from_fill_fule(min_value, max_value, fill_rule, flip)]. *)
Definition extract_from_fill_fule (s : t) (min_value max_value : Z)
    (fill_rule : Z -> bool) (flip : bool) : t :=
  let begin_ := min_value in
  let end_ := wrap_int (max_value + 1) in
  let bits := resize (end_ - begin_) (m_bits s) in
  mk (fold_left (fun bits w => set (w - begin_) (negb (eqb (fill_rule w) flip)) bits)
                (zrange begin_ end_) bits)
     begin_ end_.

(** [*in_values.begin()] and [*in_values.rbegin()] of a non-empty
    [std::set<int>]: its least and its greatest element. *)
Definition set_first (in_values : gset Z) : Z :=
  match elements in_values with
  | [] => 0
  | x :: l => fold_right Z.min x l
  end.
Definition set_last (in_values : gset Z) : Z :=
  match elements in_values with
  | [] => 0
  | x :: l => fold_right Z.max x l
  end.

(** [extract_from_set(in_values)]; the set is walked in increasing order. *)
Definition extract_from_set (s : t) (in_values : gset Z) : t :=
  if bool_decide (in_values = ∅) then mk [] 0 0
  else
    let begin_ := set_first in_values in
    let end_ := wrap_int (set_last in_values + 1) in
    let bits := resize (end_ - begin_) [] in
    mk (fold_left (fun bits w => set (w - begin_) true bits)
                  (merge_sort Z.le (elements in_values)) bits)
       begin_ end_.

(** [have_common_bit(obj)]: the loop returns [true] at the first [w] in
    the common range whose bit is set in both. *)
Definition have_common_bit (s obj : t) : bool :=
  existsb (fun w => test (m_bits s) (w - m_begin s)
                    && test (m_bits obj) (w - m_begin obj))
          (zrange (t_max (m_begin s) (m_begin obj)) (t_min (m_end s) (m_end obj))).

Definition has (s : t) (w : Z) : bool :=
  if (m_begin s <=? w) && (w <? m_end s) then test (m_bits s) (w - m_begin s)
  else false.

End WindingSet.

(** ** Attributes *)

(** [fastuidraw::uvec4]. *)
Record uvec4 := mk_uvec4 { ux : Z; uy : Z; uz : Z; uw : Z }.

(** [fastuidraw::PainterAttribute]. *)
Record PainterAttribute := mk_PainterAttribute {
  m_attrib0 : uvec4;
  m_attrib1 : uvec4;
  m_attrib2 : uvec4
}.

#[global] Instance PainterAttribute_inhabited : Inhabited PainterAttribute :=
  populate (mk_PainterAttribute (mk_uvec4 0 0 0 0) (mk_uvec4 0 0 0 0) (mk_uvec4 0 0 0 0)).
#[global] Instance WindingSet_inhabited : Inhabited WindingSet.t :=
  populate WindingSet.empty.

(** [fastuidraw::pack_vec4]: the four floats, each packed. *)
Definition pack_vec4 (x y z w : spec_float) : uvec4 :=
  mk_uvec4 (F32.pack_float x) (F32.pack_float y) (F32.pack_float z) (F32.pack_float w).

(** ** FillPoint and the per-winding index lists (lines 198-244, 509-514) *)

Record FillPoint := mk_FillPoint { m_pt : vec2; m_winding : gset Z }.

#[global] Instance FillPoint_inhabited : Inhabited FillPoint :=
  populate (mk_FillPoint inhabitant ∅).

Module per_winding_data.

Record t := mk { m_indices : list Z; m_count : Z; m_winding_number : Z }.

(** [per_winding_data(pwinding_number)]. *)
Definition new (pwinding_number : Z) : t := mk [] 0 pwinding_number.

Definition add_index (idx : Z) (d : t) : t :=
  mk (m_indices d ++ [idx]) (m_count d + 1) (m_winding_number d).

Definition count (d : t) : Z := m_count d.
Definition winding_number (d : t) : Z := m_winding_number d.

End per_winding_data.

(** [winding_index_hoard], a [std::map] from winding number to the shared
    [per_winding_data] of that winding number, is a
    [gmap Z per_winding_data.t]. A pointer to one of the objects is
    modelled by the key under which the map holds it. *)

(** The entries of a [std::map<int, _>] in the order of iteration, that
    is by increasing key. *)
Definition entries {V : Type} (m : gmap Z V) : list (Z * V) :=
  omap (fun k => pair k <$> m !! k) (merge_sort Z.le (elements (dom m))).

(** ** CoordinateConverter (lines 252-306) *)

Module CoordinateConverter.

Record t := mk {
  m_delta_fudge : spec_float;
  m_scale : vec2;
  m_translate : vec2;
  m_scale_f : vec2;
  m_translate_f : vec2
}.

(** [CoordinateConverter(fpmin, fpmax)]. *)
Definition new (fpmin fpmax : vec2) : t :=
  let pmin := dvec2_of_vec2 fpmin in
  let pmax := dvec2_of_vec2 fpmax in
  let delta := dvec2_sub pmax pmin in
  let scale0 := dvec2_div (mk_vec2 F64.one F64.one) delta in
  let box_dim := F64.of_Z CoordinateConverterConstants.box_dim in
  let scale := dvec2_mul scale0 (mk_vec2 box_dim box_dim) in
  mk (F64.of_scaled 1 (- CoordinateConverterConstants.negative_log2_fudge))
     scale pmin (vec2_of_dvec2 scale) (vec2_of_dvec2 pmin).

(** [apply(pt, fudge_count)], computed in [double]. *)
Definition apply (c : t) (pt : vec2) (fudge_count : Z) : vec2 :=
  let qt := dvec2_of_vec2 pt in
  let r := dvec2_mul (m_scale c) (dvec2_sub qt (m_translate c)) in
  let fudge := F64.mul (F64.of_Z fudge_count) (m_delta_fudge c) in
  mk_vec2 (F64.add (vx r) fudge) (F64.add (vy r) fudge).

(** [iapply(pt)], computed in [float]. *)
Definition iapply (c : t) (pt : vec2) : ivec2 :=
  let r := vec2_mul (m_scale_f c) (vec2_sub pt (m_translate_f c)) in
  (F32.to_int (vx r), F32.to_int (vy r)).

Definition fudge_delta (c : t) : spec_float := m_delta_fudge c.

End CoordinateConverter.

(** ** PointHoard (lines 516-576, 1400-1559) *)

Module PointHoard.

(** [m_pts] is a reference to the vector of the [AttributeDataFiller]; the
    vector is carried in the hoard and handed back by [builder]. *)
Record t := mk {
  m_converter : CoordinateConverter.t;
  m_map : gmap (Z * Z) Z;
  m_pts : list FillPoint
}.

Definition Contour : Type := list Z.
Definition Path : Type := list Contour.

(** [PointHoard(bounds, pts)]. *)
Definition new (bounds : BoundingBox) (pts : list FillPoint) : t :=
  mk (CoordinateConverter.new (min_point bounds) (max_point bounds)) ∅ pts.

(** [fetch(pt)]: the ID of the point and the hoard after the call. *)
Definition fetch (pt : vec2) (h : t) : Z * t :=
  let ipt := CoordinateConverter.iapply (m_converter h) pt in
  match m_map h !! ipt with
  | Some return_value => (return_value, h)
  | None =>
      let return_value := Z.of_nat (length (m_pts h)) in
      (return_value,
       mk (m_converter h) (<[ipt := return_value]> (m_map h))
          (m_pts h ++ [mk_FillPoint pt ∅]))
  end.

(** [operator[](v)]. *)
Definition pt_of (h : t) (v : Z) : vec2 := m_pt (at_ (m_pts h) v).

(** [add_to_winding_set(v, winding)]; the source asserts
    [v < m_pts.size()]. *)
Definition add_to_winding_set (v winding : Z) (h : t) : t :=
  mk (m_converter h) (m_map h)
     (if v <? 0 then m_pts h
      else alter (fun p => mk_FillPoint (m_pt p) ({[winding]} ∪ m_winding p))
                 (Z.to_nat v) (m_pts h)).

(** [generate_contour(C, output, bounding_box_path)].
    [enable_guiding_boxes] being [false], the boxes the function keeps
    are never handed on: it only fetches the points of the contour. *)
Definition generate_contour (C : SubPath.SubContour) (output : Contour) (h : t)
    : Contour * t :=
  fold_left (fun (s : Contour * t) (p : SubPath.SubContourPoint) =>
               let '(id, h') := fetch (SubPath.m_pt p) (snd s) in
               (fst s ++ [id], h'))
            C (output, h).

(** [generate_path(input, output, bounding_box_path)]. *)
Definition generate_path (input : SubPath.t) (h : t) : Path * t :=
  fold_left (fun (s : Path * t) (C : SubPath.SubContour) =>
               let '(c, h') := generate_contour C [] (snd s) in
               (fst s ++ [c], h'))
            (SubPath.m_contours input) ([], h).

End PointHoard.

(** ** The tessellator interface

    GLU-tess is third-party code outside the sources. What this file
    needs of it is the protocol: contours of vertices are handed to it,
    and when the polygon is ended it reports, through the callbacks, the
    triangles of the regions that the fill predicate selects. *)

(** Modelled from the spec: the sentinel "null" vertex ID of the
    tessellator, [FASTUIDRAW_GLU_NULL_CLIENT_ID]; the macro is defined in
    the header of GLU-tess, which is not among the sources. It is taken to
    be the largest [unsigned int]. *)
Definition FASTUIDRAW_GLU_NULL_CLIENT_ID : Z := uint_max.

(** A vertex handed to [fastuidraw_gluTessVertex(tess, x, y, id)]. *)
Record glu_vertex := mk_glu_vertex { glu_x : spec_float; glu_y : spec_float; glu_id : Z }.

(** A contour, from [fastuidraw_gluTessBeginContour(tess, affects_winding)]
    to [fastuidraw_gluTessEndContour(tess)]. *)
Record glu_contour := mk_glu_contour {
  affects_winding : bool;
  glu_vertices : list glu_vertex
}.

(** A call of GLU-tess back into [tesser]. *)
Inductive glu_event :=
  | glu_begin (winding_number : Z)
  | glu_vertex_data (vertex_id : Z)
  | glu_combine (data : list Z) (weight : list spec_float).

(** The virtual methods of [tesser], over the state [D] that a derived
    class adds. [add_vertex_to_polygon] also reaches the [PointHoard] of
    the base class, through [add_to_winding_set]. *)
Class tesser_methods (D : Type) := {
  on_begin_polygon : Z -> D -> D;
  add_vertex_to_polygon : Z -> D * PointHoard.t -> D * PointHoard.t;
  fill_region : D -> Z -> bool
}.

(** ** tesser (lines 578-672, 1561-1905) *)

Module tesser.

Section Base.
Context {D : Type} `{tesser_methods D}.

Record t := mk {
  m_point_count : Z;
  m_tess : list glu_contour;
  m_points : PointHoard.t;
  m_temp_verts : Z * Z * Z;
  m_temp_vert_count : Z;
  m_triangulation_failed : bool;
  derived : D
}.

(** [tesser(points)]; [m_temp_verts] and [m_temp_vert_count] are not
    initialised by the constructor, [begin_callBack] resets the count. *)
Definition new (points : PointHoard.t) (d : D) : t :=
  mk 0 [] points (0, 0, 0) 0 false d.

Definition triangulation_failed (p : t) : bool := m_triangulation_failed p.

(** [m_temp_verts[i]] and [m_temp_verts[i] = v]. *)
Definition temp_vert (tv : Z * Z * Z) (i : Z) : Z :=
  let '(a, b, c) := tv in if i =? 0 then a else if i =? 1 then b else c.
Definition set_temp_vert (tv : Z * Z * Z) (i v : Z) : Z * Z * Z :=
  let '(a, b, c) := tv in
  if i =? 0 then (v, b, c) else if i =? 1 then (a, v, c) else (a, b, v).

Definition add_contour (C : PointHoard.Contour) (p : t) : t :=
  let '(count, vs) :=
    fold_left (fun (s : Z * list glu_vertex) (I : Z) =>
                 let q := CoordinateConverter.apply
                            (PointHoard.m_converter (m_points p))
                            (PointHoard.pt_of (m_points p) I) (fst s) in
                 (fst s + 1, snd s ++ [mk_glu_vertex (vx q) (vy q) I]))
              C (m_point_count p, []) in
  mk count (m_tess p ++ [mk_glu_contour true vs]) (m_points p)
     (m_temp_verts p) (m_temp_vert_count p) (m_triangulation_failed p) (derived p).

Definition add_path (P : PointHoard.Path) (p : t) : t :=
  fold_left (fun p C => add_contour C p) P p.

(** [add_path_boundary(P)]: the corners of the bounding box, pushed out
    by the slack. *)
Definition add_path_boundary (P : SubPath.t) (p : t) : t :=
  let src := [box_min_x_min_y; box_min_x_max_y; box_max_x_max_y; box_max_x_min_y] in
  let pmin := min_point (SubPath.m_bounds P) in
  let pmax := max_point (SubPath.m_bounds P) in
  let slack := F64.mul (F64.of_Z (m_point_count p))
                 (CoordinateConverter.fudge_delta
                    (PointHoard.m_converter (m_points p))) in
  let box_dim := F64.of_Z CoordinateConverterConstants.box_dim in
  let '(vs, points) :=
    fold_left (fun (s : list glu_vertex * PointHoard.t) (k : Z) =>
                 let max_x := negb (Z.land k box_max_x_flag =? 0) in
                 let max_y := negb (Z.land k box_max_y_flag =? 0) in
                 let x := if max_x then F64.add slack box_dim else SFopp slack in
                 let y := if max_y then F64.add slack box_dim else SFopp slack in
                 let q := mk_vec2 (if max_x then vx pmax else vx pmin)
                                  (if max_y then vy pmax else vy pmin) in
                 let '(id, h) := PointHoard.fetch q (snd s) in
                 (fst s ++ [mk_glu_vertex x y id], h))
              src ([], m_points p) in
  mk (m_point_count p) (m_tess p ++ [mk_glu_contour true vs]) points
     (m_temp_verts p) (m_temp_vert_count p) (m_triangulation_failed p) (derived p).

(** [add_bounding_box_path(P)]: [enable_guiding_boxes] being [false], the
    list of guiding boxes is empty and the loop has nothing to do. *)
Definition add_bounding_box_path (p : t) : t := p.

Definition add_point_to_store (q : vec2) (p : t) : Z * t :=
  let '(return_value, h) := PointHoard.fetch q (m_points p) in
  (return_value,
   mk (m_point_count p) (m_tess p) h (m_temp_verts p) (m_temp_vert_count p)
      (m_triangulation_failed p) (derived p)).

(** The area computed by [temp_verts_non_degenerate_triangle]. *)
Definition triangle_area (p0 p1 p2 : vec2) : spec_float :=
  let v := vec2_sub p1 p0 in
  let w := vec2_sub p2 p0 in
  F32.t_abs (F32.sub (F32.mul (vx v) (vy w)) (F32.mul (vy v) (vx w))).

Definition temp_verts_non_degenerate_triangle (p : t) : bool :=
  let '(t0, t1, t2) := m_temp_verts p in
  if (t0 =? t1) || (t0 =? t2) || (t1 =? t2) then false
  else
    let p0 := PointHoard.pt_of (m_points p) t0 in
    let p1 := PointHoard.pt_of (m_points p) t1 in
    let p2 := PointHoard.pt_of (m_points p) t2 in
    if vec2_eqb p0 p1 || vec2_eqb p0 p2 || vec2_eqb p1 p2 then false
    else F32.gtb (triangle_area p0 p1 p2) F32.zero.

(** [add_triangle(a, b, c)], on the state of the derived class and the
    points. *)
Definition add_triangle (a b c : Z) (s : D * PointHoard.t) : D * PointHoard.t :=
  add_vertex_to_polygon c (add_vertex_to_polygon b (add_vertex_to_polygon a s)).

(** The accepted branch of [vertex_callBack]: the midpoints and the centre
    are fetched and the six triangles are added. *)
Definition subdivide (p : t) : t :=
  let '(t0, t1, t2) := m_temp_verts p in
  let p0 := PointHoard.pt_of (m_points p) t0 in
  let p1 := PointHoard.pt_of (m_points p) t1 in
  let p2 := PointHoard.pt_of (m_points p) t2 in
  let m01 := vec2_scale F32.half (vec2_add p0 p1) in
  let m02 := vec2_scale F32.half (vec2_add p0 p2) in
  let m12 := vec2_scale F32.half (vec2_add p1 p2) in
  let c := vec2_div (vec2_add (vec2_add p0 p1) p2) F32.three in
  let '(i01, h) := PointHoard.fetch m01 (m_points p) in
  let '(i02, h) := PointHoard.fetch m02 h in
  let '(i12, h) := PointHoard.fetch m12 h in
  let '(ic, h) := PointHoard.fetch c h in
  let s := (derived p, h) in
  let s := add_triangle t0 i01 ic s in
  let s := add_triangle t0 ic i02 s in
  let s := add_triangle ic t1 i12 s in
  let s := add_triangle i01 t1 ic s in
  let s := add_triangle i02 ic t2 s in
  let s := add_triangle ic i12 t2 s in
  mk (m_point_count p) (m_tess p) (snd s) (m_temp_verts p) (m_temp_vert_count p)
     (m_triangulation_failed p) (fst s).

(** The test that guards the accepted branch. *)
Definition triangle_accepted (p : t) : bool :=
  let '(t0, t1, t2) := m_temp_verts p in
  negb (t0 =? FASTUIDRAW_GLU_NULL_CLIENT_ID)
  && negb (t1 =? FASTUIDRAW_GLU_NULL_CLIENT_ID)
  && negb (t2 =? FASTUIDRAW_GLU_NULL_CLIENT_ID)
  && temp_verts_non_degenerate_triangle p.

Definition begin_callBack (winding_number : Z) (p : t) : t :=
  mk (m_point_count p) (m_tess p) (m_points p) (m_temp_verts p) 0
     (m_triangulation_failed p) (on_begin_polygon winding_number (derived p)).

Definition vertex_callBack (vertex_id : Z) (p : t) : t :=
  let failed := if vertex_id =? FASTUIDRAW_GLU_NULL_CLIENT_ID then true
                else m_triangulation_failed p in
  let verts := set_temp_vert (m_temp_verts p) (m_temp_vert_count p) vertex_id in
  let count := m_temp_vert_count p + 1 in
  if count =? 3 then
    let p' := mk (m_point_count p) (m_tess p) (m_points p) verts 0 failed (derived p) in
    if triangle_accepted p' then subdivide p' else p'
  else
    mk (m_point_count p) (m_tess p) (m_points p) verts count failed (derived p).

(** [combine_callback(x, y, data, weight, outData)]: the ID written to
    [*outData] and the state after the call. *)
Definition combine_callback (data : list Z) (weight : list spec_float) (p : t) : Z * t :=
  let pt :=
    fold_left (fun (pt : vec2) (i : Z) =>
                 if negb (at_ data i =? FASTUIDRAW_GLU_NULL_CLIENT_ID)
                 then vec2_add pt (vec2_scale (F32.of_double (at_ weight i))
                                     (PointHoard.pt_of (m_points p) (at_ data i)))
                 else pt)
              (zrange 0 4) (mk_vec2 F32.zero F32.zero) in
  add_point_to_store pt p.

Definition winding_callBack (winding_number : Z) (p : t) : bool :=
  fill_region (derived p) winding_number.

(** One call of GLU-tess into the callbacks. *)
Definition run_event (p : t) (e : glu_event) : t :=
  match e with
  | glu_begin winding_number => begin_callBack winding_number p
  | glu_vertex_data vertex_id => vertex_callBack vertex_id p
  | glu_combine data weight => snd (combine_callback data weight p)
  end.

End Base.

Arguments t D : clear implicits.

End tesser.

(** ** non_zero_tesser and zero_tesser (lines 674-750, 1907-2007) *)

Module non_zero_tesser.

(** [m_hoard] is a reference to the hoard of the [builder]; it is carried
    in the state and handed back by [execute_path]. [m_current_indices]
    points to the entry of the hoard under the key it holds; [None] is
    the null pointer. *)
Record state := mk {
  m_winding_start : Z;
  m_hoard : gmap Z per_winding_data.t;
  m_current_winding : Z;
  m_current_indices : option Z
}.

Definition on_begin_polygon (winding_number : Z) (d : state) : state :=
  let winding_number := wrap_int (winding_number + m_winding_start d) in
  if bool_decide (m_current_indices d = None)
     || negb (m_current_winding d =? winding_number)
  then
    mk (m_winding_start d)
       (match m_hoard d !! winding_number with
        | Some _ => m_hoard d
        | None => <[winding_number := per_winding_data.new winding_number]> (m_hoard d)
        end)
       winding_number (Some winding_number)
  else d.

(** A call through the null pointer is not defined; the state is left as
    it is. GLU-tess begins a polygon before it reports a vertex. *)
Definition add_vertex_to_polygon (vertex : Z) (s : state * PointHoard.t)
    : state * PointHoard.t :=
  let '(d, points) := s in
  match m_current_indices d with
  | Some k =>
      match m_hoard d !! k with
      | Some b =>
          let b' := per_winding_data.add_index vertex b in
          (mk (m_winding_start d) (<[k := b']> (m_hoard d))
              (m_current_winding d) (m_current_indices d),
           PointHoard.add_to_winding_set vertex (per_winding_data.winding_number b')
                                         points)
      | None => s
      end
  | None => s
  end.

Definition fill_region (d : state) (winding_number : Z) : bool :=
  negb (winding_number =? 0).

#[global] Instance methods : tesser_methods state :=
  Build_tesser_methods state on_begin_polygon add_vertex_to_polygon fill_region.

End non_zero_tesser.

Module zero_tesser.

(** [m_indices] is a reference to the entry of the hoard under the key
    [path.winding_start()]. *)
Record state := mk {
  m_hoard : gmap Z per_winding_data.t;
  m_indices : Z
}.

(** The source asserts [winding_number == -1]. *)
Definition on_begin_polygon (winding_number : Z) (d : state) : state := d.

Definition add_vertex_to_polygon (vertex : Z) (s : state * PointHoard.t)
    : state * PointHoard.t :=
  let '(d, points) := s in
  match m_hoard d !! m_indices d with
  | Some b =>
      let b' := per_winding_data.add_index vertex b in
      (mk (<[m_indices d := b']> (m_hoard d)) (m_indices d),
       PointHoard.add_to_winding_set vertex (per_winding_data.winding_number b')
                                     points)
  | None => s
  end.

Definition fill_region (d : state) (winding_number : Z) : bool :=
  winding_number =? -1.

#[global] Instance methods : tesser_methods state :=
  Build_tesser_methods state on_begin_polygon add_vertex_to_polygon fill_region.

End zero_tesser.

(** ** builder::fill_indices (lines 2030-2108) *)

(** A [c_array] or [const_c_array] that looks into the index vector of the
    [AttributeDataFiller]: where it starts and how many elements it has. *)
Record c_array := mk_c_array { ca_begin : Z; ca_size : Z }.

(** [make_c_array(v)], [a.sub_array(pos, length)], [a.sub_array(pos)]. *)
Definition make_c_array (v : list Z) : c_array := mk_c_array 0 (Z.of_nat (length v)).
Definition sub_array (a : c_array) (pos length : Z) : c_array :=
  mk_c_array (ca_begin a + pos) length.
Definition sub_array_from (a : c_array) (pos : Z) : c_array :=
  mk_c_array (ca_begin a + pos) (ca_size a - pos).

(** The elements that the view [a] shows of the vector [v]. *)
Definition view (v : list Z) (a : c_array) : list Z :=
  take (Z.to_nat (ca_size a)) (drop (Z.to_nat (ca_begin a)) v).

(** [std::copy(src.begin(), src.end(), &dest[offset])]. *)
Definition copy_at (dest : list Z) (offset : Z) (src : list Z) : list Z :=
  take (Z.to_nat offset) dest ++ src
  ++ drop (Z.to_nat offset + length src)%nat dest.

(** [indices.resize(total)]; new elements are zero. *)
Definition resize_indices (total : Z) (indices : list Z) : list Z :=
  take (Z.to_nat total) indices
  ++ replicate (Z.to_nat total - length indices)%nat 0.

(** [per_winding_data::fill_at(offset, dest, sub_range)]: the new offset,
    the destination after the copy, and the view written to [sub_range]. *)
Definition fill_at (d : per_winding_data.t) (offset : Z) (dest : list Z)
    : Z * list Z * c_array :=
  (offset + per_winding_data.count d,
   copy_at dest offset (per_winding_data.m_indices d),
   sub_array (make_c_array dest) offset (per_winding_data.count d)).

(** The totals of the first loop: [total], [num_odd], [num_even_non_zero],
    [num_zero]. *)
Record index_counts := mk_index_counts {
  total : Z; num_odd : Z; num_even_non_zero : Z; num_zero : Z
}.

Definition count_entry (c : index_counts) (e : Z * per_winding_data.t) : index_counts :=
  let cnt := per_winding_data.count (snd e) in
  if fst e =? 0
  then mk_index_counts (total c + cnt) (num_odd c) (num_even_non_zero c) (num_zero c + cnt)
  else if is_even (fst e)
  then mk_index_counts (total c + cnt) (num_odd c) (num_even_non_zero c + cnt) (num_zero c)
  else mk_index_counts (total c + cnt) (num_odd c + cnt) (num_even_non_zero c) (num_zero c).

(** The state of the second loop. *)
Record fill_state := mk_fill_state {
  current_odd : Z;
  current_even_non_zero : Z;
  current_zero : Z;
  fs_indices : list Z;
  fs_winding_map : gmap Z c_array
}.

Definition fill_entry (s : fill_state) (e : Z * per_winding_data.t) : fill_state :=
  if 0 <? per_winding_data.count (snd e) then
    if fst e =? 0 then
      let '(off, ind, r) := fill_at (snd e) (current_zero s) (fs_indices s) in
      mk_fill_state (current_odd s) (current_even_non_zero s) off ind
                    (<[fst e := r]> (fs_winding_map s))
    else if is_even (fst e) then
      let '(off, ind, r) := fill_at (snd e) (current_even_non_zero s) (fs_indices s) in
      mk_fill_state (current_odd s) off (current_zero s) ind
                    (<[fst e := r]> (fs_winding_map s))
    else
      let '(off, ind, r) := fill_at (snd e) (current_odd s) (fs_indices s) in
      mk_fill_state off (current_even_non_zero s) (current_zero s) ind
                    (<[fst e := r]> (fs_winding_map s))
  else s.

(** What [fill_indices] leaves in its four reference parameters. *)
Record filled := mk_filled {
  f_indices : list Z;
  f_winding_map : gmap Z c_array;
  even_non_zero_start : Z;
  zero_start : Z
}.

(** The two loops of [fill_indices], over the entries of the hoard in the
    order of iteration. *)
Definition fill_entries (es : list (Z * per_winding_data.t))
    (indices : list Z) (winding_map : gmap Z c_array) : filled :=
  let c := fold_left count_entry es (mk_index_counts 0 0 0 0) in
  let s := fold_left fill_entry es
             (mk_fill_state 0 (num_odd c) (num_even_non_zero c + num_odd c)
                            (resize_indices (total c) indices) winding_map) in
  mk_filled (fs_indices s) (fs_winding_map s) (num_odd c)
            (current_odd s + num_even_non_zero c).

Definition fill_indices (m_hoard : gmap Z per_winding_data.t)
    (indices : list Z) (winding_map : gmap Z c_array) : filled :=
  fill_entries (entries m_hoard) indices winding_map.

(** ** AttributeDataFiller (lines 813-871, 2218-2344) *)

Module AttributeDataFiller.

(** The four views and the views of [m_per_fill] look into [m_indices]. *)
Record t := mk {
  m_points : list FillPoint;
  m_indices : list Z;
  m_nonzero_winding_indices : c_array;
  m_zero_winding_indices : c_array;
  m_odd_winding_indices : c_array;
  m_even_winding_indices : c_array;
  m_per_fill : gmap Z c_array
}.

Definition generate_attribute (src : FillPoint) : PainterAttribute :=
  mk_PainterAttribute
    (pack_vec4 (vx (m_pt src)) (vy (m_pt src)) F32.one F32.zero)
    (mk_uvec4 0 0 0 0) (mk_uvec4 0 0 0 0).

(** [fill_winding_data(dst)]: [dst] is resized to the number of points and
    every element is overwritten. *)
Definition fill_winding_data (f : t) (dst : list WindingSet.t) : list WindingSet.t :=
  imap (fun v p => WindingSet.extract_from_set
                     (default WindingSet.empty (dst !! v)) (m_winding p))
       (m_points f).

(** What [compute_sizes] leaves in its five reference parameters. *)
Record sizes := mk_sizes {
  number_attributes : Z;
  number_indices : Z;
  number_attribute_chunks : Z;
  number_index_chunks : Z;
  number_z_increments : Z
}.

(** [compute_sizes(number_attributes, number_indices,
    number_attribute_chunks, number_index_chunks, number_z_increments)].
    [m_per_fill.begin()] is the entry of the smallest winding number,
    [m_per_fill.rbegin()] that of the largest. *)
Definition compute_sizes (f : t) : sizes :=
  match entries (m_per_fill f) with
  | [] => mk_sizes 0 0 0 0 0
  | e :: es =>
      let number_indices :=
        fold_left (fun n (iter : Z * c_array) =>
                     if negb (fst iter =? 0) then n + ca_size (snd iter) else n)
                  (e :: es)
                  (ca_size (m_odd_winding_indices f)
                   + ca_size (m_nonzero_winding_indices f)
                   + ca_size (m_even_winding_indices f)
                   + ca_size (m_zero_winding_indices f)) in
      let smallest_winding := fst e in
      let largest_winding := fst (List.last es e) in
      let largest_winding_idx := chunk_from_winding_number largest_winding in
      let smallest_winding_idx := chunk_from_winding_number smallest_winding in
      mk_sizes (Z.of_nat (length (m_points f))) number_indices 1
               (1 + t_max largest_winding_idx smallest_winding_idx) 0
  end.

(** One [index_chunks[chunk] = dst] of [fill_data], where [dst] is
    [index_data.sub_array(current, src.size())]: [current] after it, and
    the assignments made so far, each the position in [index_chunks] and
    the view of [index_data] stored there. *)
Definition store_chunk (chunk : Z) (src : c_array) (s : Z * list (Z * c_array))
    : Z * list (Z * c_array) :=
  (fst s + ca_size src, snd s ++ [(chunk, mk_c_array (fst s) (ca_size src))]).

(** [fill_data]: the assignments to elements of [index_chunks], in the
    order in which they are made; the four of [GRAB_MACRO], then one for
    each winding number other than 0. The copies of the attributes and
    of the indices are left out. *)
Definition fill_data_index_chunks (f : t) : list (Z * c_array) :=
  match entries (m_per_fill f) with
  | [] => []
  | es =>
      let s := (0, []) in
      let s := store_chunk PainterEnums.odd_even_fill_rule (m_odd_winding_indices f) s in
      let s := store_chunk PainterEnums.nonzero_fill_rule (m_nonzero_winding_indices f) s in
      let s := store_chunk PainterEnums.complement_odd_even_fill_rule
                           (m_even_winding_indices f) s in
      let s := store_chunk PainterEnums.complement_nonzero_fill_rule
                           (m_zero_winding_indices f) s in
      snd (fold_left (fun s (iter : Z * c_array) =>
                        if negb (fst iter =? 0)
                        then store_chunk (chunk_from_winding_number (fst iter)) (snd iter) s
                        else s)
                     es s)
  end.

End AttributeDataFiller.

(** ** DataWriter (lines 982-1016, 2730-2878) *)

Module DataWriterPrivate.

Record per_attrib_chunk := mk_per_attrib_chunk {
  m_attribs : list PainterAttribute;
  m_per_pt_winding_set : list WindingSet.t
}.

#[global] Instance per_attrib_chunk_inhabited : Inhabited per_attrib_chunk :=
  populate (mk_per_attrib_chunk [] []).

(** The fields of [DataWriterPrivate] that [write_attributes] reads. *)
Record t := mk {
  m_attribute_chunks : list per_attrib_chunk;
  m_complement_winding_rule : WindingSet.t;
  m_winding_rule : WindingSet.t
}.

End DataWriterPrivate.

Module DataWriter.

(** The body of the loop of [write_attributes]: what [dst[i]] becomes. *)
Definition write_attribute (d : DataWriterPrivate.t) (src : PainterAttribute)
    (w_src : WindingSet.t) (dst : PainterAttribute) : PainterAttribute :=
  let outside :=
    WindingSet.have_common_bit (DataWriterPrivate.m_complement_winding_rule d) w_src in
  let value := if outside then F32.zero else F32.one in
  mk_PainterAttribute
    (mk_uvec4 (ux (m_attrib0 src)) (uy (m_attrib0 src)) (F32.pack_float value)
              (uw (m_attrib0 dst)))
    (m_attrib1 dst) (m_attrib2 dst).

(** [write_attributes(dst, attribute_chunk)]; the source asserts that
    [dst] and the chunk have the same size. *)
Definition write_attributes (d : DataWriterPrivate.t) (dst : list PainterAttribute)
    (attribute_chunk : Z) : list PainterAttribute :=
  let src := DataWriterPrivate.m_attribs
               (at_ (DataWriterPrivate.m_attribute_chunks d) attribute_chunk) in
  let w_src := DataWriterPrivate.m_per_pt_winding_set
                 (at_ (DataWriterPrivate.m_attribute_chunks d) attribute_chunk) in
  imap (fun i dst_i =>
          write_attribute d (at_ src (Z.of_nat i)) (at_ w_src (Z.of_nat i)) dst_i)
       dst.

End DataWriter.

(** ** builder and the subset hierarchy (lines 752-776, 883-980, 2009-2023,
    2411-2695) *)

(** An assertion of the source that a run has violated. *)
Inductive diagnostic :=
  | assert_sizes_ready
  | assert_childless_subset_too_large.

(** The output of a selection: the array [dst], the count [current] of
    the IDs written to it, and the assertions violated on the way. *)
Record selection := mk_selection {
  sel_dst : list Z;
  sel_current : Z;
  sel_diagnostics : list diagnostic
}.

Section Subsets.

(** GLU-tess: the calls it makes into the callbacks when the polygon made
    of the given contours is ended, for the given fill predicate and the
    points known at that moment. *)
Variable gluTess : list glu_contour -> (Z -> bool) -> PointHoard.t -> list glu_event.

(** [fastuidraw::PainterAttributeData] and its method [set_data], applied
    to an [AttributeDataFiller] and to an [AttributeDataMerger] of two
    attribute data; the class is not among the sources. *)
Context {PainterAttributeData : Type}.
Variable set_data_filler : AttributeDataFiller.t -> PainterAttributeData.
Variable set_data_merger :
  PainterAttributeData -> PainterAttributeData -> PainterAttributeData.

(** [clip_against_planes], applied to the clip equations of the scratch
    space and the polygon of a bounding box: whether the box is unclipped,
    and the clipped polygon. The function is not among the sources. *)
Context {ClipEquations : Type}.
Variable clip_against_planes : ClipEquations -> BoundingBox -> bool * list vec2.

(** [tesser::stop]: GLU-tess ends the polygon and calls back. *)
Definition tesser_stop {D : Type} `{tesser_methods D} (p : tesser.t D) : tesser.t D :=
  fold_left tesser.run_event
            (gluTess (tesser.m_tess p) (fun w => tesser.winding_callBack w p)
                     (tesser.m_points p))
            p.

(** [non_zero_tesser::execute_path]: whether the triangulation failed, and
    the points and the hoard as the tessellation leaves them. *)
Definition non_zero_execute_path (points : PointHoard.t) (P : PointHoard.Path)
    (path : SubPath.t) (hoard : gmap Z per_winding_data.t)
    : bool * PointHoard.t * gmap Z per_winding_data.t :=
  let NZ := tesser.new points
              (non_zero_tesser.mk (SubPath.winding_start path) hoard 0 None) in
  let NZ := tesser_stop (tesser.add_bounding_box_path (tesser.add_path P NZ)) in
  (tesser.triangulation_failed NZ, tesser.m_points NZ,
   non_zero_tesser.m_hoard (tesser.derived NZ)).

(** [zero_tesser::execute_path]. *)
Definition zero_execute_path (points : PointHoard.t) (P : PointHoard.Path)
    (path : SubPath.t) (hoard : gmap Z per_winding_data.t)
    : bool * PointHoard.t * gmap Z per_winding_data.t :=
  let k := SubPath.winding_start path in
  let hoard := match hoard !! k with
               | Some _ => hoard
               | None => <[k := per_winding_data.new k]> hoard
               end in
  let Z0 := tesser.new points (zero_tesser.mk hoard k) in
  let Z0 := tesser_stop
              (tesser.add_path_boundary path
                 (tesser.add_bounding_box_path (tesser.add_path P Z0))) in
  (tesser.triangulation_failed Z0, tesser.m_points Z0,
   zero_tesser.m_hoard (tesser.derived Z0)).

Record builder := mk_builder {
  b_hoard : gmap Z per_winding_data.t;
  b_points : PointHoard.t;
  b_failed : bool
}.

(** [builder(P, pts)]. *)
Definition builder_new (P : SubPath.t) (pts : list FillPoint) : builder :=
  let points := PointHoard.new (SubPath.m_bounds P) pts in
  let '(path, points) := PointHoard.generate_path P points in
  let '(failNZ, points, hoard) := non_zero_execute_path points path P ∅ in
  let '(failZ, points, hoard) := zero_execute_path points path P hoard in
  mk_builder hoard points (failNZ || failZ).

(** The members of a [SubsetPrivate] other than its children. *)
Record SubsetData := mk_SubsetData {
  m_ID : Z;
  m_bounds : BoundingBox;
  m_painter_data : option PainterAttributeData;
  m_winding_numbers : list Z;
  m_windings_per_pt : list WindingSet.t;
  m_sizes_ready : bool;
  m_num_attributes : Z;
  m_largest_index_block : Z;
  m_sub_path : option SubPath.t
}.

(** A [SubsetPrivate] owns its children; [m_children] holds two null
    pointers ([Leaf]) or two children ([Interior]). *)
Inductive SubsetPrivate :=
  | Leaf (d : SubsetData)
  | Interior (d : SubsetData) (c0 c1 : SubsetPrivate).

Definition data (n : SubsetPrivate) : SubsetData :=
  match n with Leaf d => d | Interior d _ _ => d end.

(** [SubsetPrivate(Q, max_recursion, out_values)]: the node and
    [out_values] after the construction. A pointer to a node is modelled
    by the ID of the node, its position in [out_values]. *)
Equations? SubsetPrivate_new (Q : SubPath.t) (max_recursion : Z)
    (out_values : list Z) : SubsetPrivate * list Z
    by wf (Z.to_nat max_recursion) lt :=
  SubsetPrivate_new Q max_recursion out_values with decide (0 < max_recursion) := {
    | left Hpos =>
        let d := mk_SubsetData (Z.of_nat (length out_values)) (SubPath.m_bounds Q)
                               None [] [] false 0 0 (Some Q) in
        let out := out_values ++ [m_ID d] in
        if SubsetConstants.points_per_subset <? SubPath.total_points Q then
          let C := SubPath.split Q in
          if (SubPath.total_points (fst C) <? SubPath.total_points Q)
             || (SubPath.total_points (snd C) <? SubPath.total_points Q)
          then
            let r0 := SubsetPrivate_new (fst C) (max_recursion - 1) out in
            let r1 := SubsetPrivate_new (snd C) (max_recursion - 1) (snd r0) in
            (Interior (mk_SubsetData (m_ID d) (m_bounds d) None [] [] false 0 0 None)
                      (fst r0) (fst r1),
             snd r1)
          else (Leaf d, out)
        else (Leaf d, out)
    | right Hneg =>
        let d := mk_SubsetData (Z.of_nat (length out_values)) (SubPath.m_bounds Q)
                               None [] [] false 0 0 (Some Q) in
        (Leaf d, out_values ++ [m_ID d])
  }.
Proof. all: lia. Defined.

(** [make_ready_from_sub_path()]. The source asserts that the node has no
    children, a sub-path, no painter data, and that its sizes are not
    ready; without a sub-path the function has nothing defined to do. *)
Definition make_ready_from_sub_path (d : SubsetData) : SubsetData :=
  match m_sub_path d with
  | None => d
  | Some Q =>
      let B := builder_new Q [] in
      let r := fill_indices (b_hoard B) [] ∅ in
      let indices_ptr := make_c_array (f_indices r) in
      let filler :=
        AttributeDataFiller.mk
          (PointHoard.m_pts (b_points B)) (f_indices r)
          (sub_array indices_ptr 0 (zero_start r))
          (sub_array_from indices_ptr (zero_start r))
          (sub_array indices_ptr 0 (even_non_zero_start r))
          (sub_array_from indices_ptr (even_non_zero_start r))
          (f_winding_map r) in
      let m1 := t_max (ca_size (AttributeDataFiller.m_nonzero_winding_indices filler))
                      (ca_size (AttributeDataFiller.m_zero_winding_indices filler)) in
      let m2 := t_max (ca_size (AttributeDataFiller.m_odd_winding_indices filler))
                      (ca_size (AttributeDataFiller.m_even_winding_indices filler)) in
      mk_SubsetData (m_ID d) (m_bounds d)
        (Some (set_data_filler filler))
        (m_winding_numbers d ++ map fst (entries (AttributeDataFiller.m_per_fill filler)))
        (AttributeDataFiller.fill_winding_data filler (m_windings_per_pt d))
        true
        (Z.of_nat (length (AttributeDataFiller.m_points filler)))
        (t_max m1 m2)
        None
  end.

(** The part of [make_ready_from_children()] that follows the baking of
    the two children [c0] and [c1]. [painter_data()] asserts that the
    painter data of a child is there. *)
Definition merge_children (d : SubsetData) (c0 c1 : SubsetData) : SubsetData :=
  match m_painter_data c0, m_painter_data c1 with
  | Some a, Some b =>
      let wnd : gset Z := list_to_set (m_winding_numbers c0 ++ m_winding_numbers c1) in
      mk_SubsetData (m_ID d) (m_bounds d)
        (Some (set_data_merger a b))
        (merge_sort Z.le (elements wnd))
        (m_windings_per_pt c0 ++ m_windings_per_pt c1)
        true
        (if m_sizes_ready d then m_num_attributes d
         else m_num_attributes c0 + m_num_attributes c1)
        (if m_sizes_ready d then m_largest_index_block d
         else m_largest_index_block c0 + m_largest_index_block c1)
        (m_sub_path d)
  | _, _ => d
  end.

(** [make_ready()], with [make_ready_from_children()] for a node without
    sub-path. A node without children and without sub-path has nothing
    to be made ready from; it is left as it is. *)
Fixpoint make_ready (n : SubsetPrivate) : SubsetPrivate :=
  match n with
  | Leaf d =>
      match m_painter_data d with
      | None => Leaf (make_ready_from_sub_path d)
      | Some _ => n
      end
  | Interior d c0 c1 =>
      match m_painter_data d with
      | None =>
          match m_sub_path d with
          | Some _ => Interior (make_ready_from_sub_path d) c0 c1
          | None =>
              let c0' := make_ready c0 in
              let c1' := make_ready c1 in
              Interior (merge_children d (data c0') (data c1')) c0' c1'
          end
      | Some _ => n
      end
  end.

(** [dst[current] = m_ID; ++current;] *)
Definition emit (id : Z) (s : selection) : selection :=
  mk_selection (<[Z.to_nat (sel_current s) := id]> (sel_dst s))
               (sel_current s + 1) (sel_diagnostics s).

Definition fits (d : SubsetData) (max_attribute_cnt max_index_cnt : Z) : bool :=
  m_sizes_ready d && (m_num_attributes d <=? max_attribute_cnt)
  && (m_largest_index_block d <=? max_index_cnt).

(** The sizes of a node with children, once both children have been
    walked. *)
Definition sizes_from_children (d c0 c1 : SubsetData) : SubsetData :=
  if m_sizes_ready d then d
  else mk_SubsetData (m_ID d) (m_bounds d) (m_painter_data d) (m_winding_numbers d)
         (m_windings_per_pt d) true
         (m_num_attributes c0 + m_num_attributes c1)
         (m_largest_index_block c0 + m_largest_index_block c1)
         (m_sub_path d).

(** [select_subsets_all_unculled(dst, max_attribute_cnt, max_index_cnt,
    current)]: the node and the selection after the call. *)
Fixpoint select_subsets_all_unculled (n : SubsetPrivate)
    (max_attribute_cnt max_index_cnt : Z) (s : selection)
    : SubsetPrivate * selection :=
  match n with
  | Leaf d =>
      let d := if negb (m_sizes_ready d) then make_ready_from_sub_path d else d in
      if fits d max_attribute_cnt max_index_cnt
      then (Leaf d, emit (m_ID d) s)
      else
        (Leaf d,
         mk_selection (sel_dst s) (sel_current s)
           (sel_diagnostics s
            ++ (if m_sizes_ready d then [] else [assert_sizes_ready])
            ++ [assert_childless_subset_too_large]))
  | Interior d c0 c1 =>
      if fits d max_attribute_cnt max_index_cnt
      then (n, emit (m_ID d) s)
      else
        let '(c0', s) := select_subsets_all_unculled c0 max_attribute_cnt max_index_cnt s in
        let '(c1', s) := select_subsets_all_unculled c1 max_attribute_cnt max_index_cnt s in
        (Interior (sizes_from_children d (data c0') (data c1')) c0' c1', s)
  end.

(** [select_subsets_implement(scratch, dst, max_attribute_cnt,
    max_index_cnt, current)], the clip equations being those of the
    scratch space. *)
Fixpoint select_subsets_implement (eqs : ClipEquations) (n : SubsetPrivate)
    (max_attribute_cnt max_index_cnt : Z) (s : selection)
    : SubsetPrivate * selection :=
  let '(unclipped, clipped_rect) := clip_against_planes eqs (m_bounds (data n)) in
  if bool_decide (clipped_rect = []) then (n, s)
  else
    match n with
    | Leaf _ => select_subsets_all_unculled n max_attribute_cnt max_index_cnt s
    | Interior d c0 c1 =>
        if unclipped
        then select_subsets_all_unculled n max_attribute_cnt max_index_cnt s
        else
          let '(c0', s) :=
            select_subsets_implement eqs c0 max_attribute_cnt max_index_cnt s in
          let '(c1', s) :=
            select_subsets_implement eqs c1 max_attribute_cnt max_index_cnt s in
          (Interior d c0' c1', s)
    end.

(** [FilledPathPrivate(P)]: the root and the flat list [m_subsets]. *)
Definition FilledPathPrivate_new (P : TessellatedPath) : SubsetPrivate * list Z :=
  SubsetPrivate_new (SubPath.of_tessellated_path P) SubsetConstants.recursion_depth [].

End Subsets.

(** * The properties, in the words of the specification *)

(** The winding numbers other than 0 on which the chunk number of the
    specification, [4 + 2 (|w| - 1) + (1 if w < 0 else 0)], fits an
    [unsigned int], the type that [chunk_from_winding_number] returns:
    all but [2^31 - 1], [- (2^31 - 1)] and [- 2^31], on which it is 2^32
    or more. *)
Definition chunk_domain (w : Z) : Prop := w <> 0 /\ Z.abs w <= int_max - 1.

(** ** Degenerate contours *)

(** The 4-cycle of the corners: mm, mM, MM, Mm, and back to mm. *)
Definition corner_cycle : list Z :=
  [box_min_x_min_y; box_min_x_max_y; box_max_x_max_y; box_max_x_min_y].

(** [b] follows [a] in the cycle. *)
Definition next_in_cycle (a b : Z) : bool :=
  existsb (fun i => (corner_cycle !!! i =? a)
                    && (corner_cycle !!! ((i + 1) mod 4)%nat =? b))
          [0; 1; 2; 3]%nat.

(** The steps of a walk along the contour [C] that starts at the corner
    [prev]: pairs of the corner left and the corner reached. *)
Fixpoint steps_from (prev : Z) (C : SubPath.SubContour) : list (Z * Z) :=
  match C with
  | [] => []
  | p :: rest =>
      (prev, SubPath.corner_point_type p) :: steps_from (SubPath.corner_point_type p) rest
  end.

(** The steps of the closed contour [C], the one from its last point to
    its first point included. *)
Definition cyclic_steps (C : SubPath.SubContour) : list (Z * Z) :=
  steps_from (SubPath.corner_point_type (SubPath.back C)) C.

Definition forward_step (st : Z * Z) : bool := next_in_cycle (fst st) (snd st).
Definition backward_step (st : Z * Z) : bool := next_in_cycle (snd st) (fst st).

Definition forwards (C : SubPath.SubContour) : Z :=
  Z.of_nat (length (filter (fun st => forward_step st = true) (cyclic_steps C))).
Definition backwards (C : SubPath.SubContour) : Z :=
  Z.of_nat (length (filter (fun st => backward_step st = true) (cyclic_steps C))).

(** The contour is not empty, all its points are corner points, every
    step goes to a neighbour in the cycle, and the backward steps
    outnumber the forward steps by a multiple of 4. *)
Definition degenerate_boundary (C : SubPath.SubContour) : bool :=
  negb (bool_decide (C = []))
  && forallb SubPath.is_corner_point C
  && forallb (fun st => forward_step st || backward_step st) (cyclic_steps C)
  && (Z.rem (backwards C - forwards C) 4 =? 0).

(** The corner code that the constructors of [SubContourPoint] give to a
    point with the boundary types [bt]. *)
Definition corner_code (bt : SubPath.on_boundary_t * SubPath.on_boundary_t) : Z :=
  if SubPath.is_corner_bt bt then
    (if bool_decide (fst bt = SubPath.on_max_boundary) then box_max_x_flag else 0)
    + (if bool_decide (snd bt = SubPath.on_max_boundary) then box_max_y_flag else 0)
  else 4.

(** The invariant of the class [SubContourPoint]. *)
Definition point_ok (p : SubPath.SubContourPoint) : Prop :=
  SubPath.m_corner_point_type p = corner_code (SubPath.m_boundary_type p).

(** The number of the steps of [l] that satisfy [f]. *)
Definition count_steps (f : Z * Z -> bool) (l : list (Z * Z)) : Z :=
  Z.of_nat (length (filter (fun st => f st = true) l)).

(** A closed walk once around the box, along the cycle: four forward
    steps, so that the contour is dropped and counts for -1. *)
Definition corner_at (bx by_ : SubPath.on_boundary_t) (code : Z) : SubPath.SubContourPoint :=
  SubPath.mk_SubContourPoint inhabitant true (bx, by_) code.

Definition once_around : SubPath.SubContour :=
  [corner_at SubPath.on_min_boundary SubPath.on_min_boundary 0;
   corner_at SubPath.on_min_boundary SubPath.on_max_boundary 2;
   corner_at SubPath.on_max_boundary SubPath.on_max_boundary 3;
   corner_at SubPath.on_max_boundary SubPath.on_min_boundary 1].

(** A writer for the non-zero fill rule over the windings 0..1, with one
    attribute chunk of one vertex, which lies on triangles of winding 0
    and of winding 1. *)
Definition writer_example : DataWriterPrivate.t :=
  DataWriterPrivate.mk
    [DataWriterPrivate.mk_per_attrib_chunk
       [AttributeDataFiller.generate_attribute
          (mk_FillPoint (mk_vec2 F32.one F32.three) {[0; 1]})]
       [WindingSet.extract_from_set WindingSet.empty {[0; 1]}]]
    (WindingSet.extract_from_fill_fule WindingSet.empty 0 1 fcn_non_zero_fill_rule true)
    (WindingSet.extract_from_fill_fule WindingSet.empty 0 1 fcn_non_zero_fill_rule false).

(** ** Acceptance of a triangle *)

(** The signed area of the specification: the cross product of [p1 - p0]
    and [p2 - p0], in [float] arithmetic. *)
Definition signed_area (p0 p1 p2 : vec2) : spec_float :=
  let v := vec2_sub p1 p0 in
  let w := vec2_sub p2 p0 in
  F32.sub (F32.mul (vx v) (vy w)) (F32.mul (vy v) (vx w)).

(** The triangle of the three cached vertices of a [tesser]. *)
Definition temp_triangle {D : Type} (p : tesser.t D) : vec2 * vec2 * vec2 :=
  let '(t0, t1, t2) := tesser.m_temp_verts p in
  (PointHoard.pt_of (tesser.m_points p) t0,
   PointHoard.pt_of (tesser.m_points p) t1,
   PointHoard.pt_of (tesser.m_points p) t2).

(** The first three conditions of the specification: no ID is the null
    ID, the IDs are mutually distinct, the positions are mutually
    distinct. *)
Definition ids_and_positions_distinct {D : Type} (p : tesser.t D) : Prop :=
  let '(t0, t1, t2) := tesser.m_temp_verts p in
  let '(p0, p1, p2) := temp_triangle p in
  (t0 <> FASTUIDRAW_GLU_NULL_CLIENT_ID /\ t1 <> FASTUIDRAW_GLU_NULL_CLIENT_ID
   /\ t2 <> FASTUIDRAW_GLU_NULL_CLIENT_ID)
  /\ (t0 <> t1 /\ t0 <> t2 /\ t1 <> t2)
  /\ (vec2_eqb p0 p1 = false /\ vec2_eqb p0 p2 = false /\ vec2_eqb p1 p2 = false).

(** Acceptance as the specification words it: the signed area is
    strictly positive. *)
Definition accepted_as_claimed {D : Type} (p : tesser.t D) : Prop :=
  let '(p0, p1, p2) := temp_triangle p in
  ids_and_positions_distinct p
  /\ F32.gtb (signed_area p0 p1 p2) F32.zero = true.

(** Acceptance as the code has it: the absolute value of the signed area
    is strictly positive. *)
Definition accepted_by_area {D : Type} (p : tesser.t D) : Prop :=
  let '(p0, p1, p2) := temp_triangle p in
  ids_and_positions_distinct p
  /\ F32.gtb (F32.t_abs (signed_area p0 p1 p2)) F32.zero = true.

(** A [non_zero_tesser] that has cached the clockwise triangle
    (0,0), (0,1), (1,0). *)
Definition pt_xy (x y : Z) : vec2 := mk_vec2 (F32.of_Z x) (F32.of_Z y).

Definition unit_hoard (pts : list vec2) : PointHoard.t :=
  PointHoard.mk (CoordinateConverter.new (pt_xy 0 0) (pt_xy 1 1)) ∅
                (map (fun q => mk_FillPoint q ∅) pts).

Definition clockwise_triangle : tesser.t non_zero_tesser.state :=
  tesser.mk 0 [] (unit_hoard [pt_xy 0 0; pt_xy 0 1; pt_xy 1 0]) (0, 1, 2) 0 false
            (non_zero_tesser.mk 0 ∅ 0 None).

(** ** Emission of an accepted triangle *)

(** The IDs held by the map of a [PointHoard] are positions in its vector
    of points. *)
Definition valid_id (h : PointHoard.t) (v : Z) : Prop :=
  0 <= v < Z.of_nat (length (PointHoard.m_pts h)).

Definition hoard_ok (h : PointHoard.t) : Prop :=
  forall ipt id, PointHoard.m_map h !! ipt = Some id -> valid_id h id.

(** Every entry of the index hoard holds the data of its own winding
    number, and the current indices of a [non_zero_tesser], when set, are
    those of its current winding number. *)
Definition buckets_ok (hoard : gmap Z per_winding_data.t) : Prop :=
  forall k bk, hoard !! k = Some bk -> per_winding_data.winding_number bk = k.

Definition nz_ok (d : non_zero_tesser.state) : Prop :=
  buckets_ok (non_zero_tesser.m_hoard d)
  /\ forall k, non_zero_tesser.m_current_indices d = Some k ->
               k = non_zero_tesser.m_current_winding d
               /\ is_Some (non_zero_tesser.m_hoard d !! k).

(** The indices and the count held for a winding number; none when the
    hoard has no entry for it. *)
Definition indices_of (hoard : gmap Z per_winding_data.t) (k : Z) : list Z :=
  match hoard !! k with Some bk => per_winding_data.m_indices bk | None => [] end.
Definition count_of (hoard : gmap Z per_winding_data.t) (k : Z) : Z :=
  match hoard !! k with Some bk => per_winding_data.count bk | None => 0 end.

(** The winding number [W] inserted in the winding sets of the points
    [l], one after the other. *)
Definition add_windings (W : Z) (l : list Z) (h : PointHoard.t) : PointHoard.t :=
  fold_left (fun h v => PointHoard.add_to_winding_set v W h) l h.

(** The state [p] with the three cached vertices [tv]. *)
Definition with_temp_verts {D : Type} (p : tesser.t D) (tv : Z * Z * Z) : tesser.t D :=
  tesser.mk (tesser.m_point_count p) (tesser.m_tess p) (tesser.m_points p) tv 0
            (tesser.m_triangulation_failed p) (tesser.derived p).

(** A [non_zero_tesser] over the points (0,0), (1,0), (0,1), before GLU-tess
    reports the counter-clockwise triangle of the three. *)
Definition triangle_tesser : tesser.t non_zero_tesser.state :=
  tesser.new (unit_hoard [pt_xy 0 0; pt_xy 1 0; pt_xy 0 1])
             (non_zero_tesser.mk 0 ∅ 0 None).

(** The same tesser after it has cached the first two vertices. *)
Definition triangle_tesser_two : tesser.t non_zero_tesser.state :=
  tesser.mk 0 [] (unit_hoard [pt_xy 0 0; pt_xy 1 0; pt_xy 0 1]) (0, 1, 0) 2 false
            (non_zero_tesser.mk 0 ∅ 0 None).

(** ** The layout of the index array *)

(** The three classes of winding numbers that [fill_indices] tells apart. *)
Inductive winding_class := odd_winding | even_non_zero_winding | zero_winding.

#[global] Instance winding_class_eq_dec : EqDecision winding_class.
Proof. solve_decision. Defined.

Definition class_of (w : Z) : winding_class :=
  if w =? 0 then zero_winding
  else if Z.even w then even_non_zero_winding
  else odd_winding.

(** The indices of the triangles whose winding number is of the class
    [c], in the order in which the hoard is walked. *)
Definition region (c : winding_class) (es : list (Z * per_winding_data.t)) : list Z :=
  flat_map (fun e => if decide (class_of (fst e) = c)
                     then per_winding_data.m_indices (snd e) else [])
           es.

(** [m_count] counts the elements of [m_indices]; [add_index] keeps it
    so. *)
Definition counted (d : per_winding_data.t) : Prop :=
  per_winding_data.m_count d = Z.of_nat (length (per_winding_data.m_indices d)).

(** A hoard with the windings -1, 0, 1 and 2. *)
Definition hoard_example : gmap Z per_winding_data.t :=
  <[-1 := per_winding_data.mk [7; 8; 9] 3 (-1)]>
  (<[0 := per_winding_data.mk [0; 1; 2] 3 0]>
  (<[1 := per_winding_data.mk [3; 4; 5; 5; 4; 6] 6 1]>
  (<[2 := per_winding_data.mk [6; 4; 3] 3 2]> ∅))).

(** The length of a list, as an integer. *)
Definition len {A : Type} (l : list A) : Z := Z.of_nat (length l).

(** ** Selection and baking *)

(** A painter data that records what [set_data] was applied to. *)
Inductive baked :=
  | baked_from_filler (f : AttributeDataFiller.t)
  | baked_from_merger (a b : baked).

(** A tessellator that reports the one triangle of the vertices 0, 1, 2,
    with winding number 1, whatever it is given. *)
Definition one_triangle (cs : list glu_contour) (fill : Z -> bool) (h : PointHoard.t)
    : list glu_event :=
  [glu_begin 1; glu_vertex_data 0; glu_vertex_data 1; glu_vertex_data 2].

(** The square with the corners (0,0), (10,0), (10,10), (0,10), a contour
    of four edges. *)
Definition square_path : TessellatedPath :=
  mk_TessellatedPath
    [pt_xy 0 0; pt_xy 10 0; pt_xy 10 10; pt_xy 0 10; pt_xy 0 0]
    [[(0, 2); (1, 3); (2, 4); (3, 5)]]
    (pt_xy 0 0) (pt_xy 10 10).

(** The hierarchy of the square: its four points make a single node
    without children. *)
Definition square_root : SubsetPrivate (PainterAttributeData := baked) :=
  fst (FilledPathPrivate_new square_path).

(** The strip with the corners (0,0), (32,0), (32,8), (0,8): a contour of
    four edges, of which the two long ones are tessellated at every unit,
    66 points in all, more than a node without children may have. *)
Definition strip_path : TessellatedPath :=
  mk_TessellatedPath
    (map (fun i => pt_xy i 0) (zrange 0 33)
     ++ map (fun i => pt_xy (32 - i) 8) (zrange 0 33) ++ [pt_xy 0 0])
    [[(0, 33); (32, 34); (33, 66); (65, 67)]]
    (pt_xy 0 0) (pt_xy 32 8).

(** The hierarchy of the strip: a root and its two children. *)
Definition strip_root : SubsetPrivate (PainterAttributeData := baked) :=
  fst (FilledPathPrivate_new strip_path).

(** No clipping: every box is unclipped, and its polygon is not empty. *)
Definition no_clip (eqs : unit) (bb : BoundingBox) : bool * list vec2 :=
  (true, [min_point bb; max_point bb]).

(** A node is a leaf that is baked or still has its sub-path, or a node
    with children and without sub-path; the constructor makes no others. *)
Fixpoint subset_ok {PainterAttributeData : Type}
    (n : SubsetPrivate (PainterAttributeData := PainterAttributeData)) : Prop :=
  match n with
  | Leaf d => is_Some (m_painter_data d) \/ is_Some (m_sub_path d)
  | Interior d c0 c1 => m_sub_path d = None /\ subset_ok c0 /\ subset_ok c1
  end.

(** ** The construction of the hierarchy *)

(** The number of levels below a node, and the number of its nodes. *)
Fixpoint depth {PainterAttributeData : Type}
    (n : SubsetPrivate (PainterAttributeData := PainterAttributeData)) : nat :=
  match n with
  | Leaf _ => 0
  | Interior _ c0 c1 => S (Nat.max (depth c0) (depth c1))
  end.

Fixpoint nodes {PainterAttributeData : Type}
    (n : SubsetPrivate (PainterAttributeData := PainterAttributeData)) : nat :=
  match n with
  | Leaf _ => 1
  | Interior _ c0 c1 => S (nodes c0 + nodes c1)
  end.

(** The node [n], made for the sub-path [Q] with [r] levels of recursion
    left, is split exactly under the conditions of the specification: a
    node with children was made with recursion left, for a sub-path of
    more than 64 points one of whose halves has strictly fewer points, and
    its children are so for the two halves, with one level less; a node
    without children keeps its sub-path, and either no recursion was
    left, or the sub-path has at most 64 points, or neither half has
    fewer points than the sub-path. *)
Fixpoint split_justified {PainterAttributeData : Type} (Q : SubPath.t) (r : Z)
    (n : SubsetPrivate (PainterAttributeData := PainterAttributeData)) : Prop :=
  let C := SubPath.split Q in
  match n with
  | Leaf d =>
      m_sub_path d = Some Q
      /\ (r <= 0
          \/ SubPath.total_points Q <= SubsetConstants.points_per_subset
          \/ (SubPath.total_points Q <= SubPath.total_points (fst C)
              /\ SubPath.total_points Q <= SubPath.total_points (snd C)))
  | Interior d c0 c1 =>
      0 < r
      /\ SubsetConstants.points_per_subset < SubPath.total_points Q
      /\ (SubPath.total_points (fst C) < SubPath.total_points Q
          \/ SubPath.total_points (snd C) < SubPath.total_points Q)
      /\ m_sub_path d = None
      /\ split_justified (fst C) (r - 1) c0
      /\ split_justified (snd C) (r - 1) c1
  end.

(** Every index list of the hoard is counted. *)
Definition hoard_counted (hoard : gmap Z per_winding_data.t) : Prop :=
  forall k d, hoard !! k = Some d -> counted d.

(** A property of the state of a derived class and of the points holds
    in a state of a [tesser]. *)
Definition state_inv {D : Type} (inv : D * PointHoard.t -> Prop) (p : tesser.t D) : Prop :=
  inv (tesser.derived p, tesser.m_points p).

(** The invariant of the hoard of a [non_zero_tesser] and of its
    points. *)
Definition nz_inv (s : non_zero_tesser.state * PointHoard.t) : Prop :=
  nz_ok (fst s) /\ hoard_counted (non_zero_tesser.m_hoard (fst s)) /\ hoard_ok (snd s).

(** The invariant of the hoard of a [zero_tesser] and of its points. *)
Definition z_inv (s : zero_tesser.state * PointHoard.t) : Prop :=
  buckets_ok (zero_tesser.m_hoard (fst s))
  /\ hoard_counted (zero_tesser.m_hoard (fst s)) /\ hoard_ok (snd s).

(** ** The point hoard *)

(** The key under which the map of a [PointHoard] holds an ID is the
    integer cell of the point stored under that ID. *)
Definition cells_ok (h : PointHoard.t) : Prop :=
  forall ipt id, PointHoard.m_map h !! ipt = Some id ->
    CoordinateConverter.iapply (PointHoard.m_converter h) (PointHoard.pt_of h id) = ipt.

(** The hoard [h'] has the converter and the points of [h], and possibly
    more points after them. *)
Definition hoard_extends (h h' : PointHoard.t) : Prop :=
  PointHoard.m_converter h' = PointHoard.m_converter h
  /\ exists new, PointHoard.m_pts h' = PointHoard.m_pts h ++ new.

(** The ID [id] names, in the hoard [h], a point of the integer cell of
    [pt]. *)
Definition names_cell_of (h : PointHoard.t) (id : Z) (pt : vec2) : Prop :=
  valid_id h id
  /\ CoordinateConverter.iapply (PointHoard.m_converter h) (PointHoard.pt_of h id)
     = CoordinateConverter.iapply (PointHoard.m_converter h) pt.

(** ** The run of a builder *)

(** GLU-tess reports the null ID. *)
Definition is_null_vertex (e : glu_event) : bool :=
  match e with
  | glu_vertex_data v => v =? FASTUIDRAW_GLU_NULL_CLIENT_ID
  | _ => false
  end.

(** An ID that GLU-tess may report: the null ID, or the ID of a point of
    the hoard. *)
Definition id_ok (h : PointHoard.t) (v : Z) : Prop :=
  v = FASTUIDRAW_GLU_NULL_CLIENT_ID \/ valid_id h v.

(** The vertices cached so far are IDs that GLU-tess may report. *)
Definition cache_ok {D : Type} (p : tesser.t D) : Prop :=
  let '(t0, t1, _) := tesser.m_temp_verts p in
  (1 <= tesser.m_temp_vert_count p -> id_ok (tesser.m_points p) t0)
  /\ (2 <= tesser.m_temp_vert_count p -> id_ok (tesser.m_points p) t1).

Definition event_ok {D : Type} (p : tesser.t D) (e : glu_event) : Prop :=
  match e with
  | glu_vertex_data v => id_ok (tesser.m_points p) v
  | _ => True
  end.

(** Every vertex that GLU-tess reports along the calls [es], made from
    the state [p] on, is the null ID or the ID of a point that the hoard
    holds when the vertex is reported. *)
Fixpoint trace_ok {D : Type} `{tesser_methods D} (es : list glu_event)
    (p : tesser.t D) : Prop :=
  match es with
  | [] => True
  | e :: es' => event_ok p e /\ trace_ok es' (tesser.run_event p e)
  end.

(** Every index of the hoard is the ID of a point. *)
Definition indices_valid (hoard : gmap Z per_winding_data.t) (h : PointHoard.t) : Prop :=
  forall k d v, hoard !! k = Some d -> v ∈ per_winding_data.m_indices d -> valid_id h v.

(** The winding set of a point holds the winding numbers of the index
    lists in which the point occurs, and no others. *)
Definition windings_consistent (hoard : gmap Z per_winding_data.t)
    (h : PointHoard.t) : Prop :=
  forall v w, valid_id h v ->
    (w ∈ m_winding (at_ (PointHoard.m_pts h) v) <-> v ∈ indices_of hoard w).

(** Every index list holds whole sub-divided triangles. *)
Definition whole_triangles (hoard : gmap Z per_winding_data.t) : Prop :=
  forall k d, hoard !! k = Some d ->
    (Z.of_nat (length (per_winding_data.m_indices d))) mod 18 = 0.

Section BuilderRun.
Variable gluTess : list glu_contour -> (Z -> bool) -> PointHoard.t -> list glu_event.

(** The calls that GLU-tess makes when [stop()] is called in the state
    [p]. *)
Definition tess_events {D : Type} `{tesser_methods D} (p : tesser.t D) : list glu_event :=
  gluTess (tesser.m_tess p) (fun w => tesser.winding_callBack w p) (tesser.m_points p).

(** The steps of [builder(P, pts)] over an empty vector of points: the
    path of IDs, the state of the [non_zero_tesser] when it stops and after
    the calls of GLU-tess, and the same for the [zero_tesser]. *)
Definition builder_path (P : SubPath.t) : PointHoard.Path * PointHoard.t :=
  PointHoard.generate_path P (PointHoard.new (SubPath.m_bounds P) []).

Definition nz_start (P : SubPath.t) : tesser.t non_zero_tesser.state :=
  tesser.add_bounding_box_path
    (tesser.add_path (fst (builder_path P))
       (tesser.new (snd (builder_path P))
          (non_zero_tesser.mk (SubPath.winding_start P) ∅ 0 None))).

Definition nz_end (P : SubPath.t) : tesser.t non_zero_tesser.state :=
  fold_left tesser.run_event (tess_events (nz_start P)) (nz_start P).

Definition z_start (P : SubPath.t) : tesser.t zero_tesser.state :=
  let k := SubPath.winding_start P in
  let hoard := non_zero_tesser.m_hoard (tesser.derived (nz_end P)) in
  let hoard := match hoard !! k with
               | Some _ => hoard
               | None => <[k := per_winding_data.new k]> hoard
               end in
  tesser.add_path_boundary P
    (tesser.add_bounding_box_path
       (tesser.add_path (fst (builder_path P))
          (tesser.new (tesser.m_points (nz_end P)) (zero_tesser.mk hoard k)))).

Definition z_end (P : SubPath.t) : tesser.t zero_tesser.state :=
  fold_left tesser.run_event (tess_events (z_start P)) (z_start P).

End BuilderRun.

(** A tessellator that reports the triangle of the vertices 0, 1, 2 with
    winding number 1 to the [non_zero_tesser], and with winding number -1
    to the [zero_tesser]. *)
Definition two_pass_triangle (cs : list glu_contour) (fill : Z -> bool)
    (h : PointHoard.t) : list glu_event :=
  if fill 1
  then [glu_begin 1; glu_vertex_data 0; glu_vertex_data 1; glu_vertex_data 2]
  else [glu_begin (-1); glu_vertex_data 0; glu_vertex_data 2; glu_vertex_data 1].

(** The invariant of the index hoard and the points of a tessellation:
    every entry holds the data of its own winding number, the map of the
    points holds positions of their vector, every index is the ID of a
    point, and the winding sets agree with the index lists. *)
Definition run_inv (hoard : gmap Z per_winding_data.t) (h : PointHoard.t) : Prop :=
  buckets_ok hoard /\ hoard_ok h /\ indices_valid hoard h /\ windings_consistent hoard h.

(** The key of the index list to which [add_vertex_to_polygon] adds: for
    a [non_zero_tesser] that of [m_current_indices], for a [zero_tesser]
    that of [m_indices]; none when the pointer is null. *)
Definition nz_cur (d : non_zero_tesser.state) : option Z :=
  match non_zero_tesser.m_current_indices d with
  | Some k => match non_zero_tesser.m_hoard d !! k with
              | Some _ => Some k
              | None => None
              end
  | None => None
  end.

Definition z_cur (d : zero_tesser.state) : option Z :=
  match zero_tesser.m_hoard d !! zero_tesser.m_indices d with
  | Some _ => Some (zero_tesser.m_indices d)
  | None => None
  end.

(** The sub-path of the square. *)
Definition square_sub_path : SubPath.t := SubPath.of_tessellated_path square_path.

(** ** The views of the index array *)

(** The offset of the region of a class of winding numbers in a state of
    the second loop of [fill_indices]. *)
Definition offset_of (s : fill_state) (c : winding_class) : Z :=
  match c with
  | odd_winding => current_odd s
  | even_non_zero_winding => current_even_non_zero s
  | zero_winding => current_zero s
  end.

(** ** The states of the hierarchy *)

Section Hierarchy.
Context {PainterAttributeData : Type}.

(** The data of the nodes below and at [n], the node first, then those of
    its first child, then those of its second child: the order in which
    the constructor appends the nodes to [out_values]. *)
Fixpoint subset_data (n : @SubsetPrivate PainterAttributeData)
    : list (@SubsetData PainterAttributeData) :=
  match n with
  | Leaf d => [d]
  | Interior d c0 c1 => d :: subset_data c0 ++ subset_data c1
  end.

Definition subset_ids (n : @SubsetPrivate PainterAttributeData) : list Z :=
  map m_ID (subset_data n).

(** The data that go with the painter data of a node: the winding
    numbers, in strictly increasing order, and one winding set for each
    attribute. *)
Definition baked_ok (d : @SubsetData PainterAttributeData) : Prop :=
  StronglySorted Z.lt (m_winding_numbers d)
  /\ len (m_windings_per_pt d) = m_num_attributes d.

(** A node without children either still has its sub-path, and then
    neither painter data nor sizes, or it has been made ready from the
    sub-path, which is gone. *)
Definition leaf_inv (d : @SubsetData PainterAttributeData) : Prop :=
  (m_painter_data d = None /\ is_Some (m_sub_path d) /\ m_sizes_ready d = false
   /\ m_winding_numbers d = [])
  \/ (is_Some (m_painter_data d) /\ m_sub_path d = None /\ m_sizes_ready d = true
      /\ baked_ok d).

(** What the assertions of the destructor, of [make_ready_from_children],
    of [make_ready_from_sub_path] and of [select_subsets_all_unculled]
    state of a node: a node with children has no sub-path; when its sizes
    are ready, those of its children are, and its sizes are their sums;
    when its painter data are there, so are its sizes and the painter data
    of its children. *)
Fixpoint node_inv (n : @SubsetPrivate PainterAttributeData) : Prop :=
  match n with
  | Leaf d => leaf_inv d
  | Interior d c0 c1 =>
      m_sub_path d = None /\ node_inv c0 /\ node_inv c1
      /\ (m_sizes_ready d = true ->
          m_sizes_ready (data c0) = true /\ m_sizes_ready (data c1) = true
          /\ m_num_attributes d = m_num_attributes (data c0) + m_num_attributes (data c1)
          /\ m_largest_index_block d
             = m_largest_index_block (data c0) + m_largest_index_block (data c1))
      /\ (is_Some (m_painter_data d) ->
          m_sizes_ready d = true
          /\ is_Some (m_painter_data (data c0)) /\ is_Some (m_painter_data (data c1))
          /\ baked_ok d)
  end.

(** The sizes of a node. *)
Definition sizes (d : @SubsetData PainterAttributeData) : bool * Z * Z :=
  (m_sizes_ready d, m_num_attributes d, m_largest_index_block d).

(** The nodes one walk of a selection can pick below and at [n]: none,
    the node itself, or what the walk picks below the first child followed
    by what it picks below the second; never a node together with a node
    below it. *)
Fixpoint picks (n : @SubsetPrivate PainterAttributeData)
    (ds : list (@SubsetData PainterAttributeData)) : Prop :=
  ds = [] \/ ds = [data n]
  \/ match n with
     | Leaf _ => False
     | Interior _ c0 c1 => exists l0 l1, ds = l0 ++ l1 /\ picks c0 l0 /\ picks c1 l1
     end.

(** The array [dst] with the values [ids] written from the position [c]
    on. *)
Definition written (dst : list Z) (c : Z) (ids : list Z) : list Z :=
  take (Z.to_nat c) dst ++ ids ++ drop (Z.to_nat c + length ids) dst.

(** What a walk of a selection over [n] leaves, [n'] being the node after
    the walk, [s] the selection before it and [s'] the one after it: the
    IDs of picked nodes, each within the two bounds, are written to [dst]
    from [current] on, and [current] is advanced by their number. *)
Definition walk_out (n n' : @SubsetPrivate PainterAttributeData)
    (max_attribute_cnt max_index_cnt : Z) (s s' : selection) : Prop :=
  exists ds,
    picks n' ds
    /\ Forall (fun d => fits d max_attribute_cnt max_index_cnt = true) ds
    /\ sel_current s' = sel_current s + len ds
    /\ sel_dst s' = written (sel_dst s) (sel_current s) (map m_ID ds)
    /\ subset_ids n' = subset_ids n
    /\ nodes n' = nodes n.

End Hierarchy.

Section FilledPathCalls.

Variable gluTess : list glu_contour -> (Z -> bool) -> PointHoard.t -> list glu_event.
Context {PainterAttributeData : Type}.
Variable set_data_filler : AttributeDataFiller.t -> PainterAttributeData.
Variable set_data_merger :
  PainterAttributeData -> PainterAttributeData -> PainterAttributeData.

(** [p->make_ready()] for the node [p] of the hierarchy below and at [n],
    a pointer to a node being the ID of the node. *)
Fixpoint make_ready_at (p : Z) (n : @SubsetPrivate PainterAttributeData)
    : @SubsetPrivate PainterAttributeData :=
  if bool_decide (m_ID (data n) = p)
  then make_ready gluTess set_data_filler set_data_merger n
  else match n with
       | Leaf _ => n
       | Interior d c0 c1 => Interior d (make_ready_at p c0) (make_ready_at p c1)
       end.

(** [FilledPath::subset(I)]: the hierarchy after the call. The source
    asserts [I < m_subsets.size()]; nothing is done for another [I]. *)
Definition FilledPath_subset (fp : @SubsetPrivate PainterAttributeData * list Z) (I : Z)
    : @SubsetPrivate PainterAttributeData * list Z :=
  match snd fp !! Z.to_nat I with
  | Some p => (make_ready_at p (fst fp), snd fp)
  | None => fp
  end.

End FilledPathCalls.
(** ** The halves of a split *)

(** The middle of the bounds, the coordinate and the value at which
    [split] cuts the sub-path [P]. *)
Definition split_mid (P : SubPath.t) : vec2 :=
  vec2_scale F32.half
    (vec2_add (max_point (SubPath.m_bounds P)) (min_point (SubPath.m_bounds P))).

Definition split_coordinate (P : SubPath.t) : Z :=
  SubPath.choose_splitting_coordinate P (split_mid P).

Definition split_value (P : SubPath.t) : spec_float :=
  coord (split_mid P) (split_coordinate P).

(** The point [p] is on the side of the half [half] (0 or 1) of the
    value [sv] of the coordinate [sc]: not above it for the first half,
    not below it for the second, as the comparisons of [float] have
    it. *)
Definition on_side (half sc : Z) (sv : spec_float) (p : SubPath.SubContourPoint) : Prop :=
  if half =? 0
  then F32.leb (coord (SubPath.m_pt p) sc) sv = true
  else F32.geb (coord (SubPath.m_pt p) sc) sv = true.

(** The point [p] is on the splitting line and marked so: for the first
    half the line is the maximum of its box, for the second the
    minimum. *)
Definition on_split_line (half sc : Z) (sv : spec_float)
    (p : SubPath.SubContourPoint) : Prop :=
  coord (SubPath.m_pt p) sc = sv
  /\ SubPath.boundary_type (SubPath.m_boundary_type p) sc
     = (if half =? 0 then SubPath.on_max_boundary else SubPath.on_min_boundary)
  /\ SubPath.m_start_tessellated_edge p = true.

(** A point of a half: on its side, and a point of [src] or a point on
    the splitting line. *)
Definition half_point (half sc : Z) (sv : spec_float)
    (src : list SubPath.SubContourPoint) (p : SubPath.SubContourPoint) : Prop :=
  on_side half sc sv p /\ (p ∈ src \/ on_split_line half sc sv p).

(** The points of all contours of a sub-path. *)
Definition all_points (P : SubPath.t) : list SubPath.SubContourPoint :=
  concat (SubPath.m_contours P).

(** The contours of a half: none is empty, and their points are points of
    the half. *)
Definition half_contours (half sc : Z) (sv : spec_float)
    (src : list SubPath.SubContourPoint) (C : list SubPath.SubContour) : Prop :=
  Forall (Forall (half_point half sc sv src)) C /\ Forall (fun c => c <> []) C.
(** ** DataWriter, as [compute_writer] fills it (lines 982-1016, 2774-2821,
    3018-3100) *)

Module DataWriterChunks.

(** [DataWriterPrivate::per_index_chunk]. *)
Record per_index_chunk := mk_per_index_chunk {
  m_indices : list Z;
  m_attrib_chunk : Z
}.

#[global] Instance per_index_chunk_inhabited : Inhabited per_index_chunk :=
  populate (mk_per_index_chunk [] 0).

(** [DataWriterPrivate] with all its fields: [m_subset_selector],
    [m_index_chunks], and in [m_fields] the attribute chunks and the two
    winding sets that [write_attributes] reads. *)
Record t := mk {
  m_subset_selector : list Z;
  m_index_chunks : list per_index_chunk;
  m_fields : DataWriterPrivate.t
}.

(** [number_attribute_chunks()], [number_index_chunks()] and
    [attribute_chunk_selection(index_chunk)]. *)
Definition number_attribute_chunks (d : t) : Z :=
  Z.of_nat (length (DataWriterPrivate.m_attribute_chunks (m_fields d))).
Definition number_index_chunks (d : t) : Z := Z.of_nat (length (m_index_chunks d)).
Definition attribute_chunk_selection (d : t) (index_chunk : Z) : Z :=
  m_attrib_chunk (at_ (m_index_chunks d) index_chunk).

End DataWriterChunks.

Section ComputeWriter.

Variable gluTess : list glu_contour -> (Z -> bool) -> PointHoard.t -> list glu_event.
Context {PainterAttributeData : Type}.
Variable set_data_filler : AttributeDataFiller.t -> PainterAttributeData.
Variable set_data_merger :
  PainterAttributeData -> PainterAttributeData -> PainterAttributeData.
Context {ClipEquations : Type}.
Variable clip_against_planes : ClipEquations -> BoundingBox -> bool * list vec2.

(** [PainterAttributeData::attribute_data_chunk(i)] and
    [index_data_chunk(i)]; the class is not among the sources. *)
Variable attribute_data_chunk : PainterAttributeData -> Z -> list PainterAttribute.
Variable index_data_chunk : PainterAttributeData -> Z -> list Z.

(** The node that the pointer [p] points to, below and at [n]. *)
Fixpoint node_at (p : Z) (n : @SubsetPrivate PainterAttributeData)
    : option (@SubsetData PainterAttributeData) :=
  if bool_decide (m_ID (data n) = p) then Some (data n)
  else match n with
       | Leaf _ => None
       | Interior _ c0 c1 =>
           match node_at p c0 with
           | Some d => Some d
           | None => node_at p c1
           end
       end.

(** [FilledPath::select_subsets(work_room, clip_equations,
    clip_matrix_local, max_attribute_cnt, max_index_cnt, dst)], the clip
    equations [eqs] being those that [SubsetPrivate::select_subsets]
    leaves in the scratch space: the hierarchy and [dst] after the call,
    and the value returned. *)
Definition FilledPath_select_subsets (fp : @SubsetPrivate PainterAttributeData * list Z)
    (eqs : ClipEquations) (max_attribute_cnt max_index_cnt : Z) (dst : list Z)
    : (@SubsetPrivate PainterAttributeData * list Z) * list Z * Z :=
  let r := select_subsets_implement gluTess set_data_filler clip_against_planes eqs
             (fst fp) max_attribute_cnt max_index_cnt (mk_selection dst 0 []) in
  ((fst r, snd fp), sel_dst (snd r), sel_current (snd r)).

(** [Subset S(subset(I))]: the hierarchy after the call, and the members
    of the node that [S] refers to. *)
Definition subset_read (fp : @SubsetPrivate PainterAttributeData * list Z) (I : Z)
    : (@SubsetPrivate PainterAttributeData * list Z)
      * option (@SubsetData PainterAttributeData) :=
  let fp' := FilledPath_subset gluTess set_data_filler set_data_merger fp I in
  (fp', match snd fp !! Z.to_nat I with
        | Some p => node_at p (fst fp')
        | None => None
        end).

(** [S.winding_numbers()], and [front()] and [back()] of the array. *)
Definition winding_numbers (sub : option (@SubsetData PainterAttributeData)) : list Z :=
  match sub with Some d => m_winding_numbers d | None => [] end.
Definition front (l : list Z) : Z := at_ l 0.
Definition back (l : list Z) : Z := at_ l (Z.of_nat (length l) - 1).

(** [DataWriterPrivate::per_attrib_chunk(sd)]; [painter_data()] asserts
    that the painter data are there. *)
Definition per_attrib_chunk_of (sd : @SubsetData PainterAttributeData)
    : DataWriterPrivate.per_attrib_chunk :=
  DataWriterPrivate.mk_per_attrib_chunk
    (match m_painter_data sd with
     | Some pd => attribute_data_chunk pd 0
     | None => []
     end)
    (m_windings_per_pt sd).

(** [sd->painter_data().index_data_chunk(index_chunk)]. *)
Definition index_chunk_of (sd : @SubsetData PainterAttributeData) (index_chunk : Z)
    : list Z :=
  match m_painter_data sd with
  | Some pd => index_data_chunk pd index_chunk
  | None => []
  end.

(** The body of the first loop of [compute_writer]. *)
Definition winding_range (s : (@SubsetPrivate PainterAttributeData * list Z) * (Z * Z))
    (I : Z) : (@SubsetPrivate PainterAttributeData * list Z) * (Z * Z) :=
  let '(fp, (min_winding, max_winding)) := s in
  let '(fp, sub) := subset_read fp I in
  (fp, (t_min min_winding (front (winding_numbers sub)),
        t_max max_winding (back (winding_numbers sub)))).

Definition ATTRIB_CHUNK_NOT_TAKEN : Z := uint_max.

(** The body of the loop over the winding numbers of a subset. *)
Definition chunk_winding (winding_rule : WindingSet.t)
    (sd : @SubsetData PainterAttributeData)
    (s : list DataWriterPrivate.per_attrib_chunk
         * list DataWriterChunks.per_index_chunk * Z) (w : Z)
    : list DataWriterPrivate.per_attrib_chunk
      * list DataWriterChunks.per_index_chunk * Z :=
  let '(attribute_chunks, index_chunks, attrib_chunk) := s in
  if WindingSet.has winding_rule w then
    let '(attribute_chunks, attrib_chunk) :=
      if attrib_chunk =? ATTRIB_CHUNK_NOT_TAKEN
      then (attribute_chunks ++ [per_attrib_chunk_of sd],
            Z.of_nat (length attribute_chunks))
      else (attribute_chunks, attrib_chunk) in
    let index_chunk := chunk_from_winding_number w in
    let indices := index_chunk_of sd index_chunk in
    (attribute_chunks,
     index_chunks ++ [DataWriterChunks.mk_per_index_chunk indices attrib_chunk],
     attrib_chunk)
  else s.

(** The body of the second loop over the selected subsets. *)
Definition chunk_subset (winding_rule : WindingSet.t)
    (s : (@SubsetPrivate PainterAttributeData * list Z)
         * (list DataWriterPrivate.per_attrib_chunk
            * list DataWriterChunks.per_index_chunk))
    (I : Z)
    : (@SubsetPrivate PainterAttributeData * list Z)
      * (list DataWriterPrivate.per_attrib_chunk
         * list DataWriterChunks.per_index_chunk) :=
  let '(fp, (attribute_chunks, index_chunks)) := s in
  let '(fp, sub) := subset_read fp I in
  match sub with
  | Some sd =>
      let '(attribute_chunks, index_chunks, _) :=
        fold_left (chunk_winding winding_rule sd) (m_winding_numbers sd)
                  (attribute_chunks, index_chunks, ATTRIB_CHUNK_NOT_TAKEN) in
      (fp, (attribute_chunks, index_chunks))
  | None => (fp, (attribute_chunks, index_chunks))
  end.

(** [FilledPath::compute_writer(scratch_space, fill_rule, clip_equations,
    clip_matrix_local, max_attribute_cnt, max_index_cnt, dst)] for a
    [CustomFillRuleBase]: the hierarchy and the writer after the call. *)
Definition compute_writer (fp : @SubsetPrivate PainterAttributeData * list Z)
    (fill_rule : Z -> bool) (eqs : ClipEquations)
    (max_attribute_cnt max_index_cnt : Z) (dst : DataWriterChunks.t)
    : (@SubsetPrivate PainterAttributeData * list Z) * DataWriterChunks.t :=
  let dst_d := DataWriterChunks.m_fields dst in
  let complement := WindingSet.clear (DataWriterPrivate.m_complement_winding_rule dst_d) in
  let selector := resize (length (snd fp)) 0 (DataWriterChunks.m_subset_selector dst) in
  let '(fp, selector, num) :=
    FilledPath_select_subsets fp eqs max_attribute_cnt max_index_cnt selector in
  if num =? 0
  then (fp, DataWriterChunks.mk selector []
              (DataWriterPrivate.mk [] complement (DataWriterPrivate.m_winding_rule dst_d)))
  else
    let '(fp, sub) := subset_read fp (at_ selector 0) in
    let '(fp, (min_winding, max_winding)) :=
      fold_left winding_range (map (at_ selector) (zrange 1 num))
                (fp, (front (winding_numbers sub), back (winding_numbers sub))) in
    let winding_rule :=
      WindingSet.extract_from_fill_fule (DataWriterPrivate.m_winding_rule dst_d)
        min_winding max_winding fill_rule false in
    let complement :=
      WindingSet.extract_from_fill_fule complement min_winding max_winding fill_rule true in
    let '(fp, (attribute_chunks, index_chunks)) :=
      fold_left (chunk_subset winding_rule) (map (at_ selector) (zrange 0 num))
                (fp, ([], [])) in
    (fp, DataWriterChunks.mk selector index_chunks
           (DataWriterPrivate.mk attribute_chunks complement winding_rule)).

End ComputeWriter.

Section HierarchyReads.
Context {PainterAttributeData : Type}.

(** A [FilledPath] whose hierarchy keeps the assertions of the code, and
    whose [m_subsets] lists the nodes as the constructor numbers them:
    the entry [I] is the node of ID [I]. *)
Definition hierarchy_ok (fp : @SubsetPrivate PainterAttributeData * list Z) : Prop :=
  node_inv (fst fp)
  /\ snd fp = subset_ids (fst fp)
  /\ snd fp = map Z.of_nat (seq 0 (length (snd fp))).

(** The nodes that are ready in [n] are ready in [n'], with the same
    members. *)
Definition ready_kept (n n' : @SubsetPrivate PainterAttributeData) : Prop :=
  forall p d, node_at p n = Some d -> is_Some (m_painter_data d) -> node_at p n' = Some d.

(** The node of ID [I] is ready in [n], with the members [d]. *)
Definition ready_node (n : @SubsetPrivate PainterAttributeData) (I : Z)
    (d : @SubsetData PainterAttributeData) : Prop :=
  node_at I n = Some d /\ is_Some (m_painter_data d) /\ baked_ok d.

End HierarchyReads.

Section WriterContents.
Context {PainterAttributeData : Type}.
Variable attribute_data_chunk : PainterAttributeData -> Z -> list PainterAttribute.
Variable index_data_chunk : PainterAttributeData -> Z -> list Z.

(** What a writer is to hold for the subsets [ds] and the fill rule [f]:
    for every subset in turn, and for every winding number of the subset
    that the rule fills, in the order of the winding numbers, the indices
    of the chunk of the winding number, with the attributes of the
    subset. *)
Definition filled_chunks (f : Z -> bool) (ds : list (@SubsetData PainterAttributeData))
    : list (list Z * DataWriterPrivate.per_attrib_chunk) :=
  flat_map (fun d =>
              map (fun w => (index_chunk_of index_data_chunk d (chunk_from_winding_number w),
                             per_attrib_chunk_of attribute_data_chunk d))
                  (List.filter f (m_winding_numbers d)))
           ds.

(** The subsets of which the rule fills a winding number. *)
Definition filled_subsets (f : Z -> bool) (ds : list (@SubsetData PainterAttributeData))
    : list (@SubsetData PainterAttributeData) :=
  List.filter (fun d => existsb f (m_winding_numbers d)) ds.

(** The index chunk [c] holds the indices [fst e] and selects, among the
    attribute chunks [acs], the chunk [snd e]. *)
Definition chunk_matches (acs : list DataWriterPrivate.per_attrib_chunk)
    (c : DataWriterChunks.per_index_chunk)
    (e : list Z * DataWriterPrivate.per_attrib_chunk) : Prop :=
  DataWriterChunks.m_indices c = fst e
  /\ 0 <= DataWriterChunks.m_attrib_chunk c
  /\ acs !! Z.to_nat (DataWriterChunks.m_attrib_chunk c) = Some (snd e).

End WriterContents.
(** ** Where the triangles go *)

(** The polygons that GLU-tess begins in the calls [es] have winding
    numbers of [int] that the fill predicate [accept] accepts. *)
Definition begins_accepted (accept : Z -> bool) (es : list glu_event) : Prop :=
  Forall (fun e => match e with
                   | glu_begin w => is_int w /\ accept w = true
                   | _ => True
                   end) es.

(** The [zero_tesser] adds to the entry [m_indices] only. *)
Definition zero_routes (d d' : zero_tesser.state) : Prop :=
  zero_tesser.m_indices d' = zero_tesser.m_indices d
  /\ (forall k, k <> zero_tesser.m_indices d ->
        zero_tesser.m_hoard d' !! k = zero_tesser.m_hoard d !! k)
  /\ (is_Some (zero_tesser.m_hoard d !! zero_tesser.m_indices d) ->
      is_Some (zero_tesser.m_hoard d' !! zero_tesser.m_indices d)).

(** The [non_zero_tesser] leaves the entry of [m_winding_start] alone, as
    long as [m_current_indices] does not point to it. *)
Definition nz_aside (d : non_zero_tesser.state) : Prop :=
  non_zero_tesser.m_current_indices d <> Some (non_zero_tesser.m_winding_start d).

Definition nz_routes (d d' : non_zero_tesser.state) : Prop :=
  non_zero_tesser.m_winding_start d' = non_zero_tesser.m_winding_start d
  /\ (nz_aside d ->
      nz_aside d'
      /\ non_zero_tesser.m_hoard d' !! non_zero_tesser.m_winding_start d
         = non_zero_tesser.m_hoard d !! non_zero_tesser.m_winding_start d).
(** ** What is handed to GLU-tess *)

(** The vertex handed to GLU-tess for the point of ID [I] of the hoard
    [h], with the fudge count [k]. *)
Definition glu_vertex_of (h : PointHoard.t) (k I : Z) : glu_vertex :=
  let q := CoordinateConverter.apply (PointHoard.m_converter h) (PointHoard.pt_of h I) k in
  mk_glu_vertex (vx q) (vy q) I.

(** The client IDs of the vertices of contours, contour by contour. *)
Definition glu_ids (cs : list glu_contour) : list (list Z) :=
  map (fun c => map glu_id (glu_vertices c)) cs.

(** ** Emission of an accepted triangle, by either tessellator *)

(** The state of a [zero_tesser] as its constructor sets it up: every
    entry of the hoard holds the data of its own winding number, and
    [m_indices] points to an entry of the hoard, which the constructor
    creates when it is not there. *)
Definition z_ok (d : zero_tesser.state) : Prop :=
  buckets_ok (zero_tesser.m_hoard d)
  /\ is_Some (zero_tesser.m_hoard d !! zero_tesser.m_indices d).

(** The triangle [(a, b, c)], of IDs of points of the hoard of the tesser
    [p], is one that [vertex_callBack] accepts; the map of the hoard
    holds positions of its vector of points. *)
Definition accepted_triangle {D : Type} (p : tesser.t D) (a b c : Z) : Prop :=
  hoard_ok (tesser.m_points p)
  /\ valid_id (tesser.m_points p) a
  /\ valid_id (tesser.m_points p) b
  /\ valid_id (tesser.m_points p) c
  /\ accepted_by_area (with_temp_verts p (a, b, c)).

(** What [begin_callBack(w)] and the [vertex_callBack]s of [a], [b] and
    [c] make of the tesser [p], whose derived class keeps the hoard
    [hoard_of]: the midpoints [m_ab], [m_ac], [m_bc] and the centroid [g]
    are fetched from the [PointHoard], in this order; the 18 indices of
    the six triangles are appended to the index list of the winding
    number [W], and no other index list changes; [W] is in the winding
    set of each of the seven vertices; the points are those that the four
    fetches leave, and the failure flag is as it was. *)
Definition emitted_as_six {D : Type} `{tesser_methods D}
    (hoard_of : D -> gmap Z per_winding_data.t)
    (p : tesser.t D) (w a b c W : Z) : Prop :=
  let pa := PointHoard.pt_of (tesser.m_points p) a in
  let pb := PointHoard.pt_of (tesser.m_points p) b in
  let pc := PointHoard.pt_of (tesser.m_points p) c in
  let '(m_ab, h1) :=
    PointHoard.fetch (vec2_scale F32.half (vec2_add pa pb)) (tesser.m_points p) in
  let '(m_ac, h2) := PointHoard.fetch (vec2_scale F32.half (vec2_add pa pc)) h1 in
  let '(m_bc, h3) := PointHoard.fetch (vec2_scale F32.half (vec2_add pb pc)) h2 in
  let '(g, h4) :=
    PointHoard.fetch (vec2_div (vec2_add (vec2_add pa pb) pc) F32.three) h3 in
  let hoard := hoard_of (tesser.derived p) in
  let p' := fold_left tesser.run_event
              [glu_begin w; glu_vertex_data a; glu_vertex_data b; glu_vertex_data c] p in
  let hoard' := hoard_of (tesser.derived p') in
  (exists bk, hoard' !! W = Some bk
     /\ per_winding_data.m_indices bk
        = indices_of hoard W
          ++ [a; m_ab; g;  a; g; m_ac;  g; b; m_bc;
              m_ab; b; g;  m_ac; g; c;  g; m_bc; c]
     /\ per_winding_data.count bk = count_of hoard W + 18
     /\ per_winding_data.winding_number bk = W)
  /\ (forall k, k <> W -> hoard' !! k = hoard !! k)
  /\ (forall v, v ∈ [a; b; c; m_ab; m_ac; m_bc; g] ->
        W ∈ m_winding (at_ (PointHoard.m_pts (tesser.m_points p')) v))
  /\ map m_pt (PointHoard.m_pts (tesser.m_points p')) = map m_pt (PointHoard.m_pts h4)
  /\ tesser.m_triangulation_failed p' = tesser.m_triangulation_failed p.

(** A [zero_tesser] over the points (0,0), (1,0), (0,1) of a sub-path
    whose winding start is 0, before GLU-tess reports the triangle of the
    three. *)
Definition zero_triangle_tesser : tesser.t zero_tesser.state :=
  tesser.new (unit_hoard [pt_xy 0 0; pt_xy 1 0; pt_xy 0 1])
             (zero_tesser.mk {[0 := per_winding_data.new 0]} 0).

(** A [non_zero_tesser] over the same points, of a sub-path whose winding
    start is 1. *)
Definition biased_triangle_tesser : tesser.t non_zero_tesser.state :=
  tesser.new (unit_hoard [pt_xy 0 0; pt_xy 1 0; pt_xy 0 1])
             (non_zero_tesser.mk 1 ∅ 0 None).

(** The winding sets of the points [l] of a tesser, as lists. *)
Definition winding_sets {D : Type} (p : tesser.t D) (l : list Z) : list (list Z) :=
  map (fun v => elements (m_winding (at_ (PointHoard.m_pts (tesser.m_points p)) v))) l.

(** * Properties *)

(** ** Machine integers *)

Lemma wrap_int_id z : is_int z -> wrap_int z = z.
Proof.
  unfold is_int, int_min, int_max, wrap_int. intros Hz.
  rewrite Z.mod_small; lia.
Qed.

Lemma wrap_uint_id z : is_uint z -> wrap_uint z = z.
Proof.
  unfold is_uint, uint_max, wrap_uint. intros Hz.
  rewrite Z.mod_small; lia.
Qed.

Lemma wrap_int_is_int z : is_int (wrap_int z).
Proof.
  unfold is_int, int_min, int_max, wrap_int.
  pose proof (Z.mod_pos_bound (z + 2 ^ 31) (2 ^ 32) ltac:(lia)). lia.
Qed.

(** A wrapped signed result differs from the exact one by a multiple of
    [2^32]. *)
Lemma wrap_int_congr z : exists k, wrap_int z = z + k * 2 ^ 32.
Proof.
  exists (- ((z + 2 ^ 31) / 2 ^ 32)). unfold wrap_int.
  rewrite (Z.mod_eq (z + 2 ^ 31) (2 ^ 32)) by lia. lia.
Qed.

Lemma wrap_uint_wrap_int z : wrap_uint (wrap_int z) = wrap_uint z.
Proof.
  destruct (wrap_int_congr z) as [k ->]. unfold wrap_uint.
  apply Z.mod_add. lia.
Qed.

Lemma wrap_uint_add_wrap_int a b :
  wrap_uint (wrap_int a + wrap_int b) = wrap_uint (a + b).
Proof.
  destruct (wrap_int_congr a) as [k ->]. destruct (wrap_int_congr b) as [l ->].
  unfold wrap_uint.
  replace (a + k * 2 ^ 32 + (b + l * 2 ^ 32)) with (a + b + (k + l) * 2 ^ 32) by lia.
  apply Z.mod_add. lia.
Qed.

Lemma wrap_uint_mul_wrap_int a b : wrap_uint (a * wrap_int b) = wrap_uint (a * b).
Proof.
  destruct (wrap_int_congr b) as [k ->]. unfold wrap_uint.
  replace (a * (b + k * 2 ^ 32)) with (a * b + (a * k) * 2 ^ 32) by lia.
  apply Z.mod_add. lia.
Qed.

Lemma t_abs_abs a : is_int a -> a <> int_min -> t_abs a = Z.abs a.
Proof.
  unfold is_int, int_min, int_max, t_abs. intros Ha Hm.
  destruct (Z.ltb_spec a 0).
  - rewrite wrap_int_id by (unfold is_int, int_min, int_max; lia). lia.
  - lia.
Qed.

(** ** The fill rules *)

Lemma rem_2_nonneg a : 0 <= a -> Z.rem a 2 = 0 \/ Z.rem a 2 = 1.
Proof. intros Ha. pose proof (Z.rem_bound_pos a 2 Ha ltac:(lia)). lia. Qed.

(** C10: for every [int] [w], the complement of the odd-even rule is the
    negation of the odd-even rule, also for a negative odd [w], whose
    remainder by 2 is -1 in C++ while the odd-even rule tests the
    remainder of [|w|]; and the complement of the non-zero rule is the
    negation of the non-zero rule. *)
Theorem complement_fill_rules_negate (w : Z) (Hw : is_int w) :
  fcn_complement_odd_even_fill_rule w = negb (fcn_odd_even_fill_rule w)
  /\ fcn_complelemt_non_zero_fill_rule w = negb (fcn_non_zero_fill_rule w).
Proof.
  split.
  - unfold fcn_complement_odd_even_fill_rule, fcn_odd_even_fill_rule.
    destruct (Z.eq_dec w int_min) as [-> | Hmin]; [reflexivity |].
    rewrite t_abs_abs by assumption.
    destruct (Z.le_ge_cases 0 w) as [Hpos | Hneg].
    + rewrite Z.abs_eq by assumption.
      destruct (rem_2_nonneg w Hpos) as [-> | ->]; reflexivity.
    + rewrite Z.abs_neq by assumption.
      rewrite Z.rem_opp_l by lia.
      destruct (rem_2_nonneg (- w) ltac:(lia)) as [E | E];
        rewrite Z.rem_opp_l in E by lia.
      * replace (Z.rem w 2) with 0 by lia. reflexivity.
      * replace (Z.rem w 2) with (-1) by lia. reflexivity.
  - unfold fcn_complelemt_non_zero_fill_rule, fcn_non_zero_fill_rule.
    now rewrite negb_involutive.
Qed.

Lemma complement_fill_rules_negate_witness :
  is_int (-3)
  /\ fcn_complement_odd_even_fill_rule (-3) = negb (fcn_odd_even_fill_rule (-3))
  /\ fcn_complelemt_non_zero_fill_rule (-3) = negb (fcn_non_zero_fill_rule (-3)).
Proof.
  assert (H : is_int (-3)) by (unfold is_int, int_min, int_max; lia).
  split; [exact H | exact (complement_fill_rules_negate (-3) H)].
Defined.

(** ** Chunk numbering *)

Lemma chunk_from_winding_number_formula w :
  chunk_domain w -> chunk_from_winding_number w = chunk_formula w.
Proof.
  unfold chunk_domain, int_max. intros [Hw Hr].
  unfold chunk_from_winding_number, chunk_formula.
  destruct (Z.eqb_spec w 0) as [| _]; [contradiction |].
  rewrite t_abs_abs by (unfold is_int, int_min, int_max; lia).
  rewrite wrap_uint_wrap_int, wrap_uint_add_wrap_int.
  unfold wrap_uint at 1. rewrite <- Zplus_mod_idemp_r.
  change ((2 * wrap_int (Z.abs w - 1)) mod 2 ^ 32)
    with (wrap_uint (2 * wrap_int (Z.abs w - 1))).
  rewrite wrap_uint_mul_wrap_int. unfold wrap_uint.
  rewrite Zplus_mod_idemp_r.
  unfold PainterEnums.fill_rule_data_count.
  destruct (Z.ltb_spec w 0); rewrite Z.mod_small; lia.
Qed.

(** C6, as amended: [chunk_from_winding_number(0)] is the chunk of the
    complement of the non-zero rule, which is 3, the last of the reserved
    chunks 0..3; a winding number [w <> 0] with [|w| <= 2^31 - 2] has the
    chunk [4 + 2 (|w| - 1) + (1 if w < 0 else 0)], which is none of the
    reserved chunks 0..3, and two such winding numbers with the same
    chunk are equal. *)
Theorem chunk_from_winding_number_spec (w w' : Z)
    (Hw : chunk_domain w) (Hw' : chunk_domain w') :
  chunk_from_winding_number 0 = PainterEnums.complement_nonzero_fill_rule
  /\ PainterEnums.complement_nonzero_fill_rule = 3
  /\ chunk_from_winding_number w
     = 4 + 2 * (Z.abs w - 1) + (if w <? 0 then 1 else 0)
  /\ 4 <= chunk_from_winding_number w
  /\ (chunk_from_winding_number w = chunk_from_winding_number w' -> w = w').
Proof.
  split; [reflexivity |]. split; [reflexivity |].
  rewrite !chunk_from_winding_number_formula by assumption.
  unfold chunk_formula.
  destruct Hw as [Hw _], Hw' as [Hw' _].
  split; [reflexivity |].
  destruct (Z.ltb_spec w 0), (Z.ltb_spec w' 0); lia.
Qed.

Lemma chunk_from_winding_number_spec_witness :
  chunk_domain (-2) /\ chunk_domain 3
  /\ chunk_from_winding_number (-2) = 7 /\ chunk_from_winding_number 3 = 8.
Proof.
  assert (H2 : chunk_domain (-2)) by (unfold chunk_domain, int_max; simpl; lia).
  assert (H3 : chunk_domain 3) by (unfold chunk_domain, int_max; simpl; lia).
  pose proof (chunk_from_winding_number_spec (-2) 3 H2 H3) as (_ & _ & E & _).
  pose proof (chunk_from_winding_number_spec 3 (-2) H3 H2) as (_ & _ & E' & _).
  exact (conj H2 (conj H3 (conj E E'))).
Defined.

(** C6, as stated, fails at the winding number 0, whose chunk is 3 and not
    2, and at the three winding numbers of largest absolute value: there
    [4 + 2 (|w| - 1) + (1 if w < 0 else 0)] is 2^32 or more, which is no
    [unsigned int], and the [int] arithmetic of the function wraps around
    to the reserved chunks 0, 1 and 3, the last of which is the chunk of
    the winding number 0 as well. *)
Lemma chunk_from_winding_number_off_spec :
  (chunk_from_winding_number 0 = 3 /\ chunk_from_winding_number 0 <> 2)
  /\ (is_int int_max /\ int_max <> 0
      /\ chunk_formula int_max = 2 ^ 32
      /\ chunk_from_winding_number int_max = 0)
  /\ (is_int (- int_max) /\ - int_max <> 0
      /\ chunk_formula (- int_max) = 2 ^ 32 + 1
      /\ chunk_from_winding_number (- int_max) = 1)
  /\ (is_int int_min /\ int_min <> 0
      /\ chunk_formula int_min = 2 ^ 32 + 3
      /\ chunk_from_winding_number int_min = chunk_from_winding_number 0).
Proof.
  unfold is_int, int_min, int_max.
  repeat split; try lia; try discriminate; vm_compute; reflexivity.
Qed.

(** The enumeration as this file has it meets what the sources ask of
    it: the four enumerators are distinct, none is negative, and each is
    below [fill_rule_data_count]. *)
Lemma fill_rule_enumerators :
  NoDup [PainterEnums.odd_even_fill_rule; PainterEnums.nonzero_fill_rule;
         PainterEnums.complement_odd_even_fill_rule;
         PainterEnums.complement_nonzero_fill_rule]
  /\ Forall (fun e => 0 <= e < PainterEnums.fill_rule_data_count)
            [PainterEnums.odd_even_fill_rule; PainterEnums.nonzero_fill_rule;
             PainterEnums.complement_odd_even_fill_rule;
             PainterEnums.complement_nonzero_fill_rule].
Proof.
  split.
  - unfold PainterEnums.odd_even_fill_rule, PainterEnums.nonzero_fill_rule,
      PainterEnums.complement_odd_even_fill_rule,
      PainterEnums.complement_nonzero_fill_rule.
    repeat (apply NoDup_cons_2;
            [intros Hin;
             repeat (apply elem_of_cons in Hin as [Hin | Hin]; [discriminate |]);
             inversion Hin |]).
    apply NoDup_nil_2.
  - repeat constructor; discriminate.
Qed.

(** The sizes and the stores of a filler whose only winding number is 0:
    [index_chunks] has [1 + complement_nonzero_fill_rule] elements, and
    [fill_data] stores a chunk at each of the four enumerators. *)
Lemma zero_only_filler_chunks (f : AttributeDataFiller.t) (c : c_array) :
  entries (AttributeDataFiller.m_per_fill f) = [(0, c)] ->
  AttributeDataFiller.number_index_chunks (AttributeDataFiller.compute_sizes f)
  = 1 + PainterEnums.complement_nonzero_fill_rule
  /\ map fst (AttributeDataFiller.fill_data_index_chunks f)
     = [PainterEnums.odd_even_fill_rule; PainterEnums.nonzero_fill_rule;
        PainterEnums.complement_odd_even_fill_rule;
        PainterEnums.complement_nonzero_fill_rule].
Proof.
  intros E.
  unfold AttributeDataFiller.compute_sizes, AttributeDataFiller.fill_data_index_chunks.
  rewrite E. split; reflexivity.
Qed.

(** Four pairwise distinct positions, none negative, in an array of
    [1 + d] elements, of which [d] is one: [d] is at least 3. Whatever
    values the header gives the enumerators, the chunk of the winding
    number 0 is not below 3. *)
Lemma last_store_is_largest (a b c d : Z) :
  NoDup [a; b; c; d] -> Forall (fun e => 0 <= e < 1 + d) [a; b; c; d] -> 3 <= d.
Proof.
  intros Hnd Hb.
  assert (Hne : a <> b /\ a <> c /\ a <> d /\ b <> c /\ b <> d /\ c <> d).
  { apply NoDup_cons in Hnd as [Ha Hnd]. apply NoDup_cons in Hnd as [Hb' Hnd].
    apply NoDup_cons in Hnd as [Hc _].
    repeat split; intros ->; set_solver. }
  apply Forall_cons in Hb as [Ba Hb]. apply Forall_cons in Hb as [Bb Hb].
  apply Forall_cons in Hb as [Bc _]. lia.
Qed.

(** ** Degenerate contours *)

Ltac corner_cases a :=
  match goal with
  | H : 0 <= a <= 3 |- _ =>
      let E := fresh "E" in
      assert (E : a = 0 \/ a = 1 \/ a = 2 \/ a = 3) by lia;
      clear H; destruct E as [-> | [-> | [-> | ->]]]
  end.

Lemma corner_code_range bt :
  SubPath.is_corner_bt bt = true -> 0 <= corner_code bt <= 3.
Proof.
  unfold corner_code. intros ->.
  unfold box_max_x_flag, box_max_y_flag.
  repeat case_bool_decide; lia.
Qed.

(** The table of [box_next_neighbor] is the 4-cycle of the
    specification. *)
Lemma next_in_cycle_unfold a b :
  next_in_cycle a b
  = ((0 =? a) && (2 =? b)) || (((2 =? a) && (3 =? b))
    || (((3 =? a) && (1 =? b)) || (((1 =? a) && (0 =? b)) || false))).
Proof. reflexivity. Qed.

Lemma box_next_neighbor_cycle a b :
  0 <= a <= 3 -> (b =? box_next_neighbor a) = next_in_cycle a b.
Proof.
  intros Ha. rewrite next_in_cycle_unfold.
  corner_cases a; cbn [box_next_neighbor];
    change box_min_x_max_y with 2; change box_min_x_min_y with 0;
    change box_max_x_max_y with 3; change box_max_x_min_y with 1;
    destruct b as [| [[]|[]|] | ]; reflexivity.
Qed.

Lemma next_in_cycle_range a b : next_in_cycle a b = true -> 0 <= a <= 3 /\ 0 <= b <= 3.
Proof.
  rewrite next_in_cycle_unfold.
  rewrite !orb_true_iff, !andb_true_iff, !Z.eqb_eq. lia.
Qed.

(** No step is both a forward and a backward step. *)
Lemma next_in_cycle_asym a b : next_in_cycle a b = true -> next_in_cycle b a = false.
Proof.
  intros Hab. destruct (next_in_cycle_range a b Hab) as [Ha Hb].
  corner_cases a; corner_cases b; vm_compute in Hab |- *; congruence.
Qed.

Lemma count_steps_cons f st l :
  count_steps f (st :: l) = (if f st then 1 else 0) + count_steps f l.
Proof.
  unfold count_steps. rewrite filter_cons.
  destruct (f st) eqn:E; case_decide; try congruence; simpl length; lia.
Qed.

Lemma corner_walk_spec C :
  Forall point_ok C ->
  forall prev fw bw, 0 <= prev <= 3 ->
  SubPath.corner_walk C prev fw bw
  = if forallb SubPath.is_corner_point C
       && forallb (fun st => forward_step st || backward_step st) (steps_from prev C)
    then Some (fw + count_steps forward_step (steps_from prev C),
               bw + count_steps backward_step (steps_from prev C))
    else None.
Proof.
  induction 1 as [| p rest Hp Hrest IH]; intros prev fw bw Hprev.
  - cbn. unfold count_steps. cbn. do 2 f_equal; lia.
  - cbn [SubPath.corner_walk steps_from forallb].
    destruct (SubPath.is_corner_point p) eqn:Hc; cbn [negb andb]; [| reflexivity].
    assert (Hct : 0 <= SubPath.corner_point_type p <= 3).
    { unfold SubPath.corner_point_type. rewrite Hp.
      apply corner_code_range. exact Hc. }
    rewrite !count_steps_cons.
    rewrite box_next_neighbor_cycle by exact Hprev.
    rewrite (box_next_neighbor_cycle (SubPath.corner_point_type p) prev) by exact Hct.
    unfold forward_step at 1 3, backward_step at 1 3. cbn [fst snd].
    destruct (next_in_cycle prev (SubPath.corner_point_type p)) eqn:Hf.
    + rewrite (next_in_cycle_asym _ _ Hf). cbn [orb andb].
      rewrite IH by exact Hct.
      destruct (_ && _); [| reflexivity]. do 2 f_equal; lia.
    + destruct (next_in_cycle (SubPath.corner_point_type p) prev) eqn:Hb.
      * cbn [orb andb]. rewrite IH by exact Hct.
        destruct (_ && _); [| reflexivity]. do 2 f_equal; lia.
      * cbn [orb andb]. now rewrite andb_false_r.
Qed.

Lemma forallb_back (f : SubPath.SubContourPoint -> bool) C :
  C <> [] -> forallb f C = true -> f (SubPath.back C) = true.
Proof.
  intros Hne Hall. rewrite forallb_forall in Hall. apply Hall.
  unfold SubPath.back.
  destruct (exists_last Hne) as (l & x & ->).
  rewrite last_last. apply in_or_app. right. now left.
Qed.

Lemma Forall_back (P : SubPath.SubContourPoint -> Prop) C :
  C <> [] -> Forall P C -> P (SubPath.back C).
Proof.
  intros Hne Hall. unfold SubPath.back.
  destruct (exists_last Hne) as (l & x & ->).
  rewrite last_last. apply Forall_app in Hall as [_ Hx]. now inversion Hx.
Qed.

(** C2: [post_process_sub_contour] empties the contour and returns
    (backwards - forwards) / 4 exactly when the contour is not empty, all
    its points are corner points, every step of the closed contour goes to
    the next or to the previous corner of the cycle mm, mM, MM, Mm, and
    backwards - forwards is a multiple of 4; in every other case it
    returns 0 and leaves the contour as it is. *)
Theorem post_process_sub_contour_spec (C : SubPath.SubContour)
    (Hok : Forall point_ok C) :
  SubPath.post_process_sub_contour C
  = if degenerate_boundary C
    then (Z.quot (backwards C - forwards C) 4, [])
    else (0, C).
Proof.
  unfold SubPath.post_process_sub_contour, degenerate_boundary.
  case_bool_decide as Hne; cbn [orb negb andb]; [reflexivity |].
  destruct (forallb SubPath.is_corner_point C) eqn:Hall.
  - rewrite (forallb_back _ C Hne Hall). cbn [negb andb].
    assert (Hprev : 0 <= SubPath.corner_point_type (SubPath.back C) <= 3).
    { unfold SubPath.corner_point_type.
      rewrite (Forall_back point_ok C Hne Hok).
      apply corner_code_range. exact (forallb_back _ C Hne Hall). }
    rewrite (corner_walk_spec C Hok _ 0 0 Hprev), Hall. cbn [andb].
    fold (cyclic_steps C).
    destruct (forallb _ (cyclic_steps C)); [| reflexivity].
    unfold backwards, forwards, count_steps. rewrite !Z.add_0_l.
    reflexivity.
  - cbn [andb].
    destruct (SubPath.is_corner_point (SubPath.back C)); cbn [negb]; [| reflexivity].
    assert (Hw : forall prev fw bw, SubPath.corner_walk C prev fw bw = None).
    { clear Hne Hok. induction C as [| p rest IH]; [discriminate |].
      intros prev fw bw. cbn in Hall |- *.
      destruct (SubPath.is_corner_point p); cbn in Hall |- *; [| reflexivity].
      repeat (destruct (_ =? _)); auto. }
    now rewrite Hw.
Qed.

Lemma post_process_sub_contour_spec_witness :
  Forall point_ok once_around
  /\ SubPath.post_process_sub_contour once_around = (-1, []).
Proof.
  assert (H : Forall point_ok once_around) by (repeat constructor).
  split; [exact H |].
  rewrite (post_process_sub_contour_spec once_around H). reflexivity.
Defined.

(** The constructors of [SubContourPoint] establish the invariant, and
    the contours that [split_contour] hands to [post_process_sub_contour]
    keep it. *)
Lemma new_point_ok p start : point_ok (SubPath.new_point p start).
Proof. reflexivity. Qed.

Lemma new_split_point_ok a b pt split_coordinate tp :
  point_ok (SubPath.new_split_point a b pt split_coordinate tp).
Proof.
  unfold point_ok, SubPath.new_split_point, corner_code. cbn.
  destruct (SubPath.is_corner_bt _); [| reflexivity].
  repeat case_bool_decide; reflexivity.
Qed.

Lemma split_step_ok sc sv s prev pt :
  Forall point_ok (fst s) -> Forall point_ok (snd s) -> point_ok pt ->
  Forall point_ok (fst (SubPath.split_step sc sv s prev pt))
  /\ Forall point_ok (snd (SubPath.split_step sc sv s prev pt)).
Proof.
  destruct s as [C0 C1]. cbn [fst snd]. intros H0 H1 Hpt.
  unfold SubPath.split_step. cbn [fst snd].
  split; repeat (destruct (negb _) || destruct (F32.leb _ _) || destruct (F32.geb _ _));
    repeat (apply Forall_app; split); auto using new_split_point_ok.
Qed.

Lemma fold_split_step_ok sc sv src :
  Forall point_ok src ->
  forall s prev,
  Forall point_ok (fst s) -> Forall point_ok (snd s) ->
  Forall point_ok (fst (SubPath.fold_prev (SubPath.split_step sc sv) s prev src))
  /\ Forall point_ok (snd (SubPath.fold_prev (SubPath.split_step sc sv) s prev src)).
Proof.
  induction 1 as [| pt rest Hpt Hrest IH]; intros s prev H0 H1; cbn.
  - auto.
  - destruct (split_step_ok sc sv s prev pt H0 H1 Hpt). apply IH; assumption.
Qed.

(** ** Winding sets *)

Lemma elem_of_zrange x a b : x ∈ zrange a b <-> a <= x < b.
Proof.
  unfold zrange. rewrite list_elem_of_fmap. split.
  - intros (k & -> & Hk). apply list_elem_of_In, in_seq in Hk. lia.
  - intros Hx. exists (Z.to_nat (x - a)). split; [lia |].
    apply list_elem_of_In, in_seq. lia.
Qed.

Section WindingSetFacts.
Import WindingSet.

Lemma length_set pos val bits : length (set pos val bits) = length bits.
Proof. unfold set. destruct (pos <? 0); [reflexivity | apply length_insert]. Qed.

Lemma test_set pos val bits q :
  0 <= pos < Z.of_nat (length bits) ->
  test (set pos val bits) q = if decide (q = pos) then val else test bits q.
Proof.
  intros Hpos. unfold test, set.
  destruct (Z.ltb_spec pos 0); [lia |].
  case_decide as Hq.
  - subst q. destruct (Z.ltb_spec pos 0); [lia |].
    rewrite list_lookup_insert_eq by lia. reflexivity.
  - destruct (Z.ltb_spec q 0); [reflexivity |].
    rewrite list_lookup_insert_ne by lia. reflexivity.
Qed.

Lemma length_resize n bits : 0 <= n -> Z.of_nat (length (resize n bits)) = n.
Proof.
  intros Hn. unfold resize. rewrite length_app, length_take, length_replicate. lia.
Qed.

Lemma test_replicate_false n q : test (replicate n false) q = false.
Proof.
  unfold test. destruct (q <? 0); [reflexivity |].
  destruct (replicate n false !! Z.to_nat q) as [b |] eqn:E; [| reflexivity].
  apply lookup_replicate in E as [-> _]. reflexivity.
Qed.

(** The bits after a loop that sets the bit of every [w] in [ws] to
    [f w]. *)
Lemma test_fold_set (f : Z -> bool) b ws :
  forall bits x,
  (forall w, w ∈ ws -> 0 <= w - b < Z.of_nat (length bits)) ->
  test (fold_left (fun bits w => set (w - b) (f w) bits) ws bits) (x - b)
  = if decide (x ∈ ws) then f x else test bits (x - b).
Proof.
  induction ws as [| w ws IH]; intros bits x Hr; cbn [fold_left].
  - case_decide as Hx; [inversion Hx | reflexivity].
  - rewrite IH by (intros w' Hw'; rewrite length_set; apply Hr; now right).
    rewrite test_set by (apply Hr; now left).
    destruct (decide (x ∈ ws)) as [Hx | Hx].
    + rewrite decide_True by (now right). reflexivity.
    + destruct (decide (x - b = w - b)) as [E | E].
      * assert (x = w) by lia. subst x.
        rewrite decide_True by (now left). reflexivity.
      * rewrite decide_False; [reflexivity |].
        intros Hin. apply elem_of_cons in Hin as [-> | Hin]; [lia | contradiction].
Qed.

Lemma has_extract_from_fill_fule s min_value max_value fill_rule flip w :
  is_int (max_value + 1) -> min_value <= max_value + 1 ->
  has (extract_from_fill_fule s min_value max_value fill_rule flip) w
  = (min_value <=? w) && (w <=? max_value) && negb (eqb (fill_rule w) flip).
Proof.
  intros Hmax Hle. unfold has, extract_from_fill_fule. cbn [m_begin m_end m_bits].
  rewrite wrap_int_id by exact Hmax.
  destruct (Z.leb_spec min_value w); cbn [andb]; [| reflexivity].
  destruct (Z.leb_spec w max_value).
  - destruct (Z.ltb_spec w (max_value + 1)); [| lia]. cbn [andb].
    rewrite (test_fold_set (fun w => negb (eqb (fill_rule w) flip))).
    + rewrite decide_True by (apply elem_of_zrange; lia). reflexivity.
    + intros w' Hw'. apply elem_of_zrange in Hw'. rewrite length_resize; lia.
  - destruct (Z.ltb_spec w (max_value + 1)); [lia | reflexivity].
Qed.

Lemma set_first_le (S : gset Z) x : x ∈ S -> set_first S <= x.
Proof.
  intros Hx. apply elem_of_elements in Hx. unfold set_first.
  destruct (elements S) as [| y l]; [inversion Hx |].
  revert Hx. generalize y. clear y. induction l as [| z l IH]; intros y Hx; cbn.
  - apply list_elem_of_singleton in Hx. lia.
  - apply elem_of_cons in Hx as [-> | Hx].
    + specialize (IH y ltac:(now left)). lia.
    + apply elem_of_cons in Hx as [-> | Hx]; [lia |].
      specialize (IH y ltac:(now right)).
      assert (Hz : fold_right Z.min y l <= x).
      { clear IH. induction l as [| u l IHl]; [inversion Hx |].
        cbn. apply elem_of_cons in Hx as [-> | Hx]; [lia |].
        specialize (IHl Hx). lia. }
      lia.
Qed.

Lemma set_last_ge (S : gset Z) x : x ∈ S -> x <= set_last S.
Proof.
  intros Hx. apply elem_of_elements in Hx. unfold set_last.
  destruct (elements S) as [| y l]; [inversion Hx |].
  assert (Hy : y <= fold_right Z.max y l).
  { clear Hx. induction l as [| u l IHl]; cbn; lia. }
  apply elem_of_cons in Hx as [-> | Hx]; [exact Hy |].
  clear Hy. induction l as [| u l IHl]; [inversion Hx |].
  cbn. apply elem_of_cons in Hx as [-> | Hx]; [lia |].
  specialize (IHl Hx). lia.
Qed.

Lemma set_last_elem (S : gset Z) : S <> ∅ -> set_last S ∈ S.
Proof.
  intros Hne. unfold set_last.
  destruct (elements S) as [| y l] eqn:E.
  { apply elements_empty_inv in E. apply leibniz_equiv in E. contradiction. }
  assert (H : fold_right Z.max y l ∈ y :: l).
  { clear E. induction l as [| u l IHl]; cbn; [now left |].
    destruct (Z.max_spec u (fold_right Z.max y l)) as [[_ ->] | [_ ->]].
    - apply elem_of_cons in IHl as [-> | IHl]; [now left | right; now right].
    - right. now left. }
  rewrite <- E in H. now apply elem_of_elements in H.
Qed.

Lemma has_extract_from_set s (S : gset Z) w :
  (forall x, x ∈ S -> is_int (x + 1)) ->
  has (extract_from_set s S) w = bool_decide (w ∈ S).
Proof.
  intros Hint. unfold extract_from_set.
  case_bool_decide as He.
  - subst S. unfold has. cbn. rewrite bool_decide_eq_false_2 by set_solver.
    destruct (_ && _); [| reflexivity].
    unfold test. now destruct (_ <? _).
  - unfold has. cbn [m_begin m_end m_bits].
    rewrite wrap_int_id by (apply Hint, set_last_elem, He).
    destruct (decide (w ∈ S)) as [Hw | Hw].
    + rewrite bool_decide_eq_true_2 by exact Hw.
      pose proof (set_first_le S w Hw). pose proof (set_last_ge S w Hw).
      destruct (Z.leb_spec (set_first S) w); [| lia].
      destruct (Z.ltb_spec w (set_last S + 1)); [| lia]. cbn [andb].
      rewrite (test_fold_set (fun _ => true)).
      * rewrite decide_True; [reflexivity |].
        rewrite merge_sort_Permutation. now apply elem_of_elements.
      * intros x Hx. rewrite merge_sort_Permutation in Hx.
        apply elem_of_elements in Hx.
        pose proof (set_first_le S x Hx). pose proof (set_last_ge S x Hx).
        rewrite length_resize; lia.
    + rewrite bool_decide_eq_false_2 by exact Hw.
      destruct (_ && _); [| reflexivity].
      rewrite (test_fold_set (fun _ => true)).
      * rewrite decide_False.
        -- unfold resize. cbn. rewrite take_nil. apply test_replicate_false.
        -- rewrite merge_sort_Permutation. now rewrite elem_of_elements.
      * intros x Hx. rewrite merge_sort_Permutation in Hx.
        apply elem_of_elements in Hx.
        pose proof (set_first_le S x Hx). pose proof (set_last_ge S x Hx).
        rewrite length_resize; lia.
Qed.

(** Two winding sets have a common bit exactly when some winding number
    is in both. *)
Lemma have_common_bit_spec a b :
  have_common_bit a b = true <-> exists w, has a w = true /\ has b w = true.
Proof.
  unfold have_common_bit, has. rewrite existsb_exists.
  assert (Hr : forall w,
             w ∈ zrange (t_max (m_begin a) (m_begin b)) (t_min (m_end a) (m_end b))
             <-> (m_begin a <=? w) && (w <? m_end a) = true
                 /\ (m_begin b <=? w) && (w <? m_end b) = true).
  { intros w. rewrite elem_of_zrange, !andb_true_iff, !Z.leb_le, !Z.ltb_lt.
    unfold t_max, t_min.
    destruct (Z.ltb_spec (m_begin a) (m_begin b)), (Z.ltb_spec (m_end a) (m_end b)); lia. }
  split.
  - intros (w & Hin & Hw). exists w.
    apply list_elem_of_In, Hr in Hin as [-> ->].
    now apply andb_true_iff in Hw.
  - intros (w & Ha & Hb). exists w.
    destruct ((m_begin a <=? w) && (w <? m_end a)) eqn:Ea; [| discriminate].
    destruct ((m_begin b <=? w) && (w <? m_end b)) eqn:Eb; [| discriminate].
    split; [| now rewrite Ha, Hb].
    apply list_elem_of_In, Hr. now rewrite Ea, Eb.
Qed.

End WindingSetFacts.

(** ** The boundary flag *)

Lemma at_lookup {A : Type} `{Inhabited A} (l : list A) (i : nat) (x : A) :
  l !! i = Some x -> at_ l (Z.of_nat i) = x.
Proof.
  intros Hx. unfold at_. destruct (Z.ltb_spec (Z.of_nat i) 0); [lia |].
  rewrite Nat2Z.id. now apply list_lookup_total_correct.
Qed.

Lemma pack_float_zero_one : F32.pack_float F32.zero <> F32.pack_float F32.one.
Proof. discriminate. Qed.

(** C3: for the vertex [i] of an attribute chunk, [write_attributes]
    copies the x and y of attribute slot 0 and sets its z to 0.0 exactly
    when the winding set of the vertex and the complement of the fill
    rule over the observed range [[min_winding, max_winding]] have a
    common element, and to 1.0 otherwise. When the windings of the vertex
    are all in the observed range, z is 0.0 exactly when the vertex has a
    winding that the rule does not select. *)
Theorem write_attributes_boundary_flag
    (d : DataWriterPrivate.t) (dst : list PainterAttribute) (attribute_chunk : Z)
    (fill_rule : Z -> bool) (min_winding max_winding : Z) (s0 s1 : WindingSet.t)
    (S : gset Z) (i : nat) (src_i dst_i : PainterAttribute)
    (Hrule : DataWriterPrivate.m_complement_winding_rule d
             = WindingSet.extract_from_fill_fule s0 min_winding max_winding
                 fill_rule true)
    (Hrange : min_winding <= max_winding + 1)
    (Hmax : is_int (max_winding + 1))
    (HS : forall x, x ∈ S -> is_int (x + 1))
    (Hdst : dst !! i = Some dst_i)
    (Hsrc : DataWriterPrivate.m_attribs
              (at_ (DataWriterPrivate.m_attribute_chunks d) attribute_chunk) !! i
            = Some src_i)
    (Hw : DataWriterPrivate.m_per_pt_winding_set
            (at_ (DataWriterPrivate.m_attribute_chunks d) attribute_chunk) !! i
          = Some (WindingSet.extract_from_set s1 S)) :
  exists out_i,
    DataWriter.write_attributes d dst attribute_chunk !! i = Some out_i
    /\ ux (m_attrib0 out_i) = ux (m_attrib0 src_i)
    /\ uy (m_attrib0 out_i) = uy (m_attrib0 src_i)
    /\ (uz (m_attrib0 out_i) = F32.pack_float F32.zero
        <-> exists w, w ∈ S /\ min_winding <= w <= max_winding /\ fill_rule w = false)
    /\ (uz (m_attrib0 out_i) = F32.pack_float F32.one
        <-> ~ exists w, w ∈ S /\ min_winding <= w <= max_winding /\ fill_rule w = false)
    /\ ((forall x, x ∈ S -> min_winding <= x <= max_winding) ->
        (uz (m_attrib0 out_i) = F32.pack_float F32.zero
         <-> exists w, w ∈ S /\ fill_rule w = false)).
Proof.
  unfold DataWriter.write_attributes.
  rewrite list_lookup_imap, Hdst. cbn [fmap option_fmap option_map].
  rewrite (at_lookup _ _ _ Hsrc), (at_lookup _ _ _ Hw).
  eexists. split; [reflexivity |].
  unfold DataWriter.write_attribute. cbn [m_attrib0 ux uy uz].
  split; [reflexivity |]. split; [reflexivity |].
  set (outside := WindingSet.have_common_bit _ _).
  assert (Hout : outside = true
                 <-> exists w, w ∈ S /\ min_winding <= w <= max_winding
                               /\ fill_rule w = false).
  { unfold outside. rewrite have_common_bit_spec, Hrule. split.
    - intros (w & Hc & Hv). exists w.
      rewrite has_extract_from_fill_fule in Hc by assumption.
      rewrite has_extract_from_set in Hv by assumption.
      apply bool_decide_eq_true_1 in Hv.
      apply andb_true_iff in Hc as [Hc Hf]. apply andb_true_iff in Hc as [H1 H2].
      apply Z.leb_le in H1, H2.
      destruct (fill_rule w); [discriminate | auto].
    - intros (w & HwS & Hr & Hf). exists w.
      rewrite has_extract_from_fill_fule by assumption.
      rewrite has_extract_from_set by assumption.
      rewrite bool_decide_eq_true_2 by assumption. rewrite Hf.
      destruct (Z.leb_spec min_winding w); [| lia].
      destruct (Z.leb_spec w max_winding); [| lia]. auto. }
  assert (Hz : F32.pack_float (if outside then F32.zero else F32.one)
               = F32.pack_float F32.zero <-> outside = true).
  { destruct outside; split; intros E; try reflexivity; discriminate. }
  assert (Ho : F32.pack_float (if outside then F32.zero else F32.one)
               = F32.pack_float F32.one <-> outside <> true).
  { destruct outside; split; intros E; try reflexivity; try discriminate; congruence. }
  split; [| split].
  - now rewrite Hz.
  - now rewrite Ho, Hout.
  - intros Hin. rewrite Hz, Hout. split.
    + intros (w & H1 & _ & H3). eauto.
    + intros (w & H1 & H3). exists w. auto.
Qed.

Lemma write_attributes_boundary_flag_witness :
  exists out_i,
    DataWriter.write_attributes writer_example [inhabitant] 0 !! 0%nat = Some out_i
    /\ ux (m_attrib0 out_i) = F32.pack_float F32.one
    /\ uy (m_attrib0 out_i) = F32.pack_float F32.three
    /\ uz (m_attrib0 out_i) = F32.pack_float F32.zero.
Proof.
  assert (HS : forall x : Z, x ∈ ({[0; 1]} : gset Z) -> is_int (x + 1)).
  { intros x Hx. assert (x = 0 \/ x = 1) as [-> | ->] by set_solver;
      unfold is_int, int_min, int_max; lia. }
  assert (Hmax : is_int (1 + 1)) by (unfold is_int, int_min, int_max; lia).
  destruct (write_attributes_boundary_flag writer_example [inhabitant] 0
              fcn_non_zero_fill_rule 0 1 WindingSet.empty WindingSet.empty
              {[0; 1]} 0%nat
              (AttributeDataFiller.generate_attribute
                 (mk_FillPoint (mk_vec2 F32.one F32.three) {[0; 1]}))
              inhabitant eq_refl ltac:(lia) Hmax HS eq_refl eq_refl eq_refl)
    as (out_i & Hout & Hx & Hy & Hz & _).
  exists out_i. split; [exact Hout |]. split; [exact Hx |]. split; [exact Hy |].
  apply Hz. exists 0. split; [set_solver |]. split; [lia | reflexivity].
Defined.

(** ** Acceptance of a triangle *)

Section Acceptance.
Context {D : Type} `{tesser_methods D}.

Lemma triangle_area_signed p0 p1 p2 :
  tesser.triangle_area p0 p1 p2 = F32.t_abs (signed_area p0 p1 p2).
Proof. reflexivity. Qed.

Lemma triangle_accepted_iff (p : tesser.t D) :
  tesser.triangle_accepted p = true <-> accepted_by_area p.
Proof.
  unfold tesser.triangle_accepted, tesser.temp_verts_non_degenerate_triangle,
    accepted_by_area, ids_and_positions_distinct, temp_triangle.
  destruct (tesser.m_temp_verts p) as [[t0 t1] t2].
  rewrite !andb_true_iff, !negb_true_iff, !Z.eqb_neq.
  rewrite triangle_area_signed.
  destruct (Z.eqb_spec t0 t1), (Z.eqb_spec t0 t2), (Z.eqb_spec t1 t2);
    cbn [orb]; try (split; [intros [_ ?]; discriminate | tauto]).
  destruct (vec2_eqb _ _), (vec2_eqb _ _), (vec2_eqb _ _); cbn [orb];
    try (split; [intros [_ ?]; discriminate | intros [(_ & _ & ? & ? & ?) _]; discriminate]).
  tauto.
Qed.

(** C4, as amended: the vertex that completes a group of three is the
    only one that can emit; the triangle is accepted if and only if no ID
    is the null ID, the IDs are mutually distinct, the positions are
    mutually distinct, and the absolute value of the cross product of
    [p1 - p0] and [p2 - p0], in [float] arithmetic, is strictly positive;
    an accepted triangle is sub-divided, and a rejected one leaves the
    points, their winding sets and the index lists as they were. *)
Theorem vertex_callBack_acceptance (p : tesser.t D) (vertex_id : Z) :
  let verts := tesser.set_temp_vert (tesser.m_temp_verts p)
                 (tesser.m_temp_vert_count p) vertex_id in
  let failed := if vertex_id =? FASTUIDRAW_GLU_NULL_CLIENT_ID then true
                else tesser.m_triangulation_failed p in
  let p3 := tesser.mk (tesser.m_point_count p) (tesser.m_tess p) (tesser.m_points p)
              verts 0 failed (tesser.derived p) in
  (tesser.triangle_accepted p3 = true <-> accepted_by_area p3)
  /\ (tesser.m_temp_vert_count p + 1 = 3 -> accepted_by_area p3 ->
      tesser.vertex_callBack vertex_id p = tesser.subdivide p3)
  /\ (tesser.m_temp_vert_count p + 1 <> 3 \/ ~ accepted_by_area p3 ->
      tesser.m_points (tesser.vertex_callBack vertex_id p) = tesser.m_points p
      /\ tesser.derived (tesser.vertex_callBack vertex_id p) = tesser.derived p).
Proof.
  intros verts failed p3.
  split; [apply triangle_accepted_iff |].
  unfold tesser.vertex_callBack. fold verts failed. split.
  - intros -> Hacc. cbn [Z.eqb Pos.eqb]. fold p3.
    apply triangle_accepted_iff in Hacc. now rewrite Hacc.
  - intros [Hcnt | Hrej].
    + destruct (Z.eqb_spec (tesser.m_temp_vert_count p + 1) 3); [contradiction |].
      split; reflexivity.
    + destruct (_ =? 3); [| split; reflexivity].
      fold p3. destruct (tesser.triangle_accepted p3) eqn:E.
      * apply triangle_accepted_iff in E. contradiction.
      * split; reflexivity.
Qed.

End Acceptance.

Lemma vertex_callBack_acceptance_witness :
  tesser.vertex_callBack 2 triangle_tesser_two
  = tesser.subdivide (with_temp_verts triangle_tesser_two (0, 1, 2)).
Proof.
  destruct (vertex_callBack_acceptance triangle_tesser_two 2) as (_ & Hacc & _).
  apply Hacc; [reflexivity |].
  apply triangle_accepted_iff. reflexivity.
Defined.

(** C4, as stated, fails on a clockwise triangle: its signed area is
    negative, and the code accepts it. *)
Lemma clockwise_triangle_accepted :
  tesser.triangle_accepted clockwise_triangle = true
  /\ ~ accepted_as_claimed clockwise_triangle.
Proof.
  split; [reflexivity |].
  unfold accepted_as_claimed. cbn. intros [_ E]. discriminate E.
Qed.

(** ** Emission of an accepted triangle *)

Lemma fetch_ok pt h :
  hoard_ok h ->
  hoard_ok (snd (PointHoard.fetch pt h))
  /\ valid_id (snd (PointHoard.fetch pt h)) (fst (PointHoard.fetch pt h))
  /\ (forall v, valid_id h v -> valid_id (snd (PointHoard.fetch pt h)) v).
Proof.
  intros Hok. unfold PointHoard.fetch.
  destruct (PointHoard.m_map h !! _) as [id |] eqn:E; cbn [fst snd].
  - split; [exact Hok |]. split; [exact (Hok _ _ E) | auto].
  - unfold hoard_ok, valid_id in *. cbn [PointHoard.m_map PointHoard.m_pts].
    rewrite length_app. cbn [length]. split; [| split].
    + intros ipt id Hl. apply lookup_insert_Some in Hl as [[_ <-] | [_ Hl]]; [lia |].
      apply Hok in Hl. lia.
    + lia.
    + intros v Hv. lia.
Qed.

Lemma add_windings_cons W v l h :
  add_windings W (v :: l) h = add_windings W l (PointHoard.add_to_winding_set v W h).
Proof. reflexivity. Qed.

Lemma add_windings_pts W l : forall h,
  map m_pt (PointHoard.m_pts (add_windings W l h)) = map m_pt (PointHoard.m_pts h)
  /\ length (PointHoard.m_pts (add_windings W l h)) = length (PointHoard.m_pts h).
Proof.
  induction l as [| v l IH]; intros h; [auto |].
  rewrite add_windings_cons.
  destruct (IH (PointHoard.add_to_winding_set v W h)) as [-> ->].
  unfold PointHoard.add_to_winding_set. cbn [PointHoard.m_pts].
  destruct (v <? 0); [auto |]. rewrite length_alter. split; [| reflexivity].
  apply list_eq. intros i. rewrite !list_lookup_fmap.
  destruct (decide (i = Z.to_nat v)) as [-> | Hi].
  - rewrite list_lookup_alter_eq. now destruct (_ !! _).
  - now rewrite list_lookup_alter_ne.
Qed.

Lemma add_windings_keeps W W' l : forall h v,
  W' ∈ m_winding (at_ (PointHoard.m_pts h) v) ->
  W' ∈ m_winding (at_ (PointHoard.m_pts (add_windings W l h)) v).
Proof.
  induction l as [| u l IH]; intros h v Hv; [exact Hv |].
  rewrite add_windings_cons.
  apply IH. unfold PointHoard.add_to_winding_set, at_ in *.
  cbn [PointHoard.m_pts].
  destruct (v <? 0); [exact Hv |]. destruct (u <? 0); [exact Hv |].
  destruct (decide (Z.to_nat v = Z.to_nat u)) as [E | E].
  - rewrite E in *. rewrite list_lookup_total_alt in *.
    rewrite list_lookup_alter_eq.
    destruct (_ !! _); cbn in *; set_solver.
  - rewrite list_lookup_total_alt in *.
    now rewrite list_lookup_alter_ne.
Qed.

Lemma add_windings_elem W l : forall h v,
  v ∈ l -> valid_id h v ->
  W ∈ m_winding (at_ (PointHoard.m_pts (add_windings W l h)) v).
Proof.
  induction l as [| u l IH]; intros h v Hin Hv; [inversion Hin |].
  rewrite add_windings_cons. apply elem_of_cons in Hin as [-> | Hin].
  - apply add_windings_keeps. unfold PointHoard.add_to_winding_set, at_, valid_id in Hv |- *.
    cbn [PointHoard.m_pts].
    destruct (Z.ltb_spec u 0); [lia |].
    rewrite list_lookup_total_alt, list_lookup_alter_eq.
    destruct (PointHoard.m_pts h !! Z.to_nat u) eqn:E; cbn.
    + apply elem_of_union_l. now apply elem_of_singleton.
    + apply lookup_ge_None in E. lia.
  - apply IH; [exact Hin |].
    unfold valid_id, PointHoard.add_to_winding_set in *. cbn [PointHoard.m_pts].
    destruct (u <? 0); [exact Hv |]. now rewrite length_alter.
Qed.

(** The six triangles of [subdivide], as the list of the vertices handed
    to [add_vertex_to_polygon], in this order. *)
Lemma subdivide_emits {D : Type} `{tesser_methods D} (p : tesser.t D)
    t0 t1 t2 i01 i02 i12 ic h1 h2 h3 h4 :
  tesser.m_temp_verts p = (t0, t1, t2) ->
  let p0 := PointHoard.pt_of (tesser.m_points p) t0 in
  let p1 := PointHoard.pt_of (tesser.m_points p) t1 in
  let p2 := PointHoard.pt_of (tesser.m_points p) t2 in
  PointHoard.fetch (vec2_scale F32.half (vec2_add p0 p1)) (tesser.m_points p) = (i01, h1) ->
  PointHoard.fetch (vec2_scale F32.half (vec2_add p0 p2)) h1 = (i02, h2) ->
  PointHoard.fetch (vec2_scale F32.half (vec2_add p1 p2)) h2 = (i12, h3) ->
  PointHoard.fetch (vec2_div (vec2_add (vec2_add p0 p1) p2) F32.three) h3 = (ic, h4) ->
  let s := fold_left (fun s v => add_vertex_to_polygon v s)
             [t0; i01; ic;  t0; ic; i02;  ic; t1; i12;
              i01; t1; ic;  i02; ic; t2;  ic; i12; t2]
             (tesser.derived p, h4) in
  tesser.subdivide p
  = tesser.mk (tesser.m_point_count p) (tesser.m_tess p) (snd s) (t0, t1, t2)
              (tesser.m_temp_vert_count p) (tesser.m_triangulation_failed p) (fst s).
Proof.
  intros Htv p0 p1 p2 F1 F2 F3 F4 s.
  unfold tesser.subdivide. rewrite Htv. fold p0 p1 p2.
  rewrite F1, F2, F3, F4. reflexivity.
Qed.

Section Callbacks.
Context {D : Type} `{tesser_methods D}.

Lemma vertex_callBack_cache pc ts pts tv cnt failed (d : D) v :
  v <> FASTUIDRAW_GLU_NULL_CLIENT_ID -> cnt + 1 <> 3 ->
  tesser.vertex_callBack v (tesser.mk pc ts pts tv cnt failed d)
  = tesser.mk pc ts pts (tesser.set_temp_vert tv cnt v) (cnt + 1) failed d.
Proof.
  intros Hv Hcnt. unfold tesser.vertex_callBack.
  cbn [tesser.m_point_count tesser.m_tess tesser.m_points tesser.m_temp_verts
       tesser.m_temp_vert_count tesser.m_triangulation_failed tesser.derived].
  apply Z.eqb_neq in Hv, Hcnt. now rewrite Hv, Hcnt.
Qed.

Lemma vertex_callBack_complete pc ts pts tv cnt failed (d : D) v :
  v <> FASTUIDRAW_GLU_NULL_CLIENT_ID -> cnt + 1 = 3 ->
  tesser.vertex_callBack v (tesser.mk pc ts pts tv cnt failed d)
  = let p3 := tesser.mk pc ts pts (tesser.set_temp_vert tv cnt v) 0 failed d in
    if tesser.triangle_accepted p3 then tesser.subdivide p3 else p3.
Proof.
  intros Hv Hcnt. unfold tesser.vertex_callBack.
  cbn [tesser.m_point_count tesser.m_tess tesser.m_points tesser.m_temp_verts
       tesser.m_temp_vert_count tesser.m_triangulation_failed tesser.derived].
  apply Z.eqb_neq in Hv. apply Z.eqb_eq in Hcnt. now rewrite Hv, Hcnt.
Qed.

Lemma three_vertices (p : tesser.t D) a b c :
  tesser.m_temp_vert_count p = 0 ->
  a <> FASTUIDRAW_GLU_NULL_CLIENT_ID -> b <> FASTUIDRAW_GLU_NULL_CLIENT_ID ->
  c <> FASTUIDRAW_GLU_NULL_CLIENT_ID ->
  tesser.vertex_callBack c (tesser.vertex_callBack b (tesser.vertex_callBack a p))
  = if tesser.triangle_accepted (with_temp_verts p (a, b, c))
    then tesser.subdivide (with_temp_verts p (a, b, c))
    else with_temp_verts p (a, b, c).
Proof.
  intros Hcnt Ha Hb Hc. destruct p as [pc ts pts [[t0 t1] t2] cnt failed d].
  cbn in Hcnt. subst cnt.
  rewrite vertex_callBack_cache by (auto; lia).
  rewrite vertex_callBack_cache by (auto; lia).
  rewrite vertex_callBack_complete by (auto; lia).
  reflexivity.
Qed.

End Callbacks.

Lemma on_begin_polygon_spec w d :
  nz_ok d ->
  let W := wrap_int (w + non_zero_tesser.m_winding_start d) in
  let d1 := non_zero_tesser.on_begin_polygon w d in
  non_zero_tesser.m_winding_start d1 = non_zero_tesser.m_winding_start d
  /\ non_zero_tesser.m_current_winding d1 = W
  /\ non_zero_tesser.m_current_indices d1 = Some W
  /\ (exists bk, non_zero_tesser.m_hoard d1 !! W = Some bk
                 /\ per_winding_data.m_indices bk
                    = indices_of (non_zero_tesser.m_hoard d) W
                 /\ per_winding_data.m_count bk = count_of (non_zero_tesser.m_hoard d) W
                 /\ per_winding_data.m_winding_number bk = W)
  /\ (forall k, k <> W ->
                non_zero_tesser.m_hoard d1 !! k = non_zero_tesser.m_hoard d !! k).
Proof.
  intros [Hb Hcur] W d1. subst d1. unfold non_zero_tesser.on_begin_polygon.
  fold W. unfold indices_of, count_of.
  destruct (bool_decide (non_zero_tesser.m_current_indices d = None)
            || negb (non_zero_tesser.m_current_winding d =? W)) eqn:E.
  - cbn [non_zero_tesser.m_winding_start non_zero_tesser.m_current_winding
         non_zero_tesser.m_current_indices non_zero_tesser.m_hoard].
    do 3 (split; [reflexivity |]).
    destruct (non_zero_tesser.m_hoard d !! W) as [bk |] eqn:Ek.
    + split; [| reflexivity].
      exists bk. rewrite Ek. repeat split. apply (Hb _ _ Ek).
    + split.
      * exists (per_winding_data.new W). rewrite lookup_insert_eq. auto.
      * intros k Hk. now rewrite lookup_insert_ne.
  - apply orb_false_iff in E as [E1 E2].
    apply bool_decide_eq_false_1 in E1. apply negb_false_iff, Z.eqb_eq in E2.
    destruct (non_zero_tesser.m_current_indices d) as [k |] eqn:Ec; [| contradiction].
    destruct (Hcur k eq_refl) as [-> [bk Hk]]. rewrite E2 in *.
    do 3 (split; [reflexivity |]). split; [| reflexivity].
    exists bk. rewrite Hk. repeat split. apply (Hb _ _ Hk).
Qed.

(** ** The layout of the index array *)

Lemma is_even_even v : is_even v = Z.even v.
Proof.
  unfold is_even. destruct (Z.even v) eqn:E.
  - apply Z.even_spec in E as [k ->]. apply Z.eqb_eq.
    rewrite Z.mul_comm. apply Z.rem_mul. lia.
  - apply Z.eqb_neq. intros Hr.
    apply Z.rem_divide in Hr; [| lia]. destruct Hr as [k ->].
    rewrite Z.even_mul, orb_true_r in E. discriminate.
Qed.

Lemma region_cons c e es :
  region c (e :: es)
  = (if decide (class_of (fst e) = c) then per_winding_data.m_indices (snd e) else [])
    ++ region c es.
Proof. reflexivity. Qed.

Lemma copy_at_app (pre mid post src : list Z) offset :
  offset = Z.of_nat (length pre) -> length mid = length src ->
  copy_at (pre ++ mid ++ post) offset src = pre ++ src ++ post.
Proof.
  intros -> Hlen. unfold copy_at. rewrite Nat2Z.id.
  rewrite take_app_length. do 2 f_equal.
  rewrite <- drop_drop, drop_app_length, <- Hlen.
  apply drop_app_length.
Qed.

Lemma len_app {A : Type} (l k : list A) : len (l ++ k) = len l + len k.
Proof. unfold len. rewrite length_app. lia. Qed.

Lemma len_nil_inv {A : Type} (l : list A) : len l <= 0 -> l = [].
Proof. unfold len. destruct l; [reflexivity | cbn; lia]. Qed.

Lemma copy_at_mid (A r B l : list Z) off :
  off = len A -> len l <= len r ->
  copy_at (A ++ r ++ B) off l = A ++ l ++ drop (length l) r ++ B.
Proof.
  unfold len. intros Hoff Hle.
  rewrite <- (take_drop (length l) r) at 1. rewrite <- app_assoc.
  apply copy_at_app; [exact Hoff |].
  rewrite length_take. lia.
Qed.

Lemma len_drop (l r : list Z) : len l <= len r -> len (drop (length l) r) = len r - len l.
Proof. unfold len. rewrite length_drop. lia. Qed.

Ltac len_lia := unfold len in *; lia.

Ltac class_cases k :=
  unfold class_of; rewrite ?is_even_even;
  destruct (Z.eqb_spec k 0); [| destruct (Z.even k) eqn:?].

(** The first loop of [fill_indices]: the totals of the three classes. *)
Lemma count_loop es :
  Forall (fun e => counted (snd e)) es ->
  forall c,
  fold_left count_entry es c
  = mk_index_counts
      (total c + len (region odd_winding es) + len (region even_non_zero_winding es)
       + len (region zero_winding es))
      (num_odd c + len (region odd_winding es))
      (num_even_non_zero c + len (region even_non_zero_winding es))
      (num_zero c + len (region zero_winding es)).
Proof.
  induction 1 as [| [k b] es Hb Hes IH]; intros c.
  - cbn. unfold len. cbn. destruct c. cbn. f_equal; lia.
  - cbn [fold_left]. rewrite IH. rewrite !region_cons. cbn [fst snd].
    unfold count_entry, per_winding_data.count. cbn [fst snd].
    red in Hb. cbn [snd] in Hb. rewrite Hb. fold (len (per_winding_data.m_indices b)).
    class_cases k; cbn [total num_odd num_even_non_zero num_zero];
      repeat case_decide; try discriminate; try congruence;
      rewrite ?len_app; cbn [app]; f_equal; unfold len; cbn [length]; lia.
Qed.

Lemma fill_entry_skip s e : per_winding_data.m_count (snd e) <= 0 -> fill_entry s e = s.
Proof.
  intros Hc. unfold fill_entry, per_winding_data.count.
  destruct (Z.ltb_spec 0 (per_winding_data.m_count (snd e))); [lia | reflexivity].
Qed.

Lemma fill_entry_class s k b :
  0 < per_winding_data.m_count b ->
  fill_entry s (k, b)
  = let l := per_winding_data.m_indices b in
    let n := per_winding_data.m_count b in
    match class_of k with
    | zero_winding =>
        mk_fill_state (current_odd s) (current_even_non_zero s) (current_zero s + n)
          (copy_at (fs_indices s) (current_zero s) l)
          (<[k := sub_array (make_c_array (fs_indices s)) (current_zero s) n]>
             (fs_winding_map s))
    | even_non_zero_winding =>
        mk_fill_state (current_odd s) (current_even_non_zero s + n) (current_zero s)
          (copy_at (fs_indices s) (current_even_non_zero s) l)
          (<[k := sub_array (make_c_array (fs_indices s)) (current_even_non_zero s) n]>
             (fs_winding_map s))
    | odd_winding =>
        mk_fill_state (current_odd s + n) (current_even_non_zero s) (current_zero s)
          (copy_at (fs_indices s) (current_odd s) l)
          (<[k := sub_array (make_c_array (fs_indices s)) (current_odd s) n]>
             (fs_winding_map s))
    end.
Proof.
  intros Hc. unfold fill_entry, fill_at, per_winding_data.count. cbn [fst snd].
  destruct (Z.ltb_spec 0 (per_winding_data.m_count b)); [| lia].
  class_cases k; reflexivity.
Qed.

(** The second loop of [fill_indices]. The array holds, one after the
    other, the odd indices written so far ([o]) and the room left for the
    others ([rO]), and likewise the even non-zero ones ([e], [rE]) and the
    zero ones ([z], [rZ]); the three offsets point at the rooms. *)
Lemma fill_loop es :
  Forall (fun e => counted (snd e)) es ->
  forall o rO e rE z rZ co ce cz buf wm,
  len rO = len (region odd_winding es) ->
  len rE = len (region even_non_zero_winding es) ->
  len rZ = len (region zero_winding es) ->
  co = len o -> ce = len o + len rO + len e ->
  cz = len o + len rO + len e + len rE + len z ->
  buf = o ++ rO ++ e ++ rE ++ z ++ rZ ->
  let s := fold_left fill_entry es (mk_fill_state co ce cz buf wm) in
  fs_indices s
  = (o ++ region odd_winding es) ++ (e ++ region even_non_zero_winding es)
    ++ (z ++ region zero_winding es)
  /\ current_odd s = len o + len (region odd_winding es).
Proof.
  induction 1 as [| [k b] es Hb Hes IH];
    intros o rO e rE z rZ co ce cz buf wm HO HE HZ -> -> -> ->.
  - cbn in *.
    assert (rO = []) as -> by (apply len_nil_inv; rewrite HO; reflexivity).
    assert (rE = []) as -> by (apply len_nil_inv; rewrite HE; reflexivity).
    assert (rZ = []) as -> by (apply len_nil_inv; rewrite HZ; reflexivity).
    rewrite !app_nil_r. split; [reflexivity | unfold len; cbn; lia].
  - cbn [fold_left]. rewrite !region_cons in *. cbn [fst snd] in *.
    red in Hb. cbn [snd] in Hb.
    set (l := per_winding_data.m_indices b) in *. fold (len l) in Hb.
    destruct (Z.ltb_spec 0 (len l)) as [Hpos | Hzero].
    + rewrite fill_entry_class by len_lia. cbv zeta. fold l. rewrite Hb.
      cbn [fs_indices current_odd current_even_non_zero current_zero fs_winding_map].
      destruct (class_of k) eqn:Ek; repeat case_decide; try discriminate; try congruence;
        cbn [app] in *; rewrite ?len_app in *.
      * (* odd winding *)
        rewrite copy_at_mid by len_lia.
        edestruct (IH (o ++ l) (drop (length l) rO) e rE z rZ) as [-> ->];
          try reflexivity; rewrite ?len_app, ?len_drop by len_lia; try len_lia.
        { rewrite <- !app_assoc. reflexivity. }
        split; [rewrite <- !app_assoc; reflexivity | len_lia].
      * (* even non-zero winding *)
        replace (o ++ rO ++ e ++ rE ++ z ++ rZ)
          with ((o ++ rO ++ e) ++ rE ++ (z ++ rZ))
          by (rewrite <- !app_assoc; reflexivity).
        rewrite copy_at_mid by (rewrite ?len_app; len_lia).
        edestruct (IH o rO (e ++ l) (drop (length l) rE) z rZ) as [-> ->];
          try reflexivity; rewrite ?len_app, ?len_drop by len_lia; try len_lia.
        { rewrite <- !app_assoc. reflexivity. }
        split; [rewrite <- !app_assoc; reflexivity | len_lia].
      * (* zero winding *)
        replace (o ++ rO ++ e ++ rE ++ z ++ rZ)
          with ((o ++ rO ++ e ++ rE ++ z) ++ rZ ++ [])
          by (rewrite app_nil_r, <- !app_assoc; reflexivity).
        rewrite copy_at_mid by (rewrite ?len_app; len_lia).
        rewrite app_nil_r.
        edestruct (IH o rO e rE (z ++ l) (drop (length l) rZ)) as [-> ->];
          try reflexivity; rewrite ?len_app, ?len_drop by len_lia; try len_lia.
        { rewrite <- !app_assoc. reflexivity. }
        split; [rewrite <- !app_assoc; reflexivity | len_lia].
    + rewrite fill_entry_skip by (cbn [snd]; len_lia).
      assert (El : l = []) by (apply len_nil_inv; len_lia).
      clearbody l. subst l.
      assert (Hn : forall c, (if decide (class_of k = c) then @nil Z else []) = [])
        by (intros c; destruct (decide (class_of k = c)); reflexivity).
      rewrite !Hn in *. cbn [app] in *.
      apply (IH o rO e rE z rZ); auto.
Qed.

Lemma class_of_spec w :
  (class_of w = odd_winding <-> Z.odd w = true)
  /\ (class_of w = even_non_zero_winding <-> Z.even w = true /\ w <> 0)
  /\ (class_of w = zero_winding <-> w = 0).
Proof.
  unfold class_of. rewrite <- (Z.negb_even w).
  destruct (Z.eqb_spec w 0) as [-> | Hw]; [cbn; intuition congruence |].
  destruct (Z.even w); cbn; intuition congruence.
Qed.

Lemma elem_of_entries {V : Type} (m : gmap Z V) k v :
  (k, v) ∈ entries m <-> m !! k = Some v.
Proof.
  unfold entries. rewrite list_elem_of_omap. split.
  - intros (k' & _ & Hk). destruct (m !! k') as [v' |] eqn:E; [| discriminate].
    cbn in Hk. now inversion Hk; subst.
  - intros Hk. exists k. split.
    + rewrite merge_sort_Permutation. apply elem_of_elements, elem_of_dom. eauto.
    + now rewrite Hk.
Qed.

Lemma len_to_nat {A : Type} (l : list A) : Z.to_nat (len l) = length l.
Proof. unfold len. apply Nat2Z.id. Qed.

Lemma view_prefix (a b : list Z) n :
  n = len a -> view (a ++ b) (sub_array (make_c_array (a ++ b)) 0 n) = a.
Proof.
  intros ->. unfold view, sub_array, make_c_array. cbn [ca_begin ca_size].
  rewrite Z.add_0_l, len_to_nat. cbn [Z.to_nat drop]. apply take_app_length.
Qed.

Lemma view_suffix (a b : list Z) n :
  n = len a -> view (a ++ b) (sub_array_from (make_c_array (a ++ b)) n) = b.
Proof.
  intros ->. unfold view, sub_array_from, make_c_array. cbn [ca_begin ca_size].
  rewrite Z.add_0_l, len_to_nat, drop_app_length.
  fold (len (a ++ b)). rewrite len_app.
  replace (len a + len b - len a) with (len b) by lia.
  rewrite len_to_nat. apply firstn_all.
Qed.

(** On a hoard whose index lists are counted, [fill_indices] lays out
    the index array as three contiguous
    regions, the indices of the triangles with odd winding number first,
    then those with even non-zero winding number, then those with winding
    number zero; [even_non_zero_start] is the number of the odd indices
    and [zero_start] the number of the odd and the even non-zero ones; and
    the four views that [make_ready_from_sub_path] takes are the slices of
    the standard fill rules: nonzero [[0, zero_start)], odd-even
    [[0, even_non_zero_start)], complement-odd-even
    [[even_non_zero_start, total)], complement-nonzero
    [[zero_start, total)]. *)
Lemma fill_indices_regions (m_hoard : gmap Z per_winding_data.t)
    (indices : list Z) (winding_map : gmap Z c_array)
    (Hc : forall k d, m_hoard !! k = Some d -> counted d) :
  let es := entries m_hoard in
  let r := fill_indices m_hoard indices winding_map in
  let odd := region odd_winding es in
  let even := region even_non_zero_winding es in
  let zero := region zero_winding es in
  let indices_ptr := make_c_array (f_indices r) in
  f_indices r = odd ++ even ++ zero
  /\ even_non_zero_start r = len odd
  /\ zero_start r = len odd + len even
  /\ view (f_indices r) (sub_array indices_ptr 0 (zero_start r)) = odd ++ even
  /\ view (f_indices r) (sub_array indices_ptr 0 (even_non_zero_start r)) = odd
  /\ view (f_indices r) (sub_array_from indices_ptr (even_non_zero_start r))
     = even ++ zero
  /\ view (f_indices r) (sub_array_from indices_ptr (zero_start r)) = zero.
Proof.
  intros es r odd even zero indices_ptr.
  assert (Hes : Forall (fun e => counted (snd e)) es).
  { apply Forall_forall. intros [k d] Hin. apply elem_of_entries in Hin.
    exact (Hc _ _ Hin). }
  subst indices_ptr r. unfold fill_indices, fill_entries. fold es.
  rewrite (count_loop es Hes). cbn [total num_odd num_even_non_zero num_zero].
  fold odd even zero. rewrite !Z.add_0_l.
  cbn [f_indices even_non_zero_start zero_start].
  set (buf := resize_indices (len odd + len even + len zero) indices).
  assert (Hbuf : len buf = len odd + len even + len zero).
  { unfold buf, resize_indices. rewrite len_app. unfold len.
    rewrite length_take, length_replicate.
    generalize (length odd) (length even) (length zero) (length indices).
    intros a b c d. destruct (Nat.min_spec (Z.to_nat (Z.of_nat a + Z.of_nat b + Z.of_nat c)) d)
      as [[? ->] | [? ->]]; lia. }
  subst odd even zero.
  set (odd := region odd_winding es) in *.
  set (even := region even_non_zero_winding es) in *.
  set (zero := region zero_winding es) in *.
  destruct (fill_loop es Hes [] (take (length odd) buf) []
              (take (length even) (drop (length odd) buf)) []
              (drop (length odd + length even) buf)
              0 (len odd) (len even + len odd) buf winding_map)
    as [Hi Ho]; fold odd even zero.
  - unfold len in *. rewrite length_take. lia.
  - unfold len in *. rewrite length_take, length_drop. lia.
  - unfold len in *. rewrite length_drop. lia.
  - reflexivity.
  - unfold len in *. cbn [length]. rewrite length_take. lia.
  - unfold len in *. cbn [length]. rewrite !length_take, length_drop. lia.
  - cbn [app]. rewrite <- drop_drop. now rewrite !take_drop.
  - cbn [app] in Hi. cbv zeta in Hi, Ho. rewrite Hi, Ho.
    change (len []) with 0. rewrite Z.add_0_l.
    split; [reflexivity |]. split; [reflexivity |]. split; [reflexivity |].
    split; [| split; [| split]].
    + rewrite app_assoc. apply view_prefix. now rewrite len_app.
    + now apply view_prefix.
    + now apply view_suffix.
    + rewrite app_assoc. apply view_suffix. now rewrite len_app.
Qed.

Lemma fill_indices_regions_example :
  f_indices (fill_indices hoard_example [] ∅)
  = [7; 8; 9; 3; 4; 5; 5; 4; 6] ++ [6; 4; 3] ++ [0; 1; 2]
  /\ even_non_zero_start (fill_indices hoard_example [] ∅) = 9
  /\ zero_start (fill_indices hoard_example [] ∅) = 12.
Proof.
  assert (Hc : forall k d, hoard_example !! k = Some d -> counted d).
  { intros k d Hk. unfold hoard_example in Hk.
    repeat (apply lookup_insert_Some in Hk as [[_ <-] | [_ Hk]]; [reflexivity |]).
    destruct (lookup_empty_Some _ _ Hk). }
  pose proof (fill_indices_regions hoard_example [] ∅ Hc) as T.
  vm_compute in T. destruct T as (Hi & He & Hz & _).
  split; [exact Hi |]. split; [exact He | exact Hz].
Defined.

(** ** Selection *)

Section Selection.
Variable gluTess : list glu_contour -> (Z -> bool) -> PointHoard.t -> list glu_event.
Context {PainterAttributeData : Type}.
Variable set_data_filler : AttributeDataFiller.t -> PainterAttributeData.
Context {ClipEquations : Type}.
Variable clip_against_planes : ClipEquations -> BoundingBox -> bool * list vec2.

Lemma fits_false (d : SubsetData (PainterAttributeData := PainterAttributeData))
    max_attribute_cnt max_index_cnt :
  m_sizes_ready d = true ->
  fits d max_attribute_cnt max_index_cnt = false
  <-> max_attribute_cnt < m_num_attributes d \/ max_index_cnt < m_largest_index_block d.
Proof.
  intros Hr. unfold fits. rewrite Hr. cbn [andb].
  rewrite andb_false_iff, !Z.leb_gt. reflexivity.
Qed.

(** A node without children whose baked sizes exceed the budget, in
    [select_subsets_all_unculled], through which every walk of a
    selection reaches the nodes it may emit: the array [dst] and the count
    [current] are left as they were, and the run has reached the assertion
    that always fails. For contrast, such a node within the budget is
    emitted at the position [current]. *)
Lemma over_budget_leaf_not_emitted
    (d : SubsetData (PainterAttributeData := PainterAttributeData))
    (max_attribute_cnt max_index_cnt : Z) (s : selection) :
  let d' := if negb (m_sizes_ready d)
            then make_ready_from_sub_path gluTess set_data_filler d else d in
  let r := select_subsets_all_unculled gluTess set_data_filler
             (Leaf d) max_attribute_cnt max_index_cnt s in
  (m_sizes_ready d' = true ->
   max_attribute_cnt < m_num_attributes d' \/ max_index_cnt < m_largest_index_block d' ->
   r = (Leaf d',
        mk_selection (sel_dst s) (sel_current s)
          (sel_diagnostics s ++ [assert_childless_subset_too_large])))
  /\ (m_sizes_ready d' = true ->
      m_num_attributes d' <= max_attribute_cnt ->
      m_largest_index_block d' <= max_index_cnt ->
      r = (Leaf d',
           mk_selection (<[Z.to_nat (sel_current s) := m_ID d']> (sel_dst s))
             (sel_current s + 1) (sel_diagnostics s))).
Proof.
  intros d' r. subst r. cbn [select_subsets_all_unculled]. fold d'. split.
  - intros Hr Hover. apply (fits_false d' _ _ Hr) in Hover.
    rewrite Hover, Hr. reflexivity.
  - intros Hr Ha Hi. unfold fits, emit. rewrite Hr.
    apply Z.leb_le in Ha, Hi. rewrite Ha, Hi. reflexivity.
Qed.

(** [select_subsets_implement] hands a node without children that the
    clipping has not culled to [select_subsets_all_unculled]. *)
Lemma select_subsets_implement_leaf (eqs : ClipEquations)
    (d : SubsetData (PainterAttributeData := PainterAttributeData))
    (max_attribute_cnt max_index_cnt : Z) (s : selection) :
  snd (clip_against_planes eqs (m_bounds d)) <> [] ->
  select_subsets_implement gluTess set_data_filler clip_against_planes
    eqs (Leaf d) max_attribute_cnt max_index_cnt s
  = select_subsets_all_unculled gluTess set_data_filler
      (Leaf d) max_attribute_cnt max_index_cnt s.
Proof.
  intros Hclip. cbn [select_subsets_implement data].
  destruct (clip_against_planes eqs (m_bounds d)) as [unclipped clipped_rect].
  cbn [snd] in Hclip. now rewrite bool_decide_eq_false_2 by exact Hclip.
Qed.

End Selection.

(** C7: the code at two inputs on which the claim has the ID of a node
    emitted. The only node of the square, a node without children, bakes
    to 8 attributes; with a budget of 4 attributes and no clipping,
    [select_subsets_implement] writes nothing to [dst] and leaves the
    count at 0: the walk ends in the last branch of
    [select_subsets_all_unculled], at the assertion that always fails.
    The strip has a root with two children without children, of 34
    attributes each; with the same budget the walk reaches both through
    [select_subsets_all_unculled] of the unclipped root, emits neither,
    and fails the assertion twice. *)
Lemma over_budget_leaf_dropped :
  (let r := select_subsets_implement one_triangle baked_from_filler no_clip tt
              square_root 4 1000 (mk_selection [99] 0 []) in
   (exists d, fst r = Leaf d /\ m_ID d = 0 /\ m_sizes_ready d = true
              /\ m_num_attributes d = 8)
   /\ sel_dst (snd r) = [99]
   /\ sel_current (snd r) = 0
   /\ sel_diagnostics (snd r) = [assert_childless_subset_too_large])
  /\ (let r := select_subsets_implement one_triangle baked_from_filler no_clip tt
                 strip_root 4 1000 (mk_selection [99; 99; 99] 0 []) in
      (exists d d0 d1, fst r = Interior d (Leaf d0) (Leaf d1)
         /\ map m_ID [d; d0; d1] = [0; 1; 2]
         /\ map m_sizes_ready [d; d0; d1] = [true; true; true]
         /\ map m_num_attributes [d; d0; d1] = [68; 34; 34])
      /\ sel_dst (snd r) = [99; 99; 99]
      /\ sel_current (snd r) = 0
      /\ sel_diagnostics (snd r)
         = [assert_childless_subset_too_large; assert_childless_subset_too_large]).
Proof.
  split.
  - vm_compute. split; [| auto]. eexists. split; [reflexivity |]. auto.
  - vm_compute. split; [| auto]. do 3 eexists. split; [reflexivity |]. auto.
Qed.

(** ** Baking *)

Section BakingSteps.
Context {PainterAttributeData : Type}.
Variable gluTess : list glu_contour -> (Z -> bool) -> PointHoard.t -> list glu_event.
Variable set_data_filler : AttributeDataFiller.t -> PainterAttributeData.
Variable set_data_merger :
  PainterAttributeData -> PainterAttributeData -> PainterAttributeData.

Lemma make_ready_from_sub_path_ready (d : @SubsetData PainterAttributeData) :
  is_Some (m_sub_path d) ->
  is_Some (m_painter_data (make_ready_from_sub_path gluTess set_data_filler d)).
Proof.
  intros [Q HQ]. unfold make_ready_from_sub_path. rewrite HQ. cbn. eauto.
Qed.

Lemma make_ready_from_sub_path_none (d : @SubsetData PainterAttributeData) :
  m_sub_path d = None -> make_ready_from_sub_path gluTess set_data_filler d = d.
Proof. intros HQ. unfold make_ready_from_sub_path. now rewrite HQ. Qed.

Lemma merge_children_ready (d c0 c1 : @SubsetData PainterAttributeData) a b :
  m_painter_data c0 = Some a -> m_painter_data c1 = Some b ->
  m_painter_data (merge_children set_data_merger d c0 c1) = Some (set_data_merger a b).
Proof. intros H0 H1. unfold merge_children. now rewrite H0, H1. Qed.

Lemma merge_children_not_ready (d c0 c1 : @SubsetData PainterAttributeData) :
  m_painter_data c0 = None \/ m_painter_data c1 = None ->
  merge_children set_data_merger d c0 c1 = d.
Proof.
  intros [H | H]; unfold merge_children; rewrite H; [reflexivity |].
  now destruct (m_painter_data c0).
Qed.

End BakingSteps.

Section Baking.
Context {PainterAttributeData : Type}.
Variables gluTess gluTess' :
  list glu_contour -> (Z -> bool) -> PointHoard.t -> list glu_event.
Variables set_data_filler set_data_filler' : AttributeDataFiller.t -> PainterAttributeData.
Variables set_data_merger set_data_merger' :
  PainterAttributeData -> PainterAttributeData -> PainterAttributeData.

(** A well-formed node has its painter data after [make_ready]. *)
Lemma make_ready_ready (n : @SubsetPrivate PainterAttributeData) :
  subset_ok n ->
  is_Some (m_painter_data
             (data (make_ready gluTess set_data_filler set_data_merger n))).
Proof.
  induction n as [d | d c0 IH0 c1 IH1]; cbn [subset_ok make_ready].
  - intros [Hp | Hs].
    + destruct Hp as [a Ha]. rewrite Ha. cbn. eauto.
    + destruct (m_painter_data d) eqn:E; cbn; [eauto |].
      now apply make_ready_from_sub_path_ready.
  - intros (Hs & H0 & H1). rewrite Hs.
    destruct (m_painter_data d) eqn:E; cbn [data]; [rewrite E; eauto |].
    destruct (IH0 H0) as [a Ha]. destruct (IH1 H1) as [b Hb].
    unfold merge_children. rewrite Ha, Hb. cbn. eauto.
Qed.

(** A second [make_ready], whatever tessellator and [set_data] it would
    use, finds the node as the first one left it. *)
Lemma make_ready_again (n : @SubsetPrivate PainterAttributeData) :
  make_ready gluTess' set_data_filler' set_data_merger'
    (make_ready gluTess set_data_filler set_data_merger n)
  = make_ready gluTess set_data_filler set_data_merger n.
Proof.
  induction n as [d | d c0 IH0 c1 IH1]; cbn [make_ready].
  - destruct (m_painter_data d) eqn:E; cbn [make_ready]; [now rewrite E |].
    destruct (m_sub_path d) eqn:Es.
    + destruct (make_ready_from_sub_path_ready gluTess set_data_filler d) as [a ->];
        [eauto | reflexivity].
    + rewrite !(make_ready_from_sub_path_none gluTess set_data_filler d Es), E.
      now rewrite (make_ready_from_sub_path_none gluTess' set_data_filler' d Es).
  - destruct (m_painter_data d) eqn:E; cbn [make_ready]; [now rewrite E |].
    destruct (m_sub_path d) eqn:Es; cbn [make_ready].
    + destruct (make_ready_from_sub_path_ready gluTess set_data_filler d) as [a ->];
        [eauto | reflexivity].
    + set (c0' := make_ready gluTess set_data_filler set_data_merger c0) in *.
      set (c1' := make_ready gluTess set_data_filler set_data_merger c1) in *.
      destruct (m_painter_data (data c0')) as [a |] eqn:E0;
        [destruct (m_painter_data (data c1')) as [b |] eqn:E1 |].
      * now rewrite (merge_children_ready _ d _ _ a b E0 E1).
      * rewrite !merge_children_not_ready by auto.
        rewrite E, Es, IH0, IH1. now rewrite merge_children_not_ready by auto.
      * rewrite !merge_children_not_ready by auto.
        rewrite E, Es, IH0, IH1. now rewrite merge_children_not_ready by auto.
Qed.

(** C8: [make_ready] is idempotent. On a node of the hierarchy the first
    call completes with the painter data in place, and a second call
    rebuilds nothing: whatever tessellator and [set_data] it is given, it
    returns the node as the first call left it, with the same painter
    data, winding numbers and per-vertex winding sets. *)
Theorem make_ready_idempotent (n : @SubsetPrivate PainterAttributeData) (Hok : subset_ok n) :
  let n1 := make_ready gluTess set_data_filler set_data_merger n in
  let n2 := make_ready gluTess' set_data_filler' set_data_merger' n1 in
  is_Some (m_painter_data (data n1))
  /\ n2 = n1
  /\ m_painter_data (data n2) = m_painter_data (data n1)
  /\ m_winding_numbers (data n2) = m_winding_numbers (data n1)
  /\ m_windings_per_pt (data n2) = m_windings_per_pt (data n1).
Proof.
  intros n1 n2. subst n2 n1. split; [now apply make_ready_ready |].
  rewrite make_ready_again. auto.
Qed.

End Baking.

(** The constructor makes well-formed nodes. *)
Lemma SubsetPrivate_new_ok {PainterAttributeData : Type} Q max_recursion out_values :
  subset_ok (fst (SubsetPrivate_new (PainterAttributeData := PainterAttributeData)
                    Q max_recursion out_values)).
Proof.
  funelim (SubsetPrivate_new Q max_recursion out_values).
  - cbv zeta in *. clear Heqcall.
    destruct (_ <? _); [| cbn; eauto].
    destruct (_ || _); cbn; eauto.
  - cbn. eauto.
Qed.

Lemma make_ready_idempotent_witness :
  subset_ok square_root
  /\ make_ready one_triangle baked_from_filler baked_from_merger
       (make_ready one_triangle baked_from_filler baked_from_merger square_root)
     = make_ready one_triangle baked_from_filler baked_from_merger square_root.
Proof.
  assert (Hok : subset_ok square_root) by apply SubsetPrivate_new_ok.
  split; [exact Hok |].
  exact (proj1 (proj2 (make_ready_idempotent one_triangle one_triangle
                         baked_from_filler baked_from_filler
                         baked_from_merger baked_from_merger square_root Hok))).
Defined.

(** ** The construction of the hierarchy *)

(** C9: the construction of the hierarchy terminates
    ([SubsetPrivate_new] is defined by well-founded recursion on
    [max_recursion]), with at most [max_recursion] levels and
    [2^(max_recursion + 1) - 1] nodes, each of which is appended to
    [out_values]; and it splits exactly under the stated conditions: a
    node is split only with recursion left and more than 64 points, and
    the split is kept only when one child has strictly fewer points than
    the parent, so that every leaf has at most 64 points, or was made with
    no recursion left (for the root call with [recursion_depth = 12], at
    depth 12), or has two halves with no fewer points than it. *)
Theorem subset_tree_construction {PainterAttributeData : Type}
    (Q : SubPath.t) (max_recursion : Z) (out_values : list Z) :
  let r := SubsetPrivate_new (PainterAttributeData := PainterAttributeData)
             Q max_recursion out_values in
  split_justified Q max_recursion (fst r)
  /\ (depth (fst r) <= Z.to_nat max_recursion)%nat
  /\ (nodes (fst r) <= 2 ^ (Z.to_nat max_recursion + 1) - 1)%nat
  /\ length (snd r) = (length out_values + nodes (fst r))%nat
  /\ SubsetConstants.recursion_depth = 12
  /\ SubsetConstants.points_per_subset = 64.
Proof.
  cbv zeta.
  funelim (SubsetPrivate_new Q max_recursion out_values).
  - clear Heqcall. cbv zeta in *.
    set (d := mk_SubsetData _ _ _ _ _ _ _ _ _) in *.
    set (out := out_values ++ [m_ID d]) in *.
    assert (Hout : length out = S (length out_values)).
    { unfold out. rewrite length_app. cbn. lia. }
    assert (Hpow : (1 <= 2 ^ (Z.to_nat max_recursion + 1) - 1)%nat).
    { pose proof (Nat.pow_nonzero 2 (Z.to_nat max_recursion)) as Hp.
      rewrite Nat.add_1_r, Nat.pow_succ_r'. lia. }
    destruct (Z.ltb_spec SubsetConstants.points_per_subset (SubPath.total_points Q))
      as [Hbig | Hsmall].
    + set (C := SubPath.split Q) in *.
      destruct (Z.ltb_spec (SubPath.total_points (fst C)) (SubPath.total_points Q))
        as [Hc0 | Hc0];
        [| destruct (Z.ltb_spec (SubPath.total_points (snd C)) (SubPath.total_points Q))
             as [Hc1 | Hc1]]; cbn [orb fst snd].
      * destruct H as (J0 & D0 & N0 & L0 & _). destruct H0 as (J1 & D1 & N1 & L1 & _).
        cbn [split_justified depth nodes]. fold C.
        replace (Z.to_nat max_recursion) with (S (Z.to_nat (max_recursion - 1))) by lia.
        rewrite Nat.add_1_r in N0, N1. rewrite Nat.add_1_r, Nat.pow_succ_r'.
        pose proof (Nat.pow_nonzero 2 (S (Z.to_nat (max_recursion - 1)))) as Hp.
        repeat split; auto; lia.
      * destruct H as (J0 & D0 & N0 & L0 & _). destruct H0 as (J1 & D1 & N1 & L1 & _).
        cbn [split_justified depth nodes]. fold C.
        replace (Z.to_nat max_recursion) with (S (Z.to_nat (max_recursion - 1))) by lia.
        rewrite Nat.add_1_r in N0, N1. rewrite Nat.add_1_r, Nat.pow_succ_r'.
        pose proof (Nat.pow_nonzero 2 (S (Z.to_nat (max_recursion - 1)))) as Hp.
        repeat split; auto; lia.
      * cbn [split_justified depth nodes]. fold C.
        repeat split; auto; lia.
    + cbn [fst snd split_justified depth nodes]. repeat split; auto; lia.
  - clear Heqcall. cbn [fst snd split_justified depth nodes].
    rewrite length_app. cbn [length].
    pose proof (Nat.pow_nonzero 2 (Z.to_nat max_recursion)) as Hp.
    rewrite Nat.add_1_r, Nat.pow_succ_r'.
    repeat split; auto; lia.
Qed.

(** ** Invariants of a tessellation run

    The hypotheses of the theorems on the callbacks and on [fill_indices]
    hold all along a run of a [builder]: the IDs of the map of the
    [PointHoard] stay positions of its vector, the entries of the index
    hoard keep their own winding number, and every index list stays
    counted. *)

Lemma counted_new w : counted (per_winding_data.new w).
Proof. reflexivity. Qed.

Lemma counted_add_index idx d : counted d -> counted (per_winding_data.add_index idx d).
Proof.
  unfold counted, per_winding_data.add_index. cbn. intros ->.
  rewrite length_app. cbn. lia.
Qed.

Lemma hoard_ok_new bounds : hoard_ok (PointHoard.new bounds []).
Proof. intros ipt id Hk. destruct (lookup_empty_Some _ _ Hk). Qed.

Lemma add_to_winding_set_ok v W h :
  hoard_ok h -> hoard_ok (PointHoard.add_to_winding_set v W h).
Proof.
  unfold hoard_ok, valid_id, PointHoard.add_to_winding_set.
  cbn [PointHoard.m_map PointHoard.m_pts]. intros Hok ipt id Hk.
  specialize (Hok ipt id Hk). destruct (v <? 0); [exact Hok |].
  now rewrite length_alter.
Qed.

Lemma ensure_bucket (hoard : gmap Z per_winding_data.t) W :
  let hoard' := match hoard !! W with
                | Some _ => hoard
                | None => <[W := per_winding_data.new W]> hoard
                end in
  is_Some (hoard' !! W)
  /\ forall k bk, hoard' !! k = Some bk ->
                  hoard !! k = Some bk \/ (k = W /\ bk = per_winding_data.new W).
Proof.
  cbv zeta. destruct (hoard !! W) as [b |] eqn:E.
  - split; [rewrite E; eauto | auto].
  - split; [rewrite lookup_insert_eq; eauto |].
    intros k bk Hk. apply lookup_insert_Some in Hk as [[<- <-] | [_ Hk]]; auto.
Qed.

Lemma nz_on_begin_polygon_inv w d h :
  nz_inv (d, h) -> nz_inv (non_zero_tesser.on_begin_polygon w d, h).
Proof.
  unfold nz_inv. cbn [fst snd]. intros ((Hb & Hcur) & Hcnt & Hh).
  unfold non_zero_tesser.on_begin_polygon.
  destruct (_ || _); [| exact (conj (conj Hb Hcur) (conj Hcnt Hh))].
  set (W := wrap_int _).
  destruct (ensure_bucket (non_zero_tesser.m_hoard d) W) as [Hs Hin].
  cbn [non_zero_tesser.m_hoard non_zero_tesser.m_current_indices
       non_zero_tesser.m_current_winding].
  split; [split |]; [| | split; [| exact Hh]].
  - intros k bk Hk. destruct (Hin k bk Hk) as [Hk' | [-> ->]];
      [exact (Hb _ _ Hk') | reflexivity].
  - intros k Hk. inversion Hk; subst k. split; [reflexivity | exact Hs].
  - intros k bk Hk. destruct (Hin k bk Hk) as [Hk' | [-> ->]];
      [exact (Hcnt _ _ Hk') | apply counted_new].
Qed.

Lemma nz_add_vertex_to_polygon_inv v s :
  nz_inv s -> nz_inv (non_zero_tesser.add_vertex_to_polygon v s).
Proof.
  destruct s as [d h]. intros Hinv.
  pose proof Hinv as ((Hb & Hcur) & Hcnt & Hh). cbn [fst snd] in Hb, Hcur, Hcnt, Hh.
  unfold non_zero_tesser.add_vertex_to_polygon.
  destruct (non_zero_tesser.m_current_indices d) as [k |] eqn:Ec; [| exact Hinv].
  destruct (non_zero_tesser.m_hoard d !! k) as [b |] eqn:Ek; [| exact Hinv].
  unfold nz_inv, nz_ok, buckets_ok, hoard_counted.
  cbn [fst snd non_zero_tesser.m_hoard non_zero_tesser.m_current_indices
       non_zero_tesser.m_current_winding].
  split; [split |]; [| | split].
  - intros k' bk Hk. apply lookup_insert_Some in Hk as [[<- <-] | [_ Hk]];
      [exact (Hb _ _ Ek) | exact (Hb _ _ Hk)].
  - intros k' Hk'. inversion Hk'; subst k'.
    split; [apply (Hcur k eq_refl) |]. rewrite lookup_insert_eq. eauto.
  - intros k' bk Hk. apply lookup_insert_Some in Hk as [[_ <-] | [_ Hk]];
      [apply counted_add_index, (Hcnt _ _ Ek) | exact (Hcnt _ _ Hk)].
  - now apply add_to_winding_set_ok.
Qed.

Lemma nz_fetch_inv q d h : nz_inv (d, h) -> nz_inv (d, snd (PointHoard.fetch q h)).
Proof.
  intros (Hn & Hc & Hq). exact (conj Hn (conj Hc (proj1 (fetch_ok q h Hq)))).
Qed.

Lemma z_add_vertex_to_polygon_inv v s :
  z_inv s -> z_inv (zero_tesser.add_vertex_to_polygon v s).
Proof.
  destruct s as [d h]. intros Hinv.
  pose proof Hinv as (Hb & Hcnt & Hh). cbn [fst snd] in Hb, Hcnt, Hh.
  unfold zero_tesser.add_vertex_to_polygon.
  destruct (zero_tesser.m_hoard d !! zero_tesser.m_indices d) as [b |] eqn:Ek;
    [| exact Hinv].
  unfold z_inv, buckets_ok, hoard_counted.
  cbn [fst snd zero_tesser.m_hoard]. split; [| split].
  - intros k' bk Hk. apply lookup_insert_Some in Hk as [[<- <-] | [_ Hk]];
      [exact (Hb _ _ Ek) | exact (Hb _ _ Hk)].
  - intros k' bk Hk. apply lookup_insert_Some in Hk as [[_ <-] | [_ Hk]];
      [apply counted_add_index, (Hcnt _ _ Ek) | exact (Hcnt _ _ Hk)].
  - now apply add_to_winding_set_ok.
Qed.

Lemma z_fetch_inv q d h : z_inv (d, h) -> z_inv (d, snd (PointHoard.fetch q h)).
Proof.
  intros (Hn & Hc & Hq). exact (conj Hn (conj Hc (proj1 (fetch_ok q h Hq)))).
Qed.

Section RunInvariant.
Context {D : Type} `{tesser_methods D}.
Variable inv : D * PointHoard.t -> Prop.
Hypothesis inv_begin : forall w d h, inv (d, h) -> inv (on_begin_polygon w d, h).
Hypothesis inv_vertex : forall v s, inv s -> inv (add_vertex_to_polygon v s).
Hypothesis inv_fetch : forall q d h, inv (d, h) -> inv (d, snd (PointHoard.fetch q h)).

Lemma subdivide_inv p :
  state_inv inv p -> state_inv inv (tesser.subdivide p).
Proof.
  unfold state_inv, tesser.subdivide. intros Hp.
  destruct (tesser.m_temp_verts p) as [[t0 t1] t2].
  repeat match goal with
         | |- context [PointHoard.fetch ?q ?h] =>
             let i := fresh "i" in let h' := fresh "h" in let E := fresh "E" in
             pose proof (inv_fetch q (tesser.derived p) h) as E;
             destruct (PointHoard.fetch q h) as [i h'] eqn:?; cbn [snd] in E
         end.
  cbn [tesser.derived tesser.m_points]. rewrite <- surjective_pairing.
  unfold tesser.add_triangle. repeat apply inv_vertex. auto.
Qed.

Lemma run_event_inv p e :
  state_inv inv p -> state_inv inv (tesser.run_event p e).
Proof.
  unfold state_inv. intros Hp. destruct e as [w | v | data weight]; cbn [tesser.run_event].
  - unfold tesser.begin_callBack. cbn. now apply inv_begin.
  - unfold tesser.vertex_callBack.
    destruct (_ =? 3); [| exact Hp].
    match goal with |- context [tesser.triangle_accepted ?q] =>
      destruct (tesser.triangle_accepted q); [apply subdivide_inv |]; exact Hp end.
  - unfold tesser.combine_callback, tesser.add_point_to_store.
    match goal with |- context [PointHoard.fetch ?q ?h] =>
      pose proof (inv_fetch q (tesser.derived p) h Hp) as E;
      destruct (PointHoard.fetch q h) as [i h'] end.
    exact E.
Qed.

Lemma run_events_inv es : forall p,
  state_inv inv p -> state_inv inv (fold_left tesser.run_event es p).
Proof.
  induction es as [| e es IH]; intros p Hp; [exact Hp |].
  cbn [fold_left]. apply IH, run_event_inv, Hp.
Qed.

End RunInvariant.

Lemma generate_contour_ok C : forall output h,
  hoard_ok h -> hoard_ok (snd (PointHoard.generate_contour C output h)).
Proof.
  unfold PointHoard.generate_contour.
  induction C as [| p C IH]; intros output h Hh; cbn [fold_left snd]; [exact Hh |].
  pose proof (fetch_ok (SubPath.m_pt p) h Hh) as (Hh' & _).
  destruct (PointHoard.fetch (SubPath.m_pt p) h) as [id h'].
  cbn [fst snd] in *. apply IH, Hh'.
Qed.

Lemma generate_path_ok (input : SubPath.t) h :
  hoard_ok h -> hoard_ok (snd (PointHoard.generate_path input h)).
Proof.
  unfold PointHoard.generate_path.
  match goal with |- context [fold_left ?f _ _] => set (F := f) end.
  assert (HF : forall Cs acc h', hoard_ok h' ->
                 hoard_ok (snd (fold_left F Cs (acc, h')))).
  { induction Cs as [| C Cs IH]; intros acc h' Hh'; cbn [fold_left snd]; [exact Hh' |].
    unfold F at 2. cbn [fst snd].
    pose proof (generate_contour_ok C [] h' Hh') as Hh''.
    destruct (PointHoard.generate_contour C [] h') as [c h''].
    apply IH, Hh''. }
  apply HF.
Qed.

Section TesserSteps.
Context {D : Type} `{tesser_methods D}.

Lemma add_contour_state C (p : tesser.t D) :
  tesser.derived (tesser.add_contour C p) = tesser.derived p
  /\ tesser.m_points (tesser.add_contour C p) = tesser.m_points p.
Proof.
  unfold tesser.add_contour. destruct (fold_left _ C _). split; reflexivity.
Qed.

Lemma add_path_state P : forall p : tesser.t D,
  tesser.derived (tesser.add_path P p) = tesser.derived p
  /\ tesser.m_points (tesser.add_path P p) = tesser.m_points p.
Proof.
  unfold tesser.add_path.
  induction P as [| C P IH]; intros p; cbn [fold_left]; [split; reflexivity |].
  destruct (IH (tesser.add_contour C p)) as [-> ->]. apply add_contour_state.
Qed.

Lemma add_path_boundary_state (P : SubPath.t) (p : tesser.t D) :
  hoard_ok (tesser.m_points p) ->
  tesser.derived (tesser.add_path_boundary P p) = tesser.derived p
  /\ hoard_ok (tesser.m_points (tesser.add_path_boundary P p)).
Proof.
  intros Hh. unfold tesser.add_path_boundary.
  match goal with |- context [fold_left ?f ?l (?a, _)] => set (F := f); set (ks := l) end.
  assert (HF : forall (ks : list Z) vs h, hoard_ok h ->
                 hoard_ok (snd (fold_left F ks (vs, h)))).
  { clear ks. induction ks as [| k ks IH]; intros vs h Hh'; cbn [fold_left snd];
      [exact Hh' |].
    unfold F at 2. cbn [fst snd].
    match goal with |- context [PointHoard.fetch ?q h] =>
      pose proof (fetch_ok q h Hh') as (Hh'' & _);
      destruct (PointHoard.fetch q h) as [id h'] end.
    cbn [fst snd] in *. apply IH, Hh''. }
  specialize (HF ks [] (tesser.m_points p) Hh).
  destruct (fold_left F ks ([], tesser.m_points p)) as [vs points].
  split; [reflexivity | exact HF].
Qed.

End TesserSteps.

(** The hoard that a [builder] hands to [fill_indices] is counted,
    whatever GLU-tess reports. *)
Lemma builder_new_counted gluTess (P : SubPath.t) :
  hoard_counted (b_hoard (builder_new gluTess P [])).
Proof.
  unfold builder_new.
  pose proof (generate_path_ok P _ (hoard_ok_new (SubPath.m_bounds P))) as Hh.
  destruct (PointHoard.generate_path P _) as [path points]. cbn [snd] in Hh.
  (* the non-zero pass *)
  unfold non_zero_execute_path, tesser_stop.
  set (NZ := tesser.add_bounding_box_path (tesser.add_path path (tesser.new points _))).
  assert (HNZ : state_inv nz_inv NZ).
  { unfold state_inv, NZ, tesser.add_bounding_box_path.
    destruct (add_path_state path
                (tesser.new points (non_zero_tesser.mk (SubPath.winding_start P) ∅ 0 None)))
      as [-> ->].
    split; [split; [intros k bk Hk; destruct (lookup_empty_Some _ _ Hk) | discriminate]
           | split; [intros k bk Hk; destruct (lookup_empty_Some _ _ Hk) | exact Hh]]. }
  pose proof (run_events_inv nz_inv nz_on_begin_polygon_inv nz_add_vertex_to_polygon_inv
                nz_fetch_inv
                (gluTess (tesser.m_tess NZ) (fun w => tesser.winding_callBack w NZ)
                         (tesser.m_points NZ)) NZ HNZ) as ((Hb & _) & Hcnt & Hh1).
  cbn [fst snd] in Hb, Hcnt, Hh1.
  set (NZ' := fold_left tesser.run_event _ NZ) in *.
  (* the zero pass *)
  unfold zero_execute_path, tesser_stop.
  set (k := SubPath.winding_start P).
  destruct (ensure_bucket (non_zero_tesser.m_hoard (tesser.derived NZ')) k) as [_ Hin].
  set (hoard := match non_zero_tesser.m_hoard (tesser.derived NZ') !! k with
                | Some _ => _ | None => _ end) in *.
  set (Z0 := tesser.add_path_boundary P _).
  assert (HZ : state_inv z_inv Z0).
  { unfold state_inv, Z0.
    destruct (add_path_boundary_state P
                (tesser.add_bounding_box_path
                   (tesser.add_path path
                      (tesser.new (tesser.m_points NZ') (zero_tesser.mk hoard k)))))
      as [-> Hh2].
    - unfold tesser.add_bounding_box_path.
      destruct (add_path_state path
                  (tesser.new (tesser.m_points NZ') (zero_tesser.mk hoard k)))
        as [_ ->]. exact Hh1.
    - unfold tesser.add_bounding_box_path.
      destruct (add_path_state path
                  (tesser.new (tesser.m_points NZ') (zero_tesser.mk hoard k)))
        as [-> _].
      cbn. split; [| split; [| exact Hh2]].
      + intros k' bk Hk. destruct (Hin k' bk Hk) as [Hk' | [-> ->]];
          [exact (Hb _ _ Hk') | reflexivity].
      + intros k' bk Hk. destruct (Hin k' bk Hk) as [Hk' | [-> ->]];
          [exact (Hcnt _ _ Hk') | apply counted_new]. }
  pose proof (run_events_inv z_inv (fun w d h Hi => Hi)
                z_add_vertex_to_polygon_inv z_fetch_inv
                (gluTess (tesser.m_tess Z0) (fun w => tesser.winding_callBack w Z0)
                         (tesser.m_points Z0)) Z0 HZ) as (_ & Hcnt' & _).
  exact Hcnt'.
Qed.

(** C1: for every leaf bake, that is for the [builder] that
    [make_ready_from_sub_path] makes of a sub-path, whatever the sweep-line
    tessellator reports, [fill_indices] lays out the index array as three
    contiguous regions: the indices of the triangles with odd winding
    number first, then those with even non-zero winding number, then those
    with winding number zero. [even_non_zero_start] is the number of the
    odd indices and [zero_start] the number of the odd and the even
    non-zero ones, and the four views taken of the array are the slices of
    the standard fill rules: nonzero [[0, zero_start)], odd-even
    [[0, even_non_zero_start)], complement-odd-even
    [[even_non_zero_start, total)], complement-nonzero
    [[zero_start, total)]. *)
Theorem fill_indices_layout
    (gluTess : list glu_contour -> (Z -> bool) -> PointHoard.t -> list glu_event)
    (P : SubPath.t) :
  let B := builder_new gluTess P [] in
  let es := entries (b_hoard B) in
  let r := fill_indices (b_hoard B) [] ∅ in
  let odd := region odd_winding es in
  let even := region even_non_zero_winding es in
  let zero := region zero_winding es in
  let indices_ptr := make_c_array (f_indices r) in
  let total := len (f_indices r) in
  f_indices r = odd ++ even ++ zero
  /\ even_non_zero_start r = len odd
  /\ zero_start r = len odd + len even
  /\ total = len odd + len even + len zero
  /\ view (f_indices r) (sub_array indices_ptr 0 (zero_start r)) = odd ++ even
  /\ view (f_indices r) (sub_array indices_ptr 0 (even_non_zero_start r)) = odd
  /\ view (f_indices r) (sub_array_from indices_ptr (even_non_zero_start r))
     = even ++ zero
  /\ view (f_indices r) (sub_array_from indices_ptr (zero_start r)) = zero.
Proof.
  intros B es r odd even zero indices_ptr total.
  destruct (fill_indices_regions (b_hoard B) [] ∅ (builder_new_counted gluTess P))
    as (Hi & He & Hz & V1 & V2 & V3 & V4).
  fold B es r odd even zero indices_ptr in Hi, He, Hz, V1, V2, V3, V4.
  repeat (split; [assumption |]).
  split; [| repeat (split; [assumption |]); assumption].
  subst total. rewrite Hi, !len_app. lia.
Qed.

(** * Further properties of the code

    ** Winding sets *)

Section WindingSetRoundTrips.
Import WindingSet.

Lemma length_fold_set (f : Z -> bool) b ws : forall bits,
  length (fold_left (fun bits w => set (w - b) (f w) bits) ws bits) = length bits.
Proof.
  induction ws as [| w ws IH]; intros bits; cbn [fold_left]; [reflexivity |].
  now rewrite IH, length_set.
Qed.

Lemma has_in_range s w : has s w = true -> m_begin s <= w < m_end s.
Proof.
  unfold has. destruct (Z.leb_spec (m_begin s) w), (Z.ltb_spec w (m_end s));
    cbn [andb]; intros E; try discriminate; lia.
Qed.

End WindingSetRoundTrips.

(** X1: [extract_from_set] followed by [has] is membership in the
    [std::set]: whatever the winding set held before, afterwards [has(w)]
    is true exactly for the elements [w] of the set (each below
    [INT_MAX], so that [m_end] does not overflow). The bitset has one bit
    for every integer of [[m_begin, m_end)], a range that holds all the
    elements, and the empty set gives the empty winding set. *)
Theorem extract_from_set_has (s : WindingSet.t) (S : gset Z)
    (HS : forall x, x ∈ S -> is_int (x + 1)) :
  let r := WindingSet.extract_from_set s S in
  (forall w, WindingSet.has r w = true <-> w ∈ S)
  /\ Z.of_nat (length (WindingSet.m_bits r)) = WindingSet.m_end r - WindingSet.m_begin r
  /\ (forall x, x ∈ S -> WindingSet.m_begin r <= x < WindingSet.m_end r)
  /\ (S = ∅ -> r = WindingSet.empty).
Proof.
  intros r.
  assert (Hhas : forall w, WindingSet.has r w = true <-> w ∈ S).
  { intros w. subst r. rewrite has_extract_from_set by exact HS.
    apply bool_decide_eq_true. }
  split; [exact Hhas |]. split; [| split].
  - subst r. unfold WindingSet.extract_from_set. case_bool_decide as He; [reflexivity |].
    cbn [WindingSet.m_bits WindingSet.m_begin WindingSet.m_end].
    rewrite length_fold_set.
    pose proof (set_last_elem S He) as Hl.
    rewrite wrap_int_id by (apply HS, Hl).
    pose proof (set_first_le S _ Hl).
    rewrite length_resize; lia.
  - intros x Hx. apply has_in_range. now apply Hhas.
  - intros ->. reflexivity.
Qed.

Lemma extract_from_set_has_witness :
  WindingSet.has (WindingSet.extract_from_set WindingSet.empty {[-1; 2]}) 2 = true
  /\ WindingSet.has (WindingSet.extract_from_set WindingSet.empty {[-1; 2]}) 0 = false.
Proof.
  assert (HS : forall x : Z, x ∈ ({[-1; 2]} : gset Z) -> is_int (x + 1)).
  { intros x Hx. apply elem_of_union in Hx as [Hx | Hx];
      apply elem_of_singleton in Hx; subst x; unfold is_int, int_min, int_max; lia. }
  destruct (extract_from_set_has WindingSet.empty {[-1; 2]} HS) as (Hhas & _).
  split.
  - apply Hhas, elem_of_union_r, elem_of_singleton. reflexivity.
  - destruct (WindingSet.has _ 0) eqn:E; [| reflexivity].
    apply Hhas in E. apply elem_of_union in E as [E | E];
      apply elem_of_singleton in E; discriminate E.
Defined.

(** X2: the two winding sets that [compute_writer] extracts from a fill
    rule over the observed range [[min_winding, max_winding]], one with
    [flip = false] and one with [flip = true], split the range: on a
    winding number of the range [m_winding_rule.has] is the fill rule and
    [m_complement_winding_rule.has] its negation, outside the range both
    are false, and the two sets have no common bit. *)
Theorem winding_rule_and_complement (s0 s1 : WindingSet.t)
    (min_winding max_winding : Z) (fill_rule : Z -> bool)
    (Hrange : min_winding <= max_winding + 1)
    (Hmax : is_int (max_winding + 1)) :
  let rule := WindingSet.extract_from_fill_fule s0 min_winding max_winding fill_rule false in
  let compl := WindingSet.extract_from_fill_fule s1 min_winding max_winding fill_rule true in
  (forall w, min_winding <= w <= max_winding ->
     WindingSet.has rule w = fill_rule w
     /\ WindingSet.has compl w = negb (fill_rule w))
  /\ (forall w, ~ min_winding <= w <= max_winding ->
        WindingSet.has rule w = false /\ WindingSet.has compl w = false)
  /\ WindingSet.have_common_bit rule compl = false.
Proof.
  intros rule compl.
  assert (Hr : forall w, WindingSet.has rule w
                 = (min_winding <=? w) && (w <=? max_winding) && fill_rule w).
  { intros w. subst rule. rewrite has_extract_from_fill_fule by assumption.
    now destruct (fill_rule w). }
  assert (Hc : forall w, WindingSet.has compl w
                 = (min_winding <=? w) && (w <=? max_winding) && negb (fill_rule w)).
  { intros w. subst compl. rewrite has_extract_from_fill_fule by assumption.
    now destruct (fill_rule w). }
  split; [| split].
  - intros w [H1 H2]. rewrite Hr, Hc.
    apply Z.leb_le in H1, H2. now rewrite H1, H2.
  - intros w Hw. rewrite Hr, Hc.
    destruct (Z.leb_spec min_winding w), (Z.leb_spec w max_winding); auto; lia.
  - destruct (WindingSet.have_common_bit rule compl) eqn:E; [| reflexivity].
    apply have_common_bit_spec in E as (w & H1 & H2).
    rewrite Hr in H1. rewrite Hc in H2.
    destruct (fill_rule w); rewrite ?andb_false_r in *; discriminate.
Qed.

Lemma winding_rule_and_complement_witness :
  WindingSet.has
    (WindingSet.extract_from_fill_fule WindingSet.empty (-2) 3 fcn_odd_even_fill_rule false)
    (-1) = true
  /\ WindingSet.has
       (WindingSet.extract_from_fill_fule WindingSet.empty (-2) 3 fcn_odd_even_fill_rule true)
       (-1) = false.
Proof.
  assert (Hmax : is_int (3 + 1)) by (unfold is_int, int_min, int_max; lia).
  destruct (winding_rule_and_complement WindingSet.empty WindingSet.empty (-2) 3
              fcn_odd_even_fill_rule ltac:(lia) Hmax) as (Hin & _).
  destruct (Hin (-1) ltac:(lia)) as [-> ->]. split; reflexivity.
Defined.

(** X3: [have_common_bit] is true exactly when some winding number is in
    both sets; it is symmetric in its two sets, and it is false against a
    winding set that was cleared. *)
Theorem have_common_bit_symmetric (a b : WindingSet.t) :
  (WindingSet.have_common_bit a b = true
   <-> exists w, WindingSet.has a w = true /\ WindingSet.has b w = true)
  /\ WindingSet.have_common_bit a b = WindingSet.have_common_bit b a
  /\ WindingSet.have_common_bit a (WindingSet.clear b) = false
  /\ WindingSet.have_common_bit (WindingSet.clear a) b = false.
Proof.
  split; [apply have_common_bit_spec |].
  assert (Hsym : forall x y, WindingSet.have_common_bit x y = true ->
                             WindingSet.have_common_bit y x = true).
  { intros x y E. apply have_common_bit_spec in E as (w & H1 & H2).
    apply have_common_bit_spec. eauto. }
  assert (Hclear : forall x y, WindingSet.have_common_bit x (WindingSet.clear y) = false).
  { intros x y. destruct (WindingSet.have_common_bit _ _) eqn:E; [| reflexivity].
    apply have_common_bit_spec in E as (w & _ & H2).
    apply has_in_range in H2. cbn in H2. lia. }
  split; [| split; [apply Hclear |]].
  - destruct (WindingSet.have_common_bit a b) eqn:E1,
             (WindingSet.have_common_bit b a) eqn:E2; try reflexivity.
    + apply Hsym in E1. congruence.
    + apply Hsym in E2. congruence.
  - destruct (WindingSet.have_common_bit (WindingSet.clear a) b) eqn:E; [| reflexivity].
    apply Hsym in E. now rewrite Hclear in E.
Qed.

(** ** The point hoard *)

Lemma at_app_l {A : Type} `{Inhabited A} (l new : list A) (v : Z) :
  0 <= v < Z.of_nat (length l) -> at_ (l ++ new) v = at_ l v.
Proof.
  intros Hv. unfold at_. destruct (Z.ltb_spec v 0); [lia |].
  apply lookup_total_app_l. lia.
Qed.

Lemma at_app_length {A : Type} `{Inhabited A} (l : list A) (x : A) :
  at_ (l ++ [x]) (Z.of_nat (length l)) = x.
Proof.
  unfold at_. destruct (Z.ltb_spec (Z.of_nat (length l)) 0); [lia |].
  rewrite Nat2Z.id. apply list_lookup_total_correct.
  rewrite lookup_app_r by lia. now rewrite Nat.sub_diag.
Qed.

Lemma hoard_extends_refl h : hoard_extends h h.
Proof. split; [reflexivity |]. exists []. now rewrite app_nil_r. Qed.

Lemma hoard_extends_trans h1 h2 h3 :
  hoard_extends h1 h2 -> hoard_extends h2 h3 -> hoard_extends h1 h3.
Proof.
  intros [C1 [n1 E1]] [C2 [n2 E2]]. split; [congruence |].
  exists (n1 ++ n2). now rewrite E2, E1, app_assoc.
Qed.

Lemma hoard_extends_valid h h' v : hoard_extends h h' -> valid_id h v -> valid_id h' v.
Proof.
  intros [_ [new E]]. unfold valid_id. rewrite E, length_app. lia.
Qed.

Lemma hoard_extends_at h h' v :
  hoard_extends h h' -> valid_id h v ->
  at_ (PointHoard.m_pts h') v = at_ (PointHoard.m_pts h) v.
Proof. intros [_ [new E]] Hv. rewrite E. now apply at_app_l. Qed.

Lemma hoard_extends_names h h' id pt :
  hoard_extends h h' -> names_cell_of h id pt -> names_cell_of h' id pt.
Proof.
  intros He [Hv Hc]. split; [eapply hoard_extends_valid; eauto |].
  unfold PointHoard.pt_of. rewrite (hoard_extends_at h h' id He Hv).
  destruct He as [-> _]. exact Hc.
Qed.

(** What one [fetch] does to a hoard that satisfies the invariants. *)
Lemma fetch_spec pt h :
  hoard_ok h -> cells_ok h ->
  let id := fst (PointHoard.fetch pt h) in
  let h' := snd (PointHoard.fetch pt h) in
  hoard_ok h' /\ cells_ok h' /\ hoard_extends h h' /\ names_cell_of h' id pt
  /\ (exists new, PointHoard.m_pts h' = PointHoard.m_pts h ++ new
                  /\ (length new <= 1)%nat
                  /\ Forall (fun p => m_pt p = pt /\ m_winding p = ∅) new)
  /\ (~ valid_id h id -> PointHoard.pt_of h' id = pt).
Proof.
  intros Hok Hcells. unfold PointHoard.fetch.
  destruct (PointHoard.m_map h !! _) as [id |] eqn:E; cbn [fst snd].
  - split; [exact Hok |]. split; [exact Hcells |].
    split; [apply hoard_extends_refl |].
    split; [split; [exact (Hok _ _ E) | exact (Hcells _ _ E)] |].
    split; [exists []; rewrite app_nil_r; auto |].
    intros Hn. destruct (Hn (Hok _ _ E)).
  - set (ipt := CoordinateConverter.iapply (PointHoard.m_converter h) pt) in *.
    set (h' := PointHoard.mk _ _ _).
    assert (Hext : hoard_extends h h').
    { split; [reflexivity |]. eexists. reflexivity. }
    assert (Hnew : PointHoard.pt_of h' (Z.of_nat (length (PointHoard.m_pts h))) = pt).
    { unfold PointHoard.pt_of, h'. cbn [PointHoard.m_pts]. now rewrite at_app_length. }
    assert (Hv : valid_id h' (Z.of_nat (length (PointHoard.m_pts h)))).
    { unfold valid_id, h'. cbn [PointHoard.m_pts]. rewrite length_app. cbn. lia. }
    split; [| split; [| split; [exact Hext | split; [| split]]]].
    + intros k id Hk. unfold h' in Hk. cbn [PointHoard.m_map] in Hk.
      apply lookup_insert_Some in Hk as [[_ <-] | [_ Hk]]; [exact Hv |].
      eapply hoard_extends_valid; eauto.
    + intros k id Hk. unfold h' in Hk. cbn [PointHoard.m_map] in Hk.
      apply lookup_insert_Some in Hk as [[<- <-] | [_ Hk]].
      * now rewrite Hnew.
      * unfold PointHoard.pt_of.
        rewrite (hoard_extends_at h h' id Hext (Hok _ _ Hk)). exact (Hcells _ _ Hk).
    + split; [exact Hv |]. now rewrite Hnew.
    + eexists. split; [reflexivity |]. split; [cbn; lia |].
      constructor; [split; reflexivity | constructor].
    + intros _. exact Hnew.
Qed.

(** X4: [PointHoard::fetch] merges the points of one integer cell: after
    [fetch(pt)], a fetch of any point [pt'] that [iapply] sends to the
    cell of [pt] (of [pt] itself, for one) returns the ID that [fetch(pt)]
    returned and leaves the hoard as it is. *)
Theorem fetch_same_cell (pt pt' : vec2) (h : PointHoard.t)
    (Hcell : CoordinateConverter.iapply (PointHoard.m_converter h) pt'
             = CoordinateConverter.iapply (PointHoard.m_converter h) pt) :
  PointHoard.fetch pt' (snd (PointHoard.fetch pt h)) = PointHoard.fetch pt h.
Proof.
  unfold PointHoard.fetch at 2 3.
  destruct (PointHoard.m_map h !! _) as [id |] eqn:E; cbn [fst snd].
  - unfold PointHoard.fetch. now rewrite Hcell, E.
  - unfold PointHoard.fetch. cbn [PointHoard.m_converter PointHoard.m_map].
    now rewrite Hcell, lookup_insert_eq.
Qed.

Lemma fetch_same_cell_witness :
  PointHoard.fetch (pt_xy 1 0)
    (snd (PointHoard.fetch (pt_xy 1 0) (unit_hoard [pt_xy 0 0])))
  = PointHoard.fetch (pt_xy 1 0) (unit_hoard [pt_xy 0 0]).
Proof. exact (fetch_same_cell (pt_xy 1 0) (pt_xy 1 0) (unit_hoard [pt_xy 0 0]) eq_refl). Defined.

(** X5: on a hoard whose map holds positions of its vector of points,
    each under the integer cell of its point, [fetch(pt)] keeps both
    invariants, returns a position of the vector at which a point of the
    cell of [pt] is stored, appends at most one point (it is [pt], with an
    empty winding set) and changes no point already stored; when the ID
    is a new one, its point is [pt] itself. *)
Theorem fetch_keeps_points (pt : vec2) (h : PointHoard.t)
    (Hok : hoard_ok h) (Hcells : cells_ok h) :
  let id := fst (PointHoard.fetch pt h) in
  let h' := snd (PointHoard.fetch pt h) in
  hoard_ok h' /\ cells_ok h'
  /\ names_cell_of h' id pt
  /\ (exists new, PointHoard.m_pts h' = PointHoard.m_pts h ++ new
                  /\ (length new <= 1)%nat
                  /\ Forall (fun p => m_pt p = pt /\ m_winding p = ∅) new)
  /\ (forall v, valid_id h v ->
        at_ (PointHoard.m_pts h') v = at_ (PointHoard.m_pts h) v)
  /\ (~ valid_id h id -> PointHoard.pt_of h' id = pt).
Proof.
  intros id h'.
  destruct (fetch_spec pt h Hok Hcells) as (H1 & H2 & H3 & H4 & H5 & H6).
  fold id h' in H1, H2, H3, H4, H5, H6.
  split; [exact H1 |]. split; [exact H2 |]. split; [exact H4 |].
  split; [exact H5 |]. split; [| exact H6].
  intros v Hv. now apply hoard_extends_at.
Qed.

Lemma fetch_keeps_points_witness :
  names_cell_of (snd (PointHoard.fetch (pt_xy 1 0) (unit_hoard [pt_xy 0 0]))) 1 (pt_xy 1 0).
Proof.
  assert (Hok : hoard_ok (unit_hoard [pt_xy 0 0])).
  { intros ipt id Hk. destruct (lookup_empty_Some _ _ Hk). }
  assert (Hcells : cells_ok (unit_hoard [pt_xy 0 0])).
  { intros ipt id Hk. destruct (lookup_empty_Some _ _ Hk). }
  exact (proj1 (proj2 (proj2 (fetch_keeps_points (pt_xy 1 0) (unit_hoard [pt_xy 0 0])
                                Hok Hcells)))).
Defined.

Lemma generate_contour_spec C : forall output h,
  hoard_ok h -> cells_ok h ->
  let out := fst (PointHoard.generate_contour C output h) in
  let h' := snd (PointHoard.generate_contour C output h) in
  hoard_ok h' /\ cells_ok h' /\ hoard_extends h h'
  /\ exists ids, out = output ++ ids
                 /\ Forall2 (fun id p => names_cell_of h' id (SubPath.m_pt p)) ids C.
Proof.
  unfold PointHoard.generate_contour.
  induction C as [| p C IH]; intros output h Hok Hcells; cbn [fold_left fst snd].
  - split; [exact Hok |]. split; [exact Hcells |]. split; [apply hoard_extends_refl |].
    exists []. rewrite app_nil_r. split; [reflexivity | constructor].
  - destruct (fetch_spec (SubPath.m_pt p) h Hok Hcells) as (H1 & H2 & H3 & H4 & _).
    destruct (PointHoard.fetch (SubPath.m_pt p) h) as [id h1]. cbn [fst snd] in *.
    destruct (IH (output ++ [id]) h1 H1 H2) as (K1 & K2 & K3 & ids & Eo & Hids).
    split; [exact K1 |]. split; [exact K2 |].
    split; [eapply hoard_extends_trans; eauto |].
    exists (id :: ids). split; [rewrite <- app_assoc in Eo; exact Eo |].
    constructor; [| exact Hids]. eapply hoard_extends_names; eauto.
Qed.

(** X6: [generate_path] on the hoard of a new [builder] turns a sub-path
    into a path of IDs of the same shape: one contour of IDs for each
    contour, one ID for each point, every ID a position in the vector of
    points at which a point of the integer cell of the input point is
    stored; the points that the vector held before are kept, at their
    positions. *)
Theorem generate_path_shape (input : SubPath.t) (bounds : BoundingBox)
    (pts : list FillPoint) :
  let h0 := PointHoard.new bounds pts in
  let path := fst (PointHoard.generate_path input h0) in
  let h := snd (PointHoard.generate_path input h0) in
  Forall2 (Forall2 (fun id p => names_cell_of h id (SubPath.m_pt p)))
          path (SubPath.m_contours input)
  /\ (exists new, PointHoard.m_pts h = pts ++ new)
  /\ hoard_ok h /\ cells_ok h.
Proof.
  intros h0 path h.
  pose (F := fun (s : PointHoard.Path * PointHoard.t) (C : SubPath.SubContour) =>
               let '(c, h') := PointHoard.generate_contour C [] (snd s) in
               (fst s ++ [c], h')).
  assert (HF : forall Cs acc h1, hoard_ok h1 -> cells_ok h1 ->
             let r := fold_left F Cs (acc, h1) in
             hoard_ok (snd r) /\ cells_ok (snd r) /\ hoard_extends h1 (snd r)
             /\ exists cs, fst r = acc ++ cs
                  /\ Forall2 (Forall2 (fun id p => names_cell_of (snd r) id (SubPath.m_pt p)))
                             cs Cs).
  { induction Cs as [| C Cs IH]; intros acc h1 Hok Hcells; cbv zeta in *;
      cbn [fold_left].
    - cbn [fst snd]. split; [exact Hok |]. split; [exact Hcells |].
      split; [apply hoard_extends_refl |].
      exists []. rewrite app_nil_r. split; [reflexivity | constructor].
    - destruct (generate_contour_spec C [] h1 Hok Hcells) as (H1 & H2 & H3 & ids & Eo & Hids).
      assert (Es : F (acc, h1) C
                   = (acc ++ [fst (PointHoard.generate_contour C [] h1)],
                      snd (PointHoard.generate_contour C [] h1))).
      { unfold F. cbn [fst snd]. now destruct (PointHoard.generate_contour C [] h1). }
      rewrite Es. clear Es.
      destruct (PointHoard.generate_contour C [] h1) as [c h2]. cbn [fst snd] in *.
      cbn [app] in Eo. subst c.
      destruct (IH (acc ++ [ids]) h2 H1 H2) as (K1 & K2 & K3 & cs & Ecs & Hcs).
      split; [exact K1 |]. split; [exact K2 |].
      split; [eapply hoard_extends_trans; eauto |].
      exists (ids :: cs). split; [rewrite <- app_assoc in Ecs; exact Ecs |].
      constructor; [| exact Hcs].
      eapply Forall2_impl; [exact Hids |].
      intros id p Hn. eapply hoard_extends_names; eauto. }
  assert (Hok0 : hoard_ok h0) by (intros ipt id Hk; destruct (lookup_empty_Some _ _ Hk)).
  assert (Hc0 : cells_ok h0) by (intros ipt id Hk; destruct (lookup_empty_Some _ _ Hk)).
  destruct (HF (SubPath.m_contours input) [] h0 Hok0 Hc0)
    as (H1 & H2 & [_ Hext] & cs & Ecs & Hcs).
  change (fold_left F (SubPath.m_contours input) ([], h0))
    with (PointHoard.generate_path input h0) in *.
  fold path h in H1, H2, Hext, Ecs, Hcs.
  cbn [app] in Ecs. rewrite Ecs.
  split; [exact Hcs |]. split; [exact Hext |]. split; assumption.
Qed.

(** ** The run of a builder *)

Lemma builder_new_run gluTess (P : SubPath.t) :
  builder_new gluTess P []
  = mk_builder (zero_tesser.m_hoard (tesser.derived (z_end gluTess P)))
               (tesser.m_points (z_end gluTess P))
               (tesser.m_triangulation_failed (nz_end gluTess P)
                || tesser.m_triangulation_failed (z_end gluTess P)).
Proof.
  unfold builder_new, z_end, z_start, nz_end, nz_start, tess_events, builder_path.
  destruct (PointHoard.generate_path P _) as [path points].
  reflexivity.
Qed.

Section FailedFlag.
Context {D : Type} `{tesser_methods D}.

Lemma subdivide_failed (p : tesser.t D) :
  tesser.m_triangulation_failed (tesser.subdivide p) = tesser.m_triangulation_failed p.
Proof.
  unfold tesser.subdivide. destruct (tesser.m_temp_verts p) as [[t0 t1] t2].
  repeat match goal with
         | |- context [PointHoard.fetch ?q ?h] => destruct (PointHoard.fetch q h)
         end.
  reflexivity.
Qed.

Lemma run_event_failed (p : tesser.t D) e :
  tesser.m_triangulation_failed (tesser.run_event p e)
  = tesser.m_triangulation_failed p || is_null_vertex e.
Proof.
  destruct e as [w | v | data weight]; cbn [tesser.run_event is_null_vertex].
  - unfold tesser.begin_callBack. cbn. now rewrite orb_false_r.
  - unfold tesser.vertex_callBack.
    set (failed := if v =? FASTUIDRAW_GLU_NULL_CLIENT_ID then true
                   else tesser.m_triangulation_failed p).
    assert (Hf : failed = tesser.m_triangulation_failed p
                          || (v =? FASTUIDRAW_GLU_NULL_CLIENT_ID)).
    { unfold failed. destruct (v =? _); [now rewrite orb_true_r | now rewrite orb_false_r]. }
    destruct (_ =? 3); [| exact Hf].
    match goal with |- context [tesser.triangle_accepted ?q] =>
      destruct (tesser.triangle_accepted q); [rewrite subdivide_failed |]; exact Hf end.
  - unfold tesser.combine_callback, tesser.add_point_to_store.
    match goal with |- context [PointHoard.fetch ?q ?h] => destruct (PointHoard.fetch q h) end.
    cbn. now rewrite orb_false_r.
Qed.

Lemma run_events_failed es : forall p : tesser.t D,
  tesser.m_triangulation_failed (fold_left tesser.run_event es p)
  = tesser.m_triangulation_failed p || existsb is_null_vertex es.
Proof.
  induction es as [| e es IH]; intros p; cbn [fold_left existsb].
  - now rewrite orb_false_r.
  - now rewrite IH, run_event_failed, orb_assoc.
Qed.

Lemma add_contour_failed C (p : tesser.t D) :
  tesser.m_triangulation_failed (tesser.add_contour C p) = tesser.m_triangulation_failed p
  /\ tesser.m_temp_vert_count (tesser.add_contour C p) = tesser.m_temp_vert_count p
  /\ tesser.m_temp_verts (tesser.add_contour C p) = tesser.m_temp_verts p.
Proof. unfold tesser.add_contour. destruct (fold_left _ C _). auto. Qed.

Lemma add_path_failed P : forall p : tesser.t D,
  tesser.m_triangulation_failed (tesser.add_path P p) = tesser.m_triangulation_failed p
  /\ tesser.m_temp_vert_count (tesser.add_path P p) = tesser.m_temp_vert_count p
  /\ tesser.m_temp_verts (tesser.add_path P p) = tesser.m_temp_verts p.
Proof.
  unfold tesser.add_path.
  induction P as [| C P IH]; intros p; cbn [fold_left]; [auto |].
  destruct (IH (tesser.add_contour C p)) as (-> & -> & ->). apply add_contour_failed.
Qed.

Lemma add_path_boundary_failed (P : SubPath.t) (p : tesser.t D) :
  tesser.m_triangulation_failed (tesser.add_path_boundary P p)
  = tesser.m_triangulation_failed p
  /\ tesser.m_temp_vert_count (tesser.add_path_boundary P p) = tesser.m_temp_vert_count p
  /\ tesser.m_temp_verts (tesser.add_path_boundary P p) = tesser.m_temp_verts p.
Proof. unfold tesser.add_path_boundary. destruct (fold_left _ _ _). auto. Qed.

End FailedFlag.

(** X7: a [tesser] keeps [m_triangulation_failed] once it is set, and the
    calls of GLU-tess set it exactly when one of them reports the null
    ID as a vertex. So [builder::triangulation_failed()] is true exactly
    when GLU-tess reported the null ID in the tessellation of the
    [non_zero_tesser] or in that of the [zero_tesser]. *)
Theorem builder_triangulation_failed
    (gluTess : list glu_contour -> (Z -> bool) -> PointHoard.t -> list glu_event)
    (P : SubPath.t) :
  (forall (es : list glu_event) (p : tesser.t non_zero_tesser.state),
     tesser.triangulation_failed (fold_left tesser.run_event es p)
     = tesser.triangulation_failed p || existsb is_null_vertex es)
  /\ (forall (es : list glu_event) (p : tesser.t zero_tesser.state),
        tesser.triangulation_failed (fold_left tesser.run_event es p)
        = tesser.triangulation_failed p || existsb is_null_vertex es)
  /\ b_failed (builder_new gluTess P [])
     = existsb is_null_vertex (tess_events gluTess (nz_start P))
       || existsb is_null_vertex (tess_events gluTess (z_start gluTess P)).
Proof.
  split; [intros es p; apply run_events_failed |].
  split; [intros es p; apply run_events_failed |].
  rewrite builder_new_run. cbn [b_failed]. unfold nz_end, z_end.
  rewrite !run_events_failed. f_equal.
  - unfold nz_start, tesser.add_bounding_box_path.
    now destruct (add_path_failed (fst (builder_path P))
                    (tesser.new (snd (builder_path P))
                       (non_zero_tesser.mk (SubPath.winding_start P) ∅ 0 None)))
      as (-> & _).
  - unfold z_start, tesser.add_bounding_box_path. cbv zeta.
    match goal with |- context [tesser.add_path_boundary P ?q] =>
      destruct (add_path_boundary_failed P q) as (-> & _) end.
    match goal with |- context [tesser.add_path ?a ?q] =>
      destruct (add_path_failed a q) as (-> & _) end.
    reflexivity.
Qed.

Lemma fetch_pts q h :
  PointHoard.m_pts (snd (PointHoard.fetch q h)) = PointHoard.m_pts h
  \/ PointHoard.m_pts (snd (PointHoard.fetch q h)) = PointHoard.m_pts h ++ [mk_FillPoint q ∅].
Proof.
  unfold PointHoard.fetch. destruct (PointHoard.m_map h !! _); cbn [snd]; auto.
Qed.

Lemma at_alter {A : Type} `{Inhabited A} (f : A -> A) (l : list A) (v v' : Z) :
  0 <= v < Z.of_nat (length l) -> 0 <= v' ->
  at_ (alter f (Z.to_nat v) l) v' = if decide (v' = v) then f (at_ l v) else at_ l v'.
Proof.
  intros Hv Hv'. unfold at_.
  destruct (Z.ltb_spec v' 0); [lia |]. destruct (Z.ltb_spec v 0); [lia |].
  rewrite !list_lookup_total_alt.
  case_decide as E.
  - subst v'. rewrite list_lookup_alter_eq.
    destruct (l !! Z.to_nat v) eqn:El; [reflexivity |].
    apply lookup_ge_None in El. lia.
  - rewrite list_lookup_alter_ne by lia. reflexivity.
Qed.

Lemma indices_of_insert hoard k b w :
  indices_of (<[k := b]> hoard) w
  = if decide (w = k) then per_winding_data.m_indices b else indices_of hoard w.
Proof.
  unfold indices_of. case_decide as E.
  - subst w. now rewrite lookup_insert_eq.
  - now rewrite lookup_insert_ne by congruence.
Qed.

Lemma run_inv_fetch hoard h q : run_inv hoard h -> run_inv hoard (snd (PointHoard.fetch q h)).
Proof.
  intros (Hb & Hh & Hi & Hc).
  destruct (fetch_ok q h Hh) as (Hh' & _ & Hmono).
  split; [exact Hb |]. split; [exact Hh' |]. split.
  - intros k d v Hk Hv. apply Hmono. eapply Hi; eauto.
  - intros v w Hv. destruct (fetch_pts q h) as [E | E].
    + unfold valid_id in Hv. rewrite E in *. now apply Hc.
    + unfold valid_id in Hv. rewrite E in *. rewrite length_app in Hv. cbn [length] in Hv.
      destruct (decide (v < Z.of_nat (length (PointHoard.m_pts h)))) as [Hlt | Hge].
      * rewrite at_app_l by lia. apply Hc. unfold valid_id. lia.
      * assert (v = Z.of_nat (length (PointHoard.m_pts h))) as -> by lia.
        rewrite at_app_length. cbn [m_winding]. split.
        -- intros Hw. now apply elem_of_empty in Hw.
        -- intros Hin. unfold indices_of in Hin.
           destruct (hoard !! w) as [d |] eqn:Ew; [| now apply elem_of_nil in Hin].
           specialize (Hi _ _ _ Ew Hin). unfold valid_id in Hi. lia.
Qed.

Lemma run_inv_new_bucket hoard h k :
  hoard !! k = None -> run_inv hoard h -> run_inv (<[k := per_winding_data.new k]> hoard) h.
Proof.
  intros Hk (Hb & Hh & Hi & Hc). split; [| split; [exact Hh | split]].
  - intros k' d Hd. apply lookup_insert_Some in Hd as [[<- <-] | [_ Hd]];
      [reflexivity | exact (Hb _ _ Hd)].
  - intros k' d v Hd Hv. apply lookup_insert_Some in Hd as [[<- <-] | [_ Hd]].
    + now apply elem_of_nil in Hv.
    + eapply Hi; eauto.
  - intros v w Hv. rewrite indices_of_insert. case_decide as E; [| now apply Hc].
    subst w. rewrite (Hc v k Hv). unfold indices_of. now rewrite Hk.
Qed.

Lemma run_inv_add hoard h k b v :
  hoard !! k = Some b -> valid_id h v -> run_inv hoard h ->
  run_inv (<[k := per_winding_data.add_index v b]> hoard)
          (PointHoard.add_to_winding_set v (per_winding_data.winding_number b) h).
Proof.
  intros Hk Hv (Hb & Hh & Hi & Hc).
  assert (Hwn : per_winding_data.winding_number b = k) by exact (Hb _ _ Hk).
  assert (Hlen : forall u, valid_id h u
                   <-> valid_id (PointHoard.add_to_winding_set v
                                   (per_winding_data.winding_number b) h) u).
  { intros u. unfold valid_id, PointHoard.add_to_winding_set. cbn [PointHoard.m_pts].
    destruct (v <? 0); [reflexivity |]. now rewrite length_alter. }
  split; [| split; [now apply add_to_winding_set_ok | split]].
  - intros k' d Hd. apply lookup_insert_Some in Hd as [[<- <-] | [_ Hd]];
      [exact Hwn | exact (Hb _ _ Hd)].
  - intros k' d u Hd Hu. apply Hlen.
    apply lookup_insert_Some in Hd as [[<- <-] | [_ Hd]].
    + cbn in Hu. apply elem_of_app in Hu as [Hu | Hu]; [eapply Hi; eauto |].
      apply list_elem_of_singleton in Hu. now subst u.
    + eapply Hi; eauto.
  - intros u w Hu. apply Hlen in Hu. rewrite indices_of_insert.
    unfold PointHoard.add_to_winding_set. cbn [PointHoard.m_pts].
    unfold valid_id in Hv, Hu.
    destruct (Z.ltb_spec v 0); [lia |].
    rewrite at_alter by lia. rewrite Hwn.
    destruct (decide (u = v)) as [-> | Huv]; cbn [m_winding].
    + destruct (decide (w = k)) as [-> | Hwk].
      * cbn. split; [intros _; apply elem_of_app; right; now apply list_elem_of_singleton |].
        intros _. apply elem_of_union_l. now apply elem_of_singleton.
      * rewrite elem_of_union, elem_of_singleton.
        rewrite <- (Hc v w) by (unfold valid_id; lia). tauto.
    + destruct (decide (w = k)) as [-> | Hwk]; [| apply Hc; unfold valid_id; lia].
      cbn. rewrite elem_of_app, list_elem_of_singleton.
      rewrite (Hc u k) by (unfold valid_id; lia).
      unfold indices_of. rewrite Hk. tauto.
Qed.

(** The two tessellators add the vertices of a triangle to one index list
    of the hoard; what follows holds for both. *)
Section BucketTessers.
Context {D : Type} `{tesser_methods D}.
Variable hoard_of : D -> gmap Z per_winding_data.t.
Variable cur : D -> option Z.
Hypothesis begin_spec : forall w d,
  hoard_of (on_begin_polygon w d) = hoard_of d
  \/ exists k, hoard_of d !! k = None
               /\ hoard_of (on_begin_polygon w d)
                  = <[k := per_winding_data.new k]> (hoard_of d).
Hypothesis add_spec : forall v d h,
  match cur d with
  | Some k =>
      exists b d', hoard_of d !! k = Some b
        /\ add_vertex_to_polygon v (d, h)
           = (d', PointHoard.add_to_winding_set v (per_winding_data.winding_number b) h)
        /\ hoard_of d' = <[k := per_winding_data.add_index v b]> (hoard_of d)
        /\ cur d' = Some k
  | None => add_vertex_to_polygon v (d, h) = (d, h)
  end.

Let adds (l : list Z) (s : D * PointHoard.t) : D * PointHoard.t :=
  fold_left (fun s v => add_vertex_to_polygon v s) l s.

Lemma adds_none l : forall d h, cur d = None -> adds l (d, h) = (d, h).
Proof.
  induction l as [| v l IH]; intros d h Hc; [reflexivity |].
  unfold adds in *. cbn [fold_left].
  pose proof (add_spec v d h) as Ha. rewrite Hc in Ha. rewrite Ha. now apply IH.
Qed.

Lemma adds_some l : forall d h k,
  cur d = Some k ->
  exists b d', hoard_of d !! k = Some b
    /\ adds l (d, h) = (d', add_windings (per_winding_data.winding_number b) l h)
    /\ hoard_of d'
       = <[k := per_winding_data.mk
                  (per_winding_data.m_indices b ++ l)
                  (per_winding_data.m_count b + Z.of_nat (length l))
                  (per_winding_data.m_winding_number b)]> (hoard_of d)
    /\ cur d' = Some k.
Proof.
  induction l as [| v l IH]; intros d h k Hc.
  - pose proof (add_spec 0 d h) as Ha. rewrite Hc in Ha.
    destruct Ha as (b & _ & Hb & _). exists b, d.
    split; [exact Hb |]. split; [reflexivity |]. split; [| exact Hc].
    rewrite app_nil_r, Z.add_0_r. destruct b. cbn. now rewrite insert_id.
  - pose proof (add_spec v d h) as Ha. rewrite Hc in Ha.
    destruct Ha as (b & d1 & Hb & Ea & Hh1 & Hc1).
    destruct (IH d1 (PointHoard.add_to_winding_set v (per_winding_data.winding_number b) h)
                k Hc1) as (b1 & d' & Hb1 & Ef & Hh' & Hc').
    rewrite Hh1, lookup_insert_eq in Hb1. inversion Hb1; subst b1. clear Hb1.
    exists b, d'. split; [exact Hb |]. split; [| split; [| exact Hc']].
    + unfold adds in *. cbn [fold_left]. rewrite Ea. exact Ef.
    + rewrite Hh', Hh1, insert_insert_eq. unfold per_winding_data.add_index.
      cbn [per_winding_data.m_indices per_winding_data.m_count
           per_winding_data.m_winding_number length].
      rewrite <- app_assoc. cbn [app]. do 2 f_equal. lia.
Qed.

(** [subdivide] fetches four points and adds eighteen vertices. *)
Lemma subdivide_fold (p : tesser.t D) t0 t1 t2 :
  tesser.m_temp_verts p = (t0, t1, t2) ->
  exists i01 i02 i12 ic h4,
    let l := [t0; i01; ic;  t0; ic; i02;  ic; t1; i12;
              i01; t1; ic;  i02; ic; t2;  ic; i12; t2] in
    tesser.subdivide p
    = tesser.mk (tesser.m_point_count p) (tesser.m_tess p)
                (snd (adds l (tesser.derived p, h4))) (t0, t1, t2)
                (tesser.m_temp_vert_count p) (tesser.m_triangulation_failed p)
                (fst (adds l (tesser.derived p, h4)))
    /\ (forall Q : PointHoard.t -> Prop,
          (forall q h, Q h -> Q (snd (PointHoard.fetch q h))) ->
          Q (tesser.m_points p) -> Q h4)
    /\ (hoard_ok (tesser.m_points p) ->
        Forall (valid_id h4) [i01; i02; i12; ic]
        /\ forall v, valid_id (tesser.m_points p) v -> valid_id h4 v).
Proof.
  intros Htv.
  set (p0 := PointHoard.pt_of (tesser.m_points p) t0).
  set (p1 := PointHoard.pt_of (tesser.m_points p) t1).
  set (p2 := PointHoard.pt_of (tesser.m_points p) t2).
  destruct (PointHoard.fetch (vec2_scale F32.half (vec2_add p0 p1)) (tesser.m_points p))
    as [i01 h1] eqn:F1.
  destruct (PointHoard.fetch (vec2_scale F32.half (vec2_add p0 p2)) h1) as [i02 h2] eqn:F2.
  destruct (PointHoard.fetch (vec2_scale F32.half (vec2_add p1 p2)) h2) as [i12 h3] eqn:F3.
  destruct (PointHoard.fetch (vec2_div (vec2_add (vec2_add p0 p1) p2) F32.three) h3)
    as [ic h4] eqn:F4.
  exists i01, i02, i12, ic, h4. cbv zeta. split; [| split].
  - exact (subdivide_emits p t0 t1 t2 i01 i02 i12 ic h1 h2 h3 h4 Htv F1 F2 F3 F4).
  - intros Q HQ H0.
    pose proof (HQ (vec2_scale F32.half (vec2_add p0 p1)) _ H0) as Q1.
    rewrite F1 in Q1. cbn [snd] in Q1.
    pose proof (HQ (vec2_scale F32.half (vec2_add p0 p2)) _ Q1) as Q2.
    rewrite F2 in Q2. cbn [snd] in Q2.
    pose proof (HQ (vec2_scale F32.half (vec2_add p1 p2)) _ Q2) as Q3.
    rewrite F3 in Q3. cbn [snd] in Q3.
    pose proof (HQ (vec2_div (vec2_add (vec2_add p0 p1) p2) F32.three) _ Q3) as Q4.
    rewrite F4 in Q4. exact Q4.
  - intros Hh.
    pose proof (fetch_ok (vec2_scale F32.half (vec2_add p0 p1)) _ Hh) as (Hh1 & V1 & M1).
    rewrite F1 in Hh1, V1, M1. cbn [fst snd] in Hh1, V1, M1.
    pose proof (fetch_ok (vec2_scale F32.half (vec2_add p0 p2)) _ Hh1) as (Hh2 & V2 & M2).
    rewrite F2 in Hh2, V2, M2. cbn [fst snd] in Hh2, V2, M2.
    pose proof (fetch_ok (vec2_scale F32.half (vec2_add p1 p2)) _ Hh2) as (Hh3 & V3 & M3).
    rewrite F3 in Hh3, V3, M3. cbn [fst snd] in Hh3, V3, M3.
    pose proof (fetch_ok (vec2_div (vec2_add (vec2_add p0 p1) p2) F32.three) _ Hh3)
      as (Hh4 & V4 & M4).
    rewrite F4 in Hh4, V4, M4. cbn [fst snd] in Hh4, V4, M4.
    split.
    + constructor; [apply M4, M3, M2, V1 |]. constructor; [apply M4, M3, V2 |].
      constructor; [apply M4, V3 |]. constructor; [exact V4 | constructor].
    + intros v Hv. apply M4, M3, M2, M1, Hv.
Qed.

(** Whole triangles. *)
Lemma run_event_whole (p : tesser.t D) e :
  whole_triangles (hoard_of (tesser.derived p)) ->
  whole_triangles (hoard_of (tesser.derived (tesser.run_event p e))).
Proof.
  intros Hw. destruct e as [w | v | data weight]; cbn [tesser.run_event].
  - unfold tesser.begin_callBack. cbn [tesser.derived].
    destruct (begin_spec w (tesser.derived p)) as [-> | (k & _ & ->)]; [exact Hw |].
    intros k' d Hd. apply lookup_insert_Some in Hd as [[_ <-] | [_ Hd]];
      [reflexivity | exact (Hw _ _ Hd)].
  - unfold tesser.vertex_callBack. destruct (_ =? 3); [| exact Hw].
    match goal with |- context [tesser.triangle_accepted ?q] =>
      set (p3 := q); destruct (tesser.triangle_accepted p3); [| exact Hw] end.
    destruct (tesser.m_temp_verts p3) as [[t0 t1] t2] eqn:Etv.
    destruct (subdivide_fold p3 t0 t1 t2 Etv) as (i01 & i02 & i12 & ic & h4 & Es & _).
    cbv zeta in Es. rewrite Es. cbn [tesser.derived].
    change (tesser.derived p3) with (tesser.derived p).
    destruct (cur (tesser.derived p)) as [k |] eqn:Ec.
    + match goal with |- context [adds ?l _] =>
        destruct (adds_some l (tesser.derived p) h4 k Ec) as (b & d' & Hb & -> & Hh' & _) end.
      cbn [fst]. rewrite Hh'.
      intros k' d Hd. apply lookup_insert_Some in Hd as [[_ <-] | [_ Hd]];
        [| exact (Hw _ _ Hd)].
      cbn [per_winding_data.m_indices]. rewrite length_app, Nat2Z.inj_add.
      rewrite <- Zplus_mod_idemp_l, (Hw _ _ Hb). reflexivity.
    + rewrite adds_none by exact Ec. exact Hw.
  - unfold tesser.combine_callback, tesser.add_point_to_store.
    match goal with |- context [PointHoard.fetch ?q ?h] => destruct (PointHoard.fetch q h) end.
    exact Hw.
Qed.

Lemma run_events_whole es : forall p : tesser.t D,
  whole_triangles (hoard_of (tesser.derived p)) ->
  whole_triangles (hoard_of (tesser.derived (fold_left tesser.run_event es p))).
Proof.
  induction es as [| e es IH]; intros p Hp; [exact Hp |].
  cbn [fold_left]. apply IH, run_event_whole, Hp.
Qed.

(** The invariant of the hoard and the points. *)
Lemma add_run_inv v d h :
  valid_id h v -> run_inv (hoard_of d) h ->
  run_inv (hoard_of (fst (add_vertex_to_polygon v (d, h))))
          (snd (add_vertex_to_polygon v (d, h)))
  /\ length (PointHoard.m_pts (snd (add_vertex_to_polygon v (d, h))))
     = length (PointHoard.m_pts h).
Proof.
  intros Hv Hinv. pose proof (add_spec v d h) as Ha.
  destruct (cur d) as [k |].
  - destruct Ha as (b & d' & Hb & -> & Hh' & _). cbn [fst snd]. rewrite Hh'.
    split; [now apply run_inv_add |].
    unfold PointHoard.add_to_winding_set. cbn [PointHoard.m_pts].
    destruct (v <? 0); [reflexivity | apply length_alter].
  - rewrite Ha. auto.
Qed.

Lemma adds_run_inv l : forall d h,
  Forall (valid_id h) l -> run_inv (hoard_of d) h ->
  run_inv (hoard_of (fst (adds l (d, h)))) (snd (adds l (d, h)))
  /\ length (PointHoard.m_pts (snd (adds l (d, h)))) = length (PointHoard.m_pts h).
Proof.
  induction l as [| v l IH]; intros d h Hl Hinv; [auto |].
  apply Forall_cons in Hl as [Hv Hl].
  destruct (add_run_inv v d h Hv Hinv) as [Hinv1 Hlen1].
  unfold adds in *. cbn [fold_left].
  destruct (add_vertex_to_polygon v (d, h)) as [d1 h1]. cbn [fst snd] in *.
  destruct (IH d1 h1) as [Hinv2 Hlen2]; [| exact Hinv1 | split; [exact Hinv2 | congruence]].
  eapply Forall_impl; [exact Hl |]. intros u. unfold valid_id. now rewrite Hlen1.
Qed.

Lemma subdivide_run_inv (p : tesser.t D) t0 t1 t2 :
  tesser.m_temp_verts p = (t0, t1, t2) ->
  run_inv (hoard_of (tesser.derived p)) (tesser.m_points p) ->
  valid_id (tesser.m_points p) t0 -> valid_id (tesser.m_points p) t1 ->
  valid_id (tesser.m_points p) t2 ->
  run_inv (hoard_of (tesser.derived (tesser.subdivide p)))
          (tesser.m_points (tesser.subdivide p))
  /\ (forall v, valid_id (tesser.m_points p) v ->
                valid_id (tesser.m_points (tesser.subdivide p)) v)
  /\ tesser.m_temp_vert_count (tesser.subdivide p) = tesser.m_temp_vert_count p.
Proof.
  intros Etv Hinv V0 V1 V2.
  destruct (subdivide_fold p t0 t1 t2 Etv) as (i01 & i02 & i12 & ic & h4 & Es & HQ & Hval).
  cbv zeta in Es. rewrite Es. cbn [tesser.derived tesser.m_points tesser.m_temp_vert_count].
  destruct Hval as [Hids Hmono]; [apply Hinv |].
  apply Forall_cons in Hids as [W01 Hids]. apply Forall_cons in Hids as [W02 Hids].
  apply Forall_cons in Hids as [W12 Hids]. apply Forall_cons in Hids as [Wc _].
  match goal with |- context [adds ?l _] =>
    destruct (adds_run_inv l (tesser.derived p) h4) as [Hinv' Hlen] end.
  - repeat (apply Forall_cons; split); auto; apply Forall_nil; exact I.
  - apply (HQ (fun h => run_inv (hoard_of (tesser.derived p)) h)); [| exact Hinv].
    intros q h. apply run_inv_fetch.
  - split; [exact Hinv' |]. split; [| reflexivity].
    intros v Hv. apply Hmono in Hv. unfold valid_id in *. now rewrite Hlen.
Qed.

Lemma id_ok_mono h h' v :
  (forall u, valid_id h u -> valid_id h' u) -> id_ok h v -> id_ok h' v.
Proof. intros Hm [Hn | Hv]; [now left | right; auto]. Qed.

Lemma run_event_run_inv (p : tesser.t D) e :
  run_inv (hoard_of (tesser.derived p)) (tesser.m_points p) -> cache_ok p ->
  event_ok p e ->
  run_inv (hoard_of (tesser.derived (tesser.run_event p e)))
          (tesser.m_points (tesser.run_event p e))
  /\ cache_ok (tesser.run_event p e).
Proof.
  intros Hinv Hcache He. destruct e as [w | v | data weight]; cbn [tesser.run_event].
  - unfold tesser.begin_callBack, cache_ok.
    cbn [tesser.derived tesser.m_points tesser.m_temp_verts tesser.m_temp_vert_count].
    split.
    + destruct (begin_spec w (tesser.derived p)) as [-> | (k & Hk & ->)]; [exact Hinv |].
      now apply run_inv_new_bucket.
    + destruct (tesser.m_temp_verts p) as [[t0 t1] t2]. split; intros; lia.
  - cbn [event_ok] in He. unfold tesser.vertex_callBack.
    unfold cache_ok in Hcache.
    destruct (tesser.m_temp_verts p) as [[t0 t1] t2] eqn:Etv.
    destruct Hcache as [C0 C1].
    destruct (Z.eqb_spec (tesser.m_temp_vert_count p + 1) 3) as [E3 | E3].
    + assert (Ecnt : tesser.m_temp_vert_count p = 2) by lia.
      rewrite Ecnt. cbn [tesser.set_temp_vert Z.eqb].
      match goal with |- context [tesser.triangle_accepted ?q] => set (p3 := q) end.
      destruct (tesser.triangle_accepted p3) eqn:Eacc.
      * unfold tesser.triangle_accepted in Eacc.
        change (tesser.m_temp_verts p3) with (t0, t1, v) in Eacc.
        apply andb_true_iff in Eacc as [Eacc _].
        apply andb_true_iff in Eacc as [Eacc N2].
        apply andb_true_iff in Eacc as [N0 N1].
        apply negb_true_iff, Z.eqb_neq in N0, N1, N2.
        destruct (C0 ltac:(lia)) as [? | V0]; [contradiction |].
        destruct (C1 ltac:(lia)) as [? | V1]; [contradiction |].
        destruct He as [? | V2]; [contradiction |].
        destruct (subdivide_run_inv p3 t0 t1 v eq_refl Hinv V0 V1 V2) as (Hinv' & _ & Hc).
        split; [exact Hinv' |]. unfold cache_ok. rewrite Hc. cbn [tesser.m_temp_vert_count p3].
        destruct (tesser.m_temp_verts (tesser.subdivide p3)) as [[? ?] ?]. split; intros; lia.
      * split; [exact Hinv |]. unfold cache_ok, p3.
        cbn [tesser.m_temp_verts tesser.m_temp_vert_count]. split; intros; lia.
    + split; [exact Hinv |]. unfold cache_ok.
      cbn [tesser.m_temp_verts tesser.m_temp_vert_count tesser.m_points].
      unfold tesser.set_temp_vert.
      destruct (Z.eqb_spec (tesser.m_temp_vert_count p) 0) as [E0 | E0];
        [| destruct (Z.eqb_spec (tesser.m_temp_vert_count p) 1) as [E1 | E1]].
      * split; [intros _; exact He | intros; lia].
      * split; [intros _; apply C0; lia | intros _; exact He].
      * split; [intros ?; apply C0; lia | intros ?; apply C1; lia].
  - unfold tesser.combine_callback, tesser.add_point_to_store.
    match goal with |- context [PointHoard.fetch ?q ?h] =>
      pose proof (run_inv_fetch _ _ q Hinv) as Hinv';
      pose proof (fetch_ok q h (proj1 (proj2 Hinv))) as (_ & _ & Hmono);
      destruct (PointHoard.fetch q h) as [i h'] end.
    cbn [fst snd tesser.derived tesser.m_points] in *.
    split; [exact Hinv' |]. unfold cache_ok in *.
    cbn [tesser.m_temp_verts tesser.m_temp_vert_count tesser.m_points].
    destruct (tesser.m_temp_verts p) as [[t0 t1] t2]. destruct Hcache as [C0 C1].
    split; intros Hc; eapply id_ok_mono; eauto.
Qed.

Lemma run_events_run_inv es : forall p : tesser.t D,
  run_inv (hoard_of (tesser.derived p)) (tesser.m_points p) -> cache_ok p ->
  trace_ok es p ->
  run_inv (hoard_of (tesser.derived (fold_left tesser.run_event es p)))
          (tesser.m_points (fold_left tesser.run_event es p)).
Proof.
  induction es as [| e es IH]; intros p Hinv Hc Ht; [exact Hinv |].
  cbn [fold_left]. destruct Ht as [He Ht].
  destruct (run_event_run_inv p e Hinv Hc He) as [Hinv' Hc'].
  now apply IH.
Qed.

End BucketTessers.

Lemma nz_begin_spec w d :
  non_zero_tesser.m_hoard (non_zero_tesser.on_begin_polygon w d) = non_zero_tesser.m_hoard d
  \/ exists k, non_zero_tesser.m_hoard d !! k = None
       /\ non_zero_tesser.m_hoard (non_zero_tesser.on_begin_polygon w d)
          = <[k := per_winding_data.new k]> (non_zero_tesser.m_hoard d).
Proof.
  unfold non_zero_tesser.on_begin_polygon. destruct (_ || _); [| now left].
  cbn [non_zero_tesser.m_hoard].
  destruct (non_zero_tesser.m_hoard d !! _) eqn:E; [now left | right; eauto].
Qed.

Lemma nz_add_spec v d h :
  match nz_cur d with
  | Some k =>
      exists b d', non_zero_tesser.m_hoard d !! k = Some b
        /\ non_zero_tesser.add_vertex_to_polygon v (d, h)
           = (d', PointHoard.add_to_winding_set v (per_winding_data.winding_number b) h)
        /\ non_zero_tesser.m_hoard d'
           = <[k := per_winding_data.add_index v b]> (non_zero_tesser.m_hoard d)
        /\ nz_cur d' = Some k
  | None => non_zero_tesser.add_vertex_to_polygon v (d, h) = (d, h)
  end.
Proof.
  unfold nz_cur, non_zero_tesser.add_vertex_to_polygon.
  destruct (non_zero_tesser.m_current_indices d) as [k |] eqn:Ec; [| reflexivity].
  destruct (non_zero_tesser.m_hoard d !! k) as [b |] eqn:Ek; [| reflexivity].
  exists b. eexists. split; [first [exact Ek | reflexivity] |]. split; [reflexivity |].
  cbn [non_zero_tesser.m_hoard non_zero_tesser.m_current_indices].
  split; [reflexivity |]. try rewrite Ec. now rewrite lookup_insert_eq.
Qed.

Lemma z_begin_spec w d :
  zero_tesser.m_hoard (zero_tesser.on_begin_polygon w d) = zero_tesser.m_hoard d
  \/ exists k, zero_tesser.m_hoard d !! k = None
       /\ zero_tesser.m_hoard (zero_tesser.on_begin_polygon w d)
          = <[k := per_winding_data.new k]> (zero_tesser.m_hoard d).
Proof. now left. Qed.

Lemma z_add_spec v d h :
  match z_cur d with
  | Some k =>
      exists b d', zero_tesser.m_hoard d !! k = Some b
        /\ zero_tesser.add_vertex_to_polygon v (d, h)
           = (d', PointHoard.add_to_winding_set v (per_winding_data.winding_number b) h)
        /\ zero_tesser.m_hoard d'
           = <[k := per_winding_data.add_index v b]> (zero_tesser.m_hoard d)
        /\ z_cur d' = Some k
  | None => zero_tesser.add_vertex_to_polygon v (d, h) = (d, h)
  end.
Proof.
  unfold z_cur, zero_tesser.add_vertex_to_polygon.
  destruct (zero_tesser.m_hoard d !! zero_tesser.m_indices d) as [b |] eqn:Ek;
    [| reflexivity].
  exists b. eexists. split; [first [exact Ek | reflexivity] |]. split; [reflexivity |].
  cbn [zero_tesser.m_hoard zero_tesser.m_indices].
  split; [reflexivity |]. now rewrite lookup_insert_eq.
Qed.

(** What is closed under [fetch] holds after [generate_path] and after
    [add_path_boundary]. *)
Section FetchClosed.
Variable Q : PointHoard.t -> Prop.
Hypothesis Q_fetch : forall q h, Q h -> Q (snd (PointHoard.fetch q h)).

Lemma generate_contour_closed C : forall output h,
  Q h -> Q (snd (PointHoard.generate_contour C output h)).
Proof.
  unfold PointHoard.generate_contour.
  induction C as [| p C IH]; intros output h Hh; cbn [fold_left snd]; [exact Hh |].
  pose proof (Q_fetch (SubPath.m_pt p) h Hh) as Hh'.
  destruct (PointHoard.fetch (SubPath.m_pt p) h) as [id h'].
  cbn [fst snd] in *. apply IH, Hh'.
Qed.

Lemma generate_path_closed (input : SubPath.t) h :
  Q h -> Q (snd (PointHoard.generate_path input h)).
Proof.
  unfold PointHoard.generate_path.
  match goal with |- context [fold_left ?f _ _] => set (F := f) end.
  assert (HF : forall Cs acc h', Q h' -> Q (snd (fold_left F Cs (acc, h')))).
  { induction Cs as [| C Cs IH]; intros acc h' Hh'; cbn [fold_left snd]; [exact Hh' |].
    unfold F at 2. cbn [fst snd].
    pose proof (generate_contour_closed C [] h' Hh') as Hh''.
    destruct (PointHoard.generate_contour C [] h') as [c h''].
    apply IH, Hh''. }
  apply HF.
Qed.

Lemma add_path_boundary_closed {D : Type} (P : SubPath.t) (p : tesser.t D) :
  Q (tesser.m_points p) -> Q (tesser.m_points (tesser.add_path_boundary P p)).
Proof.
  intros Hh. unfold tesser.add_path_boundary.
  match goal with |- context [fold_left ?f ?l (?a, _)] => set (F := f); set (ks := l) end.
  assert (HF : forall (ks : list Z) vs h, Q h -> Q (snd (fold_left F ks (vs, h)))).
  { clear ks. induction ks as [| k ks IH]; intros vs h Hh'; cbn [fold_left snd];
      [exact Hh' |].
    unfold F at 2. cbn [fst snd].
    match goal with |- context [PointHoard.fetch ?q h] =>
      pose proof (Q_fetch q h Hh') as Hh'';
      destruct (PointHoard.fetch q h) as [id h'] end.
    cbn [fst snd] in *. apply IH, Hh''. }
  specialize (HF ks [] (tesser.m_points p) Hh).
  destruct (fold_left F ks ([], tesser.m_points p)) as [vs points].
  exact HF.
Qed.

End FetchClosed.

Lemma add_path_boundary_derived {D : Type} (P : SubPath.t) (p : tesser.t D) :
  tesser.derived (tesser.add_path_boundary P p) = tesser.derived p.
Proof. unfold tesser.add_path_boundary. now destruct (fold_left _ _ _). Qed.

Lemma region_whole c es :
  (forall e, e ∈ es -> (len (per_winding_data.m_indices (snd e))) mod 18 = 0) ->
  (len (region c es)) mod 18 = 0.
Proof.
  induction es as [| e es IH]; intros He; [reflexivity |].
  rewrite region_cons, len_app, <- Zplus_mod_idemp_r, IH, Z.add_0_r
    by (intros e' He'; apply He; now right).
  case_decide; [apply He; now left | reflexivity].
Qed.

Lemma mod_18_3 n : n mod 18 = 0 -> n mod 3 = 0.
Proof.
  intros Hn. apply Z.mod_divide in Hn; [| lia]. destruct Hn as [q ->].
  replace (q * 18) with (q * 6 * 3) by lia. apply Z.mod_mul. lia.
Qed.

Lemma mod_18_add a b : a mod 18 = 0 -> b mod 18 = 0 -> (a + b) mod 18 = 0.
Proof. intros Ha Hb. now rewrite Z.add_mod, Ha, Hb by lia. Qed.

Lemma builder_whole gluTess (P : SubPath.t) :
  whole_triangles (b_hoard (builder_new gluTess P [])).
Proof.
  rewrite builder_new_run. cbn [b_hoard]. unfold z_end.
  apply (@run_events_whole zero_tesser.state zero_tesser.methods
           zero_tesser.m_hoard z_cur z_begin_spec z_add_spec).
  unfold z_start. cbv zeta. rewrite add_path_boundary_derived.
  unfold tesser.add_bounding_box_path.
  match goal with |- context [tesser.add_path ?a ?q] =>
    destruct (add_path_state a q) as [-> _] end.
  cbn [tesser.derived tesser.new zero_tesser.m_hoard].
  assert (Hnz : whole_triangles (non_zero_tesser.m_hoard (tesser.derived (nz_end gluTess P)))).
  { unfold nz_end.
    apply (@run_events_whole non_zero_tesser.state non_zero_tesser.methods
             non_zero_tesser.m_hoard nz_cur nz_begin_spec nz_add_spec).
    unfold nz_start, tesser.add_bounding_box_path.
    match goal with |- context [tesser.add_path ?a ?q] =>
      destruct (add_path_state a q) as [-> _] end.
    intros k d Hk. destruct (lookup_empty_Some _ _ Hk). }
  destruct (_ !! SubPath.winding_start P); [exact Hnz |].
  intros k d Hd. apply lookup_insert_Some in Hd as [[_ <-] | [_ Hd]];
    [reflexivity | exact (Hnz _ _ Hd)].
Qed.

(** X8: the index lists that a [builder] hands on hold whole sub-divided
    triangles, whatever GLU-tess reports: the number of indices of every
    winding number is a multiple of 18 (six triangles for every accepted
    one), so that the index array of [fill_indices] and the two offsets
    [even_non_zero_start] and [zero_start] are multiples of 3, and no
    chunk of the fill rules cuts a triangle. *)
Theorem builder_whole_triangles
    (gluTess : list glu_contour -> (Z -> bool) -> PointHoard.t -> list glu_event)
    (P : SubPath.t) :
  let B := builder_new gluTess P [] in
  let r := fill_indices (b_hoard B) [] ∅ in
  (forall k d, b_hoard B !! k = Some d ->
     per_winding_data.count d mod 18 = 0
     /\ len (per_winding_data.m_indices d) mod 18 = 0)
  /\ even_non_zero_start r mod 3 = 0
  /\ zero_start r mod 3 = 0
  /\ len (f_indices r) mod 3 = 0.
Proof.
  intros B r.
  pose proof (builder_whole gluTess P) as Hw. fold B in Hw.
  pose proof (builder_new_counted gluTess P) as Hc. fold B in Hc.
  destruct (fill_indices_regions (b_hoard B) [] ∅ Hc) as (Hi & He & Hz & _).
  fold r in Hi, He, Hz.
  assert (Hreg : forall c, len (region c (entries (b_hoard B))) mod 18 = 0).
  { intros c. apply region_whole. intros [k d] Hin. apply elem_of_entries in Hin.
    exact (Hw _ _ Hin). }
  split; [| split; [| split]].
  - intros k d Hk. split; [| exact (Hw _ _ Hk)].
    unfold per_winding_data.count. rewrite (Hc _ _ Hk). exact (Hw _ _ Hk).
  - rewrite He. apply mod_18_3, Hreg.
  - rewrite Hz. apply mod_18_3, mod_18_add; apply Hreg.
  - rewrite Hi, !len_app. apply mod_18_3.
    repeat apply mod_18_add; apply Hreg.
Qed.

Lemma no_windings_fetch q h :
  Forall (fun p => m_winding p = ∅) (PointHoard.m_pts h) ->
  Forall (fun p => m_winding p = ∅) (PointHoard.m_pts (snd (PointHoard.fetch q h))).
Proof.
  intros Hh. destruct (fetch_pts q h) as [-> | ->]; [exact Hh |].
  apply Forall_app. split; [exact Hh |]. constructor; [reflexivity | constructor].
Qed.

Lemma run_inv_empty h :
  hoard_ok h -> Forall (fun p => m_winding p = ∅) (PointHoard.m_pts h) -> run_inv ∅ h.
Proof.
  intros Hh Hw. split; [| split; [exact Hh | split]].
  - intros k d Hk. destruct (lookup_empty_Some _ _ Hk).
  - intros k d v Hk. destruct (lookup_empty_Some _ _ Hk).
  - intros v w Hv. unfold indices_of. rewrite lookup_empty. split.
    + intros Hin. exfalso. unfold valid_id in Hv. unfold at_ in Hin.
      destruct (Z.ltb_spec v 0); [lia |].
      rewrite list_lookup_total_alt in Hin.
      destruct (PointHoard.m_pts h !! Z.to_nat v) as [p |] eqn:Ep.
      * rewrite Forall_forall in Hw. cbn in Hin.
        rewrite (Hw p) in Hin by (eapply list_elem_of_lookup_2; eauto).
        now apply elem_of_empty in Hin.
      * apply lookup_ge_None in Ep. lia.
    + intros Hin. now apply elem_of_nil in Hin.
Qed.

Lemma cache_ok_start {D : Type} (p : tesser.t D) :
  tesser.m_temp_vert_count p = 0 -> cache_ok p.
Proof.
  intros Hc. unfold cache_ok. rewrite Hc.
  destruct (tesser.m_temp_verts p) as [[t0 t1] t2]. split; intros; lia.
Qed.

(** When GLU-tess reports only IDs of points, the hoard and the points
    that a [builder] hands on satisfy the invariant. *)
Lemma builder_run_inv gluTess (P : SubPath.t) :
  trace_ok (tess_events gluTess (nz_start P)) (nz_start P) ->
  trace_ok (tess_events gluTess (z_start gluTess P)) (z_start gluTess P) ->
  run_inv (b_hoard (builder_new gluTess P [])) (b_points (builder_new gluTess P [])).
Proof.
  intros Hnz Hz. rewrite builder_new_run. cbn [b_hoard b_points]. unfold z_end.
  assert (H1 : run_inv (non_zero_tesser.m_hoard (tesser.derived (nz_end gluTess P)))
                       (tesser.m_points (nz_end gluTess P))).
  { unfold nz_end.
    apply (@run_events_run_inv non_zero_tesser.state non_zero_tesser.methods
             non_zero_tesser.m_hoard nz_cur nz_begin_spec nz_add_spec).
    3: exact Hnz.
    - unfold nz_start, tesser.add_bounding_box_path.
      match goal with |- context [tesser.add_path ?a ?q] =>
        destruct (add_path_state a q) as [-> ->] end.
      cbn [tesser.derived tesser.m_points tesser.new non_zero_tesser.m_hoard].
      apply run_inv_empty; unfold builder_path.
      + apply generate_path_ok, hoard_ok_new.
      + apply (generate_path_closed _ no_windings_fetch). constructor.
    - apply cache_ok_start. unfold nz_start, tesser.add_bounding_box_path.
      match goal with |- context [tesser.add_path ?a ?q] =>
        destruct (add_path_failed a q) as (_ & -> & _) end.
      reflexivity. }
  apply (@run_events_run_inv zero_tesser.state zero_tesser.methods
           zero_tesser.m_hoard z_cur z_begin_spec z_add_spec);
    [| | exact Hz].
  - unfold z_start. cbv zeta. rewrite add_path_boundary_derived.
    unfold tesser.add_bounding_box_path.
    match goal with |- context [tesser.derived (tesser.add_path ?a ?q)] =>
      destruct (add_path_state a q) as [Ed Ep]; rewrite Ed end.
    cbn [tesser.derived tesser.new zero_tesser.m_hoard].
    match goal with |- run_inv ?hd _ =>
      apply (add_path_boundary_closed (fun h => run_inv hd h)) end;
      [intros q h; apply run_inv_fetch |].
    rewrite Ep. cbn [tesser.m_points tesser.new].
    destruct (_ !! SubPath.winding_start P) eqn:E; [exact H1 |].
    now apply run_inv_new_bucket.
  - apply cache_ok_start. unfold z_start. cbv zeta.
    match goal with |- context [tesser.add_path_boundary P ?q] =>
      destruct (add_path_boundary_failed P q) as (_ & -> & _) end.
    unfold tesser.add_bounding_box_path.
    match goal with |- context [tesser.add_path ?a ?q] =>
      destruct (add_path_failed a q) as (_ & -> & _) end.
    reflexivity.
Qed.

(** X9: when every vertex that GLU-tess reports in the two tessellations
    of a [builder] is the null ID or the ID of a point of the hoard, every
    index that [fill_indices] writes to the index array, and every index
    of an index list of the hoard, is a position in the vector of points
    of the [builder], which is the vector of the attributes: no index
    points outside the attribute data. *)
Theorem builder_indices_in_range
    (gluTess : list glu_contour -> (Z -> bool) -> PointHoard.t -> list glu_event)
    (P : SubPath.t)
    (Hnz : trace_ok (tess_events gluTess (nz_start P)) (nz_start P))
    (Hz : trace_ok (tess_events gluTess (z_start gluTess P)) (z_start gluTess P)) :
  let B := builder_new gluTess P [] in
  let r := fill_indices (b_hoard B) [] ∅ in
  let number_attributes := len (PointHoard.m_pts (b_points B)) in
  Forall (fun i => 0 <= i < number_attributes) (f_indices r)
  /\ (forall k d i, b_hoard B !! k = Some d -> i ∈ per_winding_data.m_indices d ->
        0 <= i < number_attributes).
Proof.
  intros B r n.
  destruct (builder_run_inv gluTess P Hnz Hz) as (_ & _ & Hi & _). fold B in Hi.
  split; [| exact Hi].
  destruct (fill_indices_regions (b_hoard B) [] ∅ (builder_new_counted gluTess P))
    as (Hf & _).
  fold r in Hf. rewrite Hf.
  assert (Hreg : forall c, Forall (fun i => 0 <= i < n) (region c (entries (b_hoard B)))).
  { intros c. unfold region. apply Forall_forall. intros i Hin.
    apply list_elem_of_In, in_flat_map in Hin as ([k d] & Hkd & Hin).
    apply list_elem_of_In, elem_of_entries in Hkd. cbn [fst snd] in Hin.
    case_decide; [| destruct Hin].
    apply list_elem_of_In in Hin. exact (Hi _ _ _ Hkd Hin). }
  repeat (apply Forall_app; split); apply Hreg.
Qed.

(** X10: under the same condition on GLU-tess, the winding set of every
    point of a [builder] holds exactly the winding numbers of the index
    lists in which the point occurs: [w] is in [m_winding] of the point
    [v] if and only if [v] is a vertex of a triangle of winding number
    [w]. *)
Theorem builder_winding_sets
    (gluTess : list glu_contour -> (Z -> bool) -> PointHoard.t -> list glu_event)
    (P : SubPath.t)
    (Hnz : trace_ok (tess_events gluTess (nz_start P)) (nz_start P))
    (Hz : trace_ok (tess_events gluTess (z_start gluTess P)) (z_start gluTess P)) :
  let B := builder_new gluTess P [] in
  forall v w, 0 <= v < len (PointHoard.m_pts (b_points B)) ->
    (w ∈ m_winding (at_ (PointHoard.m_pts (b_points B)) v)
     <-> v ∈ indices_of (b_hoard B) w).
Proof.
  intros B. destruct (builder_run_inv gluTess P Hnz Hz) as (_ & _ & _ & Hc).
  exact Hc.
Qed.

Lemma two_pass_triangle_nz_ok :
  trace_ok (tess_events two_pass_triangle (nz_start square_sub_path))
           (nz_start square_sub_path).
Proof.
  vm_compute.
  repeat (split; [try exact I; try (right; split; [discriminate | reflexivity]) |]).
  exact I.
Qed.

Lemma two_pass_triangle_z_ok :
  trace_ok (tess_events two_pass_triangle (z_start two_pass_triangle square_sub_path))
           (z_start two_pass_triangle square_sub_path).
Proof.
  vm_compute.
  repeat (split; [try exact I; try (right; split; [discriminate | reflexivity]) |]).
  exact I.
Qed.

Lemma builder_indices_in_range_witness :
  let B := builder_new two_pass_triangle square_sub_path [] in
  Forall (fun i => 0 <= i < len (PointHoard.m_pts (b_points B)))
         (f_indices (fill_indices (b_hoard B) [] ∅)).
Proof.
  exact (proj1 (builder_indices_in_range two_pass_triangle square_sub_path
                  two_pass_triangle_nz_ok two_pass_triangle_z_ok)).
Defined.

Lemma builder_winding_sets_witness :
  let B := builder_new two_pass_triangle square_sub_path [] in
  1 ∈ m_winding (at_ (PointHoard.m_pts (b_points B)) 4)
  <-> 4 ∈ indices_of (b_hoard B) 1.
Proof.
  refine (builder_winding_sets two_pass_triangle square_sub_path
            two_pass_triangle_nz_ok two_pass_triangle_z_ok 4 1 _).
  vm_compute. split; [discriminate | reflexivity].
Defined.

(** ** The views of the index array *)

Lemma omap_lookup_keys {V : Type} (m : gmap Z V) (l : list Z) :
  (forall k, k ∈ l -> is_Some (m !! k)) ->
  map fst (omap (fun k => pair k <$> m !! k) l) = l.
Proof.
  induction l as [| k l IH]; intros Hl; [reflexivity |].
  cbn [omap list_omap]. destruct (Hl k ltac:(now left)) as [v Hv]. rewrite Hv. cbn.
  f_equal. apply IH. intros k' Hk'. apply Hl. now right.
Qed.

(** The keys of a [std::map], in the order of iteration. *)
Lemma entries_keys {V : Type} (m : gmap Z V) :
  map fst (entries m) = merge_sort Z.le (elements (dom m)).
Proof.
  unfold entries. apply omap_lookup_keys. intros k Hk.
  rewrite merge_sort_Permutation in Hk. now apply elem_of_elements, elem_of_dom in Hk.
Qed.

Lemma entries_NoDup {V : Type} (m : gmap Z V) : NoDup (map fst (entries m)).
Proof.
  rewrite entries_keys, merge_sort_Permutation. apply NoDup_elements.
Qed.

Lemma StronglySorted_lt (l : list Z) :
  StronglySorted Z.le l -> NoDup l -> StronglySorted Z.lt l.
Proof.
  induction 1 as [| x l Hl IH Hx]; intros Hnd; [constructor |].
  apply NoDup_cons in Hnd as [Hnx Hnd]. constructor; [now apply IH |].
  rewrite Forall_forall in *. intros y Hy. specialize (Hx y Hy).
  assert (x <> y) by (intros ->; contradiction). lia.
Qed.

Lemma entries_sorted {V : Type} (m : gmap Z V) :
  StronglySorted Z.lt (map fst (entries m)).
Proof.
  apply StronglySorted_lt; [| apply entries_NoDup].
  rewrite entries_keys. apply StronglySorted_merge_sort.
  - intros x y z. lia.
  - intros x y. lia.
Qed.

Lemma fill_entry_offsets s k b :
  counted b ->
  forall c, offset_of (fill_entry s (k, b)) c
            = offset_of s c
              + len (if decide (class_of k = c) then per_winding_data.m_indices b else []).
Proof.
  intros Hb c. red in Hb. fold (len (per_winding_data.m_indices b)) in Hb.
  destruct (Z.ltb_spec 0 (per_winding_data.m_count b)) as [Hpos | Hzero].
  - rewrite fill_entry_class by exact Hpos. cbv zeta.
    destruct (class_of k), c; cbn [offset_of current_odd current_even_non_zero current_zero];
      case_decide; try discriminate; try congruence; unfold len in *; cbn [length]; lia.
  - rewrite fill_entry_skip by exact Hzero.
    assert (per_winding_data.m_indices b = []) as ->.
    { apply len_nil_inv. unfold len in *. lia. }
    case_decide; unfold len; cbn; lia.
Qed.

Lemma fill_entry_map s k b :
  fs_winding_map (fill_entry s (k, b))
  = if 0 <? per_winding_data.m_count b
    then <[k := mk_c_array (offset_of s (class_of k)) (per_winding_data.m_count b)]>
           (fs_winding_map s)
    else fs_winding_map s.
Proof.
  destruct (Z.ltb_spec 0 (per_winding_data.m_count b)) as [Hpos | Hzero].
  - rewrite fill_entry_class by exact Hpos. cbv zeta.
    unfold sub_array, make_c_array. cbn [ca_begin].
    destruct (class_of k); cbn [fs_winding_map offset_of]; now rewrite Z.add_0_l.
  - now rewrite fill_entry_skip by exact Hzero.
Qed.

(** The views that the second loop of [fill_indices] records. *)
Lemma fill_loop_map es :
  Forall (fun e => counted (snd e)) es -> NoDup (map fst es) ->
  forall s,
  let s' := fold_left fill_entry es s in
  (forall pre k d post, es = pre ++ (k, d) :: post -> 0 < per_winding_data.m_count d ->
     fs_winding_map s' !! k
     = Some (mk_c_array (offset_of s (class_of k) + len (region (class_of k) pre))
                        (per_winding_data.m_count d)))
  /\ (forall k, (forall d, (k, d) ∈ es -> per_winding_data.m_count d <= 0) ->
        fs_winding_map s' !! k = fs_winding_map s !! k).
Proof.
  induction 1 as [| [k0 b0] es Hb Hes IH]; intros Hnd s; cbn [fold_left].
  - split; [| reflexivity]. intros pre k d post E. now destruct pre.
  - cbn [map fst] in Hnd. apply NoDup_cons in Hnd as [Hk0 Hnd]. cbn [snd] in Hb.
    destruct (IH Hnd (fill_entry s (k0, b0))) as [IH1 IH2]. cbv zeta in IH1, IH2.
    split.
    + intros pre k d post E Hpos. destruct pre as [| e pre]; cbn [app] in E.
      * inversion E; subst k0 b0 post. clear E.
        rewrite IH2.
        -- rewrite fill_entry_map.
           destruct (Z.ltb_spec 0 (per_winding_data.m_count d)); [| lia].
           rewrite lookup_insert_eq. unfold len. cbn [region flat_map length].
           now rewrite Z.add_0_r.
        -- intros d' Hin. exfalso. apply Hk0.
           apply list_elem_of_fmap. exists (k, d'). auto.
      * inversion E; subst e es. clear E.
        rewrite (IH1 pre k d post eq_refl Hpos), region_cons, len_app.
        rewrite (fill_entry_offsets s k0 b0 Hb). cbn [fst snd].
        do 2 f_equal. lia.
    + intros k Hk. rewrite IH2 by (intros d Hd; apply (Hk d); now right).
      rewrite fill_entry_map.
      destruct (Z.ltb_spec 0 (per_winding_data.m_count b0)) as [Hpos | _]; [| reflexivity].
      destruct (decide (k = k0)) as [-> | Hne].
      * specialize (Hk b0 ltac:(now left)). lia.
      * now rewrite lookup_insert_ne by congruence.
Qed.

Lemma view_mid (a m b : list Z) n :
  n = len m -> view (a ++ m ++ b) (mk_c_array (len a) n) = m.
Proof.
  intros ->. unfold view. cbn [ca_begin ca_size]. rewrite !len_to_nat.
  rewrite drop_app_length. apply take_app_length.
Qed.

Lemma region_app c es1 es2 : region c (es1 ++ es2) = region c es1 ++ region c es2.
Proof. unfold region. apply flat_map_app. Qed.

Lemma view_at (a m b : list Z) off n :
  off = len a -> n = len m -> view (a ++ m ++ b) (mk_c_array off n) = m.
Proof. intros -> ->. now apply view_mid. Qed.

(** Where the indices of an entry of the hoard lie in the index array. *)
Lemma view_region pre k d post :
  counted d ->
  let es := pre ++ (k, d) :: post in
  let odd := region odd_winding es in
  let even := region even_non_zero_winding es in
  let start := match class_of k with
               | odd_winding => 0
               | even_non_zero_winding => len odd
               | zero_winding => len even + len odd
               end in
  view (odd ++ even ++ region zero_winding es)
       (mk_c_array (start + len (region (class_of k) pre)) (per_winding_data.m_count d))
  = per_winding_data.m_indices d.
Proof.
  intros Hd es odd even start. subst start odd even es.
  red in Hd. fold (len (per_winding_data.m_indices d)) in Hd. rewrite Hd.
  rewrite !region_app, !region_cons. cbn [fst snd].
  set (op := region odd_winding pre). set (oq := region odd_winding post).
  set (ep := region even_non_zero_winding pre).
  set (eq := region even_non_zero_winding post).
  set (zp := region zero_winding pre). set (zq := region zero_winding post).
  set (l := per_winding_data.m_indices d).
  destruct (class_of k) eqn:Ek; repeat case_decide; try discriminate; try congruence;
    cbn [app]; fold op ep zp.
  - replace ((op ++ l ++ oq) ++ (ep ++ eq) ++ zp ++ zq)
      with (op ++ l ++ (oq ++ (ep ++ eq) ++ zp ++ zq))
      by (rewrite <- !app_assoc; reflexivity).
    apply view_at; [lia | reflexivity].
  - replace ((op ++ oq) ++ (ep ++ l ++ eq) ++ zp ++ zq)
      with (((op ++ oq) ++ ep) ++ l ++ (eq ++ zp ++ zq))
      by (rewrite <- !app_assoc; reflexivity).
    apply view_at; [rewrite !len_app; lia | reflexivity].
  - replace ((op ++ oq) ++ (ep ++ eq) ++ zp ++ l ++ zq)
      with (((op ++ oq) ++ (ep ++ eq) ++ zp) ++ l ++ zq)
      by (rewrite <- !app_assoc; reflexivity).
    apply view_at; [rewrite !len_app; lia | reflexivity].
Qed.

(** The view recorded for a winding number shows its indices. *)
Lemma fill_indices_views (m_hoard : gmap Z per_winding_data.t) :
  hoard_counted m_hoard ->
  let r := fill_indices m_hoard [] ∅ in
  (forall k c, f_winding_map r !! k = Some c ->
     exists d, m_hoard !! k = Some d /\ 0 < per_winding_data.count d
               /\ ca_size c = per_winding_data.count d
               /\ view (f_indices r) c = per_winding_data.m_indices d)
  /\ (forall k d, m_hoard !! k = Some d -> 0 < per_winding_data.count d ->
        is_Some (f_winding_map r !! k)).
Proof.
  intros Hc r.
  destruct (fill_indices_regions m_hoard [] ∅ Hc) as (Hi & _). fold r in Hi.
  set (es := entries m_hoard) in *.
  assert (Hes : Forall (fun e => counted (snd e)) es).
  { apply Forall_forall. intros [k d] Hin. apply elem_of_entries in Hin.
    exact (Hc _ _ Hin). }
  pose proof (entries_NoDup m_hoard) as Hnd. fold es in Hnd.
  set (odd := region odd_winding es) in *.
  set (even := region even_non_zero_winding es) in *.
  set (zero := region zero_winding es) in *.
  assert (Hmap : f_winding_map r
                 = fs_winding_map
                     (fold_left fill_entry es
                        (mk_fill_state 0 (len odd) (len even + len odd)
                           (resize_indices (len odd + len even + len zero) []) ∅))).
  { unfold r, fill_indices, fill_entries. fold es.
    rewrite (count_loop es Hes). cbn [total num_odd num_even_non_zero num_zero].
    fold odd even zero. now rewrite !Z.add_0_l. }
  destruct (fill_loop_map es Hes Hnd
              (mk_fill_state 0 (len odd) (len even + len odd)
                 (resize_indices (len odd + len even + len zero) []) ∅)) as [M1 M2].
  cbv zeta in M1, M2. rewrite <- Hmap in M1, M2.
  assert (Hfound : forall k d, (k, d) ∈ es -> 0 < per_winding_data.count d ->
            exists c, f_winding_map r !! k = Some c
                      /\ ca_size c = per_winding_data.count d
                      /\ view (f_indices r) c = per_winding_data.m_indices d).
  { intros k d Hin Hpos. apply list_elem_of_split in Hin as (pre & post & E).
    eexists. split; [exact (M1 pre k d post E Hpos) |]. split; [reflexivity |].
    assert (Hd : per_winding_data.m_count d = len (per_winding_data.m_indices d)).
    { apply (Hc k d). apply elem_of_entries. fold es. rewrite E.
      apply elem_of_app. right. now left. }
    rewrite Hi. subst odd even zero.
    cbn [offset_of]. rewrite E.
    assert (Hcd : counted d) by exact Hd.
    pose proof (view_region pre k d post Hcd) as V. cbv zeta in V.
    destruct (class_of k); cbn [offset_of current_odd current_even_non_zero current_zero];
      exact V. }
  split.
  - intros k c Hk.
    destruct (m_hoard !! k) as [d |] eqn:Ed.
    + destruct (Z.ltb_spec 0 (per_winding_data.count d)) as [Hpos | Hzero].
      * destruct (Hfound k d) as (c' & Hc' & Hsz & Hv);
          [now apply elem_of_entries | exact Hpos |].
        rewrite Hk in Hc'. inversion Hc'; subst c'. eauto.
      * rewrite M2 in Hk;
          [cbn [fs_winding_map] in Hk; now rewrite lookup_empty in Hk |].
        intros d' Hd'. apply elem_of_entries in Hd'. rewrite Ed in Hd'.
        inversion Hd'; subst d'. exact Hzero.
    + rewrite M2 in Hk;
        [cbn [fs_winding_map] in Hk; now rewrite lookup_empty in Hk |].
      intros d' Hd'. apply elem_of_entries in Hd'. congruence.
  - intros k d Hk Hpos.
    destruct (Hfound k d) as (c & -> & _); [now apply elem_of_entries | exact Hpos | eauto].
Qed.

(** X11: the map that [fill_indices] fills for a [builder], which becomes
    [m_per_fill], has an entry exactly for the winding numbers that have
    triangles, and the view of a winding number shows, in the index
    array, the indices of the triangles of that winding number, all of
    them and in their order; no view is empty. *)
Theorem fill_indices_per_winding
    (gluTess : list glu_contour -> (Z -> bool) -> PointHoard.t -> list glu_event)
    (P : SubPath.t) :
  let B := builder_new gluTess P [] in
  let r := fill_indices (b_hoard B) [] ∅ in
  (forall k c, f_winding_map r !! k = Some c ->
     exists d, b_hoard B !! k = Some d /\ 0 < per_winding_data.count d
               /\ ca_size c = per_winding_data.count d
               /\ view (f_indices r) c = per_winding_data.m_indices d)
  /\ (forall k d, b_hoard B !! k = Some d -> 0 < per_winding_data.count d ->
        is_Some (f_winding_map r !! k)).
Proof.
  intros B r. exact (fill_indices_views (b_hoard B) (builder_new_counted gluTess P)).
Qed.

(** ** The bake of a leaf *)

Lemma t_max_max a b : t_max a b = Z.max a b.
Proof. unfold t_max. destruct (Z.ltb_spec a b); lia. Qed.

Lemma elem_of_entries_keys {V : Type} (m : gmap Z V) k :
  k ∈ map fst (entries m) <-> is_Some (m !! k).
Proof.
  rewrite entries_keys, merge_sort_Permutation, elem_of_elements. apply elem_of_dom.
Qed.

Lemma length_fill_winding_data f dst :
  length (AttributeDataFiller.fill_winding_data f dst)
  = length (AttributeDataFiller.m_points f).
Proof. unfold AttributeDataFiller.fill_winding_data. apply length_imap. Qed.

Section LeafBake.
Context {PainterAttributeData : Type}.
Variable gluTess : list glu_contour -> (Z -> bool) -> PointHoard.t -> list glu_event.
Variable set_data_filler : AttributeDataFiller.t -> PainterAttributeData.

(** What [make_ready_from_sub_path] leaves in a node that has its
    sub-path. *)
Lemma make_ready_from_sub_path_spec (d : @SubsetData PainterAttributeData) (Q : SubPath.t) :
  m_sub_path d = Some Q ->
  let d' := make_ready_from_sub_path gluTess set_data_filler d in
  let B := builder_new gluTess Q [] in
  let es := entries (b_hoard B) in
  let odd := region odd_winding es in
  let even := region even_non_zero_winding es in
  let zero := region zero_winding es in
  m_ID d' = m_ID d /\ m_bounds d' = m_bounds d
  /\ is_Some (m_painter_data d') /\ m_sub_path d' = None /\ m_sizes_ready d' = true
  /\ m_num_attributes d' = len (PointHoard.m_pts (b_points B))
  /\ len (m_windings_per_pt d') = m_num_attributes d'
  /\ m_largest_index_block d' = Z.max (len odd + len even) (len even + len zero)
  /\ m_winding_numbers d'
     = m_winding_numbers d
       ++ map fst (entries (f_winding_map (fill_indices (b_hoard B) [] ∅))).
Proof.
  intros HQ d' B es odd even zero. subst d'.
  unfold make_ready_from_sub_path. rewrite HQ. fold B.
  destruct (fill_indices_regions (b_hoard B) [] ∅ (builder_new_counted gluTess Q))
    as (Hi & He & Hz & _).
  fold es odd even zero in Hi, He, Hz.
  cbn [m_ID m_bounds m_painter_data m_sub_path m_sizes_ready m_num_attributes
       m_windings_per_pt m_largest_index_block m_winding_numbers
       AttributeDataFiller.m_points AttributeDataFiller.m_nonzero_winding_indices
       AttributeDataFiller.m_zero_winding_indices AttributeDataFiller.m_odd_winding_indices
       AttributeDataFiller.m_even_winding_indices AttributeDataFiller.m_per_fill].
  do 2 (split; [reflexivity |]). split; [eauto |]. do 2 (split; [reflexivity |]).
  split; [reflexivity |].
  split; [unfold len; now rewrite length_fill_winding_data |].
  split; [| reflexivity].
  unfold sub_array, sub_array_from, make_c_array. cbn [ca_size ca_begin].
  fold (len (f_indices (fill_indices (b_hoard B) [] ∅))).
  rewrite Hi, He, Hz, !len_app, !t_max_max.
  unfold len. lia.
Qed.

End LeafBake.

(** X12: [make_ready_from_sub_path] on a node that has its sub-path and
    no winding numbers yet: the sub-path is dropped, the painter data and
    the sizes are there; [m_num_attributes] is the number of points of the
    [builder], and there is one winding set for each of them;
    [m_largest_index_block] is the larger of the number of indices with
    non-zero winding number and the number of indices with even winding
    number, and no view of the index array, neither one of the four fill
    rules nor one of a winding number, has more indices; the winding
    numbers are those that have triangles, in strictly increasing
    order. *)
Theorem leaf_bake_sizes {PainterAttributeData : Type}
    (gluTess : list glu_contour -> (Z -> bool) -> PointHoard.t -> list glu_event)
    (set_data_filler : AttributeDataFiller.t -> PainterAttributeData)
    (d : @SubsetData PainterAttributeData) (Q : SubPath.t)
    (HQ : m_sub_path d = Some Q) (Hw : m_winding_numbers d = []) :
  let d' := make_ready_from_sub_path gluTess set_data_filler d in
  let B := builder_new gluTess Q [] in
  let r := fill_indices (b_hoard B) [] ∅ in
  let indices_ptr := make_c_array (f_indices r) in
  let es := entries (b_hoard B) in
  let nonzero := len (region odd_winding es) + len (region even_non_zero_winding es) in
  let even := len (region even_non_zero_winding es) + len (region zero_winding es) in
  (is_Some (m_painter_data d') /\ m_sub_path d' = None /\ m_sizes_ready d' = true)
  /\ m_num_attributes d' = len (PointHoard.m_pts (b_points B))
  /\ len (m_windings_per_pt d') = m_num_attributes d'
  /\ m_largest_index_block d' = Z.max nonzero even
  /\ (ca_size (sub_array indices_ptr 0 (zero_start r)) <= m_largest_index_block d'
      /\ ca_size (sub_array_from indices_ptr (zero_start r)) <= m_largest_index_block d'
      /\ ca_size (sub_array indices_ptr 0 (even_non_zero_start r))
         <= m_largest_index_block d'
      /\ ca_size (sub_array_from indices_ptr (even_non_zero_start r))
         <= m_largest_index_block d')
  /\ (forall w c, f_winding_map r !! w = Some c -> ca_size c <= m_largest_index_block d')
  /\ StronglySorted Z.lt (m_winding_numbers d')
  /\ (forall w, w ∈ m_winding_numbers d' <-> 0 < count_of (b_hoard B) w).
Proof.
  intros d' B r indices_ptr es nonzero even.
  destruct (make_ready_from_sub_path_spec gluTess set_data_filler d Q HQ)
    as (_ & _ & Hp & Hs & Hr & Hn & Hl & Hb & Hwn).
  fold d' B es r in Hp, Hs, Hr, Hn, Hl, Hb, Hwn. rewrite Hw in Hwn. cbn [app] in Hwn.
  fold nonzero even in Hb.
  pose proof (builder_new_counted gluTess Q) as Hc. fold B in Hc.
  destruct (fill_indices_regions (b_hoard B) [] ∅ Hc) as (Hi & He & Hz & _).
  fold es r in Hi, He, Hz.
  destruct (fill_indices_views (b_hoard B) Hc) as [V1 V2]. fold r in V1, V2.
  split; [auto |]. split; [exact Hn |]. split; [exact Hl |]. split; [exact Hb |].
  assert (Hlen : forall c, 0 <= len (region c es)) by (intros c; unfold len; lia).
  pose proof (Hlen odd_winding). pose proof (Hlen even_non_zero_winding).
  pose proof (Hlen zero_winding).
  split; [| split; [| split]].
  - unfold sub_array, sub_array_from, indices_ptr, make_c_array. cbn [ca_size ca_begin].
    fold (len (f_indices r)). rewrite Hb, Hi, He, Hz, !len_app. subst nonzero even. lia.
  - intros w c Hwc. destruct (V1 w c Hwc) as (b & Hkb & Hpos & Hsz & Hv).
    rewrite Hsz. unfold per_winding_data.count. rewrite (Hc _ _ Hkb).
    fold (len (per_winding_data.m_indices b)).
    assert (Hin : (w, b) ∈ es) by now apply elem_of_entries.
    apply list_elem_of_split in Hin as (pre & post & E).
    assert (Hreg : len (per_winding_data.m_indices b) <= len (region (class_of w) es)).
    { rewrite E, region_app, region_cons, !len_app. cbn [fst snd].
      rewrite decide_True by reflexivity.
      unfold len. lia. }
    rewrite Hb. subst nonzero even. destruct (class_of w); lia.
  - rewrite Hwn. apply entries_sorted.
  - intros w. rewrite Hwn, elem_of_entries_keys. unfold count_of. split.
    + intros [c Hwc]. destruct (V1 w c Hwc) as (b & -> & Hpos & _). exact Hpos.
    + intros Hpos. destruct (b_hoard B !! w) as [b |] eqn:Eb; [| lia].
      exact (V2 w b Eb Hpos).
Qed.

Lemma leaf_bake_sizes_witness :
  let d' := make_ready_from_sub_path two_pass_triangle baked_from_filler (data square_root) in
  m_num_attributes d' = 8 /\ m_largest_index_block d' = 18
  /\ m_winding_numbers d' = [0; 1].
Proof.
  destruct (leaf_bake_sizes two_pass_triangle baked_from_filler (data square_root)
              square_sub_path eq_refl eq_refl) as (_ & Hn & _ & Hb & _).
  split; [rewrite Hn; reflexivity |]. split; [rewrite Hb; reflexivity | reflexivity].
Defined.

(** ** The states of the hierarchy *)

Section HierarchyStates.
Context {PainterAttributeData : Type}.
Variable gluTess : list glu_contour -> (Z -> bool) -> PointHoard.t -> list glu_event.
Variable set_data_filler : AttributeDataFiller.t -> PainterAttributeData.
Variable set_data_merger :
  PainterAttributeData -> PainterAttributeData -> PainterAttributeData.
Context {ClipEquations : Type}.
Variable clip_against_planes : ClipEquations -> BoundingBox -> bool * list vec2.

Lemma ready_sized (n : @SubsetPrivate PainterAttributeData) :
  node_inv n -> is_Some (m_painter_data (data n)) ->
  m_sizes_ready (data n) = true /\ baked_ok (data n).
Proof.
  destruct n as [d | d c0 c1]; cbn [node_inv data].
  - intros [(Hp & _) | (_ & _ & Hs & Hb)] Hsome; [| auto].
    rewrite Hp in Hsome. now destruct Hsome.
  - intros (_ & _ & _ & _ & Hp) Hsome. destruct (Hp Hsome) as (Hs & _ & _ & Hb). auto.
Qed.

Lemma bake_leaf_inv (d : @SubsetData PainterAttributeData) :
  m_painter_data d = None -> is_Some (m_sub_path d) -> m_winding_numbers d = [] ->
  leaf_inv (make_ready_from_sub_path gluTess set_data_filler d).
Proof.
  intros Hp [Q HQ] Hw. right.
  destruct (make_ready_from_sub_path_spec gluTess set_data_filler d Q HQ)
    as (_ & _ & H1 & H2 & H3 & _ & H5 & _ & H7).
  split; [exact H1 |]. split; [exact H2 |]. split; [exact H3 |].
  split; [| exact H5]. rewrite H7, Hw. apply entries_sorted.
Qed.

Lemma make_ready_sizes_kept (n : @SubsetPrivate PainterAttributeData) :
  node_inv n -> m_sizes_ready (data n) = true ->
  sizes (data (make_ready gluTess set_data_filler set_data_merger n)) = sizes (data n).
Proof.
  destruct n as [d | d c0 c1]; cbn [node_inv data make_ready].
  - intros [(_ & _ & Hs & _) | ([a Ha] & _)] Hr; [congruence |]. now rewrite Ha.
  - intros (Hsub & _ & _ & _ & _) Hr.
    destruct (m_painter_data d) eqn:Ep; [reflexivity |]. rewrite Hsub. cbn [data].
    unfold merge_children.
    destruct (m_painter_data (data (make_ready _ _ _ c0))); [| reflexivity].
    destruct (m_painter_data (data (make_ready _ _ _ c1))); [| reflexivity].
    unfold sizes. cbn [m_sizes_ready m_num_attributes m_largest_index_block].
    now rewrite Hr.
Qed.

Lemma merged_winding_numbers_sorted (l0 l1 : list Z) :
  StronglySorted Z.lt (merge_sort Z.le (elements (list_to_set (l0 ++ l1) : gset Z))).
Proof.
  apply StronglySorted_lt.
  - apply StronglySorted_merge_sort; [intros x y z; lia | intros x y; lia].
  - rewrite merge_sort_Permutation. apply NoDup_elements.
Qed.

Lemma make_ready_inv (n : @SubsetPrivate PainterAttributeData) :
  node_inv n ->
  node_inv (make_ready gluTess set_data_filler set_data_merger n)
  /\ is_Some (m_painter_data (data (make_ready gluTess set_data_filler set_data_merger n))).
Proof.
  induction n as [d | d c0 IH0 c1 IH1]; cbn [node_inv make_ready].
  - intros [(Hp & Hs & Hr & Hw) | (Hp & Hrest)].
    + rewrite Hp. cbn [node_inv data]. split; [now apply bake_leaf_inv |].
      destruct Hs as [Q HQ].
      now destruct (make_ready_from_sub_path_spec gluTess set_data_filler d Q HQ)
        as (_ & _ & H1 & _).
    + destruct Hp as [a Ha]. rewrite Ha. cbn [node_inv data].
      split; [right; rewrite Ha; eauto | rewrite Ha; eauto].
  - intros (Hsub & I0 & I1 & Hsz & Hpd).
    destruct (m_painter_data d) as [a |] eqn:Ep.
    + cbn [node_inv data]. rewrite Ep. split; [| eauto].
      split; [exact Hsub |]. split; [exact I0 |]. split; [exact I1 |].
      split; [exact Hsz | exact Hpd].
    + rewrite Hsub. destruct (IH0 I0) as [J0 [a0 P0]]. destruct (IH1 I1) as [J1 [a1 P1]].
      set (c0' := make_ready gluTess set_data_filler set_data_merger c0) in *.
      set (c1' := make_ready gluTess set_data_filler set_data_merger c1) in *.
      destruct (ready_sized c0' J0 ltac:(eauto)) as [S0 [_ B0]].
      destruct (ready_sized c1' J1 ltac:(eauto)) as [S1 [_ B1]].
      assert (Hnum : m_num_attributes (merge_children set_data_merger d (data c0') (data c1'))
                     = m_num_attributes (data c0') + m_num_attributes (data c1')
                     /\ m_largest_index_block
                          (merge_children set_data_merger d (data c0') (data c1'))
                        = m_largest_index_block (data c0')
                          + m_largest_index_block (data c1')).
      { unfold merge_children. rewrite P0, P1.
        cbn [m_num_attributes m_largest_index_block].
        destruct (m_sizes_ready d) eqn:Er; [| auto].
        destruct (Hsz eq_refl) as (R0 & R1 & -> & ->).
        pose proof (make_ready_sizes_kept c0 I0 R0) as K0.
        pose proof (make_ready_sizes_kept c1 I1 R1) as K1.
        fold c0' in K0. fold c1' in K1. unfold sizes in K0, K1.
        inversion K0. inversion K1. auto. }
      destruct Hnum as [Hn Hl].
      assert (Hd : m_painter_data (merge_children set_data_merger d (data c0') (data c1'))
                   = Some (set_data_merger a0 a1)
                   /\ m_sizes_ready (merge_children set_data_merger d (data c0') (data c1'))
                      = true
                   /\ m_sub_path (merge_children set_data_merger d (data c0') (data c1'))
                      = None
                   /\ baked_ok (merge_children set_data_merger d (data c0') (data c1'))).
      { split; [| split; [| split]].
        - unfold merge_children. now rewrite P0, P1.
        - unfold merge_children. now rewrite P0, P1.
        - unfold merge_children. now rewrite P0, P1.
        - split.
          + unfold merge_children. rewrite P0, P1. cbn [m_winding_numbers].
            apply merged_winding_numbers_sorted.
          + rewrite Hn, <- B0, <- B1. unfold merge_children. rewrite P0, P1.
            cbn [m_windings_per_pt]. apply len_app. }
      destruct Hd as (D1 & D2 & D3 & D4).
      cbn [node_inv data]. split; [| rewrite D1; eauto].
      split; [exact D3 |]. split; [exact J0 |]. split; [exact J1 |].
      split; [intros _; auto |]. intros _. split; [exact D2 |].
      split; [eauto |]. split; [eauto | exact D4].
Qed.

Lemma fits_sized (d : @SubsetData PainterAttributeData) ma mi :
  fits d ma mi = true ->
  m_sizes_ready d = true /\ m_num_attributes d <= ma /\ m_largest_index_block d <= mi.
Proof.
  unfold fits. intros E. apply andb_true_iff in E as [E E3].
  apply andb_true_iff in E as [E1 E2]. apply Z.leb_le in E2, E3. auto.
Qed.

Lemma select_all_inv (n : @SubsetPrivate PainterAttributeData) :
  node_inv n -> forall ma mi s,
  let r := select_subsets_all_unculled gluTess set_data_filler n ma mi s in
  node_inv (fst r) /\ m_sizes_ready (data (fst r)) = true
  /\ (m_sizes_ready (data n) = true -> sizes (data (fst r)) = sizes (data n))
  /\ (is_Some (m_painter_data (data n)) -> is_Some (m_painter_data (data (fst r))))
  /\ (assert_sizes_ready ∈ sel_diagnostics (snd r) ->
      assert_sizes_ready ∈ sel_diagnostics s).
Proof.
  induction n as [d | d c0 IH0 c1 IH1]; intros Hinv ma mi s;
    cbn [select_subsets_all_unculled node_inv] in *.
  - set (d1 := if negb (m_sizes_ready d)
               then make_ready_from_sub_path gluTess set_data_filler d else d).
    assert (H1 : leaf_inv d1 /\ m_sizes_ready d1 = true
                 /\ (m_sizes_ready d = true -> d1 = d)
                 /\ (is_Some (m_painter_data d) -> is_Some (m_painter_data d1))).
    { unfold d1. destruct Hinv as [(Hp & Hs & Hr & Hw) | (Hp & Hsub & Hr & Hb)].
      - rewrite Hr. cbn [negb]. split; [now apply bake_leaf_inv |].
        destruct Hs as [Q HQ].
        destruct (make_ready_from_sub_path_spec gluTess set_data_filler d Q HQ)
          as (_ & _ & K1 & _ & K3 & _).
        split; [exact K3 |]. split; [discriminate | auto].
      - rewrite Hr. cbn [negb]. split; [right; auto |]. auto. }
    destruct H1 as (L1 & L2 & L3 & L4).
    assert (Hfst : fst (if fits d1 ma mi
                        then (Leaf d1, emit (m_ID d1) s)
                        else (Leaf d1,
                              mk_selection (sel_dst s) (sel_current s)
                                (sel_diagnostics s
                                 ++ (if m_sizes_ready d1 then [] else [assert_sizes_ready])
                                 ++ [assert_childless_subset_too_large])))
                   = Leaf d1) by (now destruct (fits d1 ma mi)).
    cbv zeta. rewrite Hfst. cbn [node_inv data].
    split; [exact L1 |]. split; [exact L2 |].
    split; [intros Hr; now rewrite (L3 Hr) |]. split; [exact L4 |].
    destruct (fits d1 ma mi); cbn [snd emit sel_diagnostics]; [auto |].
    rewrite L2. cbn [app]. intros Hin. apply elem_of_app in Hin as [Hin | Hin]; [exact Hin |].
    apply list_elem_of_singleton in Hin. discriminate Hin.
  - destruct Hinv as (Hsub & I0 & I1 & Hsz & Hpd).
    destruct (fits d ma mi) eqn:Ef.
    + cbv zeta. cbn [fst snd data node_inv emit sel_diagnostics].
      apply fits_sized in Ef as (Hr & _).
      split; [auto |]. split; [exact Hr |]. auto.
    + destruct (IH0 I0 ma mi s) as (J0 & S0 & K0 & P0 & D0). cbv zeta in J0, S0, K0, P0, D0.
      destruct (select_subsets_all_unculled gluTess set_data_filler c0 ma mi s)
        as [c0' s0]. cbn [fst snd] in *.
      destruct (IH1 I1 ma mi s0) as (J1 & S1 & K1 & P1 & D1). cbv zeta in J1, S1, K1, P1, D1.
      destruct (select_subsets_all_unculled gluTess set_data_filler c1 ma mi s0)
        as [c1' s1]. cbn [fst snd] in *.
      cbv zeta. cbn [fst snd data node_inv].
      unfold sizes_from_children.
      destruct (m_sizes_ready d) eqn:Er.
      * destruct (Hsz eq_refl) as (R0 & R1 & Hn & Hl).
        specialize (K0 R0). specialize (K1 R1). unfold sizes in K0, K1.
        inversion K0 as [[E01 E02 E03]]. inversion K1 as [[E11 E12 E13]].
        split; [| split; [exact Er | split; [reflexivity | split; [auto | auto]]]].
        split; [exact Hsub |]. split; [exact J0 |]. split; [exact J1 |].
        split; [intros _; rewrite E02, E03, E12, E13; auto |].
        intros Hsome. destruct (Hpd Hsome) as (_ & Q0 & Q1 & Hb). auto.
      * cbn [m_sub_path m_sizes_ready m_num_attributes m_largest_index_block
             m_painter_data].
        split; [| split; [reflexivity | split; [discriminate | split; [auto | auto]]]].
        split; [exact Hsub |]. split; [exact J0 |]. split; [exact J1 |].
        split; [intros _; auto |].
        intros Hsome. destruct (Hpd Hsome) as (Hr & _). discriminate Hr.
Qed.

Lemma select_implement_inv (eqs : ClipEquations) (n : @SubsetPrivate PainterAttributeData) :
  node_inv n -> forall ma mi s,
  let r := select_subsets_implement gluTess set_data_filler clip_against_planes
             eqs n ma mi s in
  node_inv (fst r)
  /\ (m_sizes_ready (data n) = true -> sizes (data (fst r)) = sizes (data n))
  /\ (is_Some (m_painter_data (data n)) -> is_Some (m_painter_data (data (fst r))))
  /\ (assert_sizes_ready ∈ sel_diagnostics (snd r) ->
      assert_sizes_ready ∈ sel_diagnostics s).
Proof.
  induction n as [d | d c0 IH0 c1 IH1]; intros Hinv ma mi s;
    cbn [select_subsets_implement data].
  - destruct (clip_against_planes eqs (m_bounds d)) as [unclipped clipped_rect].
    case_bool_decide; [cbn [fst snd]; auto |].
    destruct (select_all_inv (Leaf d) Hinv ma mi s) as (H1 & _ & H3 & H4 & H5). auto.
  - destruct (clip_against_planes eqs (m_bounds d)) as [unclipped clipped_rect].
    case_bool_decide; [cbn [fst snd]; auto |].
    destruct unclipped.
    + destruct (select_all_inv (Interior d c0 c1) Hinv ma mi s) as (H1 & _ & H3 & H4 & H5).
      auto.
    + cbn [node_inv] in Hinv. destruct Hinv as (Hsub & I0 & I1 & Hsz & Hpd).
      destruct (IH0 I0 ma mi s) as (J0 & K0 & P0 & D0). cbv zeta in J0, K0, P0, D0.
      destruct (select_subsets_implement gluTess set_data_filler clip_against_planes
                  eqs c0 ma mi s) as [c0' s0]. cbn [fst snd] in *.
      destruct (IH1 I1 ma mi s0) as (J1 & K1 & P1 & D1). cbv zeta in J1, K1, P1, D1.
      destruct (select_subsets_implement gluTess set_data_filler clip_against_planes
                  eqs c1 ma mi s0) as [c1' s1]. cbn [fst snd] in *.
      cbv zeta. cbn [fst snd data node_inv].
      split; [| split; [reflexivity | split; [auto | auto]]].
      split; [exact Hsub |]. split; [exact J0 |]. split; [exact J1 |]. split.
      * intros Hr. destruct (Hsz Hr) as (R0 & R1 & Hn & Hl).
        specialize (K0 R0). specialize (K1 R1). unfold sizes in K0, K1.
        inversion K0 as [[E01 E02 E03]]. inversion K1 as [[E11 E12 E13]].
        rewrite E01, E02, E03, E11, E12, E13. auto.
      * intros Hsome. destruct (Hpd Hsome) as (Hr & Q0 & Q1 & Hb). auto.
Qed.

End HierarchyStates.

(** The constructor makes nodes that satisfy [node_inv], and numbers them
    in the order of [subset_data]. *)
Lemma SubsetPrivate_new_inv {PainterAttributeData : Type} Q max_recursion out_values :
  node_inv (fst (SubsetPrivate_new (PainterAttributeData := PainterAttributeData)
                   Q max_recursion out_values)).
Proof.
  funelim (SubsetPrivate_new Q max_recursion out_values).
  - cbv zeta in *. clear Heqcall.
    destruct (_ <? _); [| cbn; left; eauto].
    destruct (_ || _); [| cbn; left; eauto].
    cbn [fst node_inv m_sub_path m_sizes_ready m_painter_data].
    split; [reflexivity |]. split; [exact H |]. split; [exact H0 |].
    split; [discriminate |]. intros [a Ha]. discriminate Ha.
  - cbn. left. eauto.
Qed.

Lemma seq_snoc_app (k a b : nat) :
  seq k (S (a + b)) = k :: seq (S k) a ++ seq (S k + a) b.
Proof. cbn [seq]. f_equal. apply seq_app. Qed.

Lemma SubsetPrivate_new_ids {PainterAttributeData : Type} Q max_recursion out_values :
  let r := SubsetPrivate_new (PainterAttributeData := PainterAttributeData)
             Q max_recursion out_values in
  snd r = out_values ++ subset_ids (fst r)
  /\ subset_ids (fst r) = map Z.of_nat (seq (length out_values) (nodes (fst r))).
Proof.
  cbv zeta.
  funelim (SubsetPrivate_new Q max_recursion out_values).
  - cbv zeta in *. clear Heqcall.
    set (d := mk_SubsetData _ _ _ _ _ _ _ _ _) in *.
    set (out := out_values ++ [m_ID d]) in *.
    assert (Hout : length out = S (length out_values)).
    { unfold out. rewrite length_app. cbn. lia. }
    destruct (_ <? _); [| cbn; auto].
    destruct (_ || _); [| cbn; auto].
    destruct H as [A0 B0]. destruct H0 as [A1 B1].
    cbn [fst snd nodes]. unfold subset_ids in *. cbn [subset_data map m_ID].
    rewrite map_app. split.
    + rewrite A1, A0. unfold out. rewrite <- !app_assoc. reflexivity.
    + assert (L0 : length (snd (SubsetPrivate_new (PainterAttributeData := PainterAttributeData)
                                  (fst (SubPath.split Q)) (max_recursion - 1) out))
                   = (S (length out_values)
                      + nodes (fst (SubsetPrivate_new
                                      (PainterAttributeData := PainterAttributeData)
                                      (fst (SubPath.split Q)) (max_recursion - 1) out)))%nat).
      { rewrite A0 at 1. rewrite length_app, B0, length_map, length_seq, Hout.
        reflexivity. }
      rewrite seq_snoc_app. cbn [map]. rewrite map_app. f_equal.
      rewrite B0, B1, Hout, L0. reflexivity.
  - cbn. auto.
Qed.

Lemma sublist_sorted {A : Type} (R : A -> A -> Prop) (l k : list A) :
  sublist l k -> StronglySorted R k -> StronglySorted R l.
Proof.
  induction 1 as [| x l k Hs IH | x l k Hs IH]; intros Hk.
  - constructor.
  - apply StronglySorted_inv in Hk as [Hk Hx]. constructor; [auto |].
    rewrite Forall_forall in Hx |- *. intros y Hy. apply Hx.
    eapply elem_of_sublist; eauto.
  - apply StronglySorted_inv in Hk as [Hk Hx]. auto.
Qed.

Lemma sublist_map {A B : Type} (f : A -> B) (l k : list A) :
  sublist l k -> sublist (map f l) (map f k).
Proof.
  induction 1; cbn [map]; [constructor | now apply sublist_skip | now apply sublist_cons].
Qed.

Lemma seq_Z_sorted (k m : nat) : StronglySorted Z.lt (map Z.of_nat (seq k m)).
Proof.
  revert k. induction m as [| m IH]; intros k; cbn [seq map]; constructor; [apply IH |].
  apply Forall_forall. intros x Hx. apply list_elem_of_fmap in Hx as (y & -> & Hy).
  apply elem_of_seq in Hy. lia.
Qed.

Lemma picks_sublist {PainterAttributeData : Type}
    (n : @SubsetPrivate PainterAttributeData) ds :
  picks n ds -> sublist ds (subset_data n).
Proof.
  revert ds. induction n as [d | d c0 IH0 c1 IH1]; intros ds; cbn [picks subset_data data].
  - intros [-> | [-> | []]]; [apply sublist_nil_l | reflexivity].
  - intros [-> | [-> | (l0 & l1 & -> & P0 & P1)]].
    + apply sublist_nil_l.
    + apply sublist_skip, sublist_nil_l.
    + apply sublist_cons, sublist_app; auto.
Qed.

Lemma picks_length {PainterAttributeData : Type}
    (n : @SubsetPrivate PainterAttributeData) ds :
  picks n ds -> (length ds <= nodes n)%nat.
Proof.
  intros H. apply picks_sublist, sublist_length in H.
  enough (length (subset_data n) = nodes n) by lia.
  clear. induction n as [d | d c0 IH0 c1 IH1]; cbn [subset_data nodes length];
    [reflexivity |]. rewrite length_app. lia.
Qed.

Lemma written_nil (dst : list Z) c : written dst c [] = dst.
Proof. unfold written. cbn [app length]. rewrite Nat.add_0_r. apply take_drop. Qed.

Lemma written_emit (id : Z) (s : selection) :
  0 <= sel_current s < len (sel_dst s) ->
  sel_dst (emit id s) = written (sel_dst s) (sel_current s) [id].
Proof.
  unfold len. intros H. unfold emit, written. cbn [sel_dst length app].
  rewrite insert_take_drop by (apply Nat2Z.inj_lt; rewrite Z2Nat.id; lia).
  rewrite Nat.add_1_r. reflexivity.
Qed.

Lemma written_written (dst : list Z) c a b :
  0 <= c -> (Z.to_nat c + length a + length b <= length dst)%nat ->
  written (written dst c a) (c + len a) b = written dst c (a ++ b).
Proof.
  unfold len. intros Hc Hl. unfold written.
  replace (Z.to_nat (c + Z.of_nat (length a))) with (Z.to_nat c + length a)%nat by lia.
  assert (Ht : length (take (Z.to_nat c) dst) = Z.to_nat c)
    by (apply length_take_le; lia).
  rewrite (app_assoc (take (Z.to_nat c) dst) a).
  rewrite take_app_length' by (rewrite length_app; lia).
  rewrite drop_app_add' by (rewrite length_app; lia).
  rewrite drop_drop, length_app, <- !app_assoc.
  do 3 f_equal. now rewrite Nat.add_assoc.
Qed.

Lemma length_written (dst : list Z) c ids :
  (Z.to_nat c + length ids <= length dst)%nat ->
  length (written dst c ids) = length dst.
Proof.
  intros H. unfold written.
  rewrite !length_app, length_take_le, length_drop by lia. lia.
Qed.

Section HierarchyCalls.

Context {PainterAttributeData : Type}.
Variable gluTess : list glu_contour -> (Z -> bool) -> PointHoard.t -> list glu_event.
Variable set_data_filler : AttributeDataFiller.t -> PainterAttributeData.
Variable set_data_merger :
  PainterAttributeData -> PainterAttributeData -> PainterAttributeData.
Context {ClipEquations : Type}.
Variable clip_against_planes : ClipEquations -> BoundingBox -> bool * list vec2.

Lemma make_ready_ids (n : @SubsetPrivate PainterAttributeData) :
  subset_ids (make_ready gluTess set_data_filler set_data_merger n) = subset_ids n.
Proof.
  unfold subset_ids.
  induction n as [d | d c0 IH0 c1 IH1]; cbn [make_ready].
  - destruct (m_painter_data d); [reflexivity |]. cbn [subset_data map].
    unfold make_ready_from_sub_path. destruct (m_sub_path d); reflexivity.
  - destruct (m_painter_data d); [reflexivity |].
    destruct (m_sub_path d) eqn:Es.
    + cbn [subset_data map]. unfold make_ready_from_sub_path. rewrite Es. reflexivity.
    + cbn [subset_data map]. rewrite !map_app, IH0, IH1. f_equal.
      unfold merge_children.
      destruct (m_painter_data (data (make_ready _ _ _ c0))); [| reflexivity].
      destruct (m_painter_data (data (make_ready _ _ _ c1))); reflexivity.
Qed.

Lemma make_ready_at_inv (p : Z) (n : @SubsetPrivate PainterAttributeData) :
  node_inv n ->
  let n' := make_ready_at gluTess set_data_filler set_data_merger p n in
  node_inv n'
  /\ (m_sizes_ready (data n) = true -> sizes (data n') = sizes (data n))
  /\ (is_Some (m_painter_data (data n)) -> is_Some (m_painter_data (data n')))
  /\ subset_ids n' = subset_ids n.
Proof.
  cbv zeta.
  induction n as [d | d c0 IH0 c1 IH1]; intros Hinv; cbn [make_ready_at].
  - case_bool_decide as Hp; [| auto].
    destruct (make_ready_inv gluTess set_data_filler set_data_merger _ Hinv) as [H1 H2].
    split; [exact H1 |].
    split; [now apply make_ready_sizes_kept |]. split; [auto | apply make_ready_ids].
  - case_bool_decide as Hp.
    + destruct (make_ready_inv gluTess set_data_filler set_data_merger _ Hinv) as [H1 H2].
      split; [exact H1 |].
      split; [now apply make_ready_sizes_kept |]. split; [auto | apply make_ready_ids].
    + cbn [node_inv] in Hinv. destruct Hinv as (Hsub & I0 & I1 & Hsz & Hpd).
      destruct (IH0 I0) as (J0 & K0 & P0 & E0). destruct (IH1 I1) as (J1 & K1 & P1 & E1).
      cbn [node_inv data]. split; [| split; [auto | split; [auto |]]].
      * split; [exact Hsub |]. split; [exact J0 |]. split; [exact J1 |]. split.
        -- intros Hr. destruct (Hsz Hr) as (R0 & R1 & Hn & Hl).
           specialize (K0 R0). specialize (K1 R1). unfold sizes in K0, K1.
           inversion K0 as [[E01 E02 E03]]. inversion K1 as [[E11 E12 E13]].
           rewrite E01, E02, E03, E11, E12, E13. auto.
        -- intros Hsome. destruct (Hpd Hsome) as (Hr & Q0 & Q1 & Hb). auto.
      * unfold subset_ids in *. cbn [subset_data map]. rewrite !map_app, E0, E1.
        reflexivity.
Qed.

Lemma make_ready_at_found (p : Z) (n : @SubsetPrivate PainterAttributeData) :
  node_inv n -> p ∈ subset_ids n ->
  exists d, d ∈ subset_data (make_ready_at gluTess set_data_filler set_data_merger p n)
    /\ m_ID d = p /\ is_Some (m_painter_data d) /\ m_sizes_ready d = true /\ baked_ok d.
Proof.
  induction n as [d | d c0 IH0 c1 IH1]; intros Hinv Hin; cbn [make_ready_at].
  - unfold subset_ids in Hin. cbn [subset_data map] in Hin.
    apply list_elem_of_singleton in Hin. rewrite bool_decide_true by auto.
    destruct (make_ready_inv gluTess set_data_filler set_data_merger _ Hinv) as [H1 H2].
    destruct (ready_sized _ H1 H2) as [H3 H4].
    pose proof (make_ready_ids (Leaf d)) as Hid.
    destruct (make_ready gluTess set_data_filler set_data_merger (Leaf d)) as [d' | d' a b];
      unfold subset_ids in Hid; cbn [subset_data map data] in *.
    + exists d'. split; [apply list_elem_of_singleton; reflexivity |].
      split; [congruence | auto].
    + exists d'. split; [apply elem_of_cons; auto |]. split; [congruence | auto].
  - case_bool_decide as Hp.
    + destruct (make_ready_inv gluTess set_data_filler set_data_merger _ Hinv) as [H1 H2].
      destruct (ready_sized _ H1 H2) as [H3 H4].
      pose proof (make_ready_ids (Interior d c0 c1)) as Hid.
      destruct (make_ready gluTess set_data_filler set_data_merger (Interior d c0 c1))
        as [d' | d' a b]; unfold subset_ids in Hid; cbn [subset_data map data] in *.
      * exists d'. split; [apply list_elem_of_singleton; reflexivity |].
        split; [congruence | auto].
      * exists d'. split; [apply elem_of_cons; auto |]. split; [congruence | auto].
    + cbn [node_inv] in Hinv. destruct Hinv as (Hsub & I0 & I1 & _).
      unfold subset_ids in Hin. cbn [subset_data map data] in *.
      apply elem_of_cons in Hin as [Hin | Hin]; [congruence |].
      rewrite map_app in Hin. apply elem_of_app in Hin as [Hin | Hin].
      * destruct (IH0 I0 Hin) as (x & Hx & Hrest). exists x.
        split; [| exact Hrest]. apply elem_of_cons. right. apply elem_of_app. auto.
      * destruct (IH1 I1 Hin) as (x & Hx & Hrest). exists x.
        split; [| exact Hrest]. apply elem_of_cons. right. apply elem_of_app. auto.
Qed.

End HierarchyCalls.

Section HierarchySelection.

Context {PainterAttributeData : Type}.
Variable gluTess : list glu_contour -> (Z -> bool) -> PointHoard.t -> list glu_event.
Variable set_data_filler : AttributeDataFiller.t -> PainterAttributeData.
Context {ClipEquations : Type}.
Variable clip_against_planes : ClipEquations -> BoundingBox -> bool * list vec2.

Lemma walk_out_none (n : @SubsetPrivate PainterAttributeData) ma mi s : walk_out n n ma mi s s.
Proof.
  exists []. cbn [map]. rewrite written_nil. unfold len. cbn [length].
  split; [destruct n; cbn; auto |]. split; [constructor |].
  split; [lia | auto].
Qed.

Lemma walk_out_emit (n : @SubsetPrivate PainterAttributeData) d ma mi s :
  0 <= sel_current s < len (sel_dst s) ->
  data n = d -> fits d ma mi = true ->
  walk_out n n ma mi s (emit (m_ID d) s).
Proof.
  intros Hc Hd Hf. exists [d]. cbn [map]. rewrite written_emit by exact Hc.
  split; [destruct n; cbn in *; subst; auto |]. split; [auto |].
  unfold len. cbn [length emit sel_current]. split; [lia | auto].
Qed.

Lemma walk_out_children (d d' : @SubsetData PainterAttributeData)
    c0 c0' c1 c1' ma mi s s0 s1 :
  0 <= sel_current s ->
  sel_current s + Z.of_nat (nodes (Interior d c0 c1)) <= len (sel_dst s) ->
  m_ID d' = m_ID d ->
  walk_out c0 c0' ma mi s s0 -> walk_out c1 c1' ma mi s0 s1 ->
  walk_out (Interior d c0 c1) (Interior d' c0' c1') ma mi s s1.
Proof.
  intros Hc Hl Hid (l0 & P0 & F0 & C0 & D0 & I0 & N0) (l1 & P1 & F1 & C1 & D1 & I1 & N1).
  cbn [nodes] in Hl. unfold walk_out, len in *.
  pose proof (picks_length _ _ P0) as L0. pose proof (picks_length _ _ P1) as L1.
  exists (l0 ++ l1). split; [cbn [picks]; right; right; eauto |].
  split; [apply Forall_app; auto |].
  split; [rewrite C1, C0, length_app; lia |].
  split.
  - rewrite D1, D0, C0, map_app.
    replace (Z.of_nat (length l0)) with (len (map m_ID l0))
      by (unfold len; now rewrite length_map).
    apply written_written; [exact Hc |]. rewrite !length_map. lia.
  - unfold subset_ids in *. cbn [subset_data map nodes]. rewrite !map_app, I0, I1, N0, N1.
    rewrite Hid. auto.
Qed.

Lemma walk_out_length (n n' : @SubsetPrivate PainterAttributeData) ma mi s s' :
  walk_out n n' ma mi s s' ->
  sel_current s <= sel_current s' <= sel_current s + Z.of_nat (nodes n).
Proof.
  intros (ds & P & _ & C & _ & _ & N). pose proof (picks_length _ _ P) as L.
  unfold len in C. lia.
Qed.

Lemma walk_out_dst (n n' : @SubsetPrivate PainterAttributeData) ma mi s s' :
  0 <= sel_current s ->
  sel_current s + Z.of_nat (nodes n) <= len (sel_dst s) ->
  walk_out n n' ma mi s s' -> len (sel_dst s') = len (sel_dst s).
Proof.
  intros Hc Hl (ds & P & _ & C & D & _ & N). pose proof (picks_length _ _ P) as L.
  unfold len in *. rewrite D, length_written; [reflexivity |]. rewrite length_map. lia.
Qed.

Lemma bake_ID (d : @SubsetData PainterAttributeData) :
  m_ID (make_ready_from_sub_path gluTess set_data_filler d) = m_ID d.
Proof. unfold make_ready_from_sub_path. destruct (m_sub_path d); reflexivity. Qed.

Lemma select_all_out (n : @SubsetPrivate PainterAttributeData) :
  forall ma mi s,
  0 <= sel_current s ->
  sel_current s + Z.of_nat (nodes n) <= len (sel_dst s) ->
  let r := select_subsets_all_unculled gluTess set_data_filler n ma mi s in
  walk_out n (fst r) ma mi s (snd r).
Proof.
  induction n as [d | d c0 IH0 c1 IH1]; intros ma mi s Hc Hl;
    cbn [select_subsets_all_unculled]; cbv zeta.
  - set (d1 := if negb (m_sizes_ready d)
               then make_ready_from_sub_path gluTess set_data_filler d else d).
    assert (Hid : m_ID d1 = m_ID d).
    { unfold d1. destruct (negb _); [apply bake_ID | reflexivity]. }
    cbn [nodes] in Hl.
    destruct (fits d1 ma mi) eqn:Ef; cbn [fst snd].
    + exists [d1]. cbn [map]. rewrite written_emit by lia.
      split; [cbn; auto |]. split; [auto |].
      unfold len, subset_ids. cbn [length emit sel_current subset_data map nodes].
      rewrite Hid. split; [lia | auto].
    + exists []. cbn [map sel_dst sel_current]. rewrite written_nil.
      split; [cbn; auto |]. split; [constructor |].
      unfold len, subset_ids. cbn [length subset_data map nodes].
      rewrite Hid. split; [lia | auto].
  - destruct (fits d ma mi) eqn:Ef.
    + cbn [fst snd]. apply walk_out_emit; [cbn [nodes] in Hl; lia | reflexivity | exact Ef].
    + pose proof Hl as Hl'. cbn [nodes] in Hl'.
      assert (Hl0 : sel_current s + Z.of_nat (nodes c0) <= len (sel_dst s)) by lia.
      assert (W0 := IH0 ma mi s Hc Hl0). cbv zeta in W0.
      destruct (select_subsets_all_unculled gluTess set_data_filler c0 ma mi s)
        as [c0' s0]. cbn [fst snd] in W0.
      pose proof (walk_out_length _ _ _ _ _ _ W0) as B0.
      pose proof (walk_out_dst _ _ _ _ _ _ Hc Hl0 W0) as E0.
      assert (Hc0 : 0 <= sel_current s0) by lia.
      assert (Hl1 : sel_current s0 + Z.of_nat (nodes c1) <= len (sel_dst s0)) by lia.
      assert (W1 := IH1 ma mi s0 Hc0 Hl1). cbv zeta in W1.
      destruct (select_subsets_all_unculled gluTess set_data_filler c1 ma mi s0)
        as [c1' s1]. cbn [fst snd] in W1 |- *.
      apply (walk_out_children d _ c0 c0' c1 c1' ma mi s s0 s1 Hc Hl); [| exact W0 | exact W1].
      unfold sizes_from_children. destruct (m_sizes_ready d); reflexivity.
Qed.

Lemma select_implement_out (eqs : ClipEquations) (n : @SubsetPrivate PainterAttributeData) :
  forall ma mi s,
  0 <= sel_current s ->
  sel_current s + Z.of_nat (nodes n) <= len (sel_dst s) ->
  let r := select_subsets_implement gluTess set_data_filler clip_against_planes
             eqs n ma mi s in
  walk_out n (fst r) ma mi s (snd r).
Proof.
  induction n as [d | d c0 IH0 c1 IH1]; intros ma mi s Hc Hl;
    cbn [select_subsets_implement data]; cbv zeta.
  - destruct (clip_against_planes eqs (m_bounds d)) as [unclipped clipped_rect].
    case_bool_decide; [apply walk_out_none |].
    now apply select_all_out.
  - destruct (clip_against_planes eqs (m_bounds d)) as [unclipped clipped_rect].
    case_bool_decide; [apply walk_out_none |].
    destruct unclipped; [now apply select_all_out |].
    pose proof Hl as Hl'. cbn [nodes] in Hl'.
    assert (Hl0 : sel_current s + Z.of_nat (nodes c0) <= len (sel_dst s)) by lia.
    assert (W0 := IH0 ma mi s Hc Hl0). cbv zeta in W0.
    destruct (select_subsets_implement gluTess set_data_filler clip_against_planes
                eqs c0 ma mi s) as [c0' s0]. cbn [fst snd] in W0.
    pose proof (walk_out_length _ _ _ _ _ _ W0) as B0.
    pose proof (walk_out_dst _ _ _ _ _ _ Hc Hl0 W0) as E0.
    assert (Hc0 : 0 <= sel_current s0) by lia.
    assert (Hl1 : sel_current s0 + Z.of_nat (nodes c1) <= len (sel_dst s0)) by lia.
    assert (W1 := IH1 ma mi s0 Hc0 Hl1). cbv zeta in W1.
    destruct (select_subsets_implement gluTess set_data_filler clip_against_planes
                eqs c1 ma mi s0) as [c1' s1]. cbn [fst snd] in W1 |- *.
    now apply (walk_out_children d d c0 c0' c1 c1' ma mi s s0 s1 Hc Hl).
Qed.

End HierarchySelection.

(** X13: the constructor of the hierarchy numbers the nodes in the order
    in which it makes them, a node before the nodes below it and the
    first child with all below it before the second: [out_values] grows
    by the IDs of the new nodes in that order, and these IDs are the
    consecutive numbers from the former size of [out_values] on. For a
    [FilledPath], [m_subsets] is so the list 0, 1, ..., without
    repetition, the entry [I] being the node of ID [I]; and no node has
    painter data or sizes yet, a node without children has its sub-path
    and a node with children has none. *)
Theorem hierarchy_numbered {PainterAttributeData : Type}
    (Q : SubPath.t) (max_recursion : Z) (out_values : list Z) (P : TessellatedPath) :
  let r := SubsetPrivate_new (PainterAttributeData := PainterAttributeData)
             Q max_recursion out_values in
  let fp := FilledPathPrivate_new (PainterAttributeData := PainterAttributeData) P in
  snd r = out_values ++ subset_ids (fst r)
  /\ subset_ids (fst r) = map Z.of_nat (seq (length out_values) (nodes (fst r)))
  /\ node_inv (fst r)
  /\ Forall (fun d => m_painter_data d = None /\ m_sizes_ready d = false)
            (subset_data (fst r))
  /\ snd fp = subset_ids (fst fp)
  /\ (forall I, 0 <= I < len (snd fp) -> snd fp !! Z.to_nat I = Some I)
  /\ NoDup (snd fp).
Proof.
  cbv zeta.
  destruct (SubsetPrivate_new_ids (PainterAttributeData := PainterAttributeData)
              Q max_recursion out_values) as [A B].
  split; [exact A |]. split; [exact B |].
  split; [apply SubsetPrivate_new_inv |]. split.
  - clear A B. funelim (SubsetPrivate_new Q max_recursion out_values).
    + cbv zeta in *. clear Heqcall.
      destruct (_ <? _); [| cbn; repeat constructor].
      destruct (_ || _); [| cbn; repeat constructor].
      cbn [fst subset_data]. constructor; [auto |]. apply Forall_app. auto.
    + cbn. repeat constructor.
  - unfold FilledPathPrivate_new.
    destruct (SubsetPrivate_new_ids (PainterAttributeData := PainterAttributeData)
                (SubPath.of_tessellated_path P) SubsetConstants.recursion_depth [])
      as [A' B'].
    cbn [app length] in A', B'. rewrite A'. split; [reflexivity |]. rewrite B'. split.
    + intros I HI. unfold len in HI. rewrite length_map, length_seq in HI.
      rewrite list_lookup_fmap, lookup_seq_lt by lia. cbn. f_equal. lia.
    + apply NoDup_fmap; [intros x y; lia | apply NoDup_seq].
Qed.

Section HierarchyUse.

Context {PainterAttributeData : Type}.
Variable gluTess : list glu_contour -> (Z -> bool) -> PointHoard.t -> list glu_event.
Variable set_data_filler : AttributeDataFiller.t -> PainterAttributeData.
Variable set_data_merger :
  PainterAttributeData -> PainterAttributeData -> PainterAttributeData.
Context {ClipEquations : Type}.
Variable clip_against_planes : ClipEquations -> BoundingBox -> bool * list vec2.

(** X14: [FilledPath::subset(I)], in a hierarchy whose assertions hold
    ([node_inv]) and for [I] below the number of subsets, makes the node
    [m_subsets[I]] ready and keeps the hierarchy sound: after the call
    the node has its painter data and its sizes, its winding numbers are
    in strictly increasing order, without repetition, and it has one
    winding set for each of its attributes; the assertions of the
    hierarchy still hold at every node, and the IDs of the nodes are as
    they were. *)
Theorem subset_makes_ready (fp : @SubsetPrivate PainterAttributeData * list Z) (I : Z)
    (Hinv : node_inv (fst fp)) (Hsubs : snd fp = subset_ids (fst fp))
    (HI : 0 <= I < len (snd fp)) :
  let fp' := FilledPath_subset gluTess set_data_filler set_data_merger fp I in
  node_inv (fst fp')
  /\ snd fp' = subset_ids (fst fp')
  /\ snd fp' = snd fp
  /\ exists d,
       d ∈ subset_data (fst fp')
       /\ snd fp !! Z.to_nat I = Some (m_ID d)
       /\ is_Some (m_painter_data d)
       /\ m_sizes_ready d = true
       /\ StronglySorted Z.lt (m_winding_numbers d)
       /\ len (m_windings_per_pt d) = m_num_attributes d.
Proof.
  cbv zeta. unfold FilledPath_subset, len in *.
  destruct (lookup_lt_is_Some_2 (snd fp) (Z.to_nat I)) as [p Hp]; [lia |].
  rewrite Hp. cbn [fst snd].
  destruct (make_ready_at_inv gluTess set_data_filler set_data_merger p _ Hinv)
    as (H1 & _ & _ & H4).
  split; [exact H1 |]. split; [now rewrite H4 |]. split; [reflexivity |].
  assert (Hin : p ∈ subset_ids (fst fp)).
  { rewrite <- Hsubs. eapply list_elem_of_lookup_2. exact Hp. }
  destruct (make_ready_at_found gluTess set_data_filler set_data_merger p _ Hinv Hin)
    as (d & D1 & D2 & D3 & D4 & D5 & D6).
  exists d. rewrite D2.
  split; [exact D1 |]. split; [reflexivity |]. split; [exact D3 |].
  split; [exact D4 |]. split; [exact D5 | exact D6].
Qed.

(** X15: a selection keeps the hierarchy sound and never meets a node
    whose sizes were expected and are missing: when the assertions of
    the hierarchy hold before [select_subsets_implement], they hold
    after it; the assertion [m_sizes_ready] of a node without children
    is not violated by the walk; sizes that were ready are not changed,
    painter data are not lost; and a node that is not clipped at all
    has its sizes after the walk. *)
Theorem selection_keeps_hierarchy (eqs : ClipEquations)
    (n : @SubsetPrivate PainterAttributeData) (max_attribute_cnt max_index_cnt : Z)
    (s : selection) (Hinv : node_inv n) :
  let r := select_subsets_implement gluTess set_data_filler clip_against_planes
             eqs n max_attribute_cnt max_index_cnt s in
  node_inv (fst r)
  /\ (assert_sizes_ready ∈ sel_diagnostics (snd r) ->
      assert_sizes_ready ∈ sel_diagnostics s)
  /\ (m_sizes_ready (data n) = true ->
      m_sizes_ready (data (fst r)) = true
      /\ m_num_attributes (data (fst r)) = m_num_attributes (data n)
      /\ m_largest_index_block (data (fst r)) = m_largest_index_block (data n))
  /\ (is_Some (m_painter_data (data n)) -> is_Some (m_painter_data (data (fst r))))
  /\ (fst (clip_against_planes eqs (m_bounds (data n))) = true ->
      snd (clip_against_planes eqs (m_bounds (data n))) <> [] ->
      m_sizes_ready (data (fst r)) = true).
Proof.
  cbv zeta.
  destruct (select_implement_inv gluTess set_data_filler clip_against_planes eqs n Hinv
              max_attribute_cnt max_index_cnt s) as (H1 & H2 & H3 & H4).
  split; [exact H1 |]. split; [exact H4 |]. split; [| split; [exact H3 |]].
  - intros Hr. specialize (H2 Hr). unfold sizes in H2.
    inversion H2 as [[E1 E2 E3]]. rewrite E1. auto.
  - intros Hu Hc.
    destruct (select_all_inv gluTess set_data_filler n Hinv
                max_attribute_cnt max_index_cnt s) as (_ & K & _).
    destruct n as [d | d c0 c1]; cbn [select_subsets_implement data] in *;
      destruct (clip_against_planes eqs (m_bounds d)) as [unclipped clipped_rect];
      cbn [fst snd] in Hu, Hc; subst unclipped;
      rewrite bool_decide_eq_false_2 by exact Hc; exact K.
Qed.

(** X16: what a selection writes. When [current] is not negative and
    [dst] has room for the nodes below and at [n] from [current] on,
    [select_subsets_implement] writes the IDs of nodes it picks to
    [dst], from the position [current] on and in the order of the
    hierarchy, and adds their number to [current]; the rest of [dst] is
    as it was. Every picked node has its sizes, within the two bounds;
    no node is picked together with a node below it; and the walk
    changes neither the shape of the hierarchy nor the ID of a node. *)
Theorem selection_output (eqs : ClipEquations)
    (n : @SubsetPrivate PainterAttributeData) (max_attribute_cnt max_index_cnt : Z)
    (s : selection)
    (Hcur : 0 <= sel_current s)
    (Hdst : sel_current s + Z.of_nat (nodes n) <= len (sel_dst s)) :
  let r := select_subsets_implement gluTess set_data_filler clip_against_planes
             eqs n max_attribute_cnt max_index_cnt s in
  exists ds,
    picks (fst r) ds
    /\ sublist ds (subset_data (fst r))
    /\ Forall (fun d => m_sizes_ready d = true
                        /\ m_num_attributes d <= max_attribute_cnt
                        /\ m_largest_index_block d <= max_index_cnt) ds
    /\ sel_current (snd r) = sel_current s + len ds
    /\ sel_dst (snd r)
       = take (Z.to_nat (sel_current s)) (sel_dst s)
         ++ map m_ID ds
         ++ drop (Z.to_nat (sel_current s) + length ds) (sel_dst s)
    /\ length (sel_dst (snd r)) = length (sel_dst s)
    /\ subset_ids (fst r) = subset_ids n
    /\ nodes (fst r) = nodes n.
Proof.
  cbv zeta.
  destruct (select_implement_out gluTess set_data_filler clip_against_planes eqs n
              max_attribute_cnt max_index_cnt s Hcur Hdst)
    as (ds & P & F & C & D & I & N).
  exists ds. split; [exact P |]. split; [now apply picks_sublist |].
  split; [eapply Forall_impl; [exact F | intros d; apply fits_sized] |].
  split; [exact C |]. unfold written in D. rewrite length_map in D.
  split; [exact D |]. split; [| auto].
  pose proof (picks_length _ _ P) as L. unfold len in Hdst.
  rewrite D, !length_app, length_take_le, length_drop, length_map by lia. lia.
Qed.

(** X17: the IDs a selection returns. In a hierarchy numbered as the
    constructor numbers it, and with room in [dst] for every subset (the
    assertion of [FilledPath::select_subsets]), a selection that starts
    at [current = 0] returns a count that is at most the number of
    subsets, and the IDs it has written, [dst[0]] to
    [dst[count - 1]], are in strictly increasing order, hence pairwise
    different, and each is below the number of subsets, so that it is an
    argument [FilledPath::subset] accepts. *)
Theorem selection_ids_increasing (eqs : ClipEquations)
    (n : @SubsetPrivate PainterAttributeData) (max_attribute_cnt max_index_cnt : Z)
    (dst : list Z) (diagnostics : list diagnostic)
    (Hids : subset_ids n = map Z.of_nat (seq 0 (nodes n)))
    (Hdst : Z.of_nat (nodes n) <= len dst) :
  let r := select_subsets_implement gluTess set_data_filler clip_against_planes
             eqs n max_attribute_cnt max_index_cnt (mk_selection dst 0 diagnostics) in
  let count := sel_current (snd r) in
  0 <= count <= Z.of_nat (nodes n)
  /\ StronglySorted Z.lt (take (Z.to_nat count) (sel_dst (snd r)))
  /\ Forall (fun I => 0 <= I < Z.of_nat (nodes n))
            (take (Z.to_nat count) (sel_dst (snd r)))
  /\ drop (Z.to_nat count) (sel_dst (snd r)) = drop (Z.to_nat count) dst.
Proof.
  cbv zeta.
  destruct (select_implement_out gluTess set_data_filler clip_against_planes eqs n
              max_attribute_cnt max_index_cnt (mk_selection dst 0 diagnostics))
    as (ds & P & F & C & D & I & N); [cbn; lia | exact Hdst |].
  cbn [sel_current sel_dst] in C, D. unfold written in D.
  change (Z.to_nat 0) with 0%nat in D. rewrite take_0 in D. cbn [app Nat.add] in D.
  rewrite length_map in D.
  pose proof (picks_length _ _ P) as L. unfold len in *.
  assert (Hsub : sublist (map m_ID ds) (map Z.of_nat (seq 0 (nodes n)))).
  { rewrite <- Hids, <- I. apply sublist_map, picks_sublist, P. }
  rewrite C, D. replace (Z.to_nat (0 + Z.of_nat (length ds))) with (length (map m_ID ds))
    by (rewrite length_map; lia).
  rewrite take_app_length, drop_app_length, length_map.
  split; [lia |]. split; [eapply sublist_sorted; [exact Hsub | apply seq_Z_sorted] |].
  split; [| reflexivity].
  apply Forall_forall. intros x Hx. eapply elem_of_sublist in Hx; [| exact Hsub].
  apply list_elem_of_fmap in Hx as (y & -> & Hy). apply elem_of_seq in Hy. lia.
Qed.

End HierarchyUse.

Lemma subset_makes_ready_witness :
  let fp := FilledPathPrivate_new (PainterAttributeData := baked) square_path in
  node_inv (fst fp) /\ snd fp = subset_ids (fst fp) /\ 0 <= 0 < len (snd fp)
  /\ node_inv (fst (FilledPath_subset two_pass_triangle baked_from_filler
                      baked_from_merger fp 0)).
Proof.
  cbv zeta.
  assert (H1 : node_inv (fst (FilledPathPrivate_new (PainterAttributeData := baked)
                                square_path))) by apply SubsetPrivate_new_inv.
  assert (H2 : snd (FilledPathPrivate_new (PainterAttributeData := baked) square_path)
               = subset_ids (fst (FilledPathPrivate_new (PainterAttributeData := baked)
                                    square_path)))
    by (vm_compute; reflexivity).
  assert (H3 : 0 <= 0 < len (snd (FilledPathPrivate_new (PainterAttributeData := baked)
                                    square_path))) by (vm_compute; split; congruence).
  split; [exact H1 |]. split; [exact H2 |]. split; [exact H3 |].
  exact (proj1 (subset_makes_ready two_pass_triangle baked_from_filler baked_from_merger
                  _ 0 H1 H2 H3)).
Defined.

Lemma selection_keeps_hierarchy_witness :
  node_inv square_root
  /\ node_inv (fst (select_subsets_implement two_pass_triangle baked_from_filler
                      no_clip tt square_root 100 100 (mk_selection [99] 0 []))).
Proof.
  assert (H1 : node_inv square_root) by apply SubsetPrivate_new_inv.
  split; [exact H1 |].
  exact (proj1 (selection_keeps_hierarchy two_pass_triangle baked_from_filler no_clip tt
                  square_root 100 100 (mk_selection [99] 0 []) H1)).
Defined.

Lemma selection_output_witness :
  0 <= sel_current (mk_selection [99; 98] 0 [])
  /\ sel_current (mk_selection [99; 98] 0 []) + Z.of_nat (nodes square_root)
     <= len (sel_dst (mk_selection [99; 98] 0 []))
  /\ nodes (fst (select_subsets_implement two_pass_triangle baked_from_filler
                   no_clip tt square_root 100 100 (mk_selection [99; 98] 0 [])))
     = nodes square_root.
Proof.
  assert (H1 : 0 <= sel_current (mk_selection [99; 98] 0 [])) by (cbn; lia).
  assert (H2 : sel_current (mk_selection [99; 98] 0 []) + Z.of_nat (nodes square_root)
               <= len (sel_dst (mk_selection [99; 98] 0 [])))
    by (vm_compute; congruence).
  split; [exact H1 |]. split; [exact H2 |].
  destruct (selection_output two_pass_triangle baked_from_filler no_clip tt
              square_root 100 100 (mk_selection [99; 98] 0 []) H1 H2)
    as (ds & _ & _ & _ & _ & _ & _ & _ & N).
  exact N.
Defined.

Lemma selection_ids_increasing_witness :
  subset_ids square_root = map Z.of_nat (seq 0 (nodes square_root))
  /\ Z.of_nat (nodes square_root) <= len [99; 98]
  /\ drop (Z.to_nat (sel_current
             (snd (select_subsets_implement two_pass_triangle baked_from_filler
                     no_clip tt square_root 100 100 (mk_selection [99; 98] 0 [])))))
          (sel_dst
             (snd (select_subsets_implement two_pass_triangle baked_from_filler
                     no_clip tt square_root 100 100 (mk_selection [99; 98] 0 []))))
     = drop (Z.to_nat (sel_current
             (snd (select_subsets_implement two_pass_triangle baked_from_filler
                     no_clip tt square_root 100 100 (mk_selection [99; 98] 0 [])))))
          [99; 98].
Proof.
  assert (H1 : subset_ids square_root = map Z.of_nat (seq 0 (nodes square_root)))
    by (vm_compute; reflexivity).
  assert (H2 : Z.of_nat (nodes square_root) <= len [99; 98]) by (vm_compute; congruence).
  split; [exact H1 |]. split; [exact H2 |].
  exact (proj2 (proj2 (proj2 (selection_ids_increasing two_pass_triangle baked_from_filler
                                no_clip tt square_root 100 100 [99; 98] [] H1 H2)))).
Defined.
(** ** The halves of a split *)

Lemma SFleb_refl_r (a b : spec_float) : SFleb a b = true -> SFleb b b = true.
Proof.
  unfold SFleb. intros H.
  assert (Hb : b <> S754_nan).
  { intros ->. destruct a; discriminate H. }
  clear H. destruct b as [s | s | | s m e]; try congruence; cbn.
  - reflexivity.
  - destruct s; reflexivity.
  - destruct s; rewrite Z.compare_refl, Pos.compare_cont_refl; reflexivity.
Qed.

Lemma SFleb_refl_l (a b : spec_float) : SFleb a b = true -> SFleb a a = true.
Proof.
  unfold SFleb. intros H.
  assert (Ha : a <> S754_nan) by (intros ->; discriminate H).
  clear H. destruct a as [s | s | | s m e]; try congruence; cbn.
  - reflexivity.
  - destruct s; reflexivity.
  - destruct s; rewrite Z.compare_refl, Pos.compare_cont_refl; reflexivity.
Qed.

Lemma choose_splitting_coordinate_range (P : SubPath.t) (mid_pt : vec2) :
  SubPath.choose_splitting_coordinate P mid_pt = 0
  \/ SubPath.choose_splitting_coordinate P mid_pt = 1.
Proof.
  unfold SubPath.choose_splitting_coordinate.
  destruct (_ && _); [auto |]. destruct (_ && _); [auto |].
  destruct (fold_left _ _ _) as [[bx by_] [ax ay]]. destruct (_ <? _); auto.
Qed.

Lemma coord_compute_spit_point (a b : vec2) (sc : Z) (sv : spec_float) :
  sc = 0 \/ sc = 1 -> coord (SubPath.compute_spit_point a b sc sv) sc = sv.
Proof. intros [-> | ->]; reflexivity. Qed.

Lemma new_split_point_line (a b : SubPath.SubContourPoint) (pt : vec2) (sc : Z)
    (tp : SubPath.on_boundary_t) :
  sc = 0 \/ sc = 1 ->
  SubPath.m_pt (SubPath.new_split_point a b pt sc tp) = pt
  /\ SubPath.boundary_type
       (SubPath.m_boundary_type (SubPath.new_split_point a b pt sc tp)) sc = tp
  /\ SubPath.m_start_tessellated_edge (SubPath.new_split_point a b pt sc tp) = true.
Proof.
  intros [-> | ->]; unfold SubPath.new_split_point; cbn; auto.
Qed.

Lemma split_point_half (half sc : Z) (sv : spec_float) src
    (a b : SubPath.SubContourPoint) :
  sc = 0 \/ sc = 1 -> half = 0 \/ half = 1 -> SFleb sv sv = true ->
  half_point half sc sv src
    (SubPath.new_split_point a b
       (SubPath.compute_spit_point (SubPath.m_pt a) (SubPath.m_pt b) sc sv) sc
       (if half =? 0 then SubPath.on_max_boundary else SubPath.on_min_boundary)).
Proof.
  intros Hsc Hh Hsv.
  destruct (new_split_point_line a b
              (SubPath.compute_spit_point (SubPath.m_pt a) (SubPath.m_pt b) sc sv) sc
              (if half =? 0 then SubPath.on_max_boundary else SubPath.on_min_boundary)
              Hsc) as (E1 & E2 & E3).
  split.
  - unfold on_side. rewrite E1, coord_compute_spit_point by exact Hsc.
    destruct Hh as [-> | ->]; exact Hsv.
  - right. unfold on_split_line. rewrite E1, coord_compute_spit_point by exact Hsc. auto.
Qed.

Lemma bool_differ (x y : bool) : negb (eqb x y) = true -> x = true \/ y = true.
Proof. destruct x, y; cbn; auto. Qed.

(** One step of the loop of [split_contour] keeps the points of the two
    contours on their sides, and adds at most two points to each. *)
Lemma split_step_half (sc : Z) (sv : spec_float) src
    (s : SubPath.SubContour * SubPath.SubContour) (prev pt : SubPath.SubContourPoint) :
  sc = 0 \/ sc = 1 -> pt ∈ src ->
  Forall (half_point 0 sc sv src) (fst s) -> Forall (half_point 1 sc sv src) (snd s) ->
  let s' := SubPath.split_step sc sv s prev pt in
  Forall (half_point 0 sc sv src) (fst s') /\ Forall (half_point 1 sc sv src) (snd s')
  /\ (length (fst s') <= length (fst s) + 2)%nat
  /\ (length (snd s') <= length (snd s) + 2)%nat.
Proof.
  intros Hsc Hin H0 H1. destruct s as [C0 C1]. cbn [fst snd] in *.
  unfold SubPath.split_step. cbv zeta.
  set (prev_b0 := F32.leb (coord (SubPath.m_pt prev) sc) sv).
  set (b0 := F32.leb (coord (SubPath.m_pt pt) sc) sv).
  set (prev_b1 := F32.geb (coord (SubPath.m_pt prev) sc) sv).
  set (b1 := F32.geb (coord (SubPath.m_pt pt) sc) sv).
  cbn [fst snd].
  assert (S0 : negb (eqb prev_b0 b0) = true -> SFleb sv sv = true).
  { intros Hd. apply bool_differ in Hd as [Hd | Hd]; exact (SFleb_refl_r _ _ Hd). }
  assert (S1 : negb (eqb prev_b1 b1) = true -> SFleb sv sv = true).
  { intros Hd. apply bool_differ in Hd as [Hd | Hd]; exact (SFleb_refl_l _ _ Hd). }
  assert (P0 : b0 = true -> half_point 0 sc sv src pt).
  { intros Hb. split; [exact Hb | auto]. }
  assert (P1 : b1 = true -> half_point 1 sc sv src pt).
  { intros Hb. split; [exact Hb | auto]. }
  split; [| split; [| split]].
  - destruct (negb (eqb prev_b0 b0)) eqn:Ed; destruct b0 eqn:Eb;
      repeat (apply Forall_app; split); auto;
      apply Forall_singleton; auto;
      apply (split_point_half 0 sc sv src prev pt Hsc); auto.
  - destruct (negb (eqb prev_b1 b1)) eqn:Ed; destruct b1 eqn:Eb;
      repeat (apply Forall_app; split); auto;
      apply Forall_singleton; auto;
      apply (split_point_half 1 sc sv src prev pt Hsc); auto.
  - destruct (negb (eqb prev_b0 b0)); destruct b0; rewrite ?length_app; cbn [length]; lia.
  - destruct (negb (eqb prev_b1 b1)); destruct b1; rewrite ?length_app; cbn [length]; lia.
Qed.

Lemma fold_split_step_half (sc : Z) (sv : spec_float) src (l : SubPath.SubContour) :
  sc = 0 \/ sc = 1 -> (forall x, x ∈ l -> x ∈ src) ->
  forall s prev,
  Forall (half_point 0 sc sv src) (fst s) -> Forall (half_point 1 sc sv src) (snd s) ->
  let s' := SubPath.fold_prev (SubPath.split_step sc sv) s prev l in
  Forall (half_point 0 sc sv src) (fst s') /\ Forall (half_point 1 sc sv src) (snd s')
  /\ (length (fst s') <= length (fst s) + 2 * length l)%nat
  /\ (length (snd s') <= length (snd s) + 2 * length l)%nat.
Proof.
  intros Hsc. induction l as [| pt rest IH]; intros Hsub s prev H0 H1; cbn [SubPath.fold_prev].
  - cbv zeta. cbn [length]. unfold SubPath.SubContour in *. repeat split; auto; lia.
  - destruct (split_step_half sc sv src s prev pt Hsc) as (A0 & A1 & L0 & L1); auto.
    { apply Hsub. apply elem_of_cons. auto. }
    cbv zeta in *.
    destruct (IH (fun x Hx => Hsub x (proj2 (elem_of_cons _ _ _) (or_intror Hx)))
                 (SubPath.split_step sc sv s prev pt) pt A0 A1) as (B0 & B1 & M0 & M1).
    cbv zeta in *. cbn [length]. unfold SubPath.SubContour in *.
    repeat split; auto; lia.
Qed.

Lemma post_process_sub_contour_cases (C : SubPath.SubContour) :
  snd (SubPath.post_process_sub_contour C) = C
  \/ snd (SubPath.post_process_sub_contour C) = [].
Proof.
  unfold SubPath.post_process_sub_contour.
  destruct (_ || _); [auto |].
  destruct (SubPath.corner_walk _ _ _ _) as [[f b] |]; [| auto].
  destruct (_ =? _); auto.
Qed.

(** [split_contour], from two empty contours. *)
Lemma split_contour_half (sc : Z) (sv : spec_float) src (c : SubPath.SubContour) w0 w1 :
  sc = 0 \/ sc = 1 -> (forall x, x ∈ c -> x ∈ src) ->
  let r := SubPath.split_contour c sc sv [] [] w0 w1 in
  Forall (half_point 0 sc sv src) (fst (fst r))
  /\ Forall (half_point 1 sc sv src) (snd (fst r))
  /\ (length (fst (fst r)) <= 2 * length c)%nat
  /\ (length (snd (fst r)) <= 2 * length c)%nat.
Proof.
  intros Hsc Hsub. unfold SubPath.split_contour.
  destruct (fold_split_step_half sc sv src c Hsc Hsub ([], []) (SubPath.back c))
    as (A0 & A1 & L0 & L1); [constructor | constructor |].
  cbv zeta in *.
  destruct (SubPath.fold_prev _ _ _ _) as [C0 C1]. cbn [fst snd length] in *.
  pose proof (post_process_sub_contour_cases C0) as K0.
  pose proof (post_process_sub_contour_cases C1) as K1.
  destruct (SubPath.post_process_sub_contour C0) as [r0 C0'].
  destruct (SubPath.post_process_sub_contour C1) as [r1 C1'].
  cbn [fst snd] in *.
  destruct K0 as [-> | ->], K1 as [-> | ->]; cbn [length]; repeat split; auto; lia.
Qed.

(** The body of the loop over the contours in [split]. *)
Lemma split_one_half (sc : Z) (sv : spec_float) src (c : SubPath.SubContour)
    (s : (list SubPath.SubContour * list SubPath.SubContour) * (Z * Z)) :
  sc = 0 \/ sc = 1 -> (forall x, x ∈ c -> x ∈ src) ->
  half_contours 0 sc sv src (fst (fst s)) -> half_contours 1 sc sv src (snd (fst s)) ->
  let r := SubPath.split_one sc sv s c in
  half_contours 0 sc sv src (fst (fst r)) /\ half_contours 1 sc sv src (snd (fst r))
  /\ (length (fst (fst r)) <= length (fst (fst s)) + 1)%nat
  /\ (length (snd (fst r)) <= length (snd (fst s)) + 1)%nat
  /\ (length (concat (fst (fst r))) <= length (concat (fst (fst s))) + 2 * length c)%nat
  /\ (length (concat (snd (fst r))) <= length (concat (snd (fst s))) + 2 * length c)%nat.
Proof.
  intros Hsc Hsub G0 G1. destruct s as [[C0 C1] [w0 w1]]. cbn [fst snd] in *.
  unfold SubPath.split_one.
  destruct (split_contour_half sc sv src c w0 w1 Hsc Hsub) as (A0 & A1 & L0 & L1).
  cbv zeta in *.
  destruct (SubPath.split_contour c sc sv [] [] w0 w1) as [[c0 c1] ws].
  cbn [fst snd] in *. unfold SubPath.SubContour in *.
  assert (N0 : half_contours 0 sc sv src (if bool_decide (c0 = []) then C0 else C0 ++ [c0])
               /\ (length (if bool_decide (c0 = []) then C0 else C0 ++ [c0])
                   <= length C0 + 1)%nat
               /\ (length (concat (if bool_decide (c0 = []) then C0 else C0 ++ [c0]))
                   <= length (concat C0) + 2 * length c)%nat).
  { destruct G0 as [G0 G0']. destruct (bool_decide (c0 = [])) eqn:E.
    - split; [split; auto |]. split; lia.
    - apply bool_decide_eq_false in E.
      split; [split; apply Forall_app; split; auto |].
      rewrite concat_app, !length_app. cbn [concat length app].
      rewrite app_nil_r. split; lia. }
  assert (N1 : half_contours 1 sc sv src (if bool_decide (c1 = []) then C1 else C1 ++ [c1])
               /\ (length (if bool_decide (c1 = []) then C1 else C1 ++ [c1])
                   <= length C1 + 1)%nat
               /\ (length (concat (if bool_decide (c1 = []) then C1 else C1 ++ [c1]))
                   <= length (concat C1) + 2 * length c)%nat).
  { destruct G1 as [G1 G1']. destruct (bool_decide (c1 = [])) eqn:E.
    - split; [split; auto |]. split; lia.
    - apply bool_decide_eq_false in E.
      split; [split; apply Forall_app; split; auto |].
      rewrite concat_app, !length_app. cbn [concat length app].
      rewrite app_nil_r. split; lia. }
  destruct N0 as (N0 & N0l & N0c). destruct N1 as (N1 & N1l & N1c).
  repeat split; try apply N0; try apply N1; assumption.
Qed.

(** The loop over the contours in [split]. *)
Lemma split_loop_half (sc : Z) (sv : spec_float) src (cs : list SubPath.SubContour) :
  sc = 0 \/ sc = 1 -> (forall c x, c ∈ cs -> x ∈ c -> x ∈ src) ->
  forall s,
  half_contours 0 sc sv src (fst (fst s)) -> half_contours 1 sc sv src (snd (fst s)) ->
  let r := fold_left (SubPath.split_one sc sv) cs s in
  half_contours 0 sc sv src (fst (fst r)) /\ half_contours 1 sc sv src (snd (fst r))
  /\ (length (fst (fst r)) <= length (fst (fst s)) + length cs)%nat
  /\ (length (snd (fst r)) <= length (snd (fst s)) + length cs)%nat
  /\ (length (concat (fst (fst r)))
      <= length (concat (fst (fst s))) + 2 * length (concat cs))%nat
  /\ (length (concat (snd (fst r)))
      <= length (concat (snd (fst s))) + 2 * length (concat cs))%nat.
Proof.
  intros Hsc. induction cs as [| c rest IH]; intros Hsub s G0 G1; cbn [fold_left].
  - cbv zeta. cbn [length concat]. unfold SubPath.SubContour in *.
    repeat split; try apply G0; try apply G1; lia.
  - destruct (split_one_half sc sv src c s Hsc) as (N0 & N1 & L0 & L1 & M0 & M1); auto.
    { intros x Hx. apply (Hsub c x); [apply elem_of_cons; auto | exact Hx]. }
    cbv zeta in *.
    destruct (IH (fun c' x Hc Hx => Hsub c' x (proj2 (elem_of_cons _ _ _) (or_intror Hc)) Hx)
                 (SubPath.split_one sc sv s c) N0 N1) as (R0 & R1 & R2 & R3 & R4 & R5).
    cbv zeta in *.
    cbn [length concat]. rewrite length_app. unfold SubPath.SubContour in *.
    repeat split; try apply R0; try apply R1; lia.
Qed.

Lemma total_points_of_contours (bb : BoundingBox) (cs : list SubPath.SubContour) w :
  SubPath.total_points (SubPath.of_contours bb cs w) = len (concat cs).
Proof.
  unfold SubPath.of_contours, SubPath.total_points, len. cbn [SubPath.m_total_points].
  enough (G : forall n, fold_left (fun n c => n + Z.of_nat (length c)) cs n
                        = n + Z.of_nat (length (concat cs))) by (rewrite G; lia).
  induction cs as [| c rest IH]; intros n; cbn [fold_left concat].
  - cbn. lia.
  - rewrite IH, length_app. lia.
Qed.

Lemma elem_of_concat {A : Type} (ls : list (list A)) (l : list A) (x : A) :
  l ∈ ls -> x ∈ l -> x ∈ concat ls.
Proof.
  intros Hl Hx. apply list_elem_of_In, in_concat. exists l.
  split; apply list_elem_of_In; assumption.
Qed.

(** The loop of [split], from its start. *)
Lemma split_unfold (P : SubPath.t) :
  let sc := split_coordinate P in
  let sv := split_value P in
  let r := fold_left (SubPath.split_one sc sv) (SubPath.m_contours P) (([], []), (0, 0)) in
  SubPath.m_contours (fst (SubPath.split P)) = fst (fst r)
  /\ SubPath.m_contours (snd (SubPath.split P)) = snd (fst r)
  /\ SubPath.total_points (fst (SubPath.split P)) = len (concat (fst (fst r)))
  /\ SubPath.total_points (snd (SubPath.split P)) = len (concat (snd (fst r)))
  /\ SubPath.m_bounds (fst (SubPath.split P))
     = mk_BoundingBox (min_point (SubPath.m_bounds P))
         (set_coord (set_coord inhabitant (1 - sc)
                       (coord (max_point (SubPath.m_bounds P)) (1 - sc))) sc sv)
  /\ SubPath.m_bounds (snd (SubPath.split P))
     = mk_BoundingBox
         (set_coord (set_coord inhabitant (1 - sc)
                       (coord (min_point (SubPath.m_bounds P)) (1 - sc))) sc sv)
         (max_point (SubPath.m_bounds P)).
Proof.
  cbv zeta. unfold SubPath.split. fold (split_mid P). fold (split_coordinate P).
  fold (split_value P).
  destruct (fold_left _ _ _) as [[C0 C1] [w0 w1]]. cbn [fst snd].
  rewrite !total_points_of_contours. cbn. auto 10.
Qed.

(** X18: the two halves that [SubPath::split] makes lie on their sides
    of the splitting line. The splitting coordinate is 0 or 1. Every
    point of a contour of the first half has its splitting coordinate
    not above the splitting value (the middle of the bounds), every
    point of the second half not below it, as [<=] and [>=] on [float]
    have it; and each of these points is a point of the sub-path that is
    split, or a new point whose splitting coordinate is the splitting
    value itself and that is marked as being on the maximum boundary
    (first half) or on the minimum boundary (second half) of that
    coordinate, and as the start of an edge. The boxes of the halves
    are the box of the sub-path cut at the splitting value: the first
    keeps the minimum corner, the second the maximum corner, the other
    corner of each has the splitting value in the splitting coordinate
    and the value of the sub-path in the other coordinate. *)
Theorem split_halves (P : SubPath.t) :
  let sc := split_coordinate P in
  let sv := split_value P in
  let Q0 := fst (SubPath.split P) in
  let Q1 := snd (SubPath.split P) in
  (sc = 0 \/ sc = 1)
  /\ Forall (Forall (half_point 0 sc sv (all_points P))) (SubPath.m_contours Q0)
  /\ Forall (Forall (half_point 1 sc sv (all_points P))) (SubPath.m_contours Q1)
  /\ min_point (SubPath.m_bounds Q0) = min_point (SubPath.m_bounds P)
  /\ max_point (SubPath.m_bounds Q1) = max_point (SubPath.m_bounds P)
  /\ coord (max_point (SubPath.m_bounds Q0)) sc = sv
  /\ coord (min_point (SubPath.m_bounds Q1)) sc = sv
  /\ coord (max_point (SubPath.m_bounds Q0)) (1 - sc)
     = coord (max_point (SubPath.m_bounds P)) (1 - sc)
  /\ coord (min_point (SubPath.m_bounds Q1)) (1 - sc)
     = coord (min_point (SubPath.m_bounds P)) (1 - sc).
Proof.
  cbv zeta.
  assert (Hsc : split_coordinate P = 0 \/ split_coordinate P = 1)
    by apply choose_splitting_coordinate_range.
  destruct (split_unfold P) as (E0 & E1 & _ & _ & B0 & B1). cbv zeta in *.
  destruct (split_loop_half (split_coordinate P) (split_value P) (all_points P)
              (SubPath.m_contours P) Hsc
              (fun c x Hc Hx => elem_of_concat _ c x Hc Hx)
              (([], []), (0, 0)))
    as ((G0 & _) & (G1 & _) & _); [split; constructor | split; constructor |].
  cbv zeta in *. rewrite E0, E1, B0, B1. cbn [min_point max_point].
  split; [exact Hsc |]. split; [exact G0 |]. split; [exact G1 |].
  destruct Hsc as [-> | ->]; cbn; auto 10.
Qed.

(** X19: the contours a [SubPath] holds, and how many points. In each
    half that [split] makes no contour is empty, there are at most as
    many contours as in the sub-path that is split, and at most twice
    as many points as that sub-path has in its contours.
    [m_total_points] of a half is the
    number of points of its contours, and so is that of the sub-path
    made of a tessellated path, which has one contour for each contour
    of the path and the winding start 0. *)
Theorem split_counts (P : SubPath.t) (T : TessellatedPath) :
  let Q0 := fst (SubPath.split P) in
  let Q1 := snd (SubPath.split P) in
  let Q := SubPath.of_tessellated_path T in
  (Forall (fun c => c <> []) (SubPath.m_contours Q0)
   /\ Forall (fun c => c <> []) (SubPath.m_contours Q1))
  /\ (length (SubPath.m_contours Q0) <= length (SubPath.m_contours P)
      /\ length (SubPath.m_contours Q1) <= length (SubPath.m_contours P))%nat
  /\ (SubPath.total_points Q0 = len (all_points Q0)
      /\ SubPath.total_points Q1 = len (all_points Q1))
  /\ (SubPath.total_points Q0 <= 2 * len (all_points P)
      /\ SubPath.total_points Q1 <= 2 * len (all_points P))
  /\ SubPath.total_points Q = len (all_points Q)
  /\ length (SubPath.m_contours Q) = length (edge_ranges T)
  /\ SubPath.winding_start Q = 0.
Proof.
  cbv zeta.
  assert (Hsc : split_coordinate P = 0 \/ split_coordinate P = 1)
    by apply choose_splitting_coordinate_range.
  destruct (split_unfold P) as (E0 & E1 & T0 & T1 & _). cbv zeta in *.
  destruct (split_loop_half (split_coordinate P) (split_value P) (all_points P)
              (SubPath.m_contours P) Hsc
              (fun c x Hc Hx => elem_of_concat _ c x Hc Hx)
              (([], []), (0, 0)))
    as ((_ & G0) & (_ & G1) & L0 & L1 & M0 & M1); [split; constructor | split; constructor |].
  cbv zeta in *. cbn [fst snd length concat] in *.
  unfold all_points, len in *. rewrite E0, E1, T0, T1.
  unfold SubPath.SubContour in *.
  split; [auto |]. split; [lia |]. split; [auto |]. split; [lia |].
  unfold SubPath.of_tessellated_path, SubPath.total_points, SubPath.winding_start.
  cbn [SubPath.m_total_points SubPath.m_contours SubPath.m_winding_start].
  split; [| split; [apply length_map | reflexivity]].
  exact (total_points_of_contours
           (mk_BoundingBox (bounding_box_min T) (bounding_box_max T))
           (map (SubPath.copy_contour T) (edge_ranges T)) 0).
Qed.
(** ** The writer of a fill *)

Section WriterSteps.

Context {PainterAttributeData : Type}.
Variable gluTess : list glu_contour -> (Z -> bool) -> PointHoard.t -> list glu_event.
Variable set_data_filler : AttributeDataFiller.t -> PainterAttributeData.
Variable set_data_merger :
  PainterAttributeData -> PainterAttributeData -> PainterAttributeData.

Lemma node_at_Some (p : Z) (n : @SubsetPrivate PainterAttributeData) d :
  node_at p n = Some d -> m_ID d = p /\ d ∈ subset_data n.
Proof.
  induction n as [d0 | d0 c0 IH0 c1 IH1]; cbn [node_at subset_data data].
  - case_bool_decide; [| discriminate]. intros [= <-]. split; [auto |].
    apply list_elem_of_singleton. reflexivity.
  - case_bool_decide.
    + intros [= <-]. split; [auto | apply elem_of_cons; auto].
    + destruct (node_at p c0) as [d' |] eqn:E0.
      * intros [= <-]. destruct (IH0 eq_refl) as [A B]. split; [exact A |].
        apply elem_of_cons. right. apply elem_of_app. auto.
      * intros E1. destruct (IH1 E1) as [A B]. split; [exact A |].
        apply elem_of_cons. right. apply elem_of_app. auto.
Qed.

Lemma node_at_None (p : Z) (n : @SubsetPrivate PainterAttributeData) :
  node_at p n = None <-> p ∉ subset_ids n.
Proof.
  unfold subset_ids.
  induction n as [d0 | d0 c0 IH0 c1 IH1]; cbn [node_at subset_data data map].
  - case_bool_decide as E.
    + split; [discriminate |]. intros H. exfalso. apply H.
      apply list_elem_of_singleton. auto.
    + split; [| auto]. intros _ H. apply list_elem_of_singleton in H. auto.
  - rewrite map_app. case_bool_decide as E.
    + split; [discriminate |]. intros H. exfalso. apply H. apply elem_of_cons. auto.
    + rewrite not_elem_of_cons, not_elem_of_app, <- IH0, <- IH1.
      destruct (node_at p c0); split.
      * discriminate.
      * intros (_ & H & _). discriminate H.
      * auto.
      * intros (_ & _ & H). exact H.
Qed.

Lemma data_make_ready_ID (n : @SubsetPrivate PainterAttributeData) :
  m_ID (data (make_ready gluTess set_data_filler set_data_merger n)) = m_ID (data n).
Proof.
  pose proof (make_ready_ids gluTess set_data_filler set_data_merger n) as H.
  unfold subset_ids in H.
  destruct (make_ready gluTess set_data_filler set_data_merger n), n;
    cbn [subset_data map data] in *; congruence.
Qed.

Lemma node_at_ids_eq (p : Z) (n n' : @SubsetPrivate PainterAttributeData) :
  subset_ids n' = subset_ids n -> node_at p n = None -> node_at p n' = None.
Proof. intros E. rewrite !node_at_None, E. auto. Qed.

(** [make_ready] leaves the nodes that are ready as they are. *)
Lemma make_ready_kept (n : @SubsetPrivate PainterAttributeData) :
  ready_kept n (make_ready gluTess set_data_filler set_data_merger n).
Proof.
  unfold ready_kept.
  induction n as [d0 | d0 c0 IH0 c1 IH1]; intros p d Hat Hready; cbn [make_ready].
  - destruct (m_painter_data d0) eqn:Ep; [exact Hat |].
    cbn [node_at data] in Hat. case_bool_decide; [| discriminate].
    injection Hat as <-. rewrite Ep in Hready. now destruct Hready.
  - destruct (m_painter_data d0) eqn:Ep; [exact Hat |].
    cbn [node_at data] in Hat. case_bool_decide as Eid.
    { injection Hat as <-. rewrite Ep in Hready. now destruct Hready. }
    destruct (m_sub_path d0) eqn:Es.
    + cbn [node_at data]. rewrite bake_ID. rewrite bool_decide_eq_false_2 by exact Eid.
      exact Hat.
    + cbn [node_at data].
      assert (Em : m_ID (merge_children set_data_merger d0
                           (data (make_ready gluTess set_data_filler set_data_merger c0))
                           (data (make_ready gluTess set_data_filler set_data_merger c1)))
                   = m_ID d0).
      { unfold merge_children.
        destruct (m_painter_data (data (make_ready _ _ _ c0))); [| reflexivity].
        destruct (m_painter_data (data (make_ready _ _ _ c1))); reflexivity. }
      rewrite Em, bool_decide_eq_false_2 by exact Eid.
      destruct (node_at p c0) as [d' |] eqn:E0.
      * injection Hat as <-. rewrite (IH0 p d' E0 Hready). reflexivity.
      * rewrite (node_at_ids_eq p c0 _ (make_ready_ids _ _ _ c0) E0).
        apply IH1; assumption.
Qed.

Lemma make_ready_at_ids (q : Z) (n : @SubsetPrivate PainterAttributeData) :
  subset_ids (make_ready_at gluTess set_data_filler set_data_merger q n) = subset_ids n.
Proof.
  induction n as [d0 | d0 c0 IH0 c1 IH1]; cbn [make_ready_at].
  - case_bool_decide; [apply make_ready_ids | reflexivity].
  - case_bool_decide; [apply make_ready_ids |].
    unfold subset_ids in *. cbn [subset_data map]. rewrite !map_app, IH0, IH1. reflexivity.
Qed.

(** [subset(I)] leaves the nodes that are ready as they are. *)
Lemma make_ready_at_kept (q : Z) (n : @SubsetPrivate PainterAttributeData) :
  ready_kept n (make_ready_at gluTess set_data_filler set_data_merger q n).
Proof.
  unfold ready_kept.
  induction n as [d0 | d0 c0 IH0 c1 IH1]; intros p d Hat Hready; cbn [make_ready_at].
  - case_bool_decide; [| exact Hat]. now apply make_ready_kept.
  - case_bool_decide as Eq; [now apply make_ready_kept |].
    cbn [node_at data] in *. case_bool_decide as Eid; [exact Hat |].
    destruct (node_at p c0) as [d' |] eqn:E0.
    + injection Hat as <-. rewrite (IH0 p d' E0 Hready). reflexivity.
    + rewrite (node_at_ids_eq p c0 _ (make_ready_at_ids q c0) E0).
      apply IH1; assumption.
Qed.

(** After [subset(I)] the node is ready. *)
Lemma make_ready_at_ready (p : Z) (n : @SubsetPrivate PainterAttributeData) :
  node_inv n -> p ∈ subset_ids n ->
  exists d, ready_node (make_ready_at gluTess set_data_filler set_data_merger p n) p d.
Proof.
  unfold ready_node.
  induction n as [d0 | d0 c0 IH0 c1 IH1]; intros Hinv Hin; cbn [make_ready_at].
  - unfold subset_ids in Hin. cbn [subset_data map] in Hin.
    apply list_elem_of_singleton in Hin. rewrite bool_decide_eq_true_2 by auto.
    destruct (make_ready_inv gluTess set_data_filler set_data_merger _ Hinv) as [H1 H2].
    destruct (ready_sized _ H1 H2) as [H3 H4].
    exists (data (make_ready gluTess set_data_filler set_data_merger (Leaf d0))).
    split; [| auto].
    pose proof (data_make_ready_ID (Leaf d0)) as Hid. cbn [data] in Hid.
    destruct (make_ready gluTess set_data_filler set_data_merger (Leaf d0));
      cbn [node_at data] in *; rewrite bool_decide_eq_true_2 by congruence; reflexivity.
  - case_bool_decide as Ep.
    + destruct (make_ready_inv gluTess set_data_filler set_data_merger _ Hinv) as [H1 H2].
      destruct (ready_sized _ H1 H2) as [H3 H4].
      exists (data (make_ready gluTess set_data_filler set_data_merger (Interior d0 c0 c1))).
      split; [| auto].
      pose proof (data_make_ready_ID (Interior d0 c0 c1)) as Hid. cbn [data] in Hid.
      destruct (make_ready gluTess set_data_filler set_data_merger (Interior d0 c0 c1));
        cbn [node_at data] in *; rewrite bool_decide_eq_true_2 by congruence; reflexivity.
    + cbn [node_inv] in Hinv. destruct Hinv as (Hsub & I0 & I1 & _).
      unfold subset_ids in Hin. cbn [subset_data map] in Hin. cbn [data] in Ep.
      apply elem_of_cons in Hin as [Hin | Hin]; [congruence |].
      rewrite map_app in Hin. cbn [node_at data]. rewrite bool_decide_eq_false_2 by exact Ep.
      destruct (decide (p ∈ subset_ids c0)) as [Hc0 | Hc0].
      * destruct (IH0 I0 Hc0) as (d & E & R). exists d. rewrite E. auto.
      * apply elem_of_app in Hin as [Hin | Hin]; [contradiction |].
        destruct (IH1 I1 Hin) as (d & E & R). exists d.
        assert (E0 : node_at p (make_ready_at gluTess set_data_filler set_data_merger p c0)
                     = None).
        { apply node_at_None. rewrite make_ready_at_ids. exact Hc0. }
        rewrite E0. auto.
Qed.

Lemma ready_kept_refl (n : @SubsetPrivate PainterAttributeData) : ready_kept n n.
Proof. intros p d H _. exact H. Qed.

Lemma ready_kept_trans (n1 n2 n3 : @SubsetPrivate PainterAttributeData) :
  ready_kept n1 n2 -> ready_kept n2 n3 -> ready_kept n1 n3.
Proof. intros H1 H2 p d Hat Hr. apply H2; [apply H1 |]; assumption. Qed.

Lemma ready_node_kept (n n' : @SubsetPrivate PainterAttributeData) I d :
  ready_kept n n' -> ready_node n I d -> ready_node n' I d.
Proof. intros K (A & B & C). split; [apply K; assumption | auto]. Qed.

Lemma hierarchy_ok_lookup (fp : @SubsetPrivate PainterAttributeData * list Z) (I : Z) :
  hierarchy_ok fp -> 0 <= I < Z.of_nat (length (snd fp)) ->
  snd fp !! Z.to_nat I = Some I /\ I ∈ subset_ids (fst fp).
Proof.
  intros (_ & Hs & Hn) HI.
  assert (E : snd fp !! Z.to_nat I = Some I).
  { rewrite Hn at 1. rewrite list_lookup_fmap, lookup_seq_lt by lia. cbn. f_equal. lia. }
  split; [exact E |]. rewrite <- Hs. eapply list_elem_of_lookup_2. exact E.
Qed.

(** [subset(I)] and the members that are read of the node. *)
Lemma subset_read_spec (fp : @SubsetPrivate PainterAttributeData * list Z) (I : Z) :
  hierarchy_ok fp -> 0 <= I < Z.of_nat (length (snd fp)) ->
  let r := subset_read gluTess set_data_filler set_data_merger fp I in
  hierarchy_ok (fst r) /\ snd (fst r) = snd fp
  /\ ready_kept (fst fp) (fst (fst r))
  /\ exists d, snd r = Some d /\ ready_node (fst (fst r)) I d.
Proof.
  intros Hok HI. destruct (hierarchy_ok_lookup fp I Hok HI) as [E Hin].
  destruct Hok as (Hinv & Hs & Hn).
  cbv zeta. unfold subset_read, FilledPath_subset. rewrite E. cbn [fst snd].
  destruct (make_ready_at_inv gluTess set_data_filler set_data_merger I _ Hinv)
    as (H1 & _ & _ & H4).
  split; [| split; [reflexivity | split; [apply make_ready_at_kept |]]].
  - split; [exact H1 |]. cbn [fst snd]. split; [now rewrite H4 | exact Hn].
  - destruct (make_ready_at_ready I _ Hinv Hin) as (d & R). exists d.
    split; [apply R | exact R].
Qed.

End WriterSteps.

Lemma t_min_min a b : t_min a b = Z.min a b.
Proof. unfold t_min. destruct (Z.ltb_spec a b); lia. Qed.

Section WriterLoops.

Context {PainterAttributeData : Type}.
Variable gluTess : list glu_contour -> (Z -> bool) -> PointHoard.t -> list glu_event.
Variable set_data_filler : AttributeDataFiller.t -> PainterAttributeData.
Variable set_data_merger :
  PainterAttributeData -> PainterAttributeData -> PainterAttributeData.
Variable attribute_data_chunk : PainterAttributeData -> Z -> list PainterAttribute.
Variable index_data_chunk : PainterAttributeData -> Z -> list Z.

(** The first loop of [compute_writer]. *)
Lemma winding_range_loop (Is : list Z) :
  forall (fp : @SubsetPrivate PainterAttributeData * list Z) (mn mx : Z),
  hierarchy_ok fp -> Forall (fun I => 0 <= I < Z.of_nat (length (snd fp))) Is ->
  let r := fold_left (winding_range gluTess set_data_filler set_data_merger) Is
             (fp, (mn, mx)) in
  hierarchy_ok (fst r) /\ snd (fst r) = snd fp
  /\ ready_kept (fst fp) (fst (fst r))
  /\ fst (snd r) <= mn /\ mx <= snd (snd r)
  /\ Forall (fun I => exists d, ready_node (fst (fst r)) I d
                       /\ fst (snd r) <= front (m_winding_numbers d)
                       /\ back (m_winding_numbers d) <= snd (snd r)) Is
  /\ (forall B, mx <= B ->
       Forall (fun I => forall d, ready_node (fst (fst r)) I d ->
                          back (m_winding_numbers d) <= B) Is ->
       snd (snd r) <= B).
Proof.
  induction Is as [| I rest IH]; intros fp mn mx Hok HIs; cbn [fold_left].
  - cbv zeta. cbn [fst snd]. split; [exact Hok |]. split; [reflexivity |].
    split; [apply ready_kept_refl |]. split; [lia |]. split; [lia |].
    split; [constructor | auto].
  - apply Forall_cons in HIs as [HI Hrest].
    destruct (subset_read_spec gluTess set_data_filler set_data_merger fp I Hok HI)
      as (Hok1 & Hs1 & K1 & d & Ed & R1).
    cbv zeta in *.
    assert (Estep : winding_range gluTess set_data_filler set_data_merger (fp, (mn, mx)) I
                    = (fst (subset_read gluTess set_data_filler set_data_merger fp I),
                       (t_min mn (front (winding_numbers
                          (snd (subset_read gluTess set_data_filler set_data_merger fp I)))),
                        t_max mx (back (winding_numbers
                          (snd (subset_read gluTess set_data_filler set_data_merger fp I))))))).
    { unfold winding_range.
      destruct (subset_read gluTess set_data_filler set_data_merger fp I). reflexivity. }
    rewrite Estep. clear Estep.
    destruct (subset_read gluTess set_data_filler set_data_merger fp I) as [fp1 sub].
    cbn [fst snd] in *. subst sub. cbn [winding_numbers].
    set (mn1 := t_min mn (front (m_winding_numbers d))).
    set (mx1 := t_max mx (back (m_winding_numbers d))).
    assert (Hmn1 : mn1 <= mn /\ mn1 <= front (m_winding_numbers d))
      by (unfold mn1; rewrite t_min_min; lia).
    assert (Hmx1 : mx <= mx1 /\ back (m_winding_numbers d) <= mx1)
      by (unfold mx1; rewrite t_max_max; lia).
    assert (Hmx1' : mx1 = Z.max mx (back (m_winding_numbers d)))
      by (unfold mx1; apply t_max_max).
    clearbody mn1 mx1.
    destruct (IH fp1 mn1 mx1 Hok1) as (A & B & C & D & E & F & G).
    { rewrite Hs1. exact Hrest. }
    cbv zeta in *.
    assert (Rd : ready_node
                   (fst (fst (fold_left
                                (winding_range gluTess set_data_filler set_data_merger)
                                rest (fp1, (mn1, mx1))))) I d)
      by (eapply ready_node_kept; eassumption).
    split; [exact A |]. split; [congruence |].
    split; [eapply ready_kept_trans; eassumption |]. split; [lia |]. split; [lia |].
    split.
    + constructor; [| exact F]. exists d. split; [exact Rd | lia].
    + intros Bd Hmx HB. apply Forall_cons in HB as [HB1 HB2].
      apply G; [| exact HB2]. specialize (HB1 d Rd).
      destruct (Z.le_gt_cases mx1 Bd) as [Hle | Hgt]; [exact Hle |].
      exfalso. revert Hgt. clear - HB1 Hmx Hmx1'. lia.
Qed.

(** The loop over the winding numbers of one subset, once the subset has
    its attribute chunk. *)
Lemma chunk_winding_taken (rule : WindingSet.t) (sd : @SubsetData PainterAttributeData)
    (ws : list Z) :
  forall ac ic k, k <> ATTRIB_CHUNK_NOT_TAKEN ->
  fold_left (chunk_winding attribute_data_chunk index_data_chunk rule sd) ws (ac, ic, k)
  = (ac,
     ic ++ map (fun w => DataWriterChunks.mk_per_index_chunk
                           (index_chunk_of index_data_chunk sd (chunk_from_winding_number w))
                           k)
               (List.filter (WindingSet.has rule) ws),
     k).
Proof.
  induction ws as [| w rest IH]; intros ac ic k Hk; cbn [fold_left List.filter map].
  - now rewrite app_nil_r.
  - unfold chunk_winding at 2. destruct (WindingSet.has rule w).
    + destruct (Z.eqb_spec k ATTRIB_CHUNK_NOT_TAKEN) as [E | _]; [contradiction |].
      rewrite IH by exact Hk. cbn [map]. now rewrite <- app_assoc.
    + apply IH, Hk.
Qed.

Lemma chunk_winding_loop (rule : WindingSet.t) (sd : @SubsetData PainterAttributeData)
    (ws : list Z) :
  forall ac ic, Z.of_nat (length ac) <> ATTRIB_CHUNK_NOT_TAKEN ->
  fold_left (chunk_winding attribute_data_chunk index_data_chunk rule sd) ws
            (ac, ic, ATTRIB_CHUNK_NOT_TAKEN)
  = match List.filter (WindingSet.has rule) ws with
    | [] => (ac, ic, ATTRIB_CHUNK_NOT_TAKEN)
    | fw =>
        (ac ++ [per_attrib_chunk_of attribute_data_chunk sd],
         ic ++ map (fun w => DataWriterChunks.mk_per_index_chunk
                               (index_chunk_of index_data_chunk sd
                                  (chunk_from_winding_number w))
                               (Z.of_nat (length ac)))
                   fw,
         Z.of_nat (length ac))
    end.
Proof.
  induction ws as [| w rest IH]; intros ac ic Hlen; cbn [fold_left List.filter].
  - reflexivity.
  - unfold chunk_winding at 2. destruct (WindingSet.has rule w).
    + rewrite Z.eqb_refl. rewrite chunk_winding_taken by exact Hlen.
      cbn [map]. now rewrite <- app_assoc.
    + apply IH, Hlen.
Qed.

Lemma existsb_filter_nil {A : Type} (f : A -> bool) (l : list A) :
  existsb f l = match List.filter f l with [] => false | _ => true end.
Proof.
  induction l as [| x l IH]; cbn; [reflexivity |]. destruct (f x); cbn; auto.
Qed.

(** The body of the second loop, on a subset that is ready. *)
Lemma chunk_subset_spec (rule : WindingSet.t)
    (fp : @SubsetPrivate PainterAttributeData * list Z) (I : Z) d ac ic :
  hierarchy_ok fp -> 0 <= I < Z.of_nat (length (snd fp)) ->
  ready_node (fst fp) I d ->
  Z.of_nat (length ac) <> ATTRIB_CHUNK_NOT_TAKEN ->
  let r := chunk_subset gluTess set_data_filler set_data_merger
             attribute_data_chunk index_data_chunk rule (fp, (ac, ic)) I in
  let fw := List.filter (WindingSet.has rule) (m_winding_numbers d) in
  hierarchy_ok (fst r) /\ snd (fst r) = snd fp
  /\ ready_kept (fst fp) (fst (fst r))
  /\ fst (snd r)
     = ac ++ (if existsb (WindingSet.has rule) (m_winding_numbers d)
              then [per_attrib_chunk_of attribute_data_chunk d] else [])
  /\ snd (snd r)
     = ic ++ map (fun w => DataWriterChunks.mk_per_index_chunk
                             (index_chunk_of index_data_chunk d
                                (chunk_from_winding_number w))
                             (Z.of_nat (length ac)))
                 fw.
Proof.
  intros Hok HI Hready Hlen.
  destruct (subset_read_spec gluTess set_data_filler set_data_merger fp I Hok HI)
    as (Hok1 & Hs1 & K1 & d' & Ed & R1).
  cbv zeta in *. unfold chunk_subset.
  destruct (subset_read gluTess set_data_filler set_data_merger fp I) as [fp1 sub].
  cbn [fst snd] in *. subst sub.
  assert (d' = d).
  { destruct (ready_node_kept _ _ I d K1 Hready) as (A & _). destruct R1 as (B & _).
    congruence. }
  subst d'.
  rewrite chunk_winding_loop by exact Hlen. rewrite existsb_filter_nil.
  destruct (List.filter (WindingSet.has rule) (m_winding_numbers d)) as [| w fw];
    cbn [fst snd map]; rewrite ?app_nil_r; auto 10.
Qed.

Lemma chunk_matches_app (acs more : list DataWriterPrivate.per_attrib_chunk) c e :
  chunk_matches acs c e -> chunk_matches (acs ++ more) c e.
Proof.
  intros (A & B & C). split; [exact A |]. split; [exact B |].
  now apply lookup_app_l_Some.
Qed.

(** The second loop of [compute_writer]. *)
Lemma chunk_subset_loop (rule : WindingSet.t) (Is : list Z) :
  forall (ds : list (@SubsetData PainterAttributeData))
         (fp : @SubsetPrivate PainterAttributeData * list Z) ac ic,
  hierarchy_ok fp -> Forall (fun I => 0 <= I < Z.of_nat (length (snd fp))) Is ->
  Forall2 (ready_node (fst fp)) Is ds ->
  Z.of_nat (length ac) + Z.of_nat (length Is) < ATTRIB_CHUNK_NOT_TAKEN ->
  let r := fold_left (chunk_subset gluTess set_data_filler set_data_merger
                        attribute_data_chunk index_data_chunk rule) Is (fp, (ac, ic)) in
  hierarchy_ok (fst r) /\ snd (fst r) = snd fp
  /\ ready_kept (fst fp) (fst (fst r))
  /\ exists new_ic,
       fst (snd r) = ac ++ map (per_attrib_chunk_of attribute_data_chunk)
                               (filled_subsets (WindingSet.has rule) ds)
       /\ snd (snd r) = ic ++ new_ic
       /\ Forall2 (chunk_matches (fst (snd r))) new_ic
            (filled_chunks attribute_data_chunk index_data_chunk (WindingSet.has rule) ds).
Proof.
  induction Is as [| I rest IH]; intros ds fp ac ic Hok HIs Hds Hlen; cbn [fold_left].
  - apply Forall2_nil_inv_l in Hds as ->. cbv zeta. cbn [fst snd].
    split; [exact Hok |]. split; [reflexivity |]. split; [apply ready_kept_refl |].
    exists []. unfold filled_subsets, filled_chunks. cbn. rewrite !app_nil_r.
    split; [reflexivity |]. split; [reflexivity | constructor].
  - apply Forall2_cons_inv_l in Hds as (d & ds' & Hd & Hds' & ->).
    apply Forall_cons in HIs as [HI Hrest]. cbn [length] in Hlen.
    assert (Hac : Z.of_nat (length ac) <> ATTRIB_CHUNK_NOT_TAKEN) by lia.
    destruct (chunk_subset_spec rule fp I d ac ic Hok HI Hd Hac)
      as (Hok1 & Hs1 & K1 & Eac & Eic).
    cbv zeta in *.
    destruct (chunk_subset gluTess set_data_filler set_data_merger attribute_data_chunk
                index_data_chunk rule (fp, (ac, ic)) I) as [fp1 [ac1 ic1]].
    cbn [fst snd] in *.
    assert (Hds1 : Forall2 (ready_node (fst fp1)) rest ds').
    { eapply Forall2_impl; [exact Hds' |]. intros x y. apply ready_node_kept, K1. }
    assert (Hlen1 : Z.of_nat (length ac1) + Z.of_nat (length rest) < ATTRIB_CHUNK_NOT_TAKEN).
    { rewrite Eac, length_app.
      destruct (existsb _ _); cbn [length]; lia. }
    destruct (IH ds' fp1 ac1 ic1 Hok1) as (A & B & C & new_ic & Fac & Fic & FF); auto.
    { rewrite Hs1. exact Hrest. }
    cbv zeta in *.
    split; [exact A |]. split; [congruence |].
    split; [eapply ready_kept_trans; eassumption |].
    set (fw := List.filter (WindingSet.has rule) (m_winding_numbers d)) in *.
    exists (map (fun w => DataWriterChunks.mk_per_index_chunk
                            (index_chunk_of index_data_chunk d (chunk_from_winding_number w))
                            (Z.of_nat (length ac))) fw ++ new_ic).
    split; [| split].
    + rewrite Fac, Eac. unfold filled_subsets. cbn [List.filter].
      destruct (existsb _ _); cbn [map app]; rewrite <- ?app_assoc; reflexivity.
    + rewrite Fic, Eic. now rewrite <- app_assoc.
    + unfold filled_chunks. cbn [flat_map]. apply Forall2_app; [| exact FF].
      fold fw. rewrite Fac.
      assert (Hne : forall w, w ∈ fw ->
                existsb (WindingSet.has rule) (m_winding_numbers d) = true).
      { intros w Hw. rewrite existsb_filter_nil. fold fw.
        destruct fw; [| reflexivity]. apply elem_of_nil in Hw. contradiction. }
      clearbody fw. clear - Eac Hne.
      induction fw as [| w fw IHfw]; cbn [map]; constructor.
      * split; [reflexivity |]. cbn [DataWriterChunks.m_attrib_chunk snd].
        split; [lia |]. rewrite Nat2Z.id. apply lookup_app_l_Some.
        rewrite Eac, (Hne w) by (apply elem_of_cons; auto).
        rewrite lookup_app_r by lia. now rewrite Nat.sub_diag.
      * apply IHfw. intros w' Hw'. apply (Hne w'). apply elem_of_cons. auto.
Qed.

End WriterLoops.

Lemma sorted_lookup_le (l : list Z) :
  StronglySorted Z.lt l ->
  forall i j a b, l !! i = Some a -> l !! j = Some b -> (i <= j)%nat -> a <= b.
Proof.
  induction 1 as [| x l Hs IH Hx]; intros i j a b Hi Hj Hij.
  - discriminate Hi.
  - destruct i as [| i], j as [| j]; cbn in Hi, Hj.
    + injection Hi as <-. injection Hj as <-. lia.
    + injection Hi as <-. rewrite Forall_forall in Hx.
      pose proof (Hx b (list_elem_of_lookup_2 _ _ _ Hj)). lia.
    + lia.
    + eapply IH; eauto. lia.
Qed.

(** The first and the last element of an array that is sorted bound its
    elements. *)
Lemma sorted_front_back (l : list Z) (w : Z) :
  StronglySorted Z.lt l -> w ∈ l ->
  front l <= w <= back l /\ back l ∈ l.
Proof.
  intros Hs Hw. apply list_elem_of_lookup in Hw as [k Hk].
  pose proof (lookup_lt_Some _ _ _ Hk) as Hlen.
  destruct (lookup_lt_is_Some_2 l 0) as [a Ha]; [lia |].
  destruct (lookup_lt_is_Some_2 l (length l - 1)) as [b Hb]; [lia |].
  assert (Ef : front l = a) by (apply (at_lookup l 0 a Ha)).
  assert (Eb : back l = b).
  { unfold back. replace (Z.of_nat (length l) - 1) with (Z.of_nat (length l - 1)) by lia.
    apply at_lookup, Hb. }
  rewrite Ef, Eb. split.
  - split; [eapply (sorted_lookup_le l Hs 0 k); eauto; lia
           | eapply (sorted_lookup_le l Hs k (length l - 1)); eauto; lia].
  - eapply list_elem_of_lookup_2. exact Hb.
Qed.

(** Reading the first entries of an array in turn. *)
Lemma map_at_zrange (l rest : list Z) :
  map (at_ (l ++ rest)) (zrange 0 (Z.of_nat (length l))) = l.
Proof.
  unfold zrange. rewrite Z.sub_0_r, Nat2Z.id, map_map.
  apply list_eq. intros i. rewrite list_lookup_fmap.
  destruct (decide (i < length l)%nat) as [Hi | Hi].
  - rewrite lookup_seq_lt by exact Hi. cbn [fmap option_fmap option_map].
    destruct (lookup_lt_is_Some_2 l i Hi) as [x Hx]. rewrite Hx. f_equal.
    cbn [Z.add Nat.add]. apply at_lookup. now apply lookup_app_l_Some.
  - rewrite lookup_seq_ge by lia. cbn. symmetry. apply lookup_ge_None. lia.
Qed.

Lemma zrange_cons (n : Z) : 0 < n -> zrange 0 n = 0 :: zrange 1 n.
Proof.
  intros Hn. unfold zrange.
  replace (Z.to_nat (n - 0)) with (S (Z.to_nat (n - 1))) by lia.
  cbn [seq map]. f_equal. rewrite <- seq_shift, map_map.
  apply map_ext. intros k. lia.
Qed.

Lemma Forall_exists_Forall2' {A B : Type} (P : A -> B -> Prop) (l : list A) :
  Forall (fun x => exists y, P x y) l -> exists k, Forall2 P l k.
Proof.
  induction 1 as [| x l [y Hy] _ [k Hk]]; [exists []; constructor |].
  exists (y :: k). now constructor.
Qed.

Lemma length_subset_ids {PainterAttributeData : Type}
    (n : @SubsetPrivate PainterAttributeData) :
  length (subset_ids n) = nodes n.
Proof.
  unfold subset_ids. rewrite length_map.
  induction n as [d | d c0 IH0 c1 IH1]; cbn [subset_data nodes length];
    [reflexivity |]. rewrite length_app. lia.
Qed.

Section WriterRun.

Context {PainterAttributeData : Type}.
Variable gluTess : list glu_contour -> (Z -> bool) -> PointHoard.t -> list glu_event.
Variable set_data_filler : AttributeDataFiller.t -> PainterAttributeData.
Variable set_data_merger :
  PainterAttributeData -> PainterAttributeData -> PainterAttributeData.
Context {ClipEquations : Type}.
Variable clip_against_planes : ClipEquations -> BoundingBox -> bool * list vec2.
Variable attribute_data_chunk : PainterAttributeData -> Z -> list PainterAttribute.
Variable index_data_chunk : PainterAttributeData -> Z -> list Z.

(** [compute_writer], step by step. *)
Lemma compute_writer_unfold (fp : @SubsetPrivate PainterAttributeData * list Z)
    (fill_rule : Z -> bool) (eqs : ClipEquations) (ma mi : Z) (dst : DataWriterChunks.t) :
  let dst_d := DataWriterChunks.m_fields dst in
  let sel := select_subsets_implement gluTess set_data_filler clip_against_planes eqs
               (fst fp) ma mi
               (mk_selection
                  (resize (length (snd fp)) 0 (DataWriterChunks.m_subset_selector dst))
                  0 []) in
  let fp1 := (fst sel, snd fp) in
  let selector := sel_dst (snd sel) in
  let num := sel_current (snd sel) in
  let r1 := subset_read gluTess set_data_filler set_data_merger fp1 (at_ selector 0) in
  let r2 := fold_left (winding_range gluTess set_data_filler set_data_merger)
              (map (at_ selector) (zrange 1 num))
              (fst r1, (front (winding_numbers (snd r1)),
                        back (winding_numbers (snd r1)))) in
  let winding_rule :=
    WindingSet.extract_from_fill_fule (DataWriterPrivate.m_winding_rule dst_d)
      (fst (snd r2)) (snd (snd r2)) fill_rule false in
  let complement :=
    WindingSet.extract_from_fill_fule
      (WindingSet.clear (DataWriterPrivate.m_complement_winding_rule dst_d))
      (fst (snd r2)) (snd (snd r2)) fill_rule true in
  let r3 := fold_left (chunk_subset gluTess set_data_filler set_data_merger
                         attribute_data_chunk index_data_chunk winding_rule)
              (map (at_ selector) (zrange 0 num)) (fst r2, ([], [])) in
  compute_writer gluTess set_data_filler set_data_merger clip_against_planes
    attribute_data_chunk index_data_chunk fp fill_rule eqs ma mi dst
  = if num =? 0
    then (fp1, DataWriterChunks.mk selector []
                 (DataWriterPrivate.mk []
                    (WindingSet.clear (DataWriterPrivate.m_complement_winding_rule dst_d))
                    (DataWriterPrivate.m_winding_rule dst_d)))
    else (fst r3, DataWriterChunks.mk selector (snd (snd r3))
                    (DataWriterPrivate.mk (fst (snd r3)) complement winding_rule)).
Proof.
  cbv zeta. unfold compute_writer, FilledPath_select_subsets. cbv zeta.
  destruct (_ =? 0); [reflexivity |].
  destruct (subset_read _ _ _ _ _) as [fpa sub]. cbn [fst snd].
  destruct (fold_left (winding_range _ _ _) _ _) as [fpb [mn mx]]. cbn [fst snd].
  destruct (fold_left (chunk_subset _ _ _ _ _ _) _ _) as [fpc [ac ic]]. reflexivity.
Qed.

End WriterRun.

Section WriterContentsFacts.
Context {PainterAttributeData : Type}.
Variable attribute_data_chunk : PainterAttributeData -> Z -> list PainterAttribute.
Variable index_data_chunk : PainterAttributeData -> Z -> list Z.

Lemma filled_ext (f g : Z -> bool) (ds : list (@SubsetData PainterAttributeData)) :
  (forall d x, d ∈ ds -> x ∈ m_winding_numbers d -> f x = g x) ->
  filled_chunks attribute_data_chunk index_data_chunk f ds
  = filled_chunks attribute_data_chunk index_data_chunk g ds
  /\ filled_subsets f ds = filled_subsets g ds.
Proof.
  unfold filled_chunks, filled_subsets.
  induction ds as [| d ds IH]; intros Hfg; [split; reflexivity |].
  destruct IH as [IH1 IH2].
  { intros d' x Hd Hx. apply (Hfg d' x); [apply elem_of_cons; auto | exact Hx]. }
  assert (E : List.filter f (m_winding_numbers d) = List.filter g (m_winding_numbers d)).
  { apply filter_ext_in. intros x Hx. apply (Hfg d x); [apply elem_of_cons; auto |].
    now apply list_elem_of_In. }
  cbn [flat_map List.filter]. rewrite !existsb_filter_nil, E, IH1, IH2. split; reflexivity.
Qed.

Lemma chunk_matches_selection (w : DataWriterChunks.t) es :
  Forall2 (chunk_matches (DataWriterPrivate.m_attribute_chunks (DataWriterChunks.m_fields w)))
          (DataWriterChunks.m_index_chunks w) es ->
  forall k, 0 <= k < DataWriterChunks.number_index_chunks w ->
  0 <= DataWriterChunks.attribute_chunk_selection w k
    < DataWriterChunks.number_attribute_chunks w.
Proof.
  unfold DataWriterChunks.number_index_chunks, DataWriterChunks.attribute_chunk_selection,
    DataWriterChunks.number_attribute_chunks.
  intros HF k Hk.
  destruct (lookup_lt_is_Some_2 (DataWriterChunks.m_index_chunks w) (Z.to_nat k))
    as [c Hc]; [lia |].
  destruct (Forall2_lookup_l _ _ _ _ _ HF Hc) as (e & _ & (_ & H0 & Hl)).
  replace k with (Z.of_nat (Z.to_nat k)) by lia.
  rewrite (at_lookup _ _ _ Hc).
  apply lookup_lt_Some in Hl. lia.
Qed.

End WriterContentsFacts.

Section WriterTheorem.

Context {PainterAttributeData : Type}.
Variable gluTess : list glu_contour -> (Z -> bool) -> PointHoard.t -> list glu_event.
Variable set_data_filler : AttributeDataFiller.t -> PainterAttributeData.
Variable set_data_merger :
  PainterAttributeData -> PainterAttributeData -> PainterAttributeData.
Context {ClipEquations : Type}.
Variable clip_against_planes : ClipEquations -> BoundingBox -> bool * list vec2.
Variable attribute_data_chunk : PainterAttributeData -> Z -> list PainterAttribute.
Variable index_data_chunk : PainterAttributeData -> Z -> list Z.

(** The selection at the start of [compute_writer]. *)
Lemma writer_selection (fp : @SubsetPrivate PainterAttributeData * list Z)
    (eqs : ClipEquations) (ma mi : Z) (old : list Z) :
  hierarchy_ok fp ->
  let sel := select_subsets_implement gluTess set_data_filler clip_against_planes eqs
               (fst fp) ma mi (mk_selection (resize (length (snd fp)) 0 old) 0 []) in
  exists Is rest,
    hierarchy_ok (fst sel, snd fp)
    /\ sel_dst (snd sel) = Is ++ rest
    /\ sel_current (snd sel) = Z.of_nat (length Is)
    /\ length (Is ++ rest) = length (snd fp)
    /\ Forall (fun I => 0 <= I < Z.of_nat (length (snd fp))) Is.
Proof.
  intros (Hinv & Hs & Hn). cbv zeta.
  assert (Hlen : length (snd fp) = nodes (fst fp))
    by (rewrite Hs at 1; apply length_subset_ids).
  destruct (select_implement_inv gluTess set_data_filler clip_against_planes eqs
              (fst fp) Hinv ma mi
              (mk_selection (resize (length (snd fp)) 0 old) 0 [])) as (Hinv1 & _).
  destruct (select_implement_out gluTess set_data_filler clip_against_planes eqs
              (fst fp) ma mi
              (mk_selection (resize (length (snd fp)) 0 old) 0 []))
    as (ds & P & F & C & D & Iids & N).
  { cbn. lia. }
  { unfold len. cbn [sel_current sel_dst]. rewrite stdpp.list_misc.list.length_resize. lia. }
  cbv zeta in *. cbn [sel_current sel_dst] in C, D.
  unfold written in D. change (Z.to_nat 0) with 0%nat in D.
  rewrite take_0 in D. cbn [app Nat.add] in D. rewrite length_map in D.
  pose proof (picks_length _ _ P) as L.
  exists (map m_ID ds), (drop (length ds) (resize (length (snd fp)) 0 old)).
  split; [| split; [exact D | split; [| split]]].
  - split; [exact Hinv1 |]. cbn [fst snd]. split; [congruence | exact Hn].
  - rewrite C, length_map. unfold len. lia.
  - rewrite length_app, length_map, length_drop, stdpp.list_misc.list.length_resize. lia.
  - apply Forall_forall. intros I HI.
    apply list_elem_of_fmap in HI as (d & -> & Hd).
    assert (Hin : m_ID d ∈ snd fp).
    { rewrite Hs, <- Iids. unfold subset_ids. apply list_elem_of_fmap. exists d.
      split; [reflexivity |]. eapply elem_of_sublist; [exact Hd |].
      apply picks_sublist, P. }
    rewrite Hn in Hin. apply list_elem_of_fmap in Hin as (k & -> & Hk).
    apply elem_of_seq in Hk. lia.
Qed.

(** X20: what [FilledPath::compute_writer] leaves in the writer. In a
    [FilledPath] whose hierarchy keeps the assertions of the code and is
    numbered as the constructor numbers it, with fewer subsets than the
    value [~0u] that stands for "no attribute chunk yet":

    the hierarchy keeps these properties; the subsets picked are nodes
    of the hierarchy that are ready after the call, and their IDs are
    the first entries of [m_subset_selector], which has one entry for
    every subset;

    when no subset is picked the writer has no attribute chunk and no
    index chunk, its complement winding rule is empty, and
    [m_winding_rule] is left as it was;

    when every picked subset has winding numbers, each below [INT_MAX],
    the writer has one attribute chunk for each picked subset of which
    the fill rule fills a winding number, in the order of the subsets,
    and one index chunk for each winding number that the rule fills of
    each picked subset, in the order of the subsets and of their winding
    numbers: it holds the indices of the chunk of that winding number,
    and the attribute chunk it selects exists and is the one of its own
    subset. On the winding numbers of the picked subsets
    [m_winding_rule.has] is the fill rule and
    [m_complement_winding_rule.has] its negation. *)
Theorem compute_writer_chunks (fp : @SubsetPrivate PainterAttributeData * list Z)
    (fill_rule : Z -> bool) (eqs : ClipEquations)
    (max_attribute_cnt max_index_cnt : Z) (dst : DataWriterChunks.t)
    (Hok : hierarchy_ok fp)
    (Hsize : Z.of_nat (length (snd fp)) < uint_max) :
  let r := compute_writer gluTess set_data_filler set_data_merger clip_against_planes
             attribute_data_chunk index_data_chunk fp fill_rule eqs
             max_attribute_cnt max_index_cnt dst in
  let w := snd r in
  let attribute_chunks :=
    DataWriterPrivate.m_attribute_chunks (DataWriterChunks.m_fields w) in
  let winding_rule := DataWriterPrivate.m_winding_rule (DataWriterChunks.m_fields w) in
  let complement :=
    DataWriterPrivate.m_complement_winding_rule (DataWriterChunks.m_fields w) in
  hierarchy_ok (fst r) /\ snd (fst r) = snd fp
  /\ exists picked,
       Forall (fun d => d ∈ subset_data (fst (fst r)) /\ is_Some (m_painter_data d)) picked
       /\ take (length picked) (DataWriterChunks.m_subset_selector w) = map m_ID picked
       /\ length (DataWriterChunks.m_subset_selector w) = length (snd fp)
       /\ (picked = [] ->
           DataWriterChunks.m_index_chunks w = [] /\ attribute_chunks = []
           /\ complement = WindingSet.empty
           /\ winding_rule
              = DataWriterPrivate.m_winding_rule (DataWriterChunks.m_fields dst))
       /\ (Forall (fun d => m_winding_numbers d <> []
                            /\ Forall (fun x => is_int (x + 1)) (m_winding_numbers d))
                  picked ->
           attribute_chunks
           = map (per_attrib_chunk_of attribute_data_chunk)
                 (filled_subsets fill_rule picked)
           /\ Forall2 (chunk_matches attribute_chunks) (DataWriterChunks.m_index_chunks w)
                (filled_chunks attribute_data_chunk index_data_chunk fill_rule picked)
           /\ (forall k, 0 <= k < DataWriterChunks.number_index_chunks w ->
                 0 <= DataWriterChunks.attribute_chunk_selection w k
                   < DataWriterChunks.number_attribute_chunks w)
           /\ (forall d x, d ∈ picked -> x ∈ m_winding_numbers d ->
                 WindingSet.has winding_rule x = fill_rule x
                 /\ WindingSet.has complement x = negb (fill_rule x))).
Proof.
  cbv zeta. rewrite compute_writer_unfold. cbv zeta.
  destruct (writer_selection fp eqs max_attribute_cnt max_index_cnt
              (DataWriterChunks.m_subset_selector dst) Hok)
    as (Is & rest & Hok1 & Edst & Ecur & Elen & HIs).
  cbv zeta in *.
  set (sel := select_subsets_implement gluTess set_data_filler clip_against_planes eqs
                (fst fp) max_attribute_cnt max_index_cnt _) in *.
  rewrite Edst, Ecur in *. clearbody sel.
  destruct Is as [| I0 Is'].
  - (* nothing is picked *)
    replace (Z.of_nat (length (@nil Z)) =? 0) with true by reflexivity.
    cbn [fst snd].
    split; [exact Hok1 |]. split; [reflexivity |].
    exists []. cbn [DataWriterChunks.m_subset_selector DataWriterChunks.m_index_chunks
                    DataWriterChunks.m_fields DataWriterPrivate.m_attribute_chunks
                    DataWriterPrivate.m_winding_rule
                    DataWriterPrivate.m_complement_winding_rule length take map].
    split; [constructor |]. split; [reflexivity |]. split; [exact Elen |].
    split; [intros _; auto |].
    intros _. unfold filled_subsets, filled_chunks. cbn.
    split; [reflexivity |]. split; [constructor |]. split.
    + unfold DataWriterChunks.number_index_chunks. cbn. intros k Hk. lia.
    + intros d x Hd. apply elem_of_nil in Hd. contradiction.
  - (* the subsets [I0 :: Is'] are picked *)
    assert (Hnum : 0 < Z.of_nat (length (I0 :: Is'))) by (cbn [length]; lia).
    destruct (Z.eqb_spec (Z.of_nat (length (I0 :: Is'))) 0) as [E0 | _]; [lia |].
    pose proof (map_at_zrange (I0 :: Is') rest) as Hreads.
    rewrite (zrange_cons _ Hnum) in Hreads. cbn [map] in Hreads.
    assert (Hread0 : at_ ((I0 :: Is') ++ rest) 0 = I0) by reflexivity.
    assert (Hreads' : map (at_ ((I0 :: Is') ++ rest))
                          (zrange 1 (Z.of_nat (length (I0 :: Is')))) = Is')
      by congruence.
    rewrite (zrange_cons _ Hnum). cbn [map]. rewrite Hread0, Hreads'.
    clear Hread0 Hreads Hreads'.
    pose proof HIs as HIs0. apply Forall_cons in HIs0 as [HI0 HIs'].
    set (Is := I0 :: Is') in *.
    cbn [snd] in HI0, HIs', HIs.
    (* the first subset *)
    destruct (subset_read_spec gluTess set_data_filler set_data_merger _ I0 Hok1 HI0)
      as (Hok2 & Hs2 & K2 & d0 & Ed0 & R0).
    cbv zeta in *.
    destruct (subset_read gluTess set_data_filler set_data_merger (fst sel, snd fp) I0)
      as [fp2 sub]. cbn [fst snd] in *. subst sub. cbn [winding_numbers].
    (* the first loop *)
    destruct (winding_range_loop gluTess set_data_filler set_data_merger Is' fp2
                (front (m_winding_numbers d0)) (back (m_winding_numbers d0)) Hok2)
      as (Hok3 & Hs3 & K3 & Hmn & Hmx & HF3 & Hbound).
    { rewrite Hs2. exact HIs'. }
    cbv zeta in *.
    destruct (fold_left (winding_range gluTess set_data_filler set_data_merger) Is' _)
      as [fp3 [mn mx]]. cbn [fst snd] in *.
    assert (HF : Forall (fun I => exists d, ready_node (fst fp3) I d
                                   /\ mn <= front (m_winding_numbers d)
                                   /\ back (m_winding_numbers d) <= mx) Is).
    { unfold Is. constructor; [| exact HF3]. exists d0.
      split; [eapply ready_node_kept; eassumption | lia]. }
    apply Forall_exists_Forall2' in HF as [picked HF].
    assert (Hready : Forall2 (ready_node (fst fp3)) Is picked).
    { eapply Forall2_impl; [exact HF |]. intros x y H. apply H. }
    (* the second loop *)
    set (rule := WindingSet.extract_from_fill_fule
                   (DataWriterPrivate.m_winding_rule (DataWriterChunks.m_fields dst))
                   mn mx fill_rule false).
    set (compl := WindingSet.extract_from_fill_fule
                    (WindingSet.clear
                       (DataWriterPrivate.m_complement_winding_rule
                          (DataWriterChunks.m_fields dst)))
                    mn mx fill_rule true).
    assert (Hlen_Is : (length Is <= length (snd fp))%nat).
    { rewrite <- Elen, length_app. lia. }
    destruct (chunk_subset_loop gluTess set_data_filler set_data_merger
                attribute_data_chunk index_data_chunk rule Is picked fp3 [] [] Hok3)
      as (Hok4 & Hs4 & K4 & new_ic & Eac & Eic & HM).
    { rewrite Hs3, Hs2. exact HIs. }
    { exact Hready. }
    { unfold ATTRIB_CHUNK_NOT_TAKEN. cbn [length]. lia. }
    cbv zeta in *.
    destruct (fold_left (chunk_subset gluTess set_data_filler set_data_merger
                           attribute_data_chunk index_data_chunk rule) Is _)
      as [fp4 [ac ic]]. cbn [fst snd app] in *. subst ic.
    cbn [DataWriterChunks.m_subset_selector DataWriterChunks.m_index_chunks
         DataWriterChunks.m_fields DataWriterPrivate.m_attribute_chunks
         DataWriterPrivate.m_winding_rule DataWriterPrivate.m_complement_winding_rule].
    split; [exact Hok4 |]. split; [congruence |].
    exists picked.
    assert (Hpl : length picked = length Is) by (symmetry; eapply Forall2_length; eauto).
    assert (Hids : map m_ID picked = Is).
    { clear - Hready. induction Hready as [| I d Is ds (Hat & _) _ IH]; [reflexivity |].
      cbn [map]. f_equal; [| exact IH].
      apply (node_at_Some I _ d Hat). }
    split; [| split; [| split; [exact Elen | split]]].
    + apply Forall_forall. intros d Hd.
      apply list_elem_of_lookup in Hd as [k Hk].
      destruct (Forall2_lookup_r _ _ _ _ _ Hready Hk) as (I & _ & RI).
      destruct (ready_node_kept _ _ _ _ K4 RI) as (Hat & Hp & _).
      split; [apply (node_at_Some I _ d Hat) | exact Hp].
    + rewrite Hpl, Hids. apply take_app_length.
    + intros ->. apply Forall2_nil_inv_r in Hready. discriminate Hready.
    + intros Hw.
      (* the range of the winding rule holds the winding numbers *)
      assert (Hin : forall d x, d ∈ picked -> x ∈ m_winding_numbers d ->
                mn <= x <= mx /\ back (m_winding_numbers d) ∈ m_winding_numbers d).
      { intros d x Hd Hx. apply list_elem_of_lookup in Hd as [k Hk].
        destruct (Forall2_lookup_r _ _ _ _ _ HF Hk) as (I & _ & (_ & _ & Hb) & Hf & Hbk).
        destruct (sorted_front_back _ x (proj1 Hb) Hx) as [Hfb Hbin].
        split; [lia | exact Hbin]. }
      assert (Hd0 : d0 ∈ picked).
      { destruct picked as [| d picked']; [discriminate Hpl |].
        apply Forall2_cons_1 in Hready as [(Hat & _) _].
        destruct (ready_node_kept _ _ _ _ K3 R0) as (Hat0 & _).
        apply elem_of_cons. left. congruence. }
      assert (Hback : forall d, d ∈ picked ->
                back (m_winding_numbers d) ∈ m_winding_numbers d
                /\ is_int (back (m_winding_numbers d) + 1)).
      { intros d Hd. rewrite Forall_forall in Hw. destruct (Hw d Hd) as [Hne Hint].
        destruct (m_winding_numbers d) as [| x l] eqn:El; [contradiction |].
        destruct (Hin d x Hd) as [_ Hbin]; [rewrite El; apply elem_of_cons; auto |].
        rewrite El in Hbin. split; [exact Hbin |].
        rewrite Forall_forall in Hint. apply Hint, Hbin. }
      assert (Hmx_int : is_int (mx + 1)).
      { destruct (Hback d0 Hd0) as [_ [Hlo Hhi]].
        assert (Hup : mx <= int_max - 1).
        { apply Hbound; [lia |].
          apply Forall_forall. intros I HI d Rd.
          assert (Hdp : d ∈ picked).
          { apply list_elem_of_lookup in HI as [k Hk].
            assert (Hk' : Is !! S k = Some I) by exact Hk.
            destruct (Forall2_lookup_l _ _ _ _ _ Hready Hk') as (d' & Hd' & (Hat' & _)).
            destruct Rd as (Hat & _).
            assert (d' = d) by congruence. subst d'.
            eapply list_elem_of_lookup_2. exact Hd'. }
          destruct (Hback d Hdp) as [_ [_ Hhi']]. lia. }
        split; lia. }
      assert (Hmn_mx : mn <= mx + 1).
      { destruct (Hback d0 Hd0) as [Hbin _].
        destruct (Hin d0 _ Hd0 Hbin) as [Hr _]. lia. }
      assert (Hrule : forall d x, d ∈ picked -> x ∈ m_winding_numbers d ->
                WindingSet.has rule x = fill_rule x
                /\ WindingSet.has compl x = negb (fill_rule x)).
      { intros d x Hd Hx. destruct (Hin d x Hd Hx) as [[Hlo Hhi] _].
        unfold rule, compl. rewrite !has_extract_from_fill_fule by assumption.
        destruct (Z.leb_spec mn x); [| lia]. destruct (Z.leb_spec x mx); [| lia].
        cbn [andb]. destruct (fill_rule x); split; reflexivity. }
      destruct (filled_ext attribute_data_chunk index_data_chunk
                  (WindingSet.has rule) fill_rule picked) as [E1 E2].
      { intros d x Hd Hx. apply (Hrule d x Hd Hx). }
      rewrite <- E1, <- E2.
      split; [exact Eac |]. split; [exact HM |]. split; [| exact Hrule].
      apply (chunk_matches_selection
               (DataWriterChunks.mk (Is ++ rest) new_ic
                  (DataWriterPrivate.mk ac compl rule)) _ HM).
Qed.

End WriterTheorem.

Lemma compute_writer_chunks_witness :
  let fp := FilledPathPrivate_new (PainterAttributeData := baked) square_path in
  hierarchy_ok fp /\ Z.of_nat (length (snd fp)) < uint_max
  /\ hierarchy_ok
       (fst (compute_writer two_pass_triangle baked_from_filler baked_from_merger no_clip
               (fun (_ : baked) (_ : Z) => @nil PainterAttribute)
               (fun (_ : baked) (c : Z) => [c])
               fp fcn_non_zero_fill_rule tt 100 100
               (DataWriterChunks.mk [] []
                  (DataWriterPrivate.mk [] WindingSet.empty WindingSet.empty)))).
Proof.
  cbv zeta.
  assert (H1 : hierarchy_ok (FilledPathPrivate_new (PainterAttributeData := baked)
                               square_path)).
  { split; [apply SubsetPrivate_new_inv |]. split; vm_compute; reflexivity. }
  assert (H2 : Z.of_nat (length (snd (FilledPathPrivate_new (PainterAttributeData := baked)
                                        square_path))) < uint_max)
    by (vm_compute; reflexivity).
  split; [exact H1 |]. split; [exact H2 |].
  exact (proj1 (compute_writer_chunks two_pass_triangle baked_from_filler baked_from_merger
                  no_clip (fun (_ : baked) (_ : Z) => @nil PainterAttribute)
                  (fun (_ : baked) (c : Z) => [c])
                  _ fcn_non_zero_fill_rule tt 100 100
                  (DataWriterChunks.mk [] []
                     (DataWriterPrivate.mk [] WindingSet.empty WindingSet.empty))
                  H1 H2)).
Defined.
(** ** Where the triangles go *)

Section Routing.
Context {D : Type} `{tesser_methods D}.
Variable R : D -> D -> Prop.
Variable ok : Z -> Prop.
Hypothesis R_refl : forall d, R d d.
Hypothesis R_trans : forall d1 d2 d3, R d1 d2 -> R d2 d3 -> R d1 d3.
Hypothesis begin_R : forall w d, ok w -> R d (on_begin_polygon w d).
Hypothesis add_R : forall v d h, R d (fst (add_vertex_to_polygon v (d, h))).

Lemma adds_R (l : list Z) : forall s : D * PointHoard.t,
  R (fst s) (fst (fold_left (fun s v => add_vertex_to_polygon v s) l s)).
Proof.
  induction l as [| v l IH]; intros s; cbn [fold_left]; [apply R_refl |].
  eapply R_trans; [| apply IH]. destruct s as [d h]. apply add_R.
Qed.

Lemma subdivide_R (p : tesser.t D) :
  R (tesser.derived p) (tesser.derived (tesser.subdivide p)).
Proof.
  destruct (tesser.m_temp_verts p) as [[t0 t1] t2] eqn:Etv.
  set (p0 := PointHoard.pt_of (tesser.m_points p) t0).
  set (p1 := PointHoard.pt_of (tesser.m_points p) t1).
  set (p2 := PointHoard.pt_of (tesser.m_points p) t2).
  destruct (PointHoard.fetch (vec2_scale F32.half (vec2_add p0 p1)) (tesser.m_points p))
    as [i01 h1] eqn:F1.
  destruct (PointHoard.fetch (vec2_scale F32.half (vec2_add p0 p2)) h1) as [i02 h2] eqn:F2.
  destruct (PointHoard.fetch (vec2_scale F32.half (vec2_add p1 p2)) h2) as [i12 h3] eqn:F3.
  destruct (PointHoard.fetch (vec2_div (vec2_add (vec2_add p0 p1) p2) F32.three) h3)
    as [ic h4] eqn:F4.
  rewrite (subdivide_emits p t0 t1 t2 i01 i02 i12 ic h1 h2 h3 h4 Etv F1 F2 F3 F4).
  cbn [tesser.derived].
  apply (adds_R _ (tesser.derived p, h4)).
Qed.

Lemma run_event_R (p : tesser.t D) (e : glu_event) :
  match e with glu_begin w => ok w | _ => True end ->
  R (tesser.derived p) (tesser.derived (tesser.run_event p e)).
Proof.
  destruct e as [w | v | data weight]; intros He; cbn [tesser.run_event].
  - unfold tesser.begin_callBack. cbn [tesser.derived]. now apply begin_R.
  - unfold tesser.vertex_callBack. destruct (_ =? 3); [| apply R_refl].
    match goal with |- context [tesser.triangle_accepted ?q] =>
      destruct (tesser.triangle_accepted q); [apply (subdivide_R q) | apply R_refl] end.
  - unfold tesser.combine_callback, tesser.add_point_to_store.
    match goal with |- context [PointHoard.fetch ?q ?h] => destruct (PointHoard.fetch q h) end.
    apply R_refl.
Qed.

Lemma run_events_R (es : list glu_event) : forall p : tesser.t D,
  Forall (fun e => match e with glu_begin w => ok w | _ => True end) es ->
  R (tesser.derived p) (tesser.derived (fold_left tesser.run_event es p)).
Proof.
  induction es as [| e es IH]; intros p Hes; cbn [fold_left]; [apply R_refl |].
  apply Forall_cons in Hes as [He Hes].
  eapply R_trans; [apply run_event_R, He | apply IH, Hes].
Qed.

End Routing.

Section RoutingSetup.
Context {D : Type} `{tesser_methods D}.

Lemma add_contour_derived C (p : tesser.t D) :
  tesser.derived (tesser.add_contour C p) = tesser.derived p.
Proof. unfold tesser.add_contour. now destruct (fold_left _ _ _). Qed.

Lemma add_path_derived P : forall p : tesser.t D,
  tesser.derived (tesser.add_path P p) = tesser.derived p.
Proof.
  unfold tesser.add_path. induction P as [| C P IH]; intros p; cbn [fold_left];
    [reflexivity |]. now rewrite IH, add_contour_derived.
Qed.

End RoutingSetup.

Lemma zero_routes_refl d : zero_routes d d.
Proof. split; [reflexivity |]. split; auto. Qed.

Lemma zero_routes_trans d1 d2 d3 :
  zero_routes d1 d2 -> zero_routes d2 d3 -> zero_routes d1 d3.
Proof.
  intros (A1 & B1 & C1) (A2 & B2 & C2). rewrite A1 in *.
  split; [congruence |]. split.
  - intros k Hk. rewrite B2, B1; auto.
  - auto.
Qed.

Lemma zero_routes_begin w d : True -> zero_routes d (on_begin_polygon w d).
Proof. intros _. apply zero_routes_refl. Qed.

Lemma zero_routes_add v d h : zero_routes d (fst (add_vertex_to_polygon v (d, h))).
Proof.
  cbn. unfold zero_tesser.add_vertex_to_polygon.
  destruct (zero_tesser.m_hoard d !! zero_tesser.m_indices d) as [b |] eqn:Eb;
    cbn [fst]; [| apply zero_routes_refl].
  split; [reflexivity |]. cbn [zero_tesser.m_hoard zero_tesser.m_indices]. split.
  - intros k Hk. now rewrite lookup_insert_ne.
  - intros _. rewrite lookup_insert_eq. eauto.
Qed.

Lemma wrap_int_shift (w ws : Z) : is_int w -> w <> 0 -> wrap_int (w + ws) <> ws.
Proof.
  unfold is_int, int_min, int_max, wrap_int. intros Hw Hne E.
  pose proof (Z.div_mod (w + ws + 2 ^ 31) (2 ^ 32) ltac:(lia)) as Hd.
  set (q := (w + ws + 2 ^ 31) / 2 ^ 32) in *.
  assert (Hq : w = 2 ^ 32 * q) by lia.
  assert (q = 0) by lia. lia.
Qed.

Lemma nz_routes_refl d : nz_routes d d.
Proof. split; auto. Qed.

Lemma nz_routes_trans d1 d2 d3 : nz_routes d1 d2 -> nz_routes d2 d3 -> nz_routes d1 d3.
Proof.
  intros (A1 & B1) (A2 & B2). split; [congruence |].
  intros H1. destruct (B1 H1) as [H2 E1]. destruct (B2 H2) as [H3 E2].
  split; [exact H3 |]. rewrite A1 in E2. congruence.
Qed.

Lemma nz_routes_begin w d :
  is_int w /\ w <> 0 -> nz_routes d (on_begin_polygon w d).
Proof.
  intros [Hw Hne]. cbn. unfold non_zero_tesser.on_begin_polygon.
  pose proof (wrap_int_shift w (non_zero_tesser.m_winding_start d) Hw Hne) as Hk.
  destruct (_ || _); [| apply nz_routes_refl].
  split; [reflexivity |]. intros _. unfold nz_aside.
  cbn [non_zero_tesser.m_current_indices non_zero_tesser.m_winding_start
       non_zero_tesser.m_hoard].
  split; [congruence |].
  destruct (non_zero_tesser.m_hoard d !! _); [reflexivity |].
  now rewrite lookup_insert_ne.
Qed.

Lemma nz_routes_add v d h : nz_routes d (fst (add_vertex_to_polygon v (d, h))).
Proof.
  cbn. unfold non_zero_tesser.add_vertex_to_polygon.
  destruct (non_zero_tesser.m_current_indices d) as [k |] eqn:Ek;
    [| apply nz_routes_refl].
  destruct (non_zero_tesser.m_hoard d !! k) as [b |] eqn:Eb; [| apply nz_routes_refl].
  cbn [fst]. split; [reflexivity |]. unfold nz_aside.
  cbn [non_zero_tesser.m_current_indices non_zero_tesser.m_winding_start
       non_zero_tesser.m_hoard].
  intros Ha. rewrite Ek in Ha. split; [exact Ha |].
  rewrite lookup_insert_ne; [reflexivity | congruence].
Qed.

(** X21: where the two passes of a [builder] put their triangles. The
    [zero_tesser] adds to the entry of the hoard under
    [path.winding_start()] and to no other: every other entry of the
    hoard of the [builder] is as the [non_zero_tesser] left it, and the
    entry under [winding_start] exists. When GLU-tess begins, in the
    pass of the [non_zero_tesser], only polygons whose winding number is
    an [int] that [winding_callBack] accepts (that is, is not 0), the
    [non_zero_tesser] makes no entry under [winding_start]: the indices
    under [winding_start] are those of the [zero_tesser] alone. *)
Theorem builder_bucket_routing
    (gluTess : list glu_contour -> (Z -> bool) -> PointHoard.t -> list glu_event)
    (P : SubPath.t) :
  let ws := SubPath.winding_start P in
  let nz_hoard := non_zero_tesser.m_hoard (tesser.derived (nz_end gluTess P)) in
  let B := builder_new gluTess P [] in
  (forall k, k <> ws -> b_hoard B !! k = nz_hoard !! k)
  /\ is_Some (b_hoard B !! ws)
  /\ (begins_accepted (fun w => tesser.winding_callBack w (nz_start P))
                      (tess_events gluTess (nz_start P)) ->
      nz_hoard !! ws = None).
Proof.
  cbv zeta. rewrite builder_new_run. cbn [b_hoard].
  split; [| split].
  - intros k Hk. unfold z_end.
    destruct (run_events_R zero_routes (fun _ => True) zero_routes_refl zero_routes_trans
                zero_routes_begin zero_routes_add (tess_events gluTess (z_start gluTess P))
                (z_start gluTess P)) as (Ei & Ho & _).
    { apply Forall_forall. intros e _. now destruct e. }
    assert (Ed : tesser.derived (z_start gluTess P)
                 = zero_tesser.mk
                     (match non_zero_tesser.m_hoard (tesser.derived (nz_end gluTess P))
                              !! SubPath.winding_start P with
                      | Some _ => non_zero_tesser.m_hoard (tesser.derived (nz_end gluTess P))
                      | None => <[SubPath.winding_start P :=
                                    per_winding_data.new (SubPath.winding_start P)]>
                                  (non_zero_tesser.m_hoard
                                     (tesser.derived (nz_end gluTess P)))
                      end)
                     (SubPath.winding_start P)).
    { unfold z_start. rewrite add_path_boundary_derived.
      unfold tesser.add_bounding_box_path. now rewrite add_path_derived. }
    rewrite Ed in Ho, Ei. cbn [zero_tesser.m_hoard zero_tesser.m_indices] in Ho, Ei.
    rewrite (Ho k Hk).
    destruct (non_zero_tesser.m_hoard (tesser.derived (nz_end gluTess P))
                !! SubPath.winding_start P); [reflexivity |].
    now rewrite lookup_insert_ne.
  - unfold z_end.
    destruct (run_events_R zero_routes (fun _ => True) zero_routes_refl zero_routes_trans
                zero_routes_begin zero_routes_add (tess_events gluTess (z_start gluTess P))
                (z_start gluTess P)) as (_ & _ & Hs).
    { apply Forall_forall. intros e _. now destruct e. }
    assert (Ed : tesser.derived (z_start gluTess P)
                 = zero_tesser.mk
                     (match non_zero_tesser.m_hoard (tesser.derived (nz_end gluTess P))
                              !! SubPath.winding_start P with
                      | Some _ => non_zero_tesser.m_hoard (tesser.derived (nz_end gluTess P))
                      | None => <[SubPath.winding_start P :=
                                    per_winding_data.new (SubPath.winding_start P)]>
                                  (non_zero_tesser.m_hoard
                                     (tesser.derived (nz_end gluTess P)))
                      end)
                     (SubPath.winding_start P)).
    { unfold z_start. rewrite add_path_boundary_derived.
      unfold tesser.add_bounding_box_path. now rewrite add_path_derived. }
    rewrite Ed in Hs. cbn [zero_tesser.m_hoard zero_tesser.m_indices] in Hs.
    apply Hs.
    destruct (non_zero_tesser.m_hoard (tesser.derived (nz_end gluTess P))
                !! SubPath.winding_start P) eqn:E; [rewrite E; eauto |].
    rewrite lookup_insert_eq. eauto.
  - intros Hacc. unfold nz_end.
    destruct (run_events_R nz_routes (fun w => is_int w /\ w <> 0)
                nz_routes_refl nz_routes_trans nz_routes_begin nz_routes_add
                (tess_events gluTess (nz_start P)) (nz_start P)) as (Ews & Hr).
    { eapply Forall_impl; [exact Hacc |]. intros [w | v | data weight]; [| auto | auto].
      intros [Hw Ha]. split; [exact Hw |].
      unfold tesser.winding_callBack in Ha. cbn in Ha.
      unfold non_zero_tesser.fill_region in Ha.
      intros ->. discriminate Ha. }
    assert (Ed : tesser.derived (nz_start P)
                 = non_zero_tesser.mk (SubPath.winding_start P) ∅ 0 None).
    { unfold nz_start, tesser.add_bounding_box_path. now rewrite add_path_derived. }
    rewrite Ed in Hr, Ews. cbn [non_zero_tesser.m_winding_start non_zero_tesser.m_hoard] in *.
    destruct Hr as [_ Hr]; [unfold nz_aside; cbn; discriminate |].
    rewrite Hr. apply lookup_empty.
Qed.

Lemma builder_bucket_routing_witness :
  begins_accepted (fun w => tesser.winding_callBack w (nz_start square_sub_path))
                  (tess_events two_pass_triangle (nz_start square_sub_path))
  /\ non_zero_tesser.m_hoard (tesser.derived (nz_end two_pass_triangle square_sub_path))
       !! SubPath.winding_start square_sub_path = None.
Proof.
  assert (H1 : begins_accepted
                 (fun w => tesser.winding_callBack w (nz_start square_sub_path))
                 (tess_events two_pass_triangle (nz_start square_sub_path))).
  { unfold begins_accepted.
    assert (E : tess_events two_pass_triangle (nz_start square_sub_path)
                = [glu_begin 1; glu_vertex_data 0; glu_vertex_data 1; glu_vertex_data 2])
      by (vm_compute; reflexivity).
    rewrite E. constructor; [| repeat constructor].
    split; [unfold is_int, int_min, int_max; lia | vm_compute; reflexivity]. }
  split; [exact H1 |].
  exact (proj2 (proj2 (builder_bucket_routing two_pass_triangle square_sub_path)) H1).
Defined.
(** ** What is handed to GLU-tess *)

Section GluInput.
Context {D : Type} `{tesser_methods D}.

Lemma add_contour_loop (h : PointHoard.t) (C : PointHoard.Contour) :
  forall (c0 : Z) (vs0 : list glu_vertex),
  fold_left (fun (s : Z * list glu_vertex) (I : Z) =>
               let q := CoordinateConverter.apply (PointHoard.m_converter h)
                          (PointHoard.pt_of h I) (fst s) in
               (fst s + 1, snd s ++ [mk_glu_vertex (vx q) (vy q) I]))
            C (c0, vs0)
  = (c0 + Z.of_nat (length C),
     vs0 ++ imap (fun k I => glu_vertex_of h (c0 + Z.of_nat k) I) C).
Proof.
  induction C as [| I C IH]; intros c0 vs0; cbn [fold_left imap length].
  - now rewrite Z.add_0_r, app_nil_r.
  - rewrite IH. cbn [fst snd]. f_equal; [lia |].
    rewrite <- app_assoc. cbn [app]. f_equal. unfold glu_vertex_of at 2.
    rewrite Z.add_0_r. f_equal.
    apply imap_ext. intros k x _. cbn. f_equal. lia.
Qed.

Lemma add_contour_spec (C : PointHoard.Contour) (p : tesser.t D) :
  tesser.add_contour C p
  = tesser.mk (tesser.m_point_count p + Z.of_nat (length C))
      (tesser.m_tess p
       ++ [mk_glu_contour true
             (imap (fun k I => glu_vertex_of (tesser.m_points p)
                                 (tesser.m_point_count p + Z.of_nat k) I) C)])
      (tesser.m_points p) (tesser.m_temp_verts p) (tesser.m_temp_vert_count p)
      (tesser.m_triangulation_failed p) (tesser.derived p).
Proof.
  unfold tesser.add_contour.
  pose proof (add_contour_loop (tesser.m_points p) C (tesser.m_point_count p) []) as E.
  cbv zeta in E. rewrite E. reflexivity.
Qed.

Lemma glu_id_imap (h : PointHoard.t) (c0 : Z) (C : list Z) :
  map glu_id (imap (fun k I => glu_vertex_of h (c0 + Z.of_nat k) I) C) = C.
Proof.
  revert c0. induction C as [| I C IH]; intros c0; cbn [imap map]; [reflexivity |].
  f_equal. rewrite <- (IH (c0 + 1)) at 2. f_equal.
  apply imap_ext. intros k x _. cbn. f_equal. lia.
Qed.

Lemma add_path_spec (P : PointHoard.Path) : forall p : tesser.t D,
  exists cs,
    tesser.m_tess (tesser.add_path P p) = tesser.m_tess p ++ cs
    /\ glu_ids cs = P
    /\ Forall (fun c => affects_winding c = true) cs
    /\ concat (map glu_vertices cs)
       = imap (fun k I => glu_vertex_of (tesser.m_points p)
                            (tesser.m_point_count p + Z.of_nat k) I)
              (concat P)
    /\ tesser.m_point_count (tesser.add_path P p)
       = tesser.m_point_count p + Z.of_nat (length (concat P))
    /\ tesser.m_points (tesser.add_path P p) = tesser.m_points p.
Proof.
  unfold tesser.add_path.
  induction P as [| C P IH]; intros p; cbn [fold_left concat].
  - exists []. rewrite app_nil_r. cbn. rewrite Z.add_0_r. auto 10.
  - destruct (IH (tesser.add_contour C p)) as (cs & E1 & E2 & E3 & E4 & E5 & E6).
    assert (Q1 : tesser.m_tess (tesser.add_contour C p)
                 = tesser.m_tess p
                   ++ [mk_glu_contour true
                         (imap (fun k I => glu_vertex_of (tesser.m_points p)
                                  (tesser.m_point_count p + Z.of_nat k) I) C)])
      by (now rewrite add_contour_spec).
    assert (Q2 : tesser.m_points (tesser.add_contour C p) = tesser.m_points p)
      by (now rewrite add_contour_spec).
    assert (Q3 : tesser.m_point_count (tesser.add_contour C p)
                 = tesser.m_point_count p + Z.of_nat (length C))
      by (now rewrite add_contour_spec).
    rewrite Q1 in E1. rewrite Q2, Q3 in E4. rewrite Q3 in E5. rewrite Q2 in E6.
    eexists (_ :: cs). split; [rewrite E1, <- app_assoc; reflexivity |].
    split; [| split; [| split; [| split]]].
    + unfold glu_ids in *. cbn [map glu_vertices]. rewrite glu_id_imap, E2. reflexivity.
    + constructor; [reflexivity | exact E3].
    + cbn [map concat glu_vertices]. rewrite E4, imap_app. f_equal.
      apply imap_ext. intros k x _. cbn. f_equal. lia.
    + rewrite E5, length_app. lia.
    + exact E6.
Qed.

End GluInput.

Lemma add_path_boundary_spec {D : Type} (P : SubPath.t) (p : tesser.t D) :
  let slack := F64.mul (F64.of_Z (tesser.m_point_count p))
                 (CoordinateConverter.fudge_delta
                    (PointHoard.m_converter (tesser.m_points p))) in
  let far := F64.add slack (F64.of_Z CoordinateConverterConstants.box_dim) in
  exists box,
    tesser.m_tess (tesser.add_path_boundary P p) = tesser.m_tess p ++ [box]
    /\ affects_winding box = true
    /\ map (fun v => (glu_x v, glu_y v)) (glu_vertices box)
       = [(SFopp slack, SFopp slack); (SFopp slack, far); (far, far); (far, SFopp slack)]
    /\ tesser.m_point_count (tesser.add_path_boundary P p) = tesser.m_point_count p.
Proof.
  cbv zeta. unfold tesser.add_path_boundary. cbn [fold_left].
  repeat match goal with
         | |- context [PointHoard.fetch ?q ?h] =>
             let id := fresh "id" in let h' := fresh "h" in
             destruct (PointHoard.fetch q h) as [id h']; cbn [fst snd]
         end.
  eexists. split; [reflexivity |]. split; [reflexivity |]. split; reflexivity.
Qed.

(** X22: what a [builder] hands to GLU-tess. In the pass of the
    [non_zero_tesser] the polygon has one contour for each contour of
    the path of IDs that [generate_path] made of the sub-path, every
    contour affects the winding, and the client IDs of its vertices are
    the IDs of the contour, in their order; the vertex that is handed
    over as the [k]-th of the pass (counted from 0 through all the
    contours) has the coordinates that the converter gives to its point
    with the fudge count [k], and [m_point_count] ends as the number of
    vertices. In the pass of the [zero_tesser] the same contours are
    handed over, with the same client IDs and fudge counts, and after
    them one more contour of four vertices: the corners of the box
    pushed out by the slack, in the order min-min, min-max, max-max,
    max-min. *)
Theorem builder_glu_input
    (gluTess : list glu_contour -> (Z -> bool) -> PointHoard.t -> list glu_event)
    (P : SubPath.t) :
  let path := fst (builder_path P) in
  let h := snd (builder_path P) in
  let nz := nz_start P in
  let z := z_start gluTess P in
  let hz := tesser.m_points (nz_end gluTess P) in
  let n := Z.of_nat (length (concat path)) in
  let slack := F64.mul (F64.of_Z n)
                 (CoordinateConverter.fudge_delta (PointHoard.m_converter hz)) in
  let far := F64.add slack (F64.of_Z CoordinateConverterConstants.box_dim) in
  (glu_ids (tesser.m_tess nz) = path
   /\ Forall (fun c => affects_winding c = true) (tesser.m_tess nz)
   /\ concat (map glu_vertices (tesser.m_tess nz))
      = imap (fun k I => glu_vertex_of h (Z.of_nat k) I) (concat path)
   /\ tesser.m_point_count nz = n)
  /\ exists cs box,
       tesser.m_tess z = cs ++ [box]
       /\ glu_ids cs = path
       /\ Forall (fun c => affects_winding c = true) (cs ++ [box])
       /\ concat (map glu_vertices cs)
          = imap (fun k I => glu_vertex_of hz (Z.of_nat k) I) (concat path)
       /\ map (fun v => (glu_x v, glu_y v)) (glu_vertices box)
          = [(SFopp slack, SFopp slack); (SFopp slack, far); (far, far);
             (far, SFopp slack)].
Proof.
  cbv zeta. split.
  - unfold nz_start, tesser.add_bounding_box_path.
    destruct (add_path_spec (fst (builder_path P))
                (tesser.new (snd (builder_path P))
                   (non_zero_tesser.mk (SubPath.winding_start P) ∅ 0 None)))
      as (cs & E1 & E2 & E3 & E4 & E5 & _).
    cbn [tesser.new tesser.m_tess tesser.m_points tesser.m_point_count app] in *.
    rewrite E1, E5. split; [exact E2 |]. split; [exact E3 |]. split; [| lia].
    rewrite E4. apply imap_ext. intros k x _. reflexivity.
  - unfold z_start, tesser.add_bounding_box_path.
    match goal with |- context [tesser.add_path_boundary P ?q] => set (p1 := q) end.
    destruct (add_path_boundary_spec P p1) as (box & B1 & B2 & B3 & _). cbv zeta in B3.
    match type of p1 with tesser.t _ =>
      match eval unfold p1 in p1 with tesser.add_path _ ?q0 =>
        destruct (add_path_spec (fst (builder_path P)) q0)
          as (cs & E1 & E2 & E3 & E4 & E5 & E6)
      end end.
    fold p1 in E1, E5, E6.
    cbn [tesser.new tesser.m_tess tesser.m_points tesser.m_point_count app] in *.
    exists cs, box. rewrite B1, E1.
    split; [reflexivity |]. split; [exact E2 |].
    split; [apply Forall_app; split; [exact E3 | constructor; [exact B2 | constructor]] |].
    split.
    + rewrite E4. apply imap_ext. intros k x _. reflexivity.
    + rewrite B3, E5, E6. reflexivity.
Qed.

(** ** The chunks stored by a filler *)

Lemma chunk_from_winding_number_range w :
  w = 0 \/ chunk_domain w -> 3 <= chunk_from_winding_number w.
Proof.
  intros [-> | Hw]; [vm_compute; discriminate |].
  rewrite chunk_from_winding_number_formula by exact Hw.
  unfold chunk_formula. destruct Hw as [Hw _]. destruct (w <? 0); lia.
Qed.

Lemma chunk_from_winding_number_between s w l :
  s = 0 \/ chunk_domain s -> chunk_domain w -> l = 0 \/ chunk_domain l ->
  s <= w <= l ->
  chunk_from_winding_number w
  <= t_max (chunk_from_winding_number l) (chunk_from_winding_number s).
Proof.
  intros Hs Hw Hl Hb.
  assert (Hm : chunk_from_winding_number w <= chunk_from_winding_number l
               \/ chunk_from_winding_number w <= chunk_from_winding_number s).
  { rewrite (chunk_from_winding_number_formula w) by exact Hw.
    unfold chunk_formula. destruct Hw as [Hw0 Hwr].
    destruct (Z.ltb_spec w 0) as [Hneg | Hpos].
    - right. destruct Hs as [-> | Hs]; [lia |].
      rewrite chunk_from_winding_number_formula by exact Hs.
      unfold chunk_formula. destruct Hs as [_ Hsr].
      destruct (Z.ltb_spec s 0); lia.
    - left. destruct Hl as [-> | Hl]; [lia |].
      rewrite chunk_from_winding_number_formula by exact Hl.
      unfold chunk_formula. destruct Hl as [_ Hlr].
      destruct (Z.ltb_spec l 0); lia. }
  unfold t_max. destruct (Z.ltb_spec (chunk_from_winding_number l)
                                     (chunk_from_winding_number s)); lia.
Qed.

Lemma last_default {A : Type} (x : A) es : forall d d',
  List.last (x :: es) d = List.last (x :: es) d'.
Proof.
  revert x. induction es as [| y es IH]; intros x d d'; [reflexivity |].
  change (List.last (y :: es) d = List.last (y :: es) d'). apply IH.
Qed.

Lemma last_cons_default {A : Type} (x : A) es e :
  List.last (x :: es) e = List.last es x.
Proof.
  destruct es as [| y es]; [reflexivity |].
  change (List.last (y :: es) e = List.last (y :: es) x). apply last_default.
Qed.

Lemma last_elem {A : Type} (es : list A) : forall e, List.last es e ∈ e :: es.
Proof.
  induction es as [| x es IH]; intros e; [now left |].
  rewrite last_cons_default. right. apply IH.
Qed.

Lemma sorted_first_last {V : Type} (es : list (Z * V)) : forall e,
  StronglySorted Z.lt (map fst (e :: es)) ->
  forall iter, iter ∈ e :: es -> fst e <= fst iter <= fst (List.last es e).
Proof.
  induction es as [| x es IH]; intros e Hsort iter Hi.
  - apply list_elem_of_singleton in Hi as ->. cbn. lia.
  - cbn [map] in Hsort. apply StronglySorted_inv in Hsort as [Hsort Hall].
    apply Forall_cons in Hall as [Hex _].
    rewrite last_cons_default.
    pose proof (IH x Hsort x ltac:(now left)) as Hx.
    apply elem_of_cons in Hi as [-> | Hi]; [lia |].
    pose proof (IH x Hsort iter Hi). lia.
Qed.

Lemma store_chunks_Forall (P : Z * c_array -> Prop) (es : list (Z * c_array)) :
  forall s : Z * list (Z * c_array),
  Forall P (snd s) ->
  (forall iter cur, iter ∈ es -> fst iter <> 0 ->
     P (chunk_from_winding_number (fst iter), mk_c_array cur (ca_size (snd iter)))) ->
  Forall P (snd (fold_left
                   (fun s (iter : Z * c_array) =>
                      if negb (fst iter =? 0)
                      then AttributeDataFiller.store_chunk
                             (chunk_from_winding_number (fst iter)) (snd iter) s
                      else s)
                   es s)).
Proof.
  induction es as [| e es IH]; intros s Hs Hes; [exact Hs |].
  cbn [fold_left]. apply IH.
  - destruct (Z.eqb_spec (fst e) 0) as [E | E]; cbn [negb]; [exact Hs |].
    unfold AttributeDataFiller.store_chunk. cbn [snd].
    apply Forall_app. split; [exact Hs |]. constructor; [| constructor].
    apply Hes; [now left | exact E].
  - intros iter cur Hin. apply Hes. now right.
Qed.

(** Every store of [fill_data] is within the [number_index_chunks]
    elements that [compute_sizes] asks for, when the chunk numbers of the
    winding numbers of the filler fit an [unsigned int]. *)
Lemma fill_data_stores_in_bounds (f : AttributeDataFiller.t) :
  (forall w c, AttributeDataFiller.m_per_fill f !! w = Some c ->
               w = 0 \/ chunk_domain w) ->
  Forall (fun st => 0 <= fst st
                    < AttributeDataFiller.number_index_chunks
                        (AttributeDataFiller.compute_sizes f))
         (AttributeDataFiller.fill_data_index_chunks f).
Proof.
  intros Hdom.
  unfold AttributeDataFiller.compute_sizes, AttributeDataFiller.fill_data_index_chunks.
  pose proof (entries_sorted (AttributeDataFiller.m_per_fill f)) as Hsort.
  assert (Hin : forall iter, iter ∈ entries (AttributeDataFiller.m_per_fill f) ->
                  fst iter = 0 \/ chunk_domain (fst iter)).
  { intros [w c] Hi. apply elem_of_entries in Hi. exact (Hdom w c Hi). }
  destruct (entries (AttributeDataFiller.m_per_fill f)) as [| e es] eqn:E; [constructor |].
  cbn [AttributeDataFiller.number_index_chunks].
  set (s := fst e). set (l := fst (List.last es e)).
  assert (Hl_in : List.last es e ∈ e :: es) by apply last_elem.
  assert (Hs : s = 0 \/ chunk_domain s) by (apply Hin; now left).
  assert (Hl : l = 0 \/ chunk_domain l) by (apply Hin, Hl_in).
  assert (Hbetween : forall iter, iter ∈ e :: es -> s <= fst iter <= l)
    by exact (sorted_first_last es e Hsort).
  pose proof (chunk_from_winding_number_range s Hs) as Rs.
  pose proof (chunk_from_winding_number_range l Hl) as Rl.
  assert (Hmax : 3 <= t_max (chunk_from_winding_number l) (chunk_from_winding_number s)).
  { unfold t_max. destruct (_ <? _); lia. }
  apply store_chunks_Forall.
  - unfold AttributeDataFiller.store_chunk. cbn [fst snd app].
    unfold PainterEnums.odd_even_fill_rule, PainterEnums.nonzero_fill_rule,
      PainterEnums.complement_odd_even_fill_rule,
      PainterEnums.complement_nonzero_fill_rule.
    repeat constructor; cbn [fst]; lia.
  - intros iter cur Hi Hne. cbn [fst].
    assert (Hw : chunk_domain (fst iter)).
    { destruct (Hin iter Hi) as [E0 | Hw]; [contradiction | exact Hw]. }
    pose proof (chunk_from_winding_number_range (fst iter) (or_intror Hw)).
    pose proof (chunk_from_winding_number_between s (fst iter) l Hs Hw Hl
                  (Hbetween iter Hi)).
    lia.
Qed.

(** ** Emission of an accepted triangle, by either tessellator *)

Section Emission.
Context {D : Type} `{tesser_methods D}.
Variable hoard_of : D -> gmap Z per_winding_data.t.
Variable cur : D -> option Z.
Hypothesis add_spec : forall v d h,
  match cur d with
  | Some k =>
      exists b d', hoard_of d !! k = Some b
        /\ add_vertex_to_polygon v (d, h)
           = (d', PointHoard.add_to_winding_set v (per_winding_data.winding_number b) h)
        /\ hoard_of d' = <[k := per_winding_data.add_index v b]> (hoard_of d)
        /\ cur d' = Some k
  | None => add_vertex_to_polygon v (d, h) = (d, h)
  end.

(** The three vertex callbacks, once [begin_callBack] has made the index
    list of [W] the current one. *)
Lemma emitted_after_begin (p : tesser.t D) (w a b c W : Z) bk :
  let d1 := on_begin_polygon w (tesser.derived p) in
  cur d1 = Some W ->
  hoard_of d1 !! W = Some bk ->
  per_winding_data.m_indices bk = indices_of (hoard_of (tesser.derived p)) W ->
  per_winding_data.m_count bk = count_of (hoard_of (tesser.derived p)) W ->
  per_winding_data.m_winding_number bk = W ->
  (forall k, k <> W -> hoard_of d1 !! k = hoard_of (tesser.derived p) !! k) ->
  accepted_triangle p a b c ->
  emitted_as_six hoard_of p w a b c W.
Proof.
  intros d1 Hcur Ebk Ei Ecnt Ewn Eother (Hh & Ha & Hb & Hc & Hacc).
  unfold emitted_as_six.
  set (pa := PointHoard.pt_of (tesser.m_points p) a).
  set (pb := PointHoard.pt_of (tesser.m_points p) b).
  set (pc := PointHoard.pt_of (tesser.m_points p) c).
  cbv zeta.
  destruct (PointHoard.fetch _ (tesser.m_points p)) as [m_ab h1] eqn:F1.
  destruct (PointHoard.fetch _ h1) as [m_ac h2] eqn:F2.
  destruct (PointHoard.fetch _ h2) as [m_bc h3] eqn:F3.
  destruct (PointHoard.fetch _ h3) as [g h4] eqn:F4.
  set (p' := fold_left tesser.run_event _ p).
  (* the IDs are positions in the vector of points after the four fetches *)
  pose proof (fetch_ok (vec2_scale F32.half (vec2_add pa pb)) _ Hh) as (Hh1 & V1 & M1).
  rewrite F1 in Hh1, V1, M1. cbn [fst snd] in Hh1, V1, M1.
  pose proof (fetch_ok (vec2_scale F32.half (vec2_add pa pc)) _ Hh1) as (Hh2 & V2 & M2).
  rewrite F2 in Hh2, V2, M2. cbn [fst snd] in Hh2, V2, M2.
  pose proof (fetch_ok (vec2_scale F32.half (vec2_add pb pc)) _ Hh2) as (Hh3 & V3 & M3).
  rewrite F3 in Hh3, V3, M3. cbn [fst snd] in Hh3, V3, M3.
  pose proof (fetch_ok (vec2_div (vec2_add (vec2_add pa pb) pc) F32.three) _ Hh3)
    as (Hh4 & V4 & M4).
  rewrite F4 in Hh4, V4, M4. cbn [fst snd] in Hh4, V4, M4.
  (* the callbacks *)
  assert (Hnull : a <> FASTUIDRAW_GLU_NULL_CLIENT_ID
                  /\ b <> FASTUIDRAW_GLU_NULL_CLIENT_ID
                  /\ c <> FASTUIDRAW_GLU_NULL_CLIENT_ID).
  { unfold accepted_by_area, ids_and_positions_distinct, temp_triangle in Hacc.
    cbn in Hacc. tauto. }
  destruct Hnull as (Na & Nb & Nc).
  set (p1 := tesser.begin_callBack w p).
  assert (Hp' : p' = tesser.subdivide (with_temp_verts p1 (a, b, c))).
  { subst p'. cbn [fold_left tesser.run_event]. fold p1.
    rewrite three_vertices by (auto; reflexivity).
    assert (E : tesser.triangle_accepted (with_temp_verts p1 (a, b, c)) = true).
    { change (tesser.triangle_accepted (with_temp_verts p (a, b, c)) = true).
      now apply triangle_accepted_iff. }
    now rewrite E. }
  rewrite (subdivide_emits (with_temp_verts p1 (a, b, c)) a b c m_ab m_ac m_bc g
             h1 h2 h3 h4 eq_refl F1 F2 F3 F4) in Hp'.
  change (tesser.derived (with_temp_verts p1 (a, b, c))) with d1 in Hp'.
  destruct (adds_some hoard_of cur add_spec
              [a; m_ab; g;  a; g; m_ac;  g; b; m_bc;
               m_ab; b; g;  m_ac; g; c;  g; m_bc; c] d1 h4 W Hcur)
    as (b0 & d' & Hb0 & Eadds & Hh' & _).
  rewrite Ebk in Hb0. inversion Hb0; subst b0. clear Hb0.
  rewrite Eadds in Hp'. cbn [fst snd] in Hp'. rewrite Hp'.
  cbn [tesser.derived tesser.m_points tesser.m_triangulation_failed].
  rewrite Hh'. split.
  { eexists. rewrite lookup_insert_eq. split; [reflexivity |].
    cbn [per_winding_data.m_indices per_winding_data.count per_winding_data.m_count
         per_winding_data.winding_number per_winding_data.m_winding_number length].
    rewrite Ei, Ecnt, Ewn. repeat split; lia. }
  split.
  { intros k Hk. rewrite lookup_insert_ne by congruence. now apply Eother. }
  unfold per_winding_data.winding_number. rewrite Ewn.
  split.
  { intros v Hv.
    assert (Hv' : v = a \/ v = b \/ v = c \/ v = m_ab \/ v = m_ac \/ v = m_bc \/ v = g).
    { rewrite !elem_of_cons, elem_of_nil in Hv. tauto. }
    apply add_windings_elem.
    - rewrite !elem_of_cons.
      destruct Hv' as [-> | [-> | [-> | [-> | [-> | [-> | ->]]]]]]; tauto.
    - destruct Hv' as [-> | [-> | [-> | [-> | [-> | [-> | ->]]]]]]; auto. }
  split; [apply add_windings_pts | reflexivity].
Qed.

End Emission.

(** The non-zero pass: the index list is that of the winding number of
    the polygon biased by the winding start of the sub-path. *)
Lemma nz_emitted_as_six (p : tesser.t non_zero_tesser.state) (w a b c : Z) :
  nz_ok (tesser.derived p) -> accepted_triangle p a b c ->
  emitted_as_six non_zero_tesser.m_hoard p w a b c
    (wrap_int (w + non_zero_tesser.m_winding_start (tesser.derived p))).
Proof.
  intros Hnz Hacc.
  destruct (on_begin_polygon_spec w (tesser.derived p) Hnz)
    as (_ & _ & Eci & (bk & Ebk & Ei & Ecnt & Ewn) & Eother).
  apply (@emitted_after_begin non_zero_tesser.state non_zero_tesser.methods
           non_zero_tesser.m_hoard nz_cur nz_add_spec p w a b c _ bk);
    try assumption.
  change (@on_begin_polygon non_zero_tesser.state non_zero_tesser.methods)
    with non_zero_tesser.on_begin_polygon.
  unfold nz_cur. now rewrite Eci, Ebk.
Qed.

(** The zero pass: the index list is that of the winding start of the
    sub-path, whatever the winding number of the polygon. *)
Lemma z_emitted_as_six (q : tesser.t zero_tesser.state) (w a b c : Z) :
  z_ok (tesser.derived q) -> accepted_triangle q a b c ->
  emitted_as_six zero_tesser.m_hoard q w a b c (zero_tesser.m_indices (tesser.derived q)).
Proof.
  intros [Hb [bk Ebk]] Hacc.
  apply (@emitted_after_begin zero_tesser.state zero_tesser.methods
           zero_tesser.m_hoard z_cur z_add_spec q w a b c _ bk);
    try assumption;
    change (@on_begin_polygon zero_tesser.state zero_tesser.methods w (tesser.derived q))
      with (tesser.derived q).
  - unfold z_cur. now rewrite Ebk.
  - unfold indices_of. now rewrite Ebk.
  - unfold count_of. now rewrite Ebk.
  - exact (Hb _ _ Ebk).
  - reflexivity.
Qed.

(** C5, as amended: in the non-zero pass and in the zero pass alike, when
    GLU-tess begins a polygon and reports an accepted triangle
    [(a, b, c)], the midpoints [m_ab], [m_ac], [m_bc] and the centroid [g]
    are fetched from the [PointHoard], in this order, and the six
    triangles [(a, m_ab, g)], [(a, g, m_ac)], [(g, b, m_bc)],
    [(m_ab, b, g)], [(m_ac, g, c)], [(g, m_bc, c)], that is 18 indices,
    are appended to one index list, no other index list changing; the
    winding number of that index list is in the winding set of each of
    the seven vertices. In the non-zero pass it is the winding number [w]
    of the polygon biased by the winding start of the sub-path, in the
    zero pass the winding start of the sub-path. *)
Theorem accepted_triangle_emission
    (p : tesser.t non_zero_tesser.state) (w a b c : Z)
    (q : tesser.t zero_tesser.state) (wz az bz cz : Z)
    (Hnz : nz_ok (tesser.derived p)) (Hp : accepted_triangle p a b c)
    (Hz : z_ok (tesser.derived q)) (Hq : accepted_triangle q az bz cz) :
  emitted_as_six non_zero_tesser.m_hoard p w a b c
    (wrap_int (w + non_zero_tesser.m_winding_start (tesser.derived p)))
  /\ emitted_as_six zero_tesser.m_hoard q wz az bz cz
       (zero_tesser.m_indices (tesser.derived q)).
Proof.
  split; [now apply nz_emitted_as_six | now apply z_emitted_as_six].
Qed.

Lemma zero_triangle_tesser_ok : z_ok (tesser.derived zero_triangle_tesser).
Proof.
  unfold z_ok, zero_triangle_tesser, tesser.new.
  cbn [tesser.derived zero_tesser.m_hoard zero_tesser.m_indices].
  split; [| eexists; apply lookup_singleton_eq].
  intros k bk Hk. apply lookup_singleton_Some in Hk as [<- <-]. reflexivity.
Qed.

Lemma unit_triangle_accepted {D : Type} (d : D) :
  accepted_triangle (tesser.new (unit_hoard [pt_xy 0 0; pt_xy 1 0; pt_xy 0 1]) d) 0 1 2.
Proof.
  split; [intros ipt id Hk; destruct (lookup_empty_Some _ _ Hk) |].
  do 3 (split; [unfold valid_id; cbn; lia |]).
  apply triangle_accepted_iff. reflexivity.
Qed.

Lemma accepted_triangle_emission_witness :
  (exists bk,
     non_zero_tesser.m_hoard
       (tesser.derived
          (fold_left tesser.run_event
             [glu_begin 1; glu_vertex_data 0; glu_vertex_data 1; glu_vertex_data 2]
             triangle_tesser)) !! 1 = Some bk
     /\ per_winding_data.m_indices bk
        = [0; 3; 6;  0; 6; 4;  6; 1; 5;  3; 1; 6;  4; 6; 2;  6; 5; 2])
  /\ (exists bk,
        zero_tesser.m_hoard
          (tesser.derived
             (fold_left tesser.run_event
                [glu_begin (-1); glu_vertex_data 0; glu_vertex_data 1; glu_vertex_data 2]
                zero_triangle_tesser)) !! 0 = Some bk
        /\ per_winding_data.m_indices bk
           = [0; 3; 6;  0; 6; 4;  6; 1; 5;  3; 1; 6;  4; 6; 2;  6; 5; 2]).
Proof.
  assert (Hnz : nz_ok (tesser.derived triangle_tesser)).
  { split; [intros k bk Hk; destruct (lookup_empty_Some _ _ Hk) | discriminate]. }
  pose proof zero_triangle_tesser_ok as Hz.
  pose proof (unit_triangle_accepted (non_zero_tesser.mk 0 ∅ 0 None)) as Hp.
  pose proof (unit_triangle_accepted (zero_tesser.mk {[0 := per_winding_data.new 0]} 0))
    as Hq.
  pose proof (accepted_triangle_emission triangle_tesser 1 0 1 2
                zero_triangle_tesser (-1) 0 1 2 Hnz Hp Hz Hq) as [Tn Tz].
  vm_compute in Tn. vm_compute in Tz.
  destruct Tn as ((bn & Hln & Hin & _) & _). destruct Tz as ((bz & Hlz & Hiz & _) & _).
  split; [exists bn | exists bz]; split; assumption.
Defined.

(** C5, as stated, fails for the winding number: in the zero pass GLU-tess
    begins every polygon with the winding number -1, and the winding
    number inserted is that of the index list [m_indices], the winding
    start of the sub-path, here 0; in the non-zero pass of a sub-path
    whose winding start is 1, a polygon begun with the winding number 1
    has 2 inserted. In both cases the winding sets of the seven vertices
    hold nothing else. *)
Lemma polygon_winding_not_inserted :
  (z_ok (tesser.derived zero_triangle_tesser)
   /\ accepted_triangle zero_triangle_tesser 0 1 2
   /\ winding_sets
        (fold_left tesser.run_event
           [glu_begin (-1); glu_vertex_data 0; glu_vertex_data 1; glu_vertex_data 2]
           zero_triangle_tesser)
        [0; 1; 2; 3; 4; 5; 6]
      = [[0]; [0]; [0]; [0]; [0]; [0]; [0]])
  /\ (nz_ok (tesser.derived biased_triangle_tesser)
      /\ accepted_triangle biased_triangle_tesser 0 1 2
      /\ winding_sets
           (fold_left tesser.run_event
              [glu_begin 1; glu_vertex_data 0; glu_vertex_data 1; glu_vertex_data 2]
              biased_triangle_tesser)
           [0; 1; 2; 3; 4; 5; 6]
         = [[2]; [2]; [2]; [2]; [2]; [2]; [2]]).
Proof.
  split; split.
  - exact zero_triangle_tesser_ok.
  - split; [apply unit_triangle_accepted | vm_compute; reflexivity].
  - split; [intros k bk Hk; destruct (lookup_empty_Some _ _ Hk) | discriminate].
  - split; [apply unit_triangle_accepted | vm_compute; reflexivity].
Qed.
